(* ===== verification/_CoqProject ===== *)
-Q . S2P
Prelude.v
CLib.v
Getopt.v
PageFlags.v
PageHash.v
PageWalk.v
PageList.v
PageMain.v
PageRun.v
Splitstr.v
Zoo.v
PanUnit.v
PanColl.v
PanSched.v
PanProps.v
PanRun.v
PanMain.v
Cper.v
Erst.v
Victim.v
ShmTest.v
Hwp.v
Hugepage.v
Tinj.v
Sniper.v
PagePoison.v
Thp.v
Injectors.v
KTree.v
Options.v
