(* ===== verification/Prelude.v ===== *)
(** * mce-test in Rocq

    mce-test is a collection of programs that test how Linux handles machine
    checks, poisoned memory among them, and of the tools that drive the tests.
    This library models its C programs, with the theorems that make each of
    them correct.

    ** The program and how its parts interact

    The drivers (shell scripts) run the test programs under [ltp-pan], which
    keeps the running tests in a "zoo" file.  A test program asks the kernel to
    poison memory (by [madvise], by an injector in debugfs, or by [mce-inject])
    and checks what becomes of the process that touches it.  [page-types] lists
    and counts the flags of the pages in memory and can poison and heal the
    pages it selects; [victim] finds the physical address of a page and waits
    for an injection; [erst-inject] writes, reads and clears records of the
    error record serialization table.  The programs share no memory: they
    interact through the kernel and the file system, which are parameters of
    the model.

    ** How a program is modelled

    A C function is a function of type [prog S A] (Prelude): from the state
    [S] to an outcome and a state.  The outcome is a value, the code given to
    [exit], undefined behaviour (an uninitialised variable read, a store past
    an array, a signal handler that jumps to a frame that is gone), or the end
    of the model's fuel.  Integers are [Z], wrapped to their width where the
    code can exceed it ([u64], [i32], [uwrap]); strings are lists of characters
    without the NUL (CLib), and the conversions of [printf], [strtoll],
    [strtok], [sscanf] and [fgets] the sources use are definitions of CLib.
    What the kernel or another program answers is a class ([kernel], [system],
    [erst_dev], [victim_env], [zoo_io], [pan_os], [hwp_os], [file_system]); its
    documented behaviour, where a theorem needs it, is a class of laws
    ([snapshot], [erst_laws], [pan_laws], [memory_laws], [huge_laws],
    [shared_laws], [thp_laws]) with an instance that satisfies it.

    ** The files

    - CLib: the part of the C library the sources rely on; Getopt: [getopt] and
      [getopt_long].
    - src/tools/page-types/page-types.c:
      PageFlags holds the flag words ([page_flag_name], [page_flag_longname],
      [kpageflags_flags], [expand_overloaded_flags], [parse_bits_mask]);
      PageHash the hash table ([hash_slot] and the counting in [add_page]);
      PageWalk the reads of the page files and [add_page], [walk_pfn],
      [walk_vma], [walk_task]; PageList the ranges of [show_page_range];
      PageMain [parse_addr_range], [parse_pid], the walk of a file,
      [find_mountpoint] of debugfs and [main]; PageRun theorems on whole runs.
    - src/tools/ltp-pan: Splitstr is splitstr.c; Zoo is zoolib.c; PanUnit the
      unit tests of the two; PanColl is [get_collection], [subst_pcnt_f] and the
      parsing of -t of ltp-pan.c; PanSched the scheduler ([run_child],
      [check_pids], [propagate_signal], [wait_handler], the loop of [main] and
      its end); PanProps its invariant; PanRun whole runs, by weakest
      preconditions; PanMain [main] from the options to the run.
    - src/cases/function/erst-inject: Cper is cper.h and uuid.h; Erst is
      erst-inject.c.
    - src/tools/victim/victim.c: Victim.
    - src/cases/function/hwpoison: Hwp holds what these programs share, a
      process whose loads and stores may be answered by SIGBUS; Hugepage is
      hugepage.h and thugetlb.c; Tinj is tinjpage.c; Sniper the two cases of
      tinjpage --sniper, which poison from a second thread; Thp is ttranshuge.c;
      Injectors has a Module for each of tsoftinj.c, tsimpleinj.c and tprctl.c,
      and [Single] for tsoft.c, thugetlb_overcommit.c, tkillpoison.c and
      src/cases/function/pfa/busy.c.
    - src/cases/stress/hwpoison/tools/page-poisoning: PagePoison is the
      program; ShmTest is the one case of it in which processes wait for each
      other, as a step relation.
    - src/cases/stress/hwpoison/tools/fs-metadata: KTree is k-tree-gen.c and
      k-tree-trav.c.
    - Options: the tables of options and the usage messages of the seven programs
      that call [getopt].

    ** What the theorems show

    - page-types: without listing, the summary is the exact histogram of the
      pages selected ([main_summary]), which rests on the hash table being a
      counter until it is full ([count_pages_histogram]) and on the reads; -p
      visits each page of the range once and in order ([walk_task_visits]); the
      listing in ranges is a maximal run-length encoding
      ([show_page_range_rle]); the arguments mean what the usage message says
      ([parse_bits_mask_spec], [parse_addr_range_spec]); the names printed for a
      word are parsed back to it ([longname_parse_roundtrip]), and the names of
      the mappings too ([read_maps_roundtrip]).
    - ltp-pan: between any two turns of the loop the slots hold exactly the
      living children ([scheduler_safe]), all are reaped when it ends
      ([scheduler_drains]); on a calm machine a run in order ends, with every command
      started once and logged, and the number of failures as its status
      ([pan_runs_all], [ltp_pan_runs_file]); signals reach every running test
      ([propagate_signal_spec]) and escalate ([ratchet_escalates]); a marked
      test is found in the zoo until it is cleared ([zoo_lifecycle]); the
      commands of a file are read back ([get_collection_file]); the arguments of
      a command are the fields of its line ([splitstr_fields]), and the unit
      tests pass ([splitstr_unit_passes], [zoo_unit_passes]).
    - The tests of poisoned memory: what each program must have seen from the
      kernel when it reports success, and what makes it report failure
      ([testmem_verdict], [tinjpage_success], [run_test_verdict],
      [ttranshuge_verdict], [tsoftinj_verdict], [thugetlb_inject]).
    - Processes that run at once: the children of the shared memory test are
      modelled by their statements, each a step of a relation, and in every
      interleaving the lock excludes, the barrier holds and the run ends, with
      the children finished, or waiting for ever for one that exited early
      ([shm_test_safe], [shm_test_terminates]); the barrier is set to their number
      ([setup_ipc_barrier]); so are the parent and the child
      of thugetlb -F, whose order [usleep] does not ensure ([fork_order]), and
      the threads of tinjpage --sniper, which may miss each other
      ([sniper_race], [sniper_untested]).
    - erst-inject and victim: layouts, round trips of structures and records,
      addresses, errors and the ends of the waiting loops ([cper_packed],
      [erst_lifecycle], [erst_errors], [inject_record_layout], [trigger_wait],
      [pfa_helper_prints]).
    - The command lines: every option is understood in each of its spellings, in
      any order and among other words ([getopt_command], for a table that is
      [table_ok]); what the usage messages say is compared with the tables of
      options ([usage_differences]); a second --sniper is written past the end of
      an array ([handle_opts_sniper]).
      The theorems on whole programs start from the words of [argv]
      ([main_summary], [ltp_pan_runs_file], [thugetlb_inject],
      [ttranshuge_verdict], [address_option]).
    - k-tree-gen builds exactly the tree asked for, and k-tree-trav leaves one
      of the same shape ([k_tree_gen_builds], [k_tree_trav_preserves]).

    Where modelling showed the code to do otherwise than it means to, the
    theorem states what the code does, in the cases it is right and in those it
    is not.

    ** Fuel and bounds

    A loop over data is a structural recursion.  A loop that ends when the
    kernel says so takes fuel, and the theorems say how much is enough: for
    page-types one unit more than there are pages in the file
    ([main_summary]); for [read_maps] one more than there are lines; for the
    loop of erst-inject -p two more than there are records
    ([erst_lifecycle]).  [fmt_base] takes as many digits as there are bits
    ([fmt_base_fuel]); the scans of a string take its length.  The loops that
    need not end have theorems for every fuel ([pfa_helper_prints],
    [busy_never_returns]); the theorems on the safety of the scheduler hold for
    every number of turns; a run in order of [n] commands needs fewer than [n]
    and the number of slots and one ([pan_runs_all]).  The step relations have
    no fuel: termination is proved by a measure.

    ** What is not modelled

    Messages on standard error (but for [perror] counts in page-types and the
    usage messages that go there) and the debug output of ltp-pan (-d).
    [getopt] is modelled for the tables of these programs, without
    POSIXLY_CORRECT.  Of the threads of tinjpage --sniper a step is one
    statement, and what the snipers do after the last step of a case, or in cases
    without a sniper of their own, is not followed: where those of earlier cases
    are is a parameter of each run; accesses to [sstate] are taken in order.  The
    operations on the semaphores of page-poisoning do not fail.  In page-poisoning the
    children run one after another, which the answers of the kernel may make look
    like any order of what they read; their waiting for one another is left to
    ShmTest.  magic.h, findfs.h and the shell scripts are not modelled:
    constants, prototypes, and programs in another language. *)
From stdpp Require Export base tactics list numbers option strings gmap.
From Stdlib Require Export ZArith Lia Ascii.
#[global] Open Scope Z_scope.

(** ** Outcomes and programs *)

(** What a C computation ends with: a value, a call of [exit] with its code,
    undefined behaviour (a read of an uninitialised variable, a null pointer
    dereference, a write outside an array), or the fuel of the model used up. *)
Inductive res (A : Type) : Type :=
| Ok (a : A)
| Exit (code : Z)
| Undef
| NoFuel.
Arguments Ok {A} a.
Arguments Exit {A} code.
Arguments Undef {A}.
Arguments NoFuel {A}.

(** A program over the state [S]: it keeps the state it reached when it
    exits, since what was printed or written before the exit stays. *)
Definition prog (S A : Type) : Type := S → res A * S.

#[export] Instance res_ret : MRet res := @Ok.
#[export] Instance res_bind : MBind res := λ A B f r,
  match r with
  | Ok a => f a
  | Exit c => Exit c
  | Undef => Undef
  | NoFuel => NoFuel
  end.

#[export] Instance prog_ret {S} : MRet (prog S) := λ A a s, (Ok a, s).
#[export] Instance prog_bind {S} : MBind (prog S) := λ A B f m s,
  match m s with
  | (Ok a, s') => f a s'
  | (Exit c, s') => (Exit c, s')
  | (Undef, s') => (Undef, s')
  | (NoFuel, s') => (NoFuel, s')
  end.

Definition p_get {S} : prog S S := λ s, (Ok s, s).
Definition p_modify {S} (f : S → S) : prog S unit := λ s, (Ok (), f s).
Definition p_exit {S A} (c : Z) : prog S A := λ s, (Exit c, s).
Definition p_undef {S A} : prog S A := λ s, (Undef, s).
Definition p_nofuel {S A} : prog S A := λ s, (NoFuel, s).
(** A pure computation that may exit, run inside a program. *)
Definition p_lift {S A} (r : res A) : prog S A := λ s, (r, s).

(** A pointer that is not null, as a condition. *)
Definition is_Some_b {A} (o : option A) : bool := match o with Some _ => true | None => false end.

(** [for] over the elements of a list. *)
Fixpoint p_for {S A} (l : list A) (f : A → prog S unit) : prog S unit :=
  match l with
  | [] => mret ()
  | a :: l' => f a;; p_for l' f
  end.

(** The same with a value carried from one element to the next. *)
Fixpoint p_fold {S A B} (l : list A) (f : B → A → prog S B) (b : B) : prog S B :=
  match l with
  | [] => mret b
  | a :: l' => b' ← f b a; p_fold l' f b'
  end.

(** [if (c) p;] *)
Definition p_when {S} (c : bool) (p : prog S unit) : prog S unit :=
  if c then p else mret ().

(** Two programs are equivalent when they agree from every state. *)
Definition prog_eq {S A} : relation (prog S A) := λ p q, ∀ s, p s = q s.
Infix "≡p" := prog_eq (at level 70).

#[export] Instance prog_eq_equiv {S A} : Equivalence (@prog_eq S A).
Proof.
  split; [by intros p s | by intros p q H s |].
  intros p q r H1 H2 s. by rewrite H1.
Qed.

#[export] Instance prog_bind_proper {S A B} :
  Proper (pointwise_relation A prog_eq ==> prog_eq ==> prog_eq)
         (@mbind (prog S) _ A B).
Proof.
  intros f g Hfg p q Hpq s. unfold mbind, prog_bind. rewrite (Hpq s).
  destruct (q s) as [[a| | |] s']; try done. apply Hfg.
Qed.

Lemma p_bind_assoc {S A B C} (p : prog S A) (f : A → prog S B) (g : B → prog S C) :
  (p ≫= f) ≫= g ≡p (p ≫= (λ a, f a ≫= g)).
Proof. intros s. unfold mbind, prog_bind. by destruct (p s) as [[a| | |] s']. Qed.

Lemma p_ret_bind {S A B} (a : A) (f : A → prog S B) : (mret a ≫= f) ≡p f a.
Proof. by intros s. Qed.

Lemma p_bind_ok {S A B} (p : prog S A) (f : A → prog S B) s a s' :
  p s = (Ok a, s') → (p ≫= f) s = f a s'.
Proof. unfold mbind, prog_bind. by intros ->. Qed.

Lemma p_bind_run {S A B} (p : prog S A) (f : A → prog S B) s :
  (p ≫= f) s = match p s with
               | (Ok a, s') => f a s'
               | (Exit c, s') => (Exit c, s')
               | (Undef, s') => (Undef, s')
               | (NoFuel, s') => (NoFuel, s')
               end.
Proof. done. Qed.

Lemma p_bind_inv {S A B} (p : prog S A) (f : A → prog S B) s b s' :
  (p ≫= f) s = (Ok b, s') → ∃ a s1, p s = (Ok a, s1) ∧ f a s1 = (Ok b, s').
Proof.
  unfold mbind, prog_bind. destruct (p s) as [[a| | |] s1]; try done. eauto.
Qed.

(** A run whose result is known. *)
Lemma p_run_ok {S A} (p : prog S A) s a : (p s).1 = Ok a → ∃ s', p s = (Ok a, s').
Proof. destruct (p s) as [r s']. simpl. intros ->. eauto. Qed.

Lemma p_for_app {S A} (l k : list A) (f : A → prog S unit) :
  p_for (l ++ k) f ≡p (p_for l f;; p_for k f).
Proof.
  induction l as [|a l IH]; simpl; [by intros s|].
  rewrite p_bind_assoc. by setoid_rewrite IH.
Qed.

Lemma p_for_fmap {S A B} (h : B → A) (l : list B) (f : A → prog S unit) :
  p_for (h <$> l) f ≡p p_for l (λ b, f (h b)).
Proof.
  induction l as [|b l IH]; [done|]. rewrite fmap_cons. simpl. by setoid_rewrite IH.
Qed.

Lemma p_for_ext {S A} (l : list A) (f g : A → prog S unit) :
  (∀ a, a ∈ l → f a ≡p g a) → p_for l f ≡p p_for l g.
Proof.
  induction l as [|a l IH]; intros H; [done|]. simpl. apply prog_bind_proper.
  - intros _. apply IH. intros b Hb. apply H. by right.
  - apply H. by left.
Qed.

Lemma p_for_shift {S} m n (f : Z → prog S unit) :
  p_for (seqZ m n) f ≡p p_for (seqZ 0 n) (λ i, f (m + i)).
Proof. rewrite <- (p_for_fmap (Z.add m)). by rewrite fmap_add_seqZ, Z.add_0_r. Qed.

(** A loop ends where one of its steps exits. *)
Lemma p_for_exit {S A} (l1 l2 : list A) a (f : A → prog S unit) s s1 s2 c :
  p_for l1 f s = (Ok (), s1) → f a s1 = (Exit c, s2) → p_for (l1 ++ a :: l2) f s = (Exit c, s2).
Proof.
  intros H1 H2. rewrite (p_for_app l1 (a :: l2) f s), (p_bind_ok _ _ _ _ _ H1). cbn [p_for].
  by rewrite p_bind_run, H2.
Qed.

(** A loop all of whose steps end with a value does, and an invariant of the
    steps is one of the loop. *)
Lemma p_for_invariant {S A} (P : S → Prop) (f : A → prog S unit) (l : list A) s :
  P s → (∀ a s1, a ∈ l → P s1 → ∃ s2, f a s1 = (Ok (), s2) ∧ P s2) →
  ∃ s', p_for l f s = (Ok (), s') ∧ P s'.
Proof.
  revert s. induction l as [|a l IH]; intros s Hs Hstep; simpl; [eauto|].
  destruct (Hstep a s) as (s2 & H2 & HP2); [left|done|].
  rewrite (p_bind_ok _ _ _ _ _ H2). apply IH; [done|].
  intros b s1 Hb. apply Hstep. by right.
Qed.

(** ** Machine integers *)

Definition umax (w : Z) : Z := 2 ^ w - 1.
(** The value of an unsigned [w]-bit object after a store. *)
Definition uwrap (w x : Z) : Z := x `mod` 2 ^ w.
(** The value of a signed two's complement [w]-bit object after a conversion. *)
Definition swrap (w x : Z) : Z := (x + 2 ^ (w - 1)) `mod` 2 ^ w - 2 ^ (w - 1).
Definition u64 (x : Z) : Z := uwrap 64 x.
Definition u32 (x : Z) : Z := uwrap 32 x.
Definition i32 (x : Z) : Z := swrap 32 x.
Definition ULONG_MAX : Z := umax 64.
Definition LLONG_MAX : Z := 2 ^ 63 - 1.
Definition LLONG_MIN : Z := - 2 ^ 63.
Definition is_u64 (x : Z) : Prop := 0 ≤ x < 2 ^ 64.

Lemma uwrap_range w x : 0 ≤ w → 0 ≤ uwrap w x < 2 ^ w.
Proof. intros. apply Z.mod_pos_bound. by apply Z.pow_pos_nonneg. Qed.

Lemma uwrap_small w x : 0 ≤ x < 2 ^ w → uwrap w x = x.
Proof. apply Z.mod_small. Qed.

Lemma u64_range x : is_u64 (u64 x).
Proof. by apply uwrap_range. Qed.

Lemma u64_small x : is_u64 x → u64 x = x.
Proof. apply Z.mod_small. Qed.

Lemma u64_idemp_add_l x y : u64 (u64 x + y) = u64 (x + y).
Proof. unfold u64, uwrap. by rewrite Zplus_mod_idemp_l. Qed.

Lemma swrap_range w x : 0 < w → - 2 ^ (w - 1) ≤ swrap w x < 2 ^ (w - 1).
Proof.
  intros Hw. unfold swrap.
  assert (2 ^ w = 2 * 2 ^ (w - 1)) as E.
  { rewrite <- Z.pow_succ_r by lia. f_equal. lia. }
  pose proof (Z.mod_pos_bound (x + 2 ^ (w - 1)) (2 ^ w)). lia.
Qed.

Lemma swrap_small w x : 0 < w → - 2 ^ (w - 1) ≤ x < 2 ^ (w - 1) → swrap w x = x.
Proof.
  intros Hw Hx. unfold swrap.
  assert (2 ^ w = 2 * 2 ^ (w - 1)) as E.
  { rewrite <- Z.pow_succ_r by lia. f_equal. lia. }
  rewrite Z.mod_small; lia.
Qed.

Lemma i32_small x : - 2 ^ 31 ≤ x < 2 ^ 31 → i32 x = x.
Proof. intros Hx. apply swrap_small; [done|]. change (2 ^ (32 - 1)) with (2 ^ 31). lia. Qed.

(** ** Bit operations *)

Declare Scope c_scope.
Delimit Scope c_scope with c.
Infix ".&" := Z.land (at level 38, left associativity) : c_scope.
Infix ".|" := Z.lor (at level 49, left associativity) : c_scope.
Infix ".^" := Z.lxor (at level 48, left associativity) : c_scope.
Infix ".<<" := Z.shiftl (at level 36, left associativity) : c_scope.
Infix ".>>" := Z.shiftr (at level 36, left associativity) : c_scope.
(** The complement of an unsigned 64-bit value. *)
Notation "~. a" := (Z.ldiff (2 ^ 64 - 1) a) (at level 30, right associativity) : c_scope.
#[global] Open Scope c_scope.

#[global] Arguments Z.testbit : simpl never.
#[global] Arguments Z.pow : simpl never.

(** The C condition [if (a)]: a value other than zero. *)
Definition nz (a : Z) : bool := negb (a =? 0).

Lemma testbit_bit1 k n : 0 ≤ k → Z.testbit (1 .<< k) n = (n =? k).
Proof.
  intros Hk. rewrite Z.shiftl_1_l.
  rewrite (Z.pow2_bits_eqb k n Hk). apply Z.eqb_sym.
Qed.

Lemma land_bit1 a k : 0 ≤ k →
  a .& (1 .<< k) = if Z.testbit a k then 1 .<< k else 0.
Proof.
  intros Hk. apply Z.bits_inj'. intros n Hn.
  rewrite Z.land_spec, testbit_bit1 by done.
  destruct (Z.eqb_spec n k) as [->|Hne].
  - destruct (Z.testbit a k); [|by rewrite Z.bits_0].
    by rewrite testbit_bit1, Z.eqb_refl.
  - rewrite andb_false_r. destruct (Z.testbit a k); [|by rewrite Z.bits_0].
    rewrite testbit_bit1 by done. symmetry. by apply Z.eqb_neq.
Qed.

Lemma nz_land_bit1 a k : 0 ≤ k → nz (a .& (1 .<< k)) = Z.testbit a k.
Proof.
  intros Hk. unfold nz. rewrite land_bit1 by done.
  destruct (Z.testbit a k); [|done].
  rewrite Z.shiftl_1_l. pose proof (Z.pow_pos_nonneg 2 k).
  destruct (Z.eqb_spec (2 ^ k) 0); [lia | done].
Qed.

Lemma nz_spec a : nz a = true ↔ a ≠ 0.
Proof. unfold nz. destruct (Z.eqb_spec a 0); naive_solver. Qed.

Lemma land_nz_iff a b : 0 ≤ a →
  nz (a .& b) = true ↔ ∃ n, 0 ≤ n ∧ Z.testbit a n = true ∧ Z.testbit b n = true.
Proof.
  intros Ha. rewrite nz_spec. split.
  - intros Hne. exists (Z.log2 (a .& b)).
    assert (0 < a .& b) by (pose proof (proj2 (Z.land_nonneg a b)); lia).
    pose proof (Z.bit_log2 (a .& b) ltac:(done)) as Hb.
    rewrite Z.land_spec, andb_true_iff in Hb. destruct Hb. by pose proof (Z.log2_nonneg (a .& b)).
  - intros (n & Hn & H1 & H2) E.
    assert (Z.testbit (a .& b) n = true) as Hb by (by rewrite Z.land_spec, H1, H2).
    by rewrite E, Z.bits_0 in Hb.
Qed.

(** A value with no bit at [w] or above fits in [w] bits. *)
Lemma bits_bound a w : 0 ≤ a → 0 ≤ w →
  (∀ n, w ≤ n → Z.testbit a n = false) → a < 2 ^ w.
Proof.
  intros Ha Hw Hbits. destruct (decide (a = 0)) as [->|Hne].
  { by apply Z.pow_pos_nonneg. }
  apply Z.log2_lt_pow2; [lia|].
  destruct (Z.lt_ge_cases (Z.log2 a) w) as [|Hge]; [done|].
  pose proof (Z.bit_log2 a ltac:(lia)) as Hb. by rewrite Hbits in Hb.
Qed.

Lemma bits_above a w n : 0 ≤ a < 2 ^ w → w ≤ n → Z.testbit a n = false.
Proof.
  intros [Ha Hlt] Hn. destruct (decide (a = 0)) as [->|Hne]; [by rewrite Z.bits_0|].
  assert (0 ≤ w).
  { destruct (Z.le_gt_cases 0 w); [done|]. rewrite Z.pow_neg_r in Hlt by done. lia. }
  apply Z.bits_above_log2; [done|]. apply Z.log2_lt_pow2 in Hlt; lia.
Qed.

(** Push [Z.testbit] through the bit operators. *)
Create Rewrite HintDb mce_bits.
#[export] Hint Rewrite Z.land_spec Z.lor_spec Z.lxor_spec Z.ldiff_spec Z.bits_0
  : mce_bits.

(** ** Automation *)

(** Decide the boolean comparisons of the goal and of the hypotheses. *)
Ltac bool_cases :=
  repeat match goal with
  | |- context [Z.eqb ?a ?b] => destruct (Z.eqb_spec a b)
  | |- context [Z.ltb ?a ?b] => destruct (Z.ltb_spec a b)
  | |- context [Z.leb ?a ?b] => destruct (Z.leb_spec a b)
  | H : context [Z.eqb ?a ?b] |- _ => destruct (Z.eqb_spec a b)
  | H : context [Z.ltb ?a ?b] |- _ => destruct (Z.ltb_spec a b)
  | H : context [Z.leb ?a ?b] |- _ => destruct (Z.leb_spec a b)
  end.

(** Run a program one step: reduce the bind of a result that is known. *)
Ltac prog_step :=
  match goal with
  | H : ?p ?s = (Ok ?a, ?s') |- context [(?p ≫= ?f) ?s] =>
      rewrite (p_bind_ok p f s a s' H)
  end.

(** Run the binds at the head of a program as far as they reduce. *)
Ltac psteps := repeat first [rewrite p_bind_run | progress cbn match].

(** ** Lists *)

Lemma seqZ_app m n1 n2 : 0 ≤ n1 → 0 ≤ n2 →
  seqZ m (n1 + n2) = seqZ m n1 ++ seqZ (m + n1) n2.
Proof. intros. by apply seqZ_app. Qed.

Lemma seqZ_snoc k : 0 ≤ k → seqZ 0 (k + 1) = seqZ 0 k ++ [k].
Proof.
  intros Hk. by rewrite (seqZ_app 0 k 1) by lia.
Qed.

Lemma length_filter_le {A} (P : A → Prop) `{∀ x, Decision (P x)} (l : list A) :
  (length (filter P l) ≤ length l)%nat.
Proof. apply length_filter. Qed.

Lemma filter_ext_in {A} (P Q : A → Prop) `{∀ x, Decision (P x)} `{∀ x, Decision (Q x)} (l : list A) :
  (∀ x, x ∈ l → P x ↔ Q x) → filter P l = filter Q l.
Proof.
  induction l as [|x l IH]; intros HPQ; [done|]. rewrite !filter_cons.
  rewrite IH by (intros y Hy; apply HPQ; by right). pose proof (HPQ x ltac:(left)).
  repeat case_decide; tauto.
Qed.

(** Sum of a list of integers. *)
Definition zsum (l : list Z) : Z := foldr Z.add 0 l.

Lemma zsum_app l k : zsum (l ++ k) = zsum l + zsum k.
Proof. induction l as [|x l IH]; simpl; [done|]. rewrite IH. lia. Qed.

(** [l] joined with the separator [sep] between its elements. *)
Fixpoint intercalate {A} (sep : list A) (l : list (list A)) : list A :=
  match l with
  | [] => []
  | [x] => x
  | x :: l' => x ++ sep ++ intercalate sep l'
  end.

Lemma intercalate_cons {A} (sep x : list A) l :
  l ≠ [] → intercalate sep (x :: l) = x ++ sep ++ intercalate sep l.
Proof. by destruct l. Qed.

(** Clearing the bits of [b] in a 64-bit value. *)
Lemma testbit_clear a b n : is_u64 a →
  Z.testbit (a .& ~. b) n = Z.testbit a n && negb (Z.testbit b n).
Proof.
  intros Ha. rewrite Z.land_spec, Z.ldiff_spec.
  destruct (Z.lt_ge_cases n 0) as [Hn|Hn]; [by rewrite !Z.testbit_neg_r|].
  destruct (Z.lt_ge_cases n 64) as [H|H].
  - change (2 ^ 64 - 1) with (Z.ones 64). by rewrite Z.ones_spec_low by lia.
  - by rewrite (bits_above a 64 n) by (done || lia).
Qed.

Lemma testbit_mask16 k n : 0 ≤ k →
  Z.testbit (0xffff .<< k) n = (k <=? n) && (n <? k + 16).
Proof.
  intros Hk. destruct (Z.lt_ge_cases n 0) as [Hn|Hn].
  { rewrite Z.testbit_neg_r by done. by bool_cases; simpl; try lia. }
  rewrite Z.shiftl_spec by done. change 0xffff with (Z.ones 16).
  destruct (Z.leb_spec k n); simpl; [|by rewrite Z.testbit_neg_r by lia].
  destruct (Z.ltb_spec n (k + 16)); [apply Z.ones_spec_low; lia | apply Z.ones_spec_high; lia].
Qed.

Lemma elem_of_intercalate {A} (sep : list A) l c :
  c ∈ intercalate sep l → c ∈ sep ∨ ∃ x, x ∈ l ∧ c ∈ x.
Proof.
  induction l as [|x l IH]; simpl; [by intros ?%elem_of_nil|].
  destruct l as [|y l]; [intros H; right; exists x; split; [left|done]|].
  rewrite !elem_of_app. intros [H | [H | H]].
  - right. exists x. split; [left|done].
  - by left.
  - destruct (IH H) as [|(z & Hz & Hc)]; [by left|]. right. exists z. split; [by right|done].
Qed.

Lemma elem_of_intercalate_2 {A} (sep : list A) l x c :
  x ∈ l → c ∈ x → c ∈ intercalate sep l.
Proof.
  induction l as [|y l IH]; [by intros ?%elem_of_nil|].
  intros Hx Hc. destruct l as [|z l]; [by apply list_elem_of_singleton in Hx as ->|].
  rewrite intercalate_cons, !elem_of_app by done.
  apply elem_of_cons in Hx as [->|Hx]; [by left|]. right. right. by apply IH.
Qed.

Lemma NoDup_omap {A B} (f : A → option B) (l : list A) :
  (∀ x y b, f x = Some b → f y = Some b → x = y) → NoDup l → NoDup (omap f l).
Proof.
  intros Hinj. induction 1 as [|x l Hx Hnd IH]; [constructor|]. cbn [omap list_omap].
  destruct (f x) as [b|] eqn:E; [|done]. constructor; [|done].
  intros (y & Hy & Ey)%list_elem_of_omap. by rewrite (Hinj _ _ _ E Ey) in Hx.
Qed.
