(* ===== verification/CLib.v ===== *)
(** * CLib: the part of the C library the programs rely on

    C strings, the [strto*] and [atoi] conversions, the [printf] conversions
    the sources use, [fgets] and [strtok].  A C string is the list of its
    characters before the terminating NUL; a pointer into a string is the
    suffix it points to, so that [*p] is [chr0 p] and [p - str] is a
    difference of lengths. *)
From Stdlib Require Import String.
From S2P Require Import Prelude.

Abbreviation cstr := (list ascii).

Definition NUL : ascii := "000".
Definition NL : ascii := "010".
Definition TAB : ascii := "009".
(** A string literal of the source. *)
Definition lit (s : string) : cstr := String.list_ascii_of_string s.
(** Lines, each with its newline. *)
Definition text (l : list string) : cstr := concat ((λ s, lit s ++ [NL]) <$> l).

(** [*s]: the character a pointer points to. *)
Definition chr0 (s : cstr) : ascii := match s with [] => NUL | c :: _ => c end.

(** [strchr(s, c)] for a [c] other than NUL: the suffix that starts at [c]. *)
Fixpoint strchr (s : cstr) (c : ascii) : option cstr :=
  match s with
  | [] => None
  | a :: s' => if decide (a = c) then Some s else strchr s' c
  end.

(** [strncmp(s, t, n) == 0]. *)
Fixpoint strncmp_eq (s t : cstr) (n : nat) : bool :=
  match n with
  | O => true
  | S n' =>
      if decide (chr0 s = chr0 t) then
        if decide (chr0 s = NUL) then true else strncmp_eq (tail s) (tail t) n'
      else false
  end.

(** [strcmp(s, t) == 0]. *)
Definition strcmp_eq (s t : cstr) : bool := bool_decide (s = t).

(** ** Numbers *)

Definition isspace (c : ascii) : bool :=
  let n := Z.of_N (N_of_ascii c) in (n =? 32) || ((9 <=? n) && (n <=? 13)).

(** The value of a character as a digit of a base up to 36. *)
Definition digit_val (c : ascii) : option Z :=
  let n := Z.of_N (N_of_ascii c) in
  if (48 <=? n) && (n <=? 57) then Some (n - 48)
  else if (97 <=? n) && (n <=? 122) then Some (n - 97 + 10)
  else if (65 <=? n) && (n <=? 90) then Some (n - 65 + 10)
  else None.

Definition digit_char (d : Z) : ascii :=
  ascii_of_N (Z.to_N (if d <? 10 then 48 + d else 97 + (d - 10))).

Definition is_digit (base : Z) (c : ascii) : bool :=
  match digit_val c with Some d => d <? base | None => false end.

Fixpoint read_digits (base acc : Z) (s : cstr) : Z :=
  match s with
  | [] => acc
  | c :: s' =>
      match digit_val c with
      | Some d => if d <? base then read_digits base (acc * base + d) s' else acc
      | None => acc
      end
  end.

Fixpoint skip_spaces (s : cstr) : cstr :=
  match s with
  | c :: s' => if isspace c then skip_spaces s' else s
  | [] => []
  end.

(** The optional sign: [(negative, rest)]. *)
Definition read_sign (s : cstr) : bool * cstr :=
  match s with
  | c :: s' =>
      if decide (c = "-"%char) then (true, s')
      else if decide (c = "+"%char) then (false, s')
      else (false, s)
  | [] => (false, s)
  end.

(** The prefix of base 16 (["0x"] followed by a digit), and the base 0 rule. *)
Definition read_base (base : Z) (s : cstr) : Z * cstr :=
  match s with
  | z :: x :: d :: s' =>
      if decide (z = "0"%char) then
        if (bool_decide (x = "x"%char) || bool_decide (x = "X"%char))
           && is_digit 16 d && ((base =? 0) || (base =? 16))
        then (16, d :: s')
        else (if base =? 0 then 8 else base, s)
      else (if base =? 0 then 10 else base, s)
  | z :: _ =>
      (if base =? 0 then if decide (z = "0"%char) then 8 else 10 else base, s)
  | [] => (if base =? 0 then 10 else base, s)
  end.

(** The magnitude and the sign the [strto*] functions read. *)
Definition strto_parse (base : Z) (s : cstr) : bool * Z :=
  let '(neg, s1) := read_sign (skip_spaces s) in
  let '(b, s2) := read_base base s1 in
  (neg, read_digits b 0 s2).

(** [strtol]/[strtoll] (64-bit): the value, clamped, and whether [errno] is
    set to [ERANGE]. *)
Definition strtoll (s : cstr) (base : Z) : Z * bool :=
  let '(neg, m) := strto_parse base s in
  let v := if neg then - m else m in
  (Z.max LLONG_MIN (Z.min LLONG_MAX v), (v <? LLONG_MIN) || (LLONG_MAX <? v)).

(** [strtoul]/[strtoull] (64-bit): a minus sign negates in the unsigned type. *)
Definition strtoull (s : cstr) (base : Z) : Z * bool :=
  let '(neg, m) := strto_parse base s in
  if ULONG_MAX <? m then (ULONG_MAX, true)
  else (if neg then u64 (- m) else m, false).

(** [atoi(s)], that is [(int) strtol(s, NULL, 10)]. *)
Definition atoi (s : cstr) : Z := i32 (fst (strtoll s 10)).

(** ** Formatting *)

(** The digits of [n >= 0] in a base, in front of [acc]. *)
Fixpoint fmt_base_aux (base : Z) (fuel : nat) (n : Z) (acc : cstr) : cstr :=
  match fuel with
  | O => acc
  | S f =>
      if n <? base then digit_char n :: acc
      else fmt_base_aux base f (n / base) (digit_char (n `mod` base) :: acc)
  end.

Definition fmt_base (base n : Z) : cstr :=
  fmt_base_aux base (S (Z.to_nat (Z.log2 n))) n [].

(** [%lu], [%lx] and [%d]. *)
Definition fmt_u (n : Z) : cstr := fmt_base 10 n.
Definition fmt_x (n : Z) : cstr := fmt_base 16 n.
Definition fmt_d (n : Z) : cstr := if n <? 0 then "-"%char :: fmt_u (- n) else fmt_u n.

#[global] Arguments fmt_base : simpl never.
#[global] Arguments fmt_u : simpl never.
#[global] Arguments fmt_x : simpl never.
#[global] Arguments fmt_d : simpl never.

(** What [snprintf(buf, size, ...)] leaves in [buf] for the text [s]. *)
Definition snprintf (size : nat) (s : cstr) : cstr := take (size - 1) s.

(** [%-*.*s] with the same width and precision: left justified, truncated
    and padded with spaces to [w] characters. *)
Definition fmt_pad (w : nat) (s : cstr) : cstr :=
  take w s ++ replicate (w - length (take w s)) " "%char.

(** ** Files *)

(** [fgets(buf, size, fp)]: at most [size - 1] characters, up to and with the
    first newline; nothing at the end of the file. *)
Fixpoint fgets_aux (n : nat) (rest : cstr) : cstr :=
  match n, rest with
  | S n', c :: rest' => if decide (c = NL) then [c] else c :: fgets_aux n' rest'
  | _, _ => []
  end.
Definition fgets (size : nat) (rest : cstr) : option cstr :=
  match rest with [] => None | _ => Some (fgets_aux (size - 1) rest) end.

(** Writing [text] at offset [pos] of a file open in mode ["r+"]. *)
Definition fwrite_at (pos : nat) (text file : cstr) : cstr :=
  take pos file ++ text ++ drop (pos + length text) file.

(** ** [strtok] *)

Fixpoint strspn_drop (sep s : cstr) : cstr :=
  match s with
  | c :: s' => if decide (c ∈ sep) then strspn_drop sep s' else s
  | [] => []
  end.

(** The characters before the first separator, and what follows it. *)
Fixpoint strcspn_split (sep s : cstr) : cstr * cstr :=
  match s with
  | c :: s' =>
      if decide (c ∈ sep) then ([], s')
      else let '(t, r) := strcspn_split sep s' in (c :: t, r)
  | [] => ([], [])
  end.

(** One call of [strtok] with the saved pointer [s]: the token and the new
    saved pointer, or nothing left. *)
Definition strtok (s sep : cstr) : option (cstr * cstr) :=
  match strspn_drop sep s with
  | [] => None
  | s' => Some (strcspn_split sep s')
  end.

(** ** Lemmas: numbers *)

Lemma digits_check :
  Forall (λ d, digit_val (digit_char d) = Some d ∧ isspace (digit_char d) = false
               ∧ digit_char d ≠ "-"%char ∧ digit_char d ≠ "+"%char
               ∧ (digit_char d = "0"%char → d = 0)) (seqZ 0 16).
Proof. apply (bool_decide_unpack _). by vm_compute. Qed.

Lemma digit_char_spec d : 0 ≤ d < 16 →
  digit_val (digit_char d) = Some d ∧ isspace (digit_char d) = false
  ∧ digit_char d ≠ "-"%char ∧ digit_char d ≠ "+"%char
  ∧ (digit_char d = "0"%char → d = 0).
Proof.
  intros Hd. pose proof digits_check as H. rewrite Forall_forall in H.
  apply (H d). apply elem_of_seqZ. lia.
Qed.

Section Formatting.
  Variable base : Z.
  Hypothesis base_range : 2 ≤ base ≤ 16.

Lemma fmt_base_fuel n : 0 ≤ n → n < base ^ Z.of_nat (S (Z.to_nat (Z.log2 n))).
Proof.
    intros Hn. destruct (decide (n = 0)) as [->|Hne].
    { apply Z.pow_pos_nonneg; lia. }
    pose proof (Z.log2_nonneg n). rewrite Nat2Z.inj_succ, Z2Nat.id by done.
    apply Z.lt_le_trans with (2 ^ Z.succ (Z.log2 n)); [by apply Z.log2_spec; lia|].
    apply Z.pow_le_mono_l. lia.
  Qed.

Lemma fmt_base_step n f : base ≤ n < base ^ Z.of_nat (S f) → 0 < n / base < base ^ Z.of_nat f.
Proof.
    intros [Hb Hn]. rewrite Nat2Z.inj_succ, Z.pow_succ_r in Hn by lia.
    split; [apply Z.div_str_pos; lia | apply Z.div_lt_upper_bound; lia].
  Qed.

Lemma read_digits_digit acc d s : 0 ≤ d < base →
    read_digits base acc (digit_char d :: s) = read_digits base (acc * base + d) s.
Proof.
    intros Hd. simpl. destruct (digit_char_spec d) as [-> _]; [lia|].
    by destruct (Z.ltb_spec d base); [|lia].
  Qed.

Lemma fmt_base_aux_S f n acc :
    fmt_base_aux base (S f) n acc =
    if n <? base then digit_char n :: acc
    else fmt_base_aux base f (n / base) (digit_char (n `mod` base) :: acc).
Proof. done. Qed.

Lemma read_fmt_aux f n acc : 0 ≤ n < base ^ Z.of_nat f → (0 < f)%nat →
    read_digits base 0 (fmt_base_aux base f n acc) = read_digits base n acc.
Proof.
    revert n acc. induction f as [|f IH]; intros n acc Hn Hf; [lia|]. cbn [fmt_base_aux].
    destruct (Z.ltb_spec n base); [by rewrite read_digits_digit by lia|].
    pose proof (fmt_base_step n f). rewrite IH; [|lia|].
    - pose proof (Z.mod_pos_bound n base). rewrite read_digits_digit by lia.
      f_equal. rewrite (Z.div_mod n base) at 3; lia.
    - destruct f; [simpl in *; lia | lia].
  Qed.

Lemma fmt_base_aux_app f n acc : fmt_base_aux base f n acc = fmt_base_aux base f n [] ++ acc.
Proof.
    revert n acc. induction f as [|f IH]; intros n acc; [done|]. cbn [fmt_base_aux].
    destruct (n <? base); [done|].
    rewrite IH, (IH _ [_]), <- app_assoc. done.
  Qed.

Lemma read_fmt_base n rest : 0 ≤ n →
    read_digits base 0 (fmt_base base n ++ rest) = read_digits base n rest.
Proof.
    intros Hn. unfold fmt_base. rewrite <- fmt_base_aux_app.
    apply read_fmt_aux; [|lia]. pose proof (fmt_base_fuel n). lia.
  Qed.

Lemma fmt_base_aux_digits f n : 0 ≤ n → Forall (λ c, is_digit base c = true) (fmt_base_aux base f n []).
Proof.
    revert n. induction f as [|f IH]; intros n Hn; simpl; [done|].
    assert (∀ d, 0 ≤ d < base → is_digit base (digit_char d) = true) as Hd.
    { intros d Hd. unfold is_digit. destruct (digit_char_spec d) as [-> _]; [lia|].
      apply Z.ltb_lt. lia. }
    destruct (Z.ltb_spec n base); [repeat constructor; apply Hd; lia|].
    rewrite fmt_base_aux_app. apply Forall_app. split.
    - apply IH. apply Z.div_pos; lia.
    - repeat constructor. apply Hd, Z.mod_pos_bound. lia.
  Qed.

Lemma fmt_base_digits n : 0 ≤ n → Forall (λ c, is_digit base c = true) (fmt_base base n).
Proof. apply fmt_base_aux_digits. Qed.

(** The first digit is not 0 unless the number is. *)
Lemma fmt_base_head n : 0 ≤ n →
    ∃ d t, fmt_base base n = digit_char d :: t ∧ 0 ≤ d < base ∧ (n = 0 → t = []) ∧ (n ≠ 0 → d ≠ 0).
Proof.
    intros Hn. unfold fmt_base. pose proof (fmt_base_fuel n Hn) as Hf. revert Hf.
    generalize (Z.to_nat (Z.log2 n)) as f. intros f Hf.
    assert (∀ acc m, 0 ≤ m < base ^ Z.of_nat (S f) →
      ∃ d t, fmt_base_aux base (S f) m acc = digit_char d :: t ∧ 0 ≤ d < base
             ∧ (m = 0 → t = acc) ∧ (m ≠ 0 → d ≠ 0)) as H.
    { clear Hf. induction f as [|f IH]; intros acc m Hm; rewrite fmt_base_aux_S;
        (destruct (Z.ltb_spec m base); [by exists m, acc; repeat split; try lia|]).
      - change (Z.of_nat 1) with 1 in Hm. lia.
      - pose proof (fmt_base_step m (S f)).
        destruct (IH (digit_char (m `mod` base) :: acc) (m / base)) as (d & t & -> & ? & ? & Hd); [lia|].
        exists d, t. repeat split; try lia; intros _; apply Hd; lia. }
    destruct (H [] n) as (d & t & Heq & ? & ? & ?); [by split|]. eauto 10.
  Qed.
End Formatting.

(** A string that does not go on with a letter or a digit. *)
Definition no_digit (s : cstr) : Prop := digit_val (chr0 s) = None.

Lemma read_digits_stop base acc s : no_digit s → read_digits base acc s = acc.
Proof. unfold no_digit. destruct s as [|c s]; simpl; [done|]. by intros ->. Qed.

Lemma read_base_fmt n rest base : 0 ≤ n → no_digit rest → base = 0 ∨ base = 10 →
  ∃ b, read_base base (fmt_u n ++ rest) = (b, fmt_u n ++ rest)
       ∧ (b = 10 ∨ (n = 0 ∧ 2 ≤ b)).
Proof.
  intros Hn Hrest Hb. unfold fmt_u.
  destruct (fmt_base_head 10 ltac:(lia) n Hn) as (d & t & -> & Hd & Ht & Hne).
  destruct (digit_char_spec d) as (_ & _ & _ & _ & H0); [lia|]. simpl.
  destruct (decide (n = 0)) as [->|Hnz].
  - rewrite (Ht eq_refl). simpl.
    destruct rest as [|x [|y r]]; simpl; repeat case_decide; try case_bool_decide;
      destruct Hb as [-> | ->]; simpl; eauto 10 with lia.
    all: try (subst; unfold no_digit in Hrest; done).
    all: repeat (case_bool_decide; simpl); try (subst; done); eauto with lia.
  - destruct (t ++ rest) as [|x [|y r]]; simpl;
      (case_decide; [exfalso; naive_solver|]); destruct Hb as [-> | ->]; simpl; eauto.
Qed.

Lemma strto_parse_fmt n rest base : 0 ≤ n → no_digit rest → base = 0 ∨ base = 10 →
  strto_parse base (fmt_u n ++ rest) = (false, n).
Proof.
  intros Hn Hrest Hb. unfold strto_parse.
  destruct (read_base_fmt n rest base Hn Hrest Hb) as (b & Hrb & Hbv).
  assert (read_sign (skip_spaces (fmt_u n ++ rest)) = (false, fmt_u n ++ rest)) as ->.
  { unfold fmt_u. destruct (fmt_base_head 10 ltac:(lia) n Hn) as (d & t & -> & Hd & _).
    destruct (digit_char_spec d) as (_ & Hs & Hm & Hp & _); [lia|]. simpl. rewrite Hs. simpl.
    by rewrite !decide_False. }
  rewrite Hrb. f_equal. destruct Hbv as [-> | [-> Hb2]].
  - unfold fmt_u. rewrite read_fmt_base by lia. by apply read_digits_stop.
  - change (fmt_u 0) with [digit_char 0]. change (read_digits b 0 ([digit_char 0] ++ rest))
      with (if 0 <? b then read_digits b (0 * b + 0) rest else 0).
    destruct (Z.ltb_spec 0 b); [by apply read_digits_stop | done].
Qed.

(** Printing with [%lu] or [%d] and reading back. *)
Lemma strtoll_fmt_u n rest base : 0 ≤ n ≤ LLONG_MAX → no_digit rest → base = 0 ∨ base = 10 →
  strtoll (fmt_u n ++ rest) base = (n, false).
Proof.
  intros Hn Hrest Hb. unfold strtoll. rewrite strto_parse_fmt by (done || lia).
  unfold LLONG_MIN, LLONG_MAX in *.
  f_equal; [lia|]. by bool_cases; simpl; try lia.
Qed.

Lemma atoi_fmt_d n rest : 0 ≤ n < 2 ^ 31 → no_digit rest → atoi (fmt_d n ++ rest) = n.
Proof.
  intros Hn Hrest. unfold atoi, fmt_d. destruct (Z.ltb_spec n 0); [lia|].
  rewrite strtoll_fmt_u; [|unfold LLONG_MAX; lia|done|by right].
  by apply swrap_small; simpl; lia.
Qed.

(** ** Lemmas: strings *)

Lemma strchr_notin s c : c ∉ s → strchr s c = None.
Proof.
  induction s as [|a s IH]; intros Hc; [done|]. simpl.
  rewrite decide_False by set_solver. apply IH. set_solver.
Qed.

Lemma strchr_head c t : strchr (c :: t) c = Some (c :: t).
Proof. simpl. by rewrite decide_True. Qed.

Lemma strchr_app s t c : c ∉ s → strchr (s ++ c :: t) c = Some (c :: t).
Proof.
  induction s as [|a s IH]; intros Hc; simpl; [by rewrite decide_True|].
  rewrite decide_False by set_solver. apply IH. set_solver.
Qed.

Lemma strncmp_eq_prefix s t u : NUL ∉ t →
  strncmp_eq (t ++ s) (t ++ u) (length t) = true.
Proof.
  induction t as [|a t IH]; intros Hn; [done|]. simpl.
  rewrite decide_True by done. rewrite decide_False by set_solver. apply IH. set_solver.
Qed.

(** Comparing [length t] characters against [t] tests for the prefix [t]. *)
Lemma strncmp_eq_spec s t : NUL ∉ t →
  strncmp_eq s t (length t) = true ↔ t `prefix_of` s.
Proof.
  intros Hn. split.
  - revert s. induction t as [|a t IH]; intros s; simpl; [by intros; apply prefix_nil|].
    case_decide as Ha; [|done]. rewrite decide_False by set_solver.
    destruct s as [|c s]; simpl in *; [set_solver|]. subst c.
    intros H. apply prefix_cons, IH; [set_solver|done].
  - intros [k ->]. rewrite <- (app_nil_r t) at 2. by apply strncmp_eq_prefix.
Qed.

Lemma length_fmt_pad w s : length (fmt_pad w s) = w.
Proof. unfold fmt_pad. rewrite length_app, length_replicate, length_take. lia. Qed.

Lemma elem_of_fmt_pad c w s : c ∈ fmt_pad w s → c ∈ s ∨ c = " "%char.
Proof.
  unfold fmt_pad. rewrite elem_of_app, elem_of_replicate. intros [H|[-> _]]; [left|by right].
  rewrite <- (take_drop w s). set_solver.
Qed.
