(* ===== verification/Getopt.v ===== *)
(** * Getopt: the options of a command line

    [getopt] and [getopt_long] of the GNU C library, for the tables the programs
    give them: option characters with or without a colon (no double colon, no
    leading plus, minus or colon), long options with a null [flag].  Words that
    are not options may stand between options, and are left in order at the end
    of the arguments.  A table of long options that does not end with a null
    name is read past its end unless an option is found in it first. *)
From Stdlib Require Import String.
From S2P Require Import Prelude CLib.

Record long_option := LongOption { lo_name : cstr; lo_arg : bool; lo_val : ascii }.
#[export] Instance long_option_eq_dec : EqDecision long_option.
Proof. solve_decision. Defined.
(** The option characters, and the long options of [getopt_long] with whether a
    null name ends them. *)
Record opt_table := OptTable { shorts : cstr; longs : option (list long_option * bool) }.

Definition long_table (l : list (string * bool * ascii)) : list long_option :=
  (λ '(n, a, v), LongOption (lit n) a v) <$> l.

(** What a call returns: an option with [optarg], ['?'], or nothing that C
    defines. *)
Inductive opt_ret := Got (c : ascii) (optarg : option cstr) | Bad | Wild.

(** Whether a character is an option, and one with an argument. *)
Fixpoint short_arg (table : cstr) (c : ascii) : option bool :=
  match table with
  | [] => None
  | d :: table' => if decide (d = c) then Some (bool_decide (chr0 table' = ":"%char)) else short_arg table' c
  end.
Definition short_option (t : opt_table) (c : ascii) : option bool :=
  if decide (c = ":"%char ∨ c = ";"%char) then None else short_arg (shorts t) c.

(** The characters of a word after its dash: the options, and the one whose
    argument is the next word. *)
Fixpoint cluster (t : opt_table) (s : cstr) : list opt_ret * option ascii :=
  match s with
  | [] => ([], None)
  | c :: s' =>
      match short_option t c with
      | Some true => match s' with [] => ([], Some c) | _ => ([Got c (Some s')], None) end
      | Some false => let '(l, need) := cluster t s' in (Got c None :: l, need)
      | None => let '(l, need) := cluster t s' in (Bad :: l, need)
      end
  end.

(** The name of a long option, up to a ['='], and the argument after it. *)
Fixpoint split_eq (s : cstr) : cstr * option cstr :=
  match s with
  | [] => ([], None)
  | c :: s' => if decide (c = "="%char) then ([], Some s') else let '(n, v) := split_eq s' in (c :: n, v)
  end.
Definition same_option (a b : long_option) : bool := bool_decide (lo_arg a = lo_arg b ∧ lo_val a = lo_val b).
(** An exact name, or else the start of one, or of several that mean the same. *)
Definition find_long (table : list long_option) (ended : bool) (name : cstr) : long_option + opt_ret :=
  match list_find (λ o, lo_name o = name) table with
  | Some (_, o) => inl o
  | None =>
      if negb ended then inr Wild else
      match filter (λ o, name `prefix_of` lo_name o) table with
      | [] => inr Bad
      | o :: others => if forallb (same_option o) others then inl o else inr Bad
      end
  end.
Definition long_word (table : list long_option) (ended : bool) (s : cstr) : list opt_ret * option ascii :=
  let '(name, value) := split_eq s in
  match find_long table ended name with
  | inr r => ([r], None)
  | inl o =>
      match lo_arg o, value with
      | true, Some v => ([Got (lo_val o) (Some v)], None)
      | true, None => ([], Some (lo_val o))
      | false, Some _ => ([Bad], None)
      | false, None => ([Got (lo_val o) None], None)
      end
  end.

Inductive word_kind := Plain | EndOfOptions | Short (s : cstr) | Long (table : list long_option) (ended : bool) (s : cstr).
Definition kind_of (t : opt_table) (w : cstr) : word_kind :=
  match w with
  | d :: c :: s =>
      if decide (d ≠ "-"%char) then Plain
      else if decide (c ≠ "-"%char) then Short (c :: s)
      else if decide (s = []) then EndOfOptions
      else match longs t with Some (table, ended) => Long table ended s | None => Short (c :: s) end
  | _ => Plain
  end.

(** All the calls: what they return; and [argv] after them, the words that were
    options and then the operands, from [optind] on. *)
Record parsed := Parsed { calls : list opt_ret; option_words : list cstr; operands : list cstr }.
Definition called (l : list opt_ret) (ws : list cstr) (p : parsed) : parsed :=
  Parsed (l ++ calls p) (ws ++ option_words p) (operands p).
Definition permuted (p : parsed) : list cstr := option_words p ++ operands p.
Fixpoint scan (t : opt_table) (need : option ascii) (args : list cstr) : parsed :=
  match args with
  | [] => Parsed (match need with Some _ => [Bad] | None => [] end) [] []
  | w :: args' =>
      match need with
      | Some c => called [Got c (Some w)] [w] (scan t None args')
      | None =>
          match kind_of t w with
          | EndOfOptions => Parsed [] [w] args'
          | Plain => let p := scan t None args' in Parsed (calls p) (option_words p) (w :: operands p)
          | Short s => let '(l, need) := cluster t s in called l [w] (scan t need args')
          | Long table ended s => let '(l, need) := long_word table ended s in called l [w] (scan t need args')
          end
      end
  end.
Definition getopt (t : opt_table) (args : list cstr) : parsed := scan t None args.

(** No word is lost: the calls only reorder [argv]. *)
Lemma permuted_perm t args : permuted (getopt t args) ≡ₚ args.
Proof.
  unfold getopt. generalize (@None ascii). induction args as [|w args IH]; intros need; [by destruct need|]. cbn [scan].
  destruct need as [c|]; [exact (perm_skip w (IH None))|]. destruct (kind_of t w) as [| |s|table ended s].
  - etrans; [symmetry; apply Permutation_middle|]. exact (perm_skip w (IH None)).
  - done.
  - destruct (cluster t s) as [l need]. exact (perm_skip w (IH need)).
  - destruct (long_word table ended s) as [l need]. exact (perm_skip w (IH need)).
Qed.

(** ** The contract

    The words a user writes for an option, and for options among other words. *)
Section Contract.
Context (t : opt_table).

Definition is_long (o : long_option) : Prop :=
  lo_name o ≠ [] ∧ ∃ table ended, longs t = Some (table, ended) ∧ o ∈ table.
Definition dash (c : ascii) : cstr := "-"%char :: [c].
Definition dashes (name : cstr) : cstr := "-"%char :: "-"%char :: name.
Inductive spelling : opt_ret → list cstr → Prop :=
| spell_flag c : short_option t c = Some false → spelling (Got c None) [dash c]
| spell_arg c v : short_option t c = Some true → spelling (Got c (Some v)) [dash c; v]
| spell_arg_joined c v : short_option t c = Some true → v ≠ [] → spelling (Got c (Some v)) [dash c ++ v]
| spell_long_flag o : is_long o → lo_arg o = false → spelling (Got (lo_val o) None) [dashes (lo_name o)]
| spell_long_arg o v : is_long o → lo_arg o = true → spelling (Got (lo_val o) (Some v)) [dashes (lo_name o); v]
| spell_long_joined o v : is_long o → lo_arg o = true → spelling (Got (lo_val o) (Some v)) [dashes (lo_name o ++ "="%char :: v)].

Definition plain_word (w : cstr) : Prop := w = [] ∨ w = lit "-" ∨ ∃ c s, w = c :: s ∧ c ≠ "-"%char.
(** Options in some spelling among plain words; after [--] all words are. *)
Inductive command : list cstr → list opt_ret → list cstr → Prop :=
| cmd_end : command [] [] []
| cmd_dashes ws : command (lit "--" :: ws) [] ws
| cmd_plain w ws evs rest : plain_word w → command ws evs rest → command (w :: ws) evs (w :: rest)
| cmd_option e ows ws evs rest : spelling e ows → command ws evs rest → command (ows ++ ws) (e :: evs) rest.

(** A table in which every spelling is understood: no option is a dash; the
    names differ and have no ['=']. *)
Definition table_ok : Prop :=
  short_option t "-" = None
  ∧ match longs t with
    | None => True
    | Some (table, _) => NoDup (lo_name <$> table) ∧ Forall (λ o, "="%char ∉ lo_name o) table
    end.
Context (Hok : table_ok).

Lemma split_eq_name n : "="%char ∉ n → split_eq n = (n, None).
Proof.
  induction n as [|c n IH]; [done|]. rewrite not_elem_of_cons. intros [Hc Hn]. cbn [split_eq].
  rewrite decide_False by congruence. by rewrite IH.
Qed.
Lemma split_eq_app n v : "="%char ∉ n → split_eq (n ++ "="%char :: v) = (n, Some v).
Proof.
  induction n as [|c n IH]; [done|]. rewrite not_elem_of_cons. intros [Hc Hn]. cbn [split_eq app].
  rewrite decide_False by congruence. by rewrite IH.
Qed.

Lemma find_long_in table ended o : o ∈ table → NoDup (lo_name <$> table) → find_long table ended (lo_name o) = inl o.
Proof.
  intros Hin Hnd. unfold find_long. assert (∃ i, list_find (λ o', lo_name o' = lo_name o) table = Some (i, o)) as [i ->]; [|done].
  induction table as [|o' table IH]; [by apply elem_of_nil in Hin|]. cbn [list_find]. cbn [fmap list_fmap] in Hnd.
  apply NoDup_cons in Hnd as [Hni Hnd]. apply elem_of_cons in Hin as [<-|Hin].
  - exists O. by rewrite decide_True.
  - destruct (IH Hin Hnd) as [i ->]. exists (S i). rewrite decide_False; [done|].
    intros E. apply Hni. rewrite E. by apply list_elem_of_fmap_2.
Qed.

Lemma kind_plain w : plain_word w → kind_of t w = Plain.
Proof. intros [->|[->|(c & s & -> & Hc)]]; [done|done|]. unfold kind_of. destruct s; [done|]. by rewrite decide_True. Qed.
Lemma kind_short c s : c ≠ "-"%char → kind_of t ("-"%char :: c :: s) = Short (c :: s).
Proof. intros Hc. unfold kind_of. by rewrite decide_False, decide_True by auto. Qed.
Lemma kind_long (o : long_option) table ended s : longs t = Some (table, ended) → s ≠ [] → kind_of t (dashes s) = Long table ended s.
Proof. intros Hl Hs. unfold kind_of, dashes. rewrite !decide_False by auto. by rewrite Hl. Qed.

(** An option in any spelling is returned, and the scan goes on after it. *)
Lemma scan_spelling e ows ws : spelling e ows →
  scan t None (ows ++ ws) = called [e] ows (scan t None ws).
Proof.
  destruct Hok as [Hdash Hlongs].
  assert (∀ c b, short_option t c = Some b → c ≠ "-"%char) as Hc by (intros c b H ->; by rewrite Hdash in H).
  assert (∀ o, is_long o → ∃ table ended, longs t = Some (table, ended) ∧ find_long table ended (lo_name o) = inl o
    ∧ lo_name o ≠ [] ∧ "="%char ∉ lo_name o) as Hlong.
  { intros o (Hne & table & ended & E & Hin). exists table, ended. rewrite E in Hlongs. destruct Hlongs as [Hnd Hf].
    rewrite Forall_forall in Hf. specialize (Hf o Hin). split; [done|]. split; [by apply find_long_in|done]. }
  intros [c H|c v H|c v H Hv|o Ho Ha|o v Ho Ha|o v Ho Ha]; cbn [app scan].
  - unfold dash. rewrite kind_short by eauto. cbn [cluster]. rewrite H. done.
  - unfold dash. rewrite kind_short by eauto. cbn [cluster]. rewrite H. cbn [scan]. done.
  - unfold dash. cbn [app]. rewrite kind_short by eauto. cbn [cluster]. rewrite H. by destruct v.
  - destruct (Hlong o Ho) as (table & ended & E & Hf & Hne & Heq). rewrite (kind_long o table ended) by done.
    unfold long_word. rewrite split_eq_name, Hf, Ha by done. done.
  - destruct (Hlong o Ho) as (table & ended & E & Hf & Hne & Heq). rewrite (kind_long o table ended) by done.
    unfold long_word. rewrite split_eq_name, Hf, Ha by done. cbn [scan]. done.
  - destruct (Hlong o Ho) as (table & ended & E & Hf & Hne & Heq).
    rewrite (kind_long o table ended) by (done || by destruct (lo_name o)).
    unfold long_word. rewrite split_eq_app, Hf, Ha by done. done.
Qed.

Lemma getopt_command args evs rest : command args evs rest →
  calls (getopt t args) = evs ∧ operands (getopt t args) = rest.
Proof.
  unfold getopt. induction 1 as [|ws|w ws evs rest Hw _ [IH1 IH2]|e ows ws evs rest He _ [IH1 IH2]]; [done|done| |].
  - cbn [scan]. rewrite kind_plain by done. cbn [calls operands]. by rewrite IH1, IH2.
  - rewrite (scan_spelling e ows ws He). cbn [called calls operands app]. by rewrite IH1, IH2.
Qed.
End Contract.

#[export] Instance table_ok_dec t : Decision (table_ok t).
Proof. unfold table_ok. destruct (longs t) as [[]|]; apply _. Defined.
