(* ===== verification/PageFlags.v ===== *)
(** * PageFlags: the flag words of page-types

    The constants of [kernel-page-flags.h] and of the head of
    [page-types.c], the names of the flags and the two ways they are printed,
    the translation of the words read from /proc/kpageflags, the bit filters,
    and the parsing of the [--bits] and [--describe] arguments. *)
From Stdlib Require Import String.
From S2P Require Import Prelude CLib.

(** ** Constants *)

Definition KPF_LOCKED := 0.
Definition KPF_ERROR := 1.
Definition KPF_REFERENCED := 2.
Definition KPF_UPTODATE := 3.
Definition KPF_DIRTY := 4.
Definition KPF_LRU := 5.
Definition KPF_ACTIVE := 6.
Definition KPF_SLAB := 7.
Definition KPF_WRITEBACK := 8.
Definition KPF_RECLAIM := 9.
Definition KPF_BUDDY := 10.
Definition KPF_MMAP := 11.
Definition KPF_ANON := 12.
Definition KPF_SWAPCACHE := 13.
Definition KPF_SWAPBACKED := 14.
Definition KPF_COMPOUND_HEAD := 15.
Definition KPF_COMPOUND_TAIL := 16.
Definition KPF_HUGE := 17.
Definition KPF_UNEVICTABLE := 18.
Definition KPF_HWPOISON := 19.
Definition KPF_NOPAGE := 20.
Definition KPF_KSM := 21.
Definition KPF_THP := 22.
Definition KPF_BALLOON := 23.
Definition KPF_ZERO_PAGE := 24.
Definition KPF_IDLE := 25.
Definition KPF_RESERVED := 32.
Definition KPF_MLOCKED := 33.
Definition KPF_MAPPEDTODISK := 34.
Definition KPF_PRIVATE := 35.
Definition KPF_PRIVATE_2 := 36.
Definition KPF_OWNER_PRIVATE := 37.
Definition KPF_ARCH := 38.
Definition KPF_UNCACHED := 39.
Definition KPF_SOFTDIRTY := 40.
Definition KPF_READAHEAD := 48.
Definition KPF_SLOB_FREE := 49.
Definition KPF_SLUB_FROZEN := 50.
Definition KPF_SLUB_DEBUG := 51.
Definition KPF_FILE := 62.
Definition KPF_MMAP_EXCLUSIVE := 63.

Definition KPF_ALL_BITS := 2 ^ 64 - 1.
Definition KPF_HACKERS_BITS := 0xffff .<< 32.
Definition KPF_OVERLOADED_BITS := 0xffff .<< 48.
Definition BIT (k : Z) : Z := 1 .<< k.
Definition BITS_COMPOUND := BIT KPF_COMPOUND_HEAD .| BIT KPF_COMPOUND_TAIL.

Definition PM_PFRAME_BITS := 55.
Definition PM_PFRAME_MASK := (1 .<< PM_PFRAME_BITS) - 1.
Definition PM_PFRAME (x : Z) := x .& PM_PFRAME_MASK.
Definition PM_SOFT_DIRTY := 1 .<< 55.
Definition PM_MMAP_EXCLUSIVE := 1 .<< 56.
Definition PM_FILE := 1 .<< 61.
Definition PM_SWAP := 1 .<< 62.
Definition PM_PRESENT := 1 .<< 63.

(** The designated initialisers of [page_flag_names]; the indices between
    them hold null pointers, and [ARRAY_SIZE] is the last index plus one. *)
Definition page_flag_table : list (Z * string) :=
  [(KPF_LOCKED, "L:locked"); (KPF_ERROR, "E:error");
   (KPF_REFERENCED, "R:referenced"); (KPF_UPTODATE, "U:uptodate");
   (KPF_DIRTY, "D:dirty"); (KPF_LRU, "l:lru"); (KPF_ACTIVE, "A:active");
   (KPF_SLAB, "S:slab"); (KPF_WRITEBACK, "W:writeback");
   (KPF_RECLAIM, "I:reclaim"); (KPF_BUDDY, "B:buddy"); (KPF_MMAP, "M:mmap");
   (KPF_ANON, "a:anonymous"); (KPF_SWAPCACHE, "s:swapcache");
   (KPF_SWAPBACKED, "b:swapbacked"); (KPF_COMPOUND_HEAD, "H:compound_head");
   (KPF_COMPOUND_TAIL, "T:compound_tail"); (KPF_HUGE, "G:huge");
   (KPF_UNEVICTABLE, "u:unevictable"); (KPF_HWPOISON, "X:hwpoison");
   (KPF_NOPAGE, "n:nopage"); (KPF_KSM, "x:ksm"); (KPF_THP, "t:thp");
   (KPF_BALLOON, "o:balloon"); (KPF_ZERO_PAGE, "z:zero_page");
   (KPF_RESERVED, "r:reserved"); (KPF_MLOCKED, "m:mlocked");
   (KPF_MAPPEDTODISK, "d:mappedtodisk"); (KPF_PRIVATE, "P:private");
   (KPF_PRIVATE_2, "p:private_2"); (KPF_OWNER_PRIVATE, "O:owner_private");
   (KPF_ARCH, "h:arch"); (KPF_UNCACHED, "c:uncached");
   (KPF_SOFTDIRTY, "f:softdirty"); (KPF_READAHEAD, "I:readahead");
   (KPF_SLOB_FREE, "P:slob_free"); (KPF_SLUB_FROZEN, "A:slub_frozen");
   (KPF_SLUB_DEBUG, "E:slub_debug"); (KPF_FILE, "F:file");
   (KPF_MMAP_EXCLUSIVE, "1:mmap_exclusive")]%string.

Definition page_flag_names : gmap Z cstr :=
  list_to_map ((λ '(i, s), (i, lit s)) <$> page_flag_table).
(** [for (i = 0; i < ARRAY_SIZE(page_flag_names); i++)] *)
Definition flag_indices : list Z := seqZ 0 64.

(** ** Printing *)

Definition EXIT_FAILURE := 1.
(** [fatal(...)]: the message goes to standard error, then [exit(EXIT_FAILURE)]. *)
Definition fatal {A} : res A := Exit EXIT_FAILURE.

Fixpoint page_flag_name_loop (idxs : list Z) (flags : Z) (buf : cstr) : res cstr :=
  match idxs with
  | [] => Ok buf
  | i :: idxs' =>
      let present := (flags .>> i) .& 1 in
      match page_flag_names !! i with
      | None => if nz present then fatal else page_flag_name_loop idxs' flags buf
      | Some name =>
          page_flag_name_loop idxs' flags
            (buf ++ [if nz present then chr0 name else "_"%char])
      end
  end.
Definition page_flag_name (flags : Z) : res cstr :=
  page_flag_name_loop flag_indices flags [].

Definition LONGNAME_BUF : nat := 1024.
Fixpoint page_flag_longname_loop (idxs : list Z) (flags : Z) (buf : cstr) (n : nat)
  : cstr * nat :=
  match idxs with
  | [] => (buf, n)
  | i :: idxs' =>
      match page_flag_names !! i with
      | None => page_flag_longname_loop idxs' flags buf n
      | Some name =>
          if nz ((flags .>> i) .& 1) then
            let text := drop 2 name ++ [","%char] in
            page_flag_longname_loop idxs' flags
              (take n buf ++ snprintf (LONGNAME_BUF - n) text) (n + length text)
          else page_flag_longname_loop idxs' flags buf n
      end
  end.
Definition page_flag_longname (flags : Z) : res cstr :=
  let '(buf, n) := page_flag_longname_loop flag_indices flags [] 0 in
  let n := if (0 <? n)%nat then (n - 1)%nat else n in
  if (LONGNAME_BUF <=? n)%nat then Undef (* [buf[n] = '\0'] out of the array *)
  else Ok (take n buf).

(** ** Flag words *)

Definition expand_overloaded_flags (flags pme : Z) : Z :=
  let flags :=
    if nz (flags .& BIT KPF_SLAB) then
      let flags := if nz (flags .& BIT KPF_PRIVATE)
                   then flags .^ (BIT KPF_PRIVATE .| BIT KPF_SLOB_FREE) else flags in
      let flags := if nz (flags .& BIT KPF_ACTIVE)
                   then flags .^ (BIT KPF_ACTIVE .| BIT KPF_SLUB_FROZEN) else flags in
      if nz (flags .& BIT KPF_ERROR)
      then flags .^ (BIT KPF_ERROR .| BIT KPF_SLUB_DEBUG) else flags
    else flags in
  let flags :=
    if flags .& (BIT KPF_RECLAIM .| BIT KPF_WRITEBACK) =? BIT KPF_RECLAIM
    then flags .^ (BIT KPF_RECLAIM .| BIT KPF_READAHEAD) else flags in
  let flags := if nz (pme .& PM_SOFT_DIRTY) then flags .| BIT KPF_SOFTDIRTY else flags in
  let flags := if nz (pme .& PM_FILE) then flags .| BIT KPF_FILE else flags in
  if nz (pme .& PM_MMAP_EXCLUSIVE) then flags .| BIT KPF_MMAP_EXCLUSIVE else flags.

Definition well_known_flags (flags : Z) : Z :=
  let flags := flags .& ~. KPF_HACKERS_BITS in
  if nz (flags .& BITS_COMPOUND) && negb (nz (flags .& BIT KPF_HUGE))
  then flags .& ~. BITS_COMPOUND else flags.

Definition kpageflags_flags (opt_raw : Z) (flags pme : Z) : Z :=
  if nz opt_raw then expand_overloaded_flags flags pme else well_known_flags flags.

Definition pagemap_pfn (val : Z) : Z :=
  if nz (val .& PM_PRESENT) then PM_PFRAME val else 0.

(** ** Bit filters: the arrays [opt_mask] and [opt_bits] up to [nr_bit_filters] *)

Fixpoint bit_mask_ok (filters : list (Z * Z)) (flags : Z) : bool :=
  match filters with
  | [] => true
  | (mask, bits) :: filters' =>
      if bits =? KPF_ALL_BITS then
        if flags .& mask =? 0 then false else bit_mask_ok filters' flags
      else
        if negb (flags .& mask =? bits) then false else bit_mask_ok filters' flags
  end.

Definition MAX_BIT_FILTERS : nat := 64.
Definition add_bits_filter (filters : list (Z * Z)) (mask bits : Z) : res (list (Z * Z)) :=
  if (MAX_BIT_FILTERS <=? length filters)%nat then fatal
  else Ok (filters ++ [(mask, bits)]).

(** ** Parsing *)

Definition parse_number (str : cstr) : res Z :=
  let n := u64 (fst (strtoll str 0)) in
  if (n =? 0) && negb (bool_decide (chr0 str = "0"%char)) then fatal else Ok n.

Fixpoint flag_name_search (idxs : list Z) (str : cstr) (len : nat) : option Z :=
  match idxs with
  | [] => None
  | i :: idxs' =>
      match page_flag_names !! i with
      | None => flag_name_search idxs' str len
      | Some name =>
          if strncmp_eq str (drop 2 name) len then Some (1 .<< i)
          else flag_name_search idxs' str len
      end
  end.

Definition parse_flag_name (str : cstr) (len : nat) : res Z :=
  if bool_decide (chr0 str = NUL) || (len =? 0)%nat then Ok 0
  else if (len <=? 8)%nat && strncmp_eq str (lit "compound") len then Ok BITS_COMPOUND
  else match flag_name_search flag_indices str len with
       | Some bit => Ok bit
       | None => parse_number str
       end.

(** The condition under which a token counts: it does not start with ~, or it
    does, [all] is set and the incremented [str] is not at the end; with the
    value of [str] after it. *)
Definition tok_wanted (all : bool) (str : cstr) : bool * cstr :=
  if negb (bool_decide (chr0 str = "~"%char)) then (true, str)
  else if all then (negb (bool_decide (chr0 (tail str) = NUL)), tail str)
  else (false, str).

Definition tok_flags (all : bool) (str p : cstr) (flags : Z) : res Z :=
  let '(wanted, str) := tok_wanted all str in
  if wanted then v ← parse_flag_name str (length str - length p); Ok (flags .| v)
  else Ok flags.

Fixpoint parse_flag_names_loop (all : bool) (str p : cstr) (flags : Z) : res Z :=
  match p with
  | [] => tok_flags all str p flags
  | c :: p' =>
      if decide (c = ","%char) then
        flags ← tok_flags all str p flags; parse_flag_names_loop all p' p' flags
      else if decide (c = "="%char) then tok_flags all str p flags
      else parse_flag_names_loop all str p' flags
  end.
Definition parse_flag_names (str : cstr) (all : bool) : res Z :=
  parse_flag_names_loop all str str 0.

Definition parse_bits_mask (filters : list (Z * Z)) (optarg : cstr) : res (list (Z * Z)) :=
  match strchr optarg "="%char with
  | Some p =>
      if (length p =? length optarg)%nat then
        bits ← parse_flag_names (tail p) false; add_bits_filter filters KPF_ALL_BITS bits
      else
        mask ← parse_flag_names optarg false;
        bits ← parse_flag_names (tail p) false; add_bits_filter filters mask bits
  | None =>
      match strchr optarg "~"%char with
      | Some _ =>
          mask ← parse_flag_names optarg true;
          bits ← parse_flag_names optarg false; add_bits_filter filters mask bits
      | None =>
          mask ← parse_flag_names optarg false; add_bits_filter filters mask KPF_ALL_BITS
      end
  end.

(** [describe_flags]: the flags and the two strings it prints. *)
Definition describe_flags (optarg : cstr) : res (Z * cstr * cstr) :=
  flags ← parse_flag_names optarg false;
  name ← page_flag_name flags;
  longname ← page_flag_longname flags;
  Ok (flags, name, longname).

(** [page_flag_type]: the mark the usage message prints after a flag. *)
Definition page_flag_type (flag : Z) : cstr :=
  if nz (flag .& KPF_HACKERS_BITS) then lit "(r)"
  else if nz (flag .& KPF_OVERLOADED_BITS) then lit "(o)"
  else lit "   ".

#[global] Opaque page_flag_names flag_indices.

(** ** Printing: lemmas *)

Lemma present_spec flags i : 0 ≤ i → nz ((flags .>> i) .& 1) = Z.testbit flags i.
Proof.
  intros Hi. change 1 with (1 .<< 0). rewrite nz_land_bit1 by done.
  by rewrite Z.shiftr_spec, Z.add_0_l.
Qed.

Definition flag_named (i : Z) : bool := bool_decide (is_Some (page_flag_names !! i)).

(** The set bits no name stands for. *)
Definition unnamed_bits (flags : Z) : list Z :=
  filter (λ i, Z.testbit flags i = true ∧ page_flag_names !! i = None) flag_indices.

(** One character per named flag: its letter or an underscore. *)
Definition flag_columns (idxs : list Z) (flags : Z) : cstr :=
  omap (λ i, name ← page_flag_names !! i;
             Some (if Z.testbit flags i then chr0 name else "_"%char)) idxs.

(** The long names of the set bits. *)
Definition flag_longnames (idxs : list Z) (flags : Z) : list cstr :=
  omap (λ i, name ← page_flag_names !! i;
             if Z.testbit flags i then Some (drop 2 name) else None) idxs.

Lemma flag_indices_nonneg i : i ∈ flag_indices → 0 ≤ i.
Proof. Transparent flag_indices. unfold flag_indices. rewrite elem_of_seqZ. lia. Qed.
Opaque flag_indices.

Lemma page_flag_name_loop_spec idxs flags buf :
  Forall (λ i, 0 ≤ i) idxs →
  page_flag_name_loop idxs flags buf =
  if decide (Exists (λ i, Z.testbit flags i = true ∧ page_flag_names !! i = None) idxs)
  then fatal else Ok (buf ++ flag_columns idxs flags).
Proof.
  intros H. revert buf.
  induction H as [|i idxs Hi H IH]; intros buf; cbn [page_flag_name_loop].
  { simpl flag_columns. rewrite app_nil_r. case_decide as HE; [by inversion HE | done]. }
  rewrite present_spec by done. unfold flag_columns in *. cbn [omap list_omap].
  destruct (page_flag_names !! i) as [name|] eqn:En; cbn [mbind option_bind].
  - rewrite IH, <- app_assoc. apply decide_ext. rewrite Exists_cons. intuition congruence.
  - destruct (Z.testbit flags i) eqn:Eb.
    + rewrite decide_True; [done|]. by apply Exists_cons_hd.
    + rewrite IH. apply decide_ext. rewrite Exists_cons. intuition congruence.
Qed.

Lemma flag_columns_length flags : length (flag_columns flag_indices flags) = 40%nat.
Proof.
  transitivity (length (filter (λ i, is_Some (page_flag_names !! i)) flag_indices));
    [|by vm_compute].
  unfold flag_columns. generalize flag_indices as l. induction l as [|i l IH]; [done|].
  cbn [omap list_omap]. rewrite filter_cons. destruct (page_flag_names !! i) eqn:E; simpl.
  - by rewrite <- IH.
  - by rewrite <- IH.
Qed.

Lemma longname_loop_spec idxs flags buf :
  Forall (λ i, 0 ≤ i) idxs →
  let tail := concat ((λ t, t ++ [","%char]) <$> flag_longnames idxs flags) in
  (length buf + length tail < LONGNAME_BUF)%nat →
  page_flag_longname_loop idxs flags buf (length buf) =
  (buf ++ tail, length (buf ++ tail)).
Proof.
  intros H. revert buf. induction H as [|i idxs Hi H IH]; intros buf; cbn [page_flag_longname_loop].
  { simpl. intros _. by rewrite app_nil_r. }
  unfold flag_longnames in *. cbn [omap list_omap].
  rewrite present_spec by done.
  destruct (page_flag_names !! i) as [name|]; cbn [mbind option_bind]; [|apply IH].
  destruct (Z.testbit flags i); [|apply IH]. rewrite fmap_cons. cbn [concat].
  set (t := drop 2 name ++ [","%char]). rewrite length_app. intros Hlen.
  rewrite firstn_all. unfold snprintf. rewrite (take_ge t) by lia.
  rewrite <- length_app, IH by (rewrite length_app; lia). by rewrite <- app_assoc.
Qed.

Definition all_longnames_length : nat :=
  length (concat ((λ t, t ++ [","%char]) <$> flag_longnames flag_indices (-1))).

Lemma longnames_length idxs flags :
  (length (concat ((λ t : cstr, t ++ [","%char]) <$> flag_longnames idxs flags))
   ≤ length (concat ((λ t : cstr, t ++ [","%char]) <$> flag_longnames idxs (-1))))%nat.
Proof.
  unfold flag_longnames. induction idxs as [|i idxs IH]; [done|]. cbn [omap list_omap].
  destruct (page_flag_names !! i) as [name|]; cbn [mbind option_bind]; [|done].
  destruct (decide (0 ≤ i)) as [Hi|Hi].
  - rewrite Z.bits_m1 by done. destruct (Z.testbit flags i);
      rewrite ?fmap_cons; cbn [concat]; rewrite ?length_app; lia.
  - rewrite !Z.testbit_neg_r by lia. apply IH.
Qed.

Lemma concat_intercalate (l : list cstr) :
  l ≠ [] → concat ((λ t, t ++ [","%char]) <$> l) = intercalate [","%char] l ++ [","%char].
Proof.
  induction l as [|x l IH]; [done|]. intros _. destruct l as [|y l].
  { simpl. by rewrite app_nil_r. }
  rewrite intercalate_cons, fmap_cons by done. cbn [concat]. rewrite IH by done.
  by rewrite <- !app_assoc.
Qed.

Lemma flag_indices_Forall : Forall (λ i, 0 ≤ i) flag_indices.
Proof. apply Forall_forall. exact flag_indices_nonneg. Qed.

Lemma page_flag_longname_eq flags :
  page_flag_longname flags = Ok (intercalate [","%char] (flag_longnames flag_indices flags)).
Proof.
  unfold page_flag_longname.
  assert (all_longnames_length < LONGNAME_BUF)%nat as Hmax by (vm_compute; lia).
  pose proof (longnames_length flag_indices flags) as Hle.
  pose proof (longname_loop_spec flag_indices flags [] flag_indices_Forall) as Hloop.
  fold all_longnames_length in Hle. cbn zeta in Hloop. simpl length in Hloop.
  rewrite Hloop by lia. clear Hloop. rewrite app_nil_l.
  destruct (decide (flag_longnames flag_indices flags = [])) as [E|Hne].
  { by rewrite E. }
  rewrite concat_intercalate in * by done. rewrite length_app in *. cbn [length] in *.
  set (s := intercalate _ _) in *.
  destruct (Nat.ltb_spec 0 (length s + 1)); [|lia].
  replace (length s + 1 - 1)%nat with (length s) by lia.
  destruct (Nat.leb_spec LONGNAME_BUF (length s)); [lia|]. by rewrite take_app_length.
Qed.

(** ** Flag words: lemmas *)

(** The [flags ^= BIT(a) | BIT(b)] of the code moves bit [a] to bit [b] when
    [b] is clear. *)
Definition move_bit (flags a b : Z) : Z := flags .^ (BIT a .| BIT b).

Lemma testbit_BIT k n : 0 ≤ k → Z.testbit (BIT k) n = (n =? k).
Proof. apply testbit_bit1. Qed.

Lemma nz_land_BIT a k : 0 ≤ k → nz (a .& BIT k) = Z.testbit a k.
Proof. apply nz_land_bit1. Qed.

Lemma move_bit_spec flags a b n :
  0 ≤ a → 0 ≤ b → a ≠ b → Z.testbit flags a = true → Z.testbit flags b = false →
  Z.testbit (move_bit flags a b) n =
  if n =? a then false else if n =? b then true else Z.testbit flags n.
Proof.
  intros Ha Hb Hab Hta Htb. unfold move_bit.
  rewrite Z.lxor_spec, Z.lor_spec, !testbit_BIT by done.
  destruct (Z.eqb_spec n a) as [->|]; [by rewrite Hta|].
  destruct (Z.eqb_spec n b) as [->|]; [by rewrite Htb|]. by rewrite xorb_false_r.
Qed.

(** A conditional move, as the SLOB/SLUB part of the code does it three times. *)
Lemma cond_move_spec flags a b n :
  0 ≤ a → 0 ≤ b → a ≠ b → Z.testbit flags b = false →
  Z.testbit (if nz (flags .& BIT a) then flags .^ (BIT a .| BIT b) else flags) n =
  if n =? a then false else if n =? b then Z.testbit flags a else Z.testbit flags n.
Proof.
  intros Ha Hb Hab Htb. rewrite nz_land_BIT by done.
  destruct (Z.testbit flags a) eqn:E.
  - by apply move_bit_spec.
  - destruct (Z.eqb_spec n a) as [->|]; [done|]. by destruct (Z.eqb_spec n b) as [->|].
Qed.

Lemma cond_set_spec flags (c : bool) b n : 0 ≤ b →
  Z.testbit (if c then flags .| BIT b else flags) n = (c && (n =? b)) || Z.testbit flags n.
Proof.
  intros Hb. destruct c; [|done]. by rewrite Z.lor_spec, testbit_BIT, orb_comm by done.
Qed.

Lemma reclaim_test flags :
  (flags .& (BIT KPF_RECLAIM .| BIT KPF_WRITEBACK) =? BIT KPF_RECLAIM)
  = Z.testbit flags KPF_RECLAIM && negb (Z.testbit flags KPF_WRITEBACK).
Proof.
  rewrite Z.land_lor_distr_r. unfold BIT. rewrite !land_bit1 by done.
  by destruct (Z.testbit flags KPF_RECLAIM), (Z.testbit flags KPF_WRITEBACK).
Qed.

(** What bit [n] of the expanded word stands for. *)
Definition expanded_bit (flags pme n : Z) : bool :=
  let f := Z.testbit flags in
  let slab := f KPF_SLAB in
  if bool_decide (n ∈ [KPF_PRIVATE; KPF_ACTIVE; KPF_ERROR]) then f n && negb slab
  else if n =? KPF_SLOB_FREE then f KPF_PRIVATE && slab
  else if n =? KPF_SLUB_FROZEN then f KPF_ACTIVE && slab
  else if n =? KPF_SLUB_DEBUG then f KPF_ERROR && slab
  else if n =? KPF_RECLAIM then f KPF_RECLAIM && f KPF_WRITEBACK
  else if n =? KPF_READAHEAD then f KPF_RECLAIM && negb (f KPF_WRITEBACK)
  else if n =? KPF_SOFTDIRTY then f n || Z.testbit pme 55
  else if n =? KPF_FILE then Z.testbit pme 61
  else if n =? KPF_MMAP_EXCLUSIVE then Z.testbit pme 56
  else f n.

Definition slab_moves (flags : Z) : Z :=
  let flags := if nz (flags .& BIT KPF_PRIVATE)
               then flags .^ (BIT KPF_PRIVATE .| BIT KPF_SLOB_FREE) else flags in
  let flags := if nz (flags .& BIT KPF_ACTIVE)
               then flags .^ (BIT KPF_ACTIVE .| BIT KPF_SLUB_FROZEN) else flags in
  if nz (flags .& BIT KPF_ERROR)
  then flags .^ (BIT KPF_ERROR .| BIT KPF_SLUB_DEBUG) else flags.

Lemma slab_moves_spec flags n :
  (∀ k, 48 ≤ k → Z.testbit flags k = false) →
  Z.testbit (slab_moves flags) n =
  if bool_decide (n ∈ [KPF_PRIVATE; KPF_ACTIVE; KPF_ERROR]) then false
  else if n =? KPF_SLOB_FREE then Z.testbit flags KPF_PRIVATE
  else if n =? KPF_SLUB_FROZEN then Z.testbit flags KPF_ACTIVE
  else if n =? KPF_SLUB_DEBUG then Z.testbit flags KPF_ERROR
  else Z.testbit flags n.
Proof.
  intros Hhi. unfold slab_moves.
  set (f1 := if nz (flags .& BIT KPF_PRIVATE) then _ else flags).
  set (f2 := if nz (f1 .& BIT KPF_ACTIVE) then _ else f1). cbv zeta.
  pose proof (λ m, cond_move_spec flags KPF_PRIVATE KPF_SLOB_FREE m ltac:(done) ltac:(done)
    ltac:(done) (Hhi KPF_SLOB_FREE ltac:(done))) as H1. fold f1 in H1.
  pose proof (λ m, cond_move_spec f1 KPF_ACTIVE KPF_SLUB_FROZEN m ltac:(done) ltac:(done)
    ltac:(done) (eq_trans (H1 KPF_SLUB_FROZEN) (Hhi KPF_SLUB_FROZEN ltac:(done)))) as H2. fold f2 in H2.
  rewrite (cond_move_spec f2 KPF_ERROR KPF_SLUB_DEBUG n ltac:(done) ltac:(done)
    ltac:(done) (eq_trans (H2 KPF_SLUB_DEBUG) (eq_trans (H1 KPF_SLUB_DEBUG) (Hhi KPF_SLUB_DEBUG ltac:(done))))).
  rewrite !H2, !H1.
  case_bool_decide as Hin; rewrite ?elem_of_cons in Hin.
  - destruct Hin as [-> | [-> | [-> | Hin]]]; [done..|by apply elem_of_nil in Hin].
  - destruct (Z.eqb_spec n KPF_ERROR) as [->|]; [tauto|].
    destruct (Z.eqb_spec n KPF_ACTIVE) as [->|]; [tauto|].
    destruct (Z.eqb_spec n KPF_PRIVATE) as [->|]; [tauto|].
    destruct (Z.eqb_spec n KPF_SLUB_DEBUG) as [->|]; [done|].
    destruct (Z.eqb_spec n KPF_SLUB_FROZEN) as [->|]; [done|]. done.
Qed.

(** A word of /proc/kpageflags: the kernel exports no bit at 48 or above. *)
Definition kernel_word (flags : Z) : Prop := 0 ≤ flags < 2 ^ 48.

Lemma kernel_word_above flags k : kernel_word flags → 48 ≤ k → Z.testbit flags k = false.
Proof. intros H. by apply bits_above. Qed.

(** The first step: the three moves, taken for slab pages. *)
Lemma slab_step_spec flags n :
  kernel_word flags →
  Z.testbit (if nz (flags .& BIT KPF_SLAB) then slab_moves flags else flags) n =
  let f := Z.testbit flags in
  let slab := f KPF_SLAB in
  if bool_decide (n ∈ [KPF_PRIVATE; KPF_ACTIVE; KPF_ERROR]) then f n && negb slab
  else if n =? KPF_SLOB_FREE then f KPF_PRIVATE && slab
  else if n =? KPF_SLUB_FROZEN then f KPF_ACTIVE && slab
  else if n =? KPF_SLUB_DEBUG then f KPF_ERROR && slab
  else f n.
Proof.
  intros Hk. pose proof (λ k, kernel_word_above flags k Hk) as Hhi. cbv zeta.
  rewrite nz_land_BIT by done. destruct (Z.testbit flags KPF_SLAB) eqn:E.
  - rewrite slab_moves_spec by done. simpl. by rewrite !andb_true_r, andb_false_r.
  - rewrite !andb_false_r, andb_true_r. case_bool_decide; [done|].
    repeat match goal with
    | |- context [n =? ?k] => destruct (Z.eqb_spec n k) as [->|]; [by apply Hhi|]
    end. done.
Qed.

(** The second step: reclaim is readahead when the page is not under writeback. *)
Lemma reclaim_step_spec flags n :
  Z.testbit flags KPF_READAHEAD = false →
  Z.testbit (if flags .& (BIT KPF_RECLAIM .| BIT KPF_WRITEBACK) =? BIT KPF_RECLAIM
             then flags .^ (BIT KPF_RECLAIM .| BIT KPF_READAHEAD) else flags) n =
  let r := Z.testbit flags KPF_RECLAIM in
  let w := Z.testbit flags KPF_WRITEBACK in
  if n =? KPF_RECLAIM then r && w
  else if n =? KPF_READAHEAD then r && negb w
  else Z.testbit flags n.
Proof.
  intros Hra. cbv zeta. rewrite reclaim_test.
  destruct (Z.testbit flags KPF_RECLAIM) eqn:Er, (Z.testbit flags KPF_WRITEBACK) eqn:Ew; simpl;
    try (rewrite (move_bit_spec flags KPF_RECLAIM KPF_READAHEAD) by done; done);
    (destruct (Z.eqb_spec n KPF_RECLAIM) as [->|]; [done|]);
    by destruct (Z.eqb_spec n KPF_READAHEAD) as [->|].
Qed.

Lemma expand_bits flags pme n :
  kernel_word flags →
  Z.testbit (expand_overloaded_flags flags pme) n = expanded_bit flags pme n.
Proof.
  intros Hk. pose proof (λ k, kernel_word_above flags k Hk) as Hhi.
  unfold expand_overloaded_flags. cbv zeta. fold (slab_moves flags).
  set (f1 := if nz (flags .& BIT KPF_SLAB) then slab_moves flags else flags).
  pose proof (λ m, slab_step_spec flags m Hk) as H1. fold f1 in H1.
  rewrite !cond_set_spec by done.
  rewrite reclaim_step_spec by (rewrite H1; by apply (Hhi KPF_READAHEAD)).
  unfold PM_SOFT_DIRTY, PM_FILE, PM_MMAP_EXCLUSIVE. rewrite !nz_land_bit1 by done.
  assert (Z.testbit f1 KPF_RECLAIM = Z.testbit flags KPF_RECLAIM) as -> by (by rewrite H1).
  assert (Z.testbit f1 KPF_WRITEBACK = Z.testbit flags KPF_WRITEBACK) as -> by (by rewrite H1).
  rewrite H1. unfold expanded_bit. cbv zeta. clear H1 f1.
  case_bool_decide as Hin.
  { rewrite !elem_of_cons, elem_of_nil in Hin. clear -Hin.
    by destruct Hin as [-> | [-> | [-> | []]]]; simpl; rewrite !andb_false_r. }
  clear Hin.
  repeat match goal with
  | |- context [n =? ?k] =>
      destruct (Z.eqb_spec n k) as [->|]; [simpl; rewrite ?andb_false_r; simpl;
        rewrite ?(Hhi KPF_FILE), ?(Hhi KPF_MMAP_EXCLUSIVE) by done;
        rewrite ?andb_true_r, ?orb_false_r; try done; by rewrite orb_comm|]
  end. by rewrite !andb_false_r.
Qed.

(** C22: expand_overloaded_flags moves the bits that SLOB and SLUB overload
    (private, active, error) to their raw-mode slots exactly for slab pages,
    splits reclaim into reclaim and readahead by the writeback bit, takes the
    soft-dirty, file and exclusive bits from the pagemap entry, and leaves every
    other bit of a kernel word alone. *)
Theorem expand_overloaded_flags_bits flags pme n :
  kernel_word flags →
  Z.testbit (expand_overloaded_flags flags pme) n = expanded_bit flags pme n.
Proof. apply expand_bits. Qed.

(** A slab page with its private and dirty bits set, mapped from a file. *)
Lemma expand_overloaded_flags_bits_witness :
  kernel_word (BIT KPF_SLAB .| BIT KPF_PRIVATE .| BIT KPF_DIRTY)
  ∧ Z.testbit (expand_overloaded_flags (BIT KPF_SLAB .| BIT KPF_PRIVATE .| BIT KPF_DIRTY) PM_FILE)
      KPF_SLOB_FREE = true.
Proof.
  assert (kernel_word (BIT KPF_SLAB .| BIT KPF_PRIVATE .| BIT KPF_DIRTY)) as H by (by vm_compute).
  split; [done|]. rewrite (expand_overloaded_flags_bits _ PM_FILE KPF_SLOB_FREE H). by vm_compute.
Defined.

Lemma known_bits flags n :
  is_u64 flags →
  Z.testbit (well_known_flags flags) n =
  if (32 <=? n) && (n <? 48) then false
  else if bool_decide (n ∈ [KPF_COMPOUND_HEAD; KPF_COMPOUND_TAIL])
  then Z.testbit flags n && Z.testbit flags KPF_HUGE
  else Z.testbit flags n.
Proof.
  intros Hf. unfold well_known_flags. set (f := flags .& ~. KPF_HACKERS_BITS).
  assert (∀ m, Z.testbit f m = Z.testbit flags m && negb ((32 <=? m) && (m <? 48))) as H1.
  { intros m. unfold f, KPF_HACKERS_BITS. rewrite testbit_clear by done.
    by rewrite testbit_mask16. }
  assert (is_u64 f) as Hf'.
  { split; [apply Z.land_nonneg; left; apply Hf|].
    apply bits_bound; [apply Z.land_nonneg; left; apply Hf|done|].
    intros k Hk. rewrite H1. by rewrite (bits_above flags 64 k) by done. }
  cbv zeta. rewrite nz_land_BIT, (H1 KPF_HUGE), andb_true_r by done.
  assert (nz (f .& BITS_COMPOUND) = Z.testbit flags KPF_COMPOUND_HEAD || Z.testbit flags KPF_COMPOUND_TAIL) as ->.
  { unfold BITS_COMPOUND, BIT. rewrite Z.land_lor_distr_r, !land_bit1, !H1 by done.
    by destruct (Z.testbit flags KPF_COMPOUND_HEAD), (Z.testbit flags KPF_COMPOUND_TAIL). }
  assert (Z.testbit BITS_COMPOUND n = bool_decide (n ∈ [KPF_COMPOUND_HEAD; KPF_COMPOUND_TAIL])) as Hc.
  { unfold BITS_COMPOUND. rewrite Z.lor_spec, !testbit_BIT by done.
    case_bool_decide as Hin; rewrite !elem_of_cons, elem_of_nil in Hin; bool_cases; simpl; tauto. }
  case_bool_decide as Hin.
  - rewrite !elem_of_cons, elem_of_nil in Hin.
    destruct (_ && _) eqn:E; [rewrite testbit_clear, Hc by done|]; rewrite H1;
      destruct Hin as [-> | [-> | []]]; simpl; rewrite ?andb_true_r, ?andb_false_r; try done;
      destruct (Z.testbit flags KPF_HUGE); rewrite ?andb_true_r, ?andb_false_r in *; try done;
      simpl in E; apply orb_false_iff in E; simpl in *; tauto.
  - destruct (_ && negb (Z.testbit flags KPF_HUGE)); [rewrite testbit_clear, Hc by done|];
      rewrite H1; simpl; rewrite ?andb_true_r;
      destruct ((32 <=? n) && (n <? 48)); by rewrite ?andb_true_r, ?andb_false_r.
Qed.

(** Well_known_flags, the default view, hides the bits meant for kernel
    hackers (32 to 47) and the compound bits of pages that are not huge, and
    nothing else. *)
Theorem well_known_flags_bits flags n :
  is_u64 flags →
  Z.testbit (well_known_flags flags) n =
  if (32 <=? n) && (n <? 48) then false
  else if bool_decide (n ∈ [KPF_COMPOUND_HEAD; KPF_COMPOUND_TAIL])
  then Z.testbit flags n && Z.testbit flags KPF_HUGE
  else Z.testbit flags n.
Proof. apply known_bits. Qed.

Lemma well_known_flags_bits_witness :
  is_u64 (BIT KPF_COMPOUND_HEAD .| BIT KPF_RESERVED .| BIT KPF_LRU)
  ∧ Z.testbit (well_known_flags (BIT KPF_COMPOUND_HEAD .| BIT KPF_RESERVED .| BIT KPF_LRU))
      KPF_COMPOUND_HEAD = false.
Proof.
  assert (is_u64 (BIT KPF_COMPOUND_HEAD .| BIT KPF_RESERVED .| BIT KPF_LRU)) as H by (by vm_compute).
  split; [done|]. rewrite (well_known_flags_bits _ KPF_COMPOUND_HEAD H). by vm_compute.
Defined.

Lemma page_flag_name_eq flags :
  page_flag_name flags =
  if decide (unnamed_bits flags = []) then Ok (flag_columns flag_indices flags) else fatal.
Proof.
  unfold page_flag_name.
  rewrite page_flag_name_loop_spec by apply flag_indices_Forall. rewrite app_nil_l.
  unfold unnamed_bits. case_decide as HE; case_decide as Hn; try done; exfalso.
  - apply Exists_exists in HE as (i & Hi & Hb). assert (i ∈ @nil Z) as []%elem_of_nil; rewrite <- Hn.
    by apply list_elem_of_filter.
  - apply HE, Exists_exists. destruct (filter _ _) as [|i l] eqn:E; [done|].
    exists i. assert (i ∈ i :: l) as Hi by left. rewrite <- E in Hi.
    apply list_elem_of_filter in Hi. naive_solver.
Qed.

(** Page_flag_name prints one column per named flag, 40 of them, with the
    flag's letter where its bit is set; it ends the program exactly when a bit
    without a name is set. *)
Theorem page_flag_name_spec flags :
  (page_flag_name flags =
   if decide (unnamed_bits flags = []) then Ok (flag_columns flag_indices flags) else fatal)
  ∧ length (flag_columns flag_indices flags) = 40%nat.
Proof. split; [apply page_flag_name_eq|apply flag_columns_length]. Qed.

(** The bits of a kernel word that the tool knows: 0 to 24 and 32 to 40. *)
Definition known_word (flags : Z) : Prop :=
  0 ≤ flags ∧ ∀ n, Z.testbit flags n = true → 0 ≤ n < 25 ∨ 32 ≤ n < 41.

Definition NAMED_INDICES : list Z :=
  Eval vm_compute in filter (λ i, is_Some (page_flag_names !! i)) (seqZ 0 64).

Lemma NAMED_INDICES_spec i : is_Some (page_flag_names !! i) ↔ i ∈ NAMED_INDICES.
Proof.
  assert (∀ j, is_Some (page_flag_names !! j) → j ∈ page_flag_table.*1) as Hdom.
  { intros j [v Hv]. Transparent page_flag_names. unfold page_flag_names in Hv.
    apply elem_of_list_to_map_2 in Hv. Opaque page_flag_names.
    apply list_elem_of_fmap in Hv as ((k & s) & E & Hin). simplify_eq.
    by apply (list_elem_of_fmap_2 fst) in Hin. }
  assert (page_flag_table.*1 = NAMED_INDICES) as E by (by vm_compute). rewrite E in Hdom.
  split; [apply Hdom|]. clear. revert i.
  assert (Forall (λ i, is_Some (page_flag_names !! i)) NAMED_INDICES) as H
    by (by apply (bool_decide_unpack _); vm_compute). by rewrite Forall_forall in H.
Qed.

Lemma known_word_named n : 0 ≤ n < 25 ∨ 32 ≤ n < 41 → n ∈ NAMED_INDICES.
Proof.
  assert (Forall (λ n, n ∈ NAMED_INDICES) (seqZ 0 25 ++ seqZ 32 9)) as H
    by (by apply (bool_decide_unpack _); vm_compute).
  rewrite Forall_forall in H. intros Hn. apply H. rewrite elem_of_app, !elem_of_seqZ. lia.
Qed.

Lemma known_word_kernel flags : known_word flags → kernel_word flags.
Proof.
  intros [Hnn Hb]. split; [done|]. apply bits_bound; [done..|].
  intros n Hn. destruct (Z.testbit flags n) eqn:E; [|done]. apply Hb in E. lia.
Qed.

Lemma expanded_bit_named flags pme n :
  known_word flags → expanded_bit flags pme n = true → n ∈ NAMED_INDICES.
Proof.
  intros [_ Hb]. unfold expanded_bit. cbv zeta. case_bool_decide as Hin.
  { intros [H _]%andb_true_iff. by apply known_word_named, Hb. }
  repeat match goal with
  | |- context [n =? ?k] =>
      destruct (Z.eqb_spec n k) as [->|];
      [intros _; by apply (bool_decide_unpack _); vm_compute|]
  end. intros H. by apply known_word_named, Hb.
Qed.

Lemma kpageflags_unnamed opt_raw flags pme :
  known_word flags → unnamed_bits (kpageflags_flags opt_raw flags pme) = [].
Proof.
  intros Hk. unfold unnamed_bits. destruct (filter _ _) as [|i l] eqn:E; [done|exfalso].
  assert (i ∈ i :: l) as Hi by left. rewrite <- E in Hi.
  apply list_elem_of_filter in Hi as [[Hbit Hnone] _]. clear E.
  apply eq_None_not_Some in Hnone. apply Hnone, NAMED_INDICES_spec. clear Hnone.
  pose proof (known_word_kernel flags Hk) as Hkw.
  unfold kpageflags_flags in Hbit. destruct (nz opt_raw).
  - rewrite expand_bits in Hbit by done. by eapply expanded_bit_named.
  - rewrite known_bits in Hbit by (unfold kernel_word, is_u64 in *; lia).
    apply known_word_named, (proj2 Hk).
    destruct (_ && _); [done|]. case_bool_decide; [by apply andb_true_iff in Hbit as [? _]|done].
Qed.

(** C21: a page whose kernel flags are ones the tool knows can always be
    printed, in the raw view and in the default view: the translation of the
    word never sets a bit page_flag_name would end the program for. *)
Theorem kpageflags_flags_printable opt_raw flags pme :
  known_word flags →
  page_flag_name (kpageflags_flags opt_raw flags pme)
  = Ok (flag_columns flag_indices (kpageflags_flags opt_raw flags pme)).
Proof. intros Hk. by rewrite page_flag_name_eq, kpageflags_unnamed by done. Qed.

Lemma kpageflags_flags_printable_witness :
  known_word (BIT KPF_SLAB)
  ∧ page_flag_name (kpageflags_flags 1 (BIT KPF_SLAB) PM_FILE)
    = Ok (lit "_______S______________________________F_").
Proof.
  assert (known_word (BIT KPF_SLAB)) as H.
  { split; [done|]. intros n. destruct (decide (0 ≤ n)); [|by rewrite Z.testbit_neg_r by lia].
    unfold BIT. rewrite testbit_bit1 by done. intros ->%Z.eqb_eq. left. by vm_compute. }
  split; [done|]. rewrite (kpageflags_flags_printable 1 _ PM_FILE H). by vm_compute.
Defined.

(** KPF_IDLE is in kernel-page-flags.h but has no name: an idle page ends the
    program. *)
Lemma idle_page_fatal : page_flag_name (kpageflags_flags 0 (BIT KPF_IDLE) 0) = fatal.
Proof. by vm_compute. Qed.

(** ** Parsing: lemmas *)

Definition flag_longname (i : Z) : cstr := drop 2 (default [] (page_flag_names !! i)).

(** A character that neither ends a token nor negates it. *)
Definition plain (c : ascii) : Prop := c ∉ [","%char; "="%char; "~"%char; NUL].

Lemma plain_ne c : plain c → c ≠ ","%char ∧ c ≠ "="%char ∧ c ≠ "~"%char ∧ c ≠ NUL.
Proof. unfold plain. rewrite !elem_of_cons. tauto. Qed.

Lemma flag_longname_plain i : i ∈ NAMED_INDICES →
  Forall plain (flag_longname i) ∧ flag_longname i ≠ [].
Proof.
  assert (Forall (λ i, Forall plain (flag_longname i) ∧ flag_longname i ≠ []) NAMED_INDICES) as H
    by (by apply (bool_decide_unpack _); vm_compute).
  rewrite Forall_forall in H. apply H.
Qed.

(** Comparing [length s] characters does not look behind [s]. *)
Lemma strncmp_eq_app s r u : strncmp_eq (s ++ r) u (length s) = strncmp_eq s u (length s).
Proof. revert u. induction s as [|c s IH]; intros u; simpl; [done|]. by rewrite IH. Qed.

Lemma flag_name_search_app idxs s r :
  flag_name_search idxs (s ++ r) (length s) = flag_name_search idxs s (length s).
Proof.
  induction idxs as [|i idxs IH]; simpl; [done|].
  destruct (page_flag_names !! i); [|done]. by rewrite strncmp_eq_app, IH.
Qed.

Lemma parse_flag_name_named i r : i ∈ NAMED_INDICES →
  parse_flag_name (flag_longname i ++ r) (length (flag_longname i)) = Ok (BIT i).
Proof.
  intros Hi. destruct (flag_longname_plain i Hi) as [Hp Hne].
  assert (Forall (λ i, (length (flag_longname i) <=? 8)%nat
      && strncmp_eq (flag_longname i) (lit "compound") (length (flag_longname i)) = false
      ∧ flag_name_search flag_indices (flag_longname i) (length (flag_longname i)) = Some (BIT i))
    NAMED_INDICES) as H by (by apply (bool_decide_unpack _); vm_compute).
  rewrite Forall_forall in H. destruct (H i Hi) as [Hc Hs].
  unfold parse_flag_name. rewrite strncmp_eq_app, flag_name_search_app, Hc, Hs.
  destruct (flag_longname i) as [|c s]; [done|]. simpl.
  rewrite bool_decide_false; [done|]. apply Forall_cons in Hp as [Hp%plain_ne _]. tauto.
Qed.

(** A token of a flags argument: a flag, negated with ~ or not. *)
Definition flag_tok (t : bool * Z) : cstr :=
  (if fst t then ["~"%char] else []) ++ flag_longname (snd t).
Definition flag_spec (toks : list (bool * Z)) : cstr := intercalate [","%char] (flag_tok <$> toks).
Definition toks_named (toks : list (bool * Z)) : Prop := Forall (λ t, snd t ∈ NAMED_INDICES) toks.
(** The bits of the tokens, the negated ones only if [all]. *)
Fixpoint toks_bits (all : bool) (toks : list (bool * Z)) : Z :=
  match toks with
  | [] => 0
  | (neg, i) :: toks' => (if neg && negb all then 0 else BIT i) .| toks_bits all toks'
  end.

(** Where a flags argument ends. *)
Definition spec_end (r : cstr) : Prop := r = [] ∨ ∃ r', r = "="%char :: r'.

Lemma skip_plain all str s r flags : Forall plain s →
  parse_flag_names_loop all str (s ++ r) flags = parse_flag_names_loop all str r flags.
Proof.
  induction 1 as [|c s Hc _ IH]; simpl; [done|].
  by apply plain_ne in Hc; rewrite !decide_False by tauto.
Qed.

Lemma tok_flags_named all neg i r flags : i ∈ NAMED_INDICES →
  tok_flags all (flag_tok (neg, i) ++ r) r flags
  = Ok (flags .| (if neg && negb all then 0 else BIT i)).
Proof.
  intros Hi. destruct (flag_longname_plain i Hi) as [Hp Hne].
  assert (length (flag_longname i ++ r) - length r = length (flag_longname i))%nat as Hlen
    by (rewrite length_app; lia).
  unfold tok_flags, tok_wanted, flag_tok. simpl.
  destruct neg; simpl.
  - destruct all; simpl; [|by rewrite Z.lor_0_r].
    rewrite bool_decide_false; simpl.
    + by rewrite Hlen, parse_flag_name_named by done.
    + destruct (flag_longname i) as [|c s]; [done|]. apply Forall_cons in Hp as [Hp%plain_ne _]. tauto.
  - rewrite bool_decide_false; simpl.
    + by rewrite Hlen, parse_flag_name_named by done.
    + destruct (flag_longname i) as [|c s]; [done|]. apply Forall_cons in Hp as [Hp%plain_ne _]. tauto.
Qed.

Lemma skip_tok all t r flags : snd t ∈ NAMED_INDICES →
  parse_flag_names_loop all (flag_tok t ++ r) (flag_tok t ++ r) flags
  = parse_flag_names_loop all (flag_tok t ++ r) r flags.
Proof.
  intros Hi. destruct (flag_longname_plain (snd t) Hi) as [Hp _].
  destruct t as [[] i]; simpl in *; by rewrite skip_plain.
Qed.

Lemma parse_flag_names_loop_toks all toks r flags :
  toks_named toks → toks ≠ [] → spec_end r →
  parse_flag_names_loop all (flag_spec toks ++ r) (flag_spec toks ++ r) flags
  = Ok (flags .| toks_bits all toks).
Proof.
  intros Htoks. revert flags. induction Htoks as [|[neg i] toks Hi Htoks IH]; intros flags Hne Hr; [done|].
  simpl in Hi. destruct (decide (toks = [])) as [->|Hne'].
  - unfold flag_spec. cbn [fmap list_fmap intercalate]. rewrite skip_tok by done.
    cbn [toks_bits]. rewrite Z.lor_0_r.
    destruct Hr as [->|[r' ->]]; simpl; by rewrite tok_flags_named.
  - unfold flag_spec. rewrite fmap_cons, intercalate_cons by (by destruct toks).
    fold (flag_spec toks). rewrite <- !app_assoc, skip_tok by done. simpl app.
    cbn [parse_flag_names_loop]. rewrite decide_True by done.
    rewrite tok_flags_named by done. simpl. rewrite IH by done.
    cbn [toks_bits]. by rewrite Z.lor_assoc.
Qed.

Lemma parse_flag_names_toks all toks r :
  toks_named toks → toks ≠ [] → spec_end r →
  parse_flag_names (flag_spec toks ++ r) all = Ok (toks_bits all toks).
Proof. intros. unfold parse_flag_names. by rewrite parse_flag_names_loop_toks. Qed.

(** The bits of [flags] at the indices of a list. *)
Definition bits_of (idxs : list Z) (flags : Z) : list Z :=
  filter (λ i, Z.testbit flags i = true) idxs.

Lemma flag_longnames_spec flags :
  intercalate [","%char] (flag_longnames flag_indices flags)
  = flag_spec ((λ i, (false, i)) <$> bits_of NAMED_INDICES flags).
Proof.
  assert (NAMED_INDICES = filter (λ i, is_Some (page_flag_names !! i)) flag_indices) as ->
    by (by vm_compute).
  unfold flag_spec, flag_longnames, bits_of. f_equal.
  generalize flag_indices as l. induction l as [|i l IH]; [done|].
  cbn [omap list_omap]. rewrite filter_cons.
  destruct (page_flag_names !! i) as [name|] eqn:E; cbn [mbind option_bind].
  - rewrite decide_True by eauto. rewrite filter_cons.
    destruct (Z.testbit flags i); [rewrite decide_True by done | by rewrite decide_False].
    rewrite !fmap_cons, IH. f_equal. unfold flag_tok, flag_longname. cbn [fst snd app]. by rewrite E.
  - rewrite decide_False; [done|]. by intros [? ?].
Qed.

Lemma toks_bits_spec all idxs n : Forall (λ i, 0 ≤ i) idxs →
  Z.testbit (toks_bits all ((λ i, (false, i)) <$> idxs)) n = bool_decide (n ∈ idxs).
Proof.
  induction 1 as [|i idxs Hi H IH]; [by rewrite Z.bits_0|].
  rewrite fmap_cons. cbn [toks_bits andb]. rewrite Z.lor_spec, IH, testbit_BIT by done.
  apply Bool.eq_iff_eq_true. rewrite orb_true_iff, !bool_decide_eq_true, Z.eqb_eq, elem_of_cons. done.
Qed.

Lemma named_nonneg : Forall (λ i, 0 ≤ i) NAMED_INDICES.
Proof. by apply (bool_decide_unpack _); vm_compute. Qed.

(** C11: the long symbolic form page-types prints for a flag word is one its
    own [--bits] and [--describe] options read back: parsing it gives the word
    again, without the bits that have no name. *)
Theorem longname_parse_roundtrip flags :
  ∃ s v, page_flag_longname flags = Ok s ∧ parse_flag_names s false = Ok v
         ∧ ∀ n, Z.testbit v n = Z.testbit flags n && bool_decide (n ∈ NAMED_INDICES).
Proof.
  set (l := bits_of NAMED_INDICES flags).
  exists (flag_spec ((λ i, (false, i)) <$> l)), (toks_bits false ((λ i, (false, i)) <$> l)).
  assert (Forall (λ i, i ∈ NAMED_INDICES) l) as Hl.
  { apply Forall_forall. intros i [_ Hi]%list_elem_of_filter. done. }
  split; [by rewrite page_flag_longname_eq, flag_longnames_spec|]. split.
  - destruct (decide (l = [])) as [->|Hne]; [done|].
    rewrite <- (app_nil_r (flag_spec _)). apply parse_flag_names_toks; [|by destruct l|by left].
    by apply Forall_fmap.
  - intros n. rewrite toks_bits_spec.
    + apply Bool.eq_iff_eq_true. rewrite andb_true_iff, !bool_decide_eq_true.
      unfold l, bits_of. by rewrite list_elem_of_filter.
    + eapply Forall_impl; [exact Hl|]. simpl. intros i. revert i. apply Forall_forall, named_nonneg.
Qed.

(** ** The documented forms of the [--bits] argument *)

Inductive bits_spec : Type :=
| AnyOf (l : list Z)                 (* bit1,bit2       (flags & (bit1|bit2)) != 0 *)
| MaskEq (l1 l2 : list Z)            (* bit1,bit2=bit1  (flags & (bit1|bit2)) == bit1 *)
| Signed (toks : list (bool * Z))    (* bit1,~bit2      (flags & (bit1|bit2)) == bit1 *)
| Exactly (l : list Z).              (* =bit1,bit2      flags == (bit1|bit2) *)

Definition pos_toks (l : list Z) : list (bool * Z) := (λ i, (false, i)) <$> l.
Definition or_bits (l : list Z) : Z := toks_bits false (pos_toks l).

Definition render_spec (s : bits_spec) : cstr :=
  match s with
  | AnyOf l => flag_spec (pos_toks l)
  | MaskEq l1 l2 => flag_spec (pos_toks l1) ++ "="%char :: flag_spec (pos_toks l2)
  | Signed toks => flag_spec toks
  | Exactly l => "="%char :: flag_spec (pos_toks l)
  end.

(** The condition the usage message gives for each form. *)
Definition spec_holds (s : bits_spec) (flags : Z) : bool :=
  match s with
  | AnyOf l => nz (flags .& or_bits l)
  | MaskEq l1 l2 => flags .& or_bits l1 =? or_bits l2
  | Signed toks => flags .& toks_bits true toks =? toks_bits false toks
  | Exactly l => flags =? or_bits l
  end.

Definition named_list (l : list Z) : Prop := l ≠ [] ∧ Forall (λ i, i ∈ NAMED_INDICES) l.
Definition spec_ok (s : bits_spec) : Prop :=
  match s with
  | AnyOf l | Exactly l => named_list l
  | MaskEq l1 l2 => named_list l1 ∧ named_list l2
  | Signed toks => toks_named toks ∧ ∃ i, (true, i) ∈ toks
  end.

#[export] Instance spec_ok_dec_named l : Decision (named_list l).
Proof. apply _. Defined.

Lemma pos_toks_named l : named_list l → toks_named (pos_toks l) ∧ pos_toks l ≠ [].
Proof. intros [Hne Hl]. split; [by apply Forall_fmap|]. by destruct l. Qed.

Lemma flag_tok_chars t c : snd t ∈ NAMED_INDICES → c ∈ flag_tok t →
  (c = "~"%char ∧ fst t = true) ∨ plain c.
Proof.
  intros Hi. unfold flag_tok. rewrite elem_of_app. intros [H|H].
  - destruct t as [[] i]; simpl in *; [|by apply elem_of_nil in H].
    apply list_elem_of_singleton in H. by left.
  - right. destruct (flag_longname_plain _ Hi) as [Hp _]. rewrite Forall_forall in Hp. by apply Hp.
Qed.

Lemma flag_spec_chars toks c : toks_named toks → c ∈ flag_spec toks →
  c = ","%char ∨ (c = "~"%char ∧ ∃ i, (true, i) ∈ toks) ∨ plain c.
Proof.
  intros Hn [Hc|(x & Hx & Hc)]%elem_of_intercalate.
  - apply list_elem_of_singleton in Hc. by left.
  - right. apply list_elem_of_fmap in Hx as ([neg i] & -> & Ht).
    unfold toks_named in Hn; rewrite Forall_forall in Hn. specialize (Hn _ Ht).
    destruct (flag_tok_chars _ _ Hn Hc) as [[-> Hf]|]; [left|by right].
    simpl in Hf. subst. eauto.
Qed.

Lemma flag_spec_no_eq toks : toks_named toks → "="%char ∉ flag_spec toks.
Proof.
  intros Hn Hc. apply flag_spec_chars in Hc as [|[[? _]|Hp]]; try done. by apply plain_ne in Hp as (_ & ? & _).
Qed.

Lemma flag_spec_no_tilde l : named_list l → "~"%char ∉ flag_spec (pos_toks l).
Proof.
  intros Hl Hc. apply flag_spec_chars in Hc as [|[[_ (i & Hi)]|Hp]]; try done.
  - by apply list_elem_of_fmap in Hi as (? & ? & _).
  - by apply plain_ne in Hp as (_ & _ & ? & _).
  - by apply pos_toks_named.
Qed.

Lemma strchr_in s c : c ∈ s → ∃ t, strchr s c = Some t.
Proof.
  induction s as [|a s IH]; [by intros ?%elem_of_nil|]. simpl. intros Hc.
  case_decide; [eauto|]. apply IH. apply elem_of_cons in Hc as [->|]; done.
Qed.

(** No list of named bits is the sentinel that means any bit of the mask. *)
Lemma toks_bits_not_all all toks : toks_named toks → toks_bits all toks ≠ KPF_ALL_BITS.
Proof.
  intros Hn E.
  assert (Z.testbit (toks_bits all toks) KPF_IDLE = false) as H.
  { clear E. induction Hn as [|[neg i] toks Hi Hn IH]; simpl; [done|].
    rewrite Z.lor_spec, IH, orb_false_r. destruct (neg && negb all); [done|].
    simpl in Hi. rewrite testbit_BIT.
    - apply Z.eqb_neq. intros <-. revert Hi. by apply (bool_decide_unpack _); vm_compute.
    - revert i Hi. apply Forall_forall, named_nonneg. }
  by rewrite E in H.
Qed.

Lemma bit_mask_ok_any mask flags : bit_mask_ok [(mask, KPF_ALL_BITS)] flags = nz (flags .& mask).
Proof. unfold nz. simpl. by destruct (flags .& mask =? 0). Qed.

Lemma bit_mask_ok_eq mask bits flags : bits ≠ KPF_ALL_BITS →
  bit_mask_ok [(mask, bits)] flags = (flags .& mask =? bits).
Proof.
  intros H. unfold bit_mask_ok. destruct (Z.eqb_spec bits KPF_ALL_BITS); [done|].
  by destruct (flags .& mask =? bits).
Qed.

(** C10: each form of the [--bits] argument that the usage message documents
    is parsed to a filter that selects exactly the flag words the message says
    it selects. *)
Theorem parse_bits_mask_spec s :
  spec_ok s →
  ∃ filters, parse_bits_mask [] (render_spec s) = Ok filters
    ∧ ∀ flags, is_u64 flags → bit_mask_ok filters flags = spec_holds s flags.
Proof.
  assert (∀ toks all r, toks_named toks → toks ≠ [] → spec_end r →
    parse_flag_names (flag_spec toks ++ r) all = Ok (toks_bits all toks)) as Hparse
    by (intros; by apply parse_flag_names_toks).
  assert (∀ toks all, toks_named toks → toks ≠ [] →
    parse_flag_names (flag_spec toks) all = Ok (toks_bits all toks)) as Hparse0.
  { intros toks all ??. rewrite <- (app_nil_r (flag_spec toks)). apply Hparse; [done..|by left]. }
  destruct s as [l|l1 l2|toks|l]; simpl; unfold parse_bits_mask.
  - intros Hl. destruct (pos_toks_named l Hl).
    rewrite strchr_notin by (by apply flag_spec_no_eq).
    rewrite strchr_notin by (by apply flag_spec_no_tilde).
    rewrite Hparse0 by done. eexists; split; [done|]. intros. apply bit_mask_ok_any.
  - intros [Hl1 Hl2]. destruct (pos_toks_named l1 Hl1), (pos_toks_named l2 Hl2).
    rewrite strchr_app by (by apply flag_spec_no_eq).
    rewrite (proj2 (Nat.eqb_neq _ _)).
    + rewrite Hparse by (done || right; eauto). simpl. rewrite Hparse0 by done.
      eexists; split; [done|]. intros. by apply bit_mask_ok_eq, toks_bits_not_all.
    + assert (flag_spec (pos_toks l1) ≠ []) as Hne.
      { destruct (pos_toks l1) as [|[neg i] ts] eqn:E; [done|].
        destruct (flag_longname_plain i) as [_ Hi]; [by inversion H|].
        unfold flag_spec. destruct ts; cbn; destruct (flag_longname i); by destruct neg. }
      rewrite length_app. destruct (flag_spec (pos_toks l1)); [done|]. simpl. lia.
  - intros [Hn (i & Hi)]. rewrite strchr_notin by (by apply flag_spec_no_eq).
    destruct (strchr_in (flag_spec toks) "~"%char) as [t ->].
    { eapply elem_of_intercalate_2; [by apply (list_elem_of_fmap_2 flag_tok) in Hi|]. by left. }
    assert (toks ≠ []) by (intros ->; by apply elem_of_nil in Hi).
    rewrite !Hparse0 by done. eexists; split; [done|]. intros.
    by apply bit_mask_ok_eq, toks_bits_not_all.
  - intros Hl. destruct (pos_toks_named l Hl). rewrite strchr_head, Nat.eqb_refl by done.
    simpl. rewrite Hparse0 by done. eexists; split; [done|]. intros flags Hf.
    etransitivity; [by apply bit_mask_ok_eq, toks_bits_not_all|]. unfold KPF_ALL_BITS.
    change (2 ^ 64 - 1) with (Z.ones 64). rewrite Z.land_ones by done. f_equal. by apply Z.mod_small.
Qed.

(** [locked,~error]: the locked bit set and the error bit clear. *)
Lemma parse_bits_mask_spec_witness :
  spec_ok (Signed [(false, KPF_LOCKED); (true, KPF_ERROR)])
  ∧ ∃ filters,
      parse_bits_mask [] (lit "locked,~error") = Ok filters
      ∧ bit_mask_ok filters 0x801 = true ∧ bit_mask_ok filters 0x803 = false.
Proof.
  assert (spec_ok (Signed [(false, KPF_LOCKED); (true, KPF_ERROR)])) as H.
  { split; [by apply (bool_decide_unpack _); vm_compute|]. exists KPF_ERROR. by right; left. }
  split; [done|]. destruct (parse_bits_mask_spec _ H) as (fs & Hp & Hf).
  exists fs. split; [rewrite <- Hp; f_equal; by vm_compute|].
  by rewrite !Hf by (by vm_compute).
Defined.
