(* ===== verification/PageHash.v ===== *)
(** * PageHash: the hash table of page-types

    [page_flags] and [nr_pages] count how many pages carry each flag word: an
    open-addressing table of [HASH_SIZE] slots, slot 0 kept for the word 0.
    Its contract is a counter: after any sequence of words the rows of the
    summary are the distinct words with their numbers of occurrences. *)
From S2P Require Import Prelude CLib PageFlags.

Definition HASH_SHIFT := 13.
Definition HASH_SIZE : Z := 1 .<< HASH_SHIFT.
Definition HASH_MASK : Z := HASH_SIZE - 1.
Definition HASH_KEY (flags : Z) : Z := flags .& HASH_MASK.

(** [total_pages], [nr_pages] and [page_flags]; the arrays are static, so
    an element never stored to is 0. *)
Record hash_table := HashTable {
  total_pages : Z;
  nr_pages : gmap Z Z;
  page_flags : gmap Z Z
}.
Definition empty_table : hash_table := HashTable 0 ∅ ∅.

(** [a[k]] for a static array. *)
Definition at0 (a : gmap Z Z) (k : Z) : Z := default 0 (a !! k).

(** The search: [n] steps left, next slot [k]. *)
Fixpoint hash_probe (n : nat) (k flags : Z) (pf : gmap Z Z) : option (Z * gmap Z Z) :=
  match n with
  | O => None
  | S n' =>
      let k := if (k =? 0) || (HASH_SIZE <=? k) then 1 else k in
      if at0 pf k =? 0 then Some (k, <[k := flags]> pf)
      else if at0 pf k =? flags then Some (k, pf)
      else hash_probe n' (k + 1) flags pf
  end.

Definition PROBES : nat := Z.to_nat (HASH_SIZE - 1).
Definition hash_slot (flags : Z) (pf : gmap Z Z) : res (Z * gmap Z Z) :=
  if flags =? 0 then Ok (0, pf)
  else match hash_probe PROBES (HASH_KEY flags) flags pf with
       | Some r => Ok r
       | None => fatal
       end.

(** The end of [add_page]: [nr_pages[hash_slot(flags)]++; total_pages++]. *)
Definition count_page (flags : Z) (t : hash_table) : res hash_table :=
  '(k, pf) ← hash_slot flags (page_flags t);
  Ok (HashTable (u64 (total_pages t + 1))
        (<[k := u64 (at0 (nr_pages t) k + 1)]> (nr_pages t)) pf).

Fixpoint count_pages (l : list Z) (t : hash_table) : res hash_table :=
  match l with
  | [] => Ok t
  | flags :: l' => t ← count_page flags t; count_pages l' t
  end.

(** [for (i = 0; i < ARRAY_SIZE(nr_pages); i++)] *)
Definition slots : list Z := seqZ 0 HASH_SIZE.

(** The rows [show_summary] prints: [(page_flags[i], nr_pages[i])] where
    [nr_pages[i]] is not 0. *)
Definition summary_rows (t : hash_table) : list (Z * Z) :=
  omap (λ i, if nz (at0 (nr_pages t) i)
             then Some (at0 (page_flags t) i, at0 (nr_pages t) i) else None)
       slots.

(** ** The probe sequence *)

Lemma HASH_SIZE_eq : HASH_SIZE = 8192.
Proof. done. Qed.

Definition start (flags : Z) : Z := if HASH_KEY flags =? 0 then 1 else HASH_KEY flags.
(** The slot of the [j]-th step. *)
Definition slot_at (flags j : Z) : Z := (start flags - 1 + j) `mod` (HASH_SIZE - 1) + 1.

Lemma HASH_KEY_range flags : 0 ≤ HASH_KEY flags < HASH_SIZE.
Proof.
  unfold HASH_KEY, HASH_MASK. rewrite HASH_SIZE_eq. change (8192 - 1) with (Z.ones 13).
  rewrite Z.land_ones by done. by apply Z.mod_pos_bound.
Qed.

Lemma start_range flags : 1 ≤ start flags < HASH_SIZE.
Proof.
  unfold start. pose proof (HASH_KEY_range flags). rewrite HASH_SIZE_eq in *. bool_cases; lia.
Qed.

Lemma slot_at_range flags j : 1 ≤ slot_at flags j < HASH_SIZE.
Proof.
  unfold slot_at. rewrite HASH_SIZE_eq.
  pose proof (Z.mod_pos_bound (start flags - 1 + j) (8192 - 1)). lia.
Qed.

Lemma slot_at_0 flags : slot_at flags 0 = start flags.
Proof.
  unfold slot_at. pose proof (start_range flags). rewrite HASH_SIZE_eq in *.
  rewrite Z.mod_small; lia.
Qed.

(** The wrap-around of the loop is the next slot. *)
Lemma slot_at_succ flags j :
  (let k := slot_at flags j + 1 in if (k =? 0) || (HASH_SIZE <=? k) then 1 else k)
  = slot_at flags (j + 1).
Proof.
  pose proof (slot_at_range flags j) as Hr. unfold slot_at in *. cbv zeta.
  rewrite HASH_SIZE_eq in *. set (a := start flags - 1 + j) in *.
  replace (start flags - 1 + (j + 1)) with (a + 1) by lia. clearbody a.
  bool_cases; simpl; Z.to_euclidean_division_equations; lia.
Qed.

(** Every slot but 0 is on the path, within [HASH_SIZE - 1] steps. *)
Lemma slot_at_surj flags k : 1 ≤ k < HASH_SIZE → ∃ j, 0 ≤ j < HASH_SIZE - 1 ∧ slot_at flags j = k.
Proof.
  intros Hk. pose proof (start_range flags) as Hs. unfold slot_at. rewrite HASH_SIZE_eq in *.
  exists ((k - start flags) `mod` (8192 - 1)).
  split; [apply Z.mod_pos_bound; lia|].
  Z.to_euclidean_division_equations; lia.
Qed.

(** What the search does: it stops at the first slot of the path that is free
    or holds the word, or finds none. *)
Lemma hash_probe_spec n k flags pf j :
  (if (k =? 0) || (HASH_SIZE <=? k) then 1 else k) = slot_at flags j →
  let busy i := at0 pf (slot_at flags i) ≠ 0 ∧ at0 pf (slot_at flags i) ≠ flags in
  (∃ i, j ≤ i < j + Z.of_nat n ∧ (∀ i', j ≤ i' < i → busy i')
    ∧ ((at0 pf (slot_at flags i) = 0
        ∧ hash_probe n k flags pf
          = Some (slot_at flags i, <[slot_at flags i := flags]> pf))
       ∨ (at0 pf (slot_at flags i) = flags ∧ at0 pf (slot_at flags i) ≠ 0
          ∧ hash_probe n k flags pf = Some (slot_at flags i, pf))))
  ∨ ((∀ i', j ≤ i' < j + Z.of_nat n → busy i') ∧ hash_probe n k flags pf = None).
Proof.
  cbv zeta. revert k j. induction n as [|n IH]; intros k j Hk.
  { right. split; [lia|done]. }
  cbn [hash_probe]. rewrite Hk. cbv zeta.
  destruct (Z.eqb_spec (at0 pf (slot_at flags j)) 0) as [E0|E0].
  { left. exists j. split; [lia|]. split; [lia|]. by left. }
  destruct (Z.eqb_spec (at0 pf (slot_at flags j)) flags) as [Ef|Ef].
  { left. exists j. split; [lia|]. split; [lia|]. by right. }
  destruct (IH (slot_at flags j + 1) (j + 1)) as [(i & Hi & Hb & H)|[Hb H]].
  { apply slot_at_succ. }
  - left. exists i. split; [lia|]. split; [|done]. intros i' Hi'.
    destruct (decide (i' = j)) as [->|]; [done|]. apply Hb. lia.
  - right. split; [|done]. intros i' Hi'.
    destruct (decide (i' = j)) as [->|]; [done|]. apply Hb. lia.
Qed.

(** ** The invariant of [page_flags] *)

(** Each word is in one slot at most, and every slot of its path before that
    slot is taken. *)
Definition table_wf (pf : gmap Z Z) : Prop :=
  ∀ k f, pf !! k = Some f →
    f ≠ 0 ∧ ∃ j, 0 ≤ j < HASH_SIZE - 1 ∧ slot_at f j = k
                 ∧ ∀ i, 0 ≤ i < j → at0 pf (slot_at f i) ≠ 0 ∧ at0 pf (slot_at f i) ≠ f.

Lemma table_wf_range pf k f : table_wf pf → pf !! k = Some f → 1 ≤ k < HASH_SIZE ∧ f ≠ 0.
Proof.
  intros Hwf Hk. destruct (Hwf k f Hk) as (Hf & j & _ & <- & _). split; [apply slot_at_range|done].
Qed.

Lemma at0_wf pf k f : table_wf pf → f ≠ 0 → at0 pf k = f ↔ pf !! k = Some f.
Proof.
  intros Hwf Hf. unfold at0. destruct (pf !! k) as [g|]; simpl; [|split; congruence].
  split; congruence.
Qed.

Lemma at0_wf_free pf k : table_wf pf → at0 pf k = 0 ↔ pf !! k = None.
Proof.
  intros Hwf. unfold at0. destruct (pf !! k) as [g|] eqn:E; simpl; [|done].
  destruct (table_wf_range pf k g Hwf E). split; [lia|done].
Qed.

(** A word is in one slot at most. *)
Lemma table_wf_unique pf k1 k2 f :
  table_wf pf → pf !! k1 = Some f → pf !! k2 = Some f → k1 = k2.
Proof.
  intros Hwf H1 H2.
  destruct (Hwf _ _ H1) as (Hf & j1 & Hj1 & E1 & P1), (Hwf _ _ H2) as (_ & j2 & Hj2 & E2 & P2).
  destruct (Z.lt_trichotomy j1 j2) as [Hlt|[->|Hlt]]; [|congruence|].
  - destruct (P2 j1) as [_ []]; [lia|]. rewrite E1. by apply at0_wf.
  - destruct (P1 j2) as [_ []]; [lia|]. rewrite E2. by apply at0_wf.
Qed.

Lemma at0_insert a k k' x : at0 (<[k := x]> a) k' = if decide (k = k') then x else at0 a k'.
Proof. unfold at0. rewrite lookup_insert. by case_decide. Qed.

(** Storing a word at the first free slot of its path. *)
Lemma table_wf_insert pf f j :
  table_wf pf → f ≠ 0 → 0 ≤ j < HASH_SIZE - 1 → at0 pf (slot_at f j) = 0 →
  (∀ i, 0 ≤ i < j → at0 pf (slot_at f i) ≠ 0 ∧ at0 pf (slot_at f i) ≠ f) →
  table_wf (<[slot_at f j := f]> pf).
Proof.
  intros Hwf Hf Hj Hfree Hpath k g Hk. rewrite lookup_insert in Hk. case_decide as Ek.
  - simplify_eq. split; [done|]. exists j. split; [done|]. split; [done|].
    intros i Hi. rewrite at0_insert. case_decide as E; [|by apply Hpath].
    destruct (Hpath i Hi). congruence.
  - destruct (Hwf _ _ Hk) as (Hg & j' & Hj' & Ej' & P). split; [done|].
    exists j'. split; [done|]. split; [done|]. intros i Hi. destruct (P i Hi).
    rewrite at0_insert. case_decide as E; [congruence|done].
Qed.

(** The three cases of [hash_slot] for a word other than 0. *)
Lemma hash_slot_cases f pf : table_wf pf → f ≠ 0 →
  (∃ k, pf !! k = Some f ∧ hash_slot f pf = Ok (k, pf))
  ∨ (∃ k, (∀ k', pf !! k' ≠ Some f) ∧ pf !! k = None ∧ 1 ≤ k < HASH_SIZE
      ∧ hash_slot f pf = Ok (k, <[k := f]> pf) ∧ table_wf (<[k := f]> pf))
  ∨ ((∀ k, 1 ≤ k < HASH_SIZE → is_Some (pf !! k)) ∧ (∀ k, pf !! k ≠ Some f)
     ∧ hash_slot f pf = fatal).
Proof.
  intros Hwf Hf. unfold hash_slot. destruct (Z.eqb_spec f 0); [done|].
  assert ((if (HASH_KEY f =? 0) || (HASH_SIZE <=? HASH_KEY f) then 1 else HASH_KEY f)
          = slot_at f 0) as Hs.
  { rewrite slot_at_0. unfold start. pose proof (HASH_KEY_range f). by bool_cases; simpl; try lia. }
  assert (Z.of_nat PROBES = HASH_SIZE - 1) as HP by done.
  assert (∀ i, 0 ≤ i → (∀ i', 0 ≤ i' < i → at0 pf (slot_at f i') ≠ 0 ∧ at0 pf (slot_at f i') ≠ f) →
    (at0 pf (slot_at f i) = 0 ∨ HASH_SIZE - 1 ≤ i) → ∀ k', pf !! k' ≠ Some f) as Habsent.
  { intros i Hi0 Hpath Hi k' Hk'. destruct (Hwf _ _ Hk') as (_ & j & Hj & Ej & P).
    destruct (Z.lt_trichotomy j i) as [Hlt|[->|Hlt]].
    - destruct (Hpath j) as [_ []]; [lia|]. rewrite Ej. by apply at0_wf.
    - apply (at0_wf pf) in Hk'; [|done..]. rewrite <- Ej in Hk'. lia.
    - destruct Hi as [Hi|]; [|lia]. destruct (P i) as [[] _]; [lia|done]. }
  destruct (hash_probe_spec PROBES (HASH_KEY f) f pf 0 Hs)
    as [(i & Hi & Hpath & [[E0 ->]|(Ef & _ & ->)])|[Hpath ->]]; rewrite HP in *.
  - right. left. exists (slot_at f i). split; [eapply Habsent; [|exact Hpath|by left]; lia|].
    split; [by apply at0_wf_free|]. split; [apply slot_at_range|]. split; [done|].
    by apply table_wf_insert.
  - left. exists (slot_at f i). split; [by apply at0_wf|done].
  - right. right. split; [|split; [|done]].
    + intros k Hk. destruct (slot_at_surj f k Hk) as (j & Hj & <-).
      destruct (Hpath j) as [Hb _]; [lia|].
      destruct (pf !! slot_at f j) eqn:E; [eauto|]. by apply at0_wf_free in E.
    + eapply (Habsent (HASH_SIZE - 1)); [done| |by right]. intros i' Hi'. apply Hpath. lia.
Qed.

(** ** The counter *)

Definition occ (f : Z) (l : list Z) : Z := Z.of_nat (length (filter (λ g, g = f) l)).
(** The words other than 0 of a list. *)
Definition distinct (l : list Z) : gset Z := list_to_set (filter (λ f, f ≠ 0) l).

Lemma occ_snoc f l g : occ f (l ++ [g]) = occ f l + (if decide (g = f) then 1 else 0).
Proof.
  unfold occ. rewrite filter_app, length_app, filter_cons. case_decide; simpl; lia.
Qed.

Lemma occ_bound f l : 0 ≤ occ f l ≤ Z.of_nat (length l).
Proof. unfold occ. pose proof (length_filter (λ g, g = f) l). lia. Qed.

Lemma occ_pos f l : f ∈ l ↔ 0 < occ f l.
Proof.
  unfold occ. split.
  - intros H. assert (f ∈ filter (λ g, g = f) l) as H' by (by apply list_elem_of_filter).
    destruct (filter (λ g, g = f) l); [by apply elem_of_nil in H'|simpl; lia].
  - intros H. destruct (filter (λ g, g = f) l) as [|g k] eqn:E; [done|].
    assert (g ∈ filter (λ g, g = f) l) as Hg by (rewrite E; left).
    apply list_elem_of_filter in Hg as [-> ?]. done.
Qed.

Lemma elem_of_slots k : k ∈ slots ↔ 0 ≤ k < HASH_SIZE.
Proof. unfold slots. by rewrite elem_of_seqZ, Z.add_0_l. Qed.

Lemma NoDup_slots : NoDup slots.
Proof. apply NoDup_seqZ. Qed.
#[global] Opaque slots.

(** The table [t] holds the counts of the words of [l]. *)
Record counts (t : hash_table) (l : list Z) : Prop := {
  c_wf : table_wf (page_flags t);
  c_mem : ∀ f, f ≠ 0 → f ∈ l ↔ ∃ k, page_flags t !! k = Some f;
  c_nr : ∀ k f, page_flags t !! k = Some f → at0 (nr_pages t) k = occ f l;
  c_zero : at0 (nr_pages t) 0 = occ 0 l;
  c_free : ∀ k, k ≠ 0 → page_flags t !! k = None → at0 (nr_pages t) k = 0;
  c_sum : zsum (at0 (nr_pages t) <$> slots) = Z.of_nat (length l);
  c_total : total_pages t = Z.of_nat (length l)
}.

Lemma zsum_at0_empty (l : list Z) : zsum (at0 ∅ <$> l) = 0.
Proof. induction l as [|x l IH]; [done|]. rewrite fmap_cons. simpl. by rewrite IH. Qed.

Lemma counts_empty : counts empty_table [].
Proof.
  split; try done; try apply zsum_at0_empty.
  intros f _. split; [by intros ?%elem_of_nil|]. by intros [k Hk].
Qed.

Lemma zsum_insert (a : gmap Z Z) (l : list Z) k x :
  NoDup l → k ∈ l →
  zsum (at0 (<[k := x]> a) <$> l) = zsum (at0 a <$> l) - at0 a k + x.
Proof.
  induction 1 as [|i l Hi Hnd IH]; [by intros ?%elem_of_nil|].
  rewrite elem_of_cons. intros Hk. rewrite !fmap_cons. simpl. rewrite at0_insert.
  case_decide as E.
  - subst i. assert (at0 (<[k:=x]> a) <$> l = at0 a <$> l) as ->; [|lia].
    apply list_fmap_ext. intros j y Hj. rewrite at0_insert. rewrite decide_False; [done|].
    intros <-. apply Hi. by eapply list_elem_of_lookup_2.
  - rewrite IH; [lia|]. by destruct Hk.
Qed.

(** Counting one more page of a word the table has a slot for. *)
Lemma counts_step t l f k pf :
  counts t l → Z.of_nat (length l) + 1 < 2 ^ 64 → 0 ≤ k < HASH_SIZE → table_wf pf →
  (∀ k' g, pf !! k' = Some g ↔ page_flags t !! k' = Some g ∨ (f ≠ 0 ∧ k' = k ∧ g = f)) →
  (f = 0 → k = 0) → (f ≠ 0 → pf !! k = Some f) → at0 (nr_pages t) k = occ f l →
  counts (HashTable (u64 (total_pages t + 1))
            (<[k := u64 (at0 (nr_pages t) k + 1)]> (nr_pages t)) pf) (l ++ [f]).
Proof.
  intros Hc Hlen Hk Hwf Hpf H0 H1 Hnr. pose proof (occ_bound f l) as Hocc.
  rewrite Hnr, (u64_small (occ f l + 1)) by (unfold is_u64; lia).
  rewrite (c_total _ _ Hc), u64_small by (unfold is_u64; lia).
  assert (∀ k' g, pf !! k' = Some g → k' = k ↔ g = f) as Hkey.
  { intros k' g Hg. pose proof (table_wf_range _ _ _ Hwf Hg) as [Hr Hgz]. split.
    - intros ->. destruct (decide (f = 0)) as [->|]; [|rewrite H1 in Hg; congruence].
      specialize (H0 eq_refl). lia.
    - intros ->. by eapply table_wf_unique; [| |apply H1]. }
  split; simpl; [done|..].
  - intros g Hg. rewrite elem_of_app, list_elem_of_singleton, (c_mem _ _ Hc g Hg).
    setoid_rewrite Hpf. naive_solver.
  - intros k' g Hg. rewrite at0_insert, occ_snoc. pose proof (Hkey k' g Hg) as Hkg.
    destruct (decide (k = k')) as [->|Hkk], (decide (f = g)) as [->|Hfg]; [done|..].
    + destruct Hfg. symmetry. by apply Hkg.
    + destruct Hkk. symmetry. by apply Hkg.
    + apply Hpf in Hg as [Hg|(_ & ? & _)]; [|congruence]. rewrite (c_nr _ _ Hc _ _ Hg). lia.
  - rewrite at0_insert, occ_snoc. destruct (decide (f = 0)) as [->|Hf].
    + rewrite decide_True; [lia|by apply H0].
    + rewrite decide_False; [rewrite (c_zero _ _ Hc); lia|]. intros ->.
      destruct (table_wf_range _ _ _ Hwf (H1 Hf)) as [? _]. lia.
  - intros k' Hk' Hnone. rewrite at0_insert, decide_False.
    + apply (c_free _ _ Hc); [done|]. destruct (page_flags t !! k') as [g|] eqn:E; [|done].
      assert (pf !! k' = Some g) by (apply Hpf; by left). congruence.
    + intros <-. destruct (decide (f = 0)) as [->|Hf]; [naive_solver|]. by rewrite H1 in Hnone.
  - rewrite (zsum_insert _ slots) by (apply NoDup_slots || by apply elem_of_slots).
    rewrite (c_sum _ _ Hc), length_app. simpl. lia.
  - rewrite length_app. simpl. lia.
Qed.

(** The number of distinct words is that of the slots in use. *)
Lemma counts_distinct t l : counts t l →
  (size (distinct l) ≤ Z.to_nat (HASH_SIZE - 1))%nat
  ∧ ((∀ k, 1 ≤ k < HASH_SIZE → is_Some (page_flags t !! k)) →
     size (distinct l) = Z.to_nat (HASH_SIZE - 1)).
Proof.
  intros Hc. set (vals := omap (λ k, page_flags t !! k) (seqZ 1 (HASH_SIZE - 1))).
  assert (distinct l = list_to_set vals) as ->.
  { apply set_eq. intros f. unfold distinct, vals.
    rewrite !elem_of_list_to_set, list_elem_of_filter, list_elem_of_omap. split.
    - intros [Hf Hin]. apply (c_mem _ _ Hc f Hf) in Hin as [k Hk]. exists k. split; [|done].
      apply elem_of_seqZ. pose proof (table_wf_range _ _ _ (c_wf _ _ Hc) Hk). lia.
    - intros (k & _ & Hk). destruct (table_wf_range _ _ _ (c_wf _ _ Hc) Hk) as [_ Hf].
      split; [done|]. apply (c_mem _ _ Hc f Hf). eauto. }
  assert (NoDup vals) as Hnd.
  { unfold vals. apply NoDup_omap; [|apply NoDup_seqZ]. intros k1 k2 f H1 H2.
    by eapply table_wf_unique; [apply Hc| |]. }
  rewrite size_list_to_set by done.
  assert (∀ ks, (length (omap (λ k, page_flags t !! k) ks) ≤ length ks)%nat
    ∧ (Forall (λ k, is_Some (page_flags t !! k)) ks →
       length (omap (λ k, page_flags t !! k) ks) = length ks)) as Hlen.
  { induction ks as [|k ks [IH1 IH2]]; [done|]. cbn [omap list_omap].
    destruct (page_flags t !! k) eqn:E; simpl; (split; [lia|]); inversion 1; subst.
    - f_equal. by apply IH2.
    - rewrite E in *. by destruct H2. }
  destruct (Hlen (seqZ 1 (HASH_SIZE - 1))) as [H1 H2]. rewrite length_seqZ in *.
  split; [done|]. intros Hfull. apply H2. apply Forall_forall. intros k Hk%elem_of_seqZ.
  apply Hfull. lia.
Qed.

(** One more word: it is counted, or the table is full of other words. *)
Lemma count_page_counts t l f :
  counts t l → Z.of_nat (length l) + 1 < 2 ^ 64 →
  (∃ t', count_page f t = Ok t' ∧ counts t' (l ++ [f]))
  ∨ (count_page f t = fatal
     ∧ (Z.to_nat (HASH_SIZE - 1) < size (distinct (l ++ [f])))%nat).
Proof.
  intros Hc Hlen. pose proof (c_wf _ _ Hc) as Hwf. unfold count_page.
  destruct (decide (f = 0)) as [->|Hf].
  - left. unfold hash_slot. simpl. eexists. split; [done|].
    apply counts_step; try done; [intuition congruence|by apply c_zero].
  - destruct (hash_slot_cases f _ Hwf Hf)
      as [(k & Hk & ->)|[(k & Hnew & Hfree & Hr & -> & Hwf')|(Hfull & Hnew & ->)]]; simpl.
    + left. eexists. split; [done|].
      destruct (table_wf_range _ _ _ Hwf Hk). apply counts_step; try done; [lia|naive_solver|].
      by apply (c_nr _ _ Hc).
    + left. eexists. split; [done|].
      apply counts_step; try done; [lia|..].
      * intros k' g. rewrite lookup_insert_Some. split.
        -- intros [[-> ->]|[? ?]]; auto.
        -- intros [Hg|(_ & -> & ->)]; [|auto]. right. split; [congruence|done].
      * intros _. apply lookup_insert_eq.
      * rewrite (c_free _ _ Hc) by (done || lia). pose proof (occ_pos f l) as Hp.
        rewrite (c_mem _ _ Hc f Hf) in Hp. pose proof (occ_bound f l).
        destruct (decide (occ f l = 0)); [done|]. destruct (proj2 Hp) as [k' Hk']; [lia|].
        by destruct (Hnew k').
    + right. split; [done|]. destruct (counts_distinct t l Hc) as [_ Hd]. rewrite <- Hd by done.
      assert (distinct (l ++ [f]) = {[f]} ∪ distinct l) as ->.
      { unfold distinct. apply set_eq. intros g.
        rewrite elem_of_union, elem_of_singleton, !elem_of_list_to_set, !list_elem_of_filter,
          elem_of_app, list_elem_of_singleton. naive_solver. }
      rewrite size_union, size_singleton; [lia|].
      intros g ->%elem_of_singleton. unfold distinct.
      rewrite elem_of_list_to_set, list_elem_of_filter, (c_mem _ _ Hc f Hf).
      intros [_ [k Hk]]. by destruct (Hnew k).
Qed.

Lemma count_pages_counts l t l0 :
  counts t l0 → Z.of_nat (length (l0 ++ l)) < 2 ^ 64 →
  (∃ t', count_pages l t = Ok t' ∧ counts t' (l0 ++ l))
  ∨ (count_pages l t = fatal ∧ (Z.to_nat (HASH_SIZE - 1) < size (distinct (l0 ++ l)))%nat).
Proof.
  revert t l0. induction l as [|f l IH]; intros t l0 Hc Hlen; cbn [count_pages].
  { left. exists t. by rewrite app_nil_r. }
  rewrite length_app in Hlen. simpl in Hlen.
  destruct (count_page_counts t l0 f Hc) as [(t' & -> & Hc')|[-> Hsize]]; [lia|..]; simpl.
  - replace (l0 ++ f :: l) with ((l0 ++ [f]) ++ l) by (by rewrite <- app_assoc).
    apply IH; [done|]. rewrite !length_app. simpl. lia.
  - right. split; [done|]. eapply Nat.lt_le_trans; [exact Hsize|]. apply subseteq_size.
    intros g. unfold distinct. rewrite !elem_of_list_to_set, !list_elem_of_filter, !elem_of_app.
    rewrite !elem_of_cons, elem_of_nil. tauto.
Qed.

Lemma counts_rows t l f c : counts t l →
  (f, c) ∈ summary_rows t ↔ f ∈ l ∧ c = occ f l.
Proof.
  intros Hc. unfold summary_rows. rewrite list_elem_of_omap. pose proof (c_wf _ _ Hc) as Hwf.
  assert (at0 (page_flags t) 0 = 0) as H0.
  { apply at0_wf_free; [done|]. destruct (page_flags t !! 0) eqn:E; [|done].
    destruct (table_wf_range _ _ _ Hwf E) as [? _]. lia. }
  split.
  - intros (k & Hk & Hrow). destruct (nz _) eqn:Hnz; [|done]. simplify_eq. apply nz_spec in Hnz.
    destruct (decide (k = 0)) as [->|Hk0].
    + rewrite H0, (c_zero _ _ Hc) in *. pose proof (occ_bound 0 l). rewrite occ_pos. split; [lia|done].
    + destruct (page_flags t !! k) as [g|] eqn:E; [|by rewrite (c_free _ _ Hc) in Hnz].
      assert (at0 (page_flags t) k = g) as -> by (unfold at0; by rewrite E).
      rewrite (c_nr _ _ Hc _ _ E). split; [|done].
      apply (c_mem _ _ Hc); [by eapply table_wf_range|]. eauto.
  - intros [Hin ->]. pose proof (proj1 (occ_pos f l) Hin) as Hp.
    destruct (decide (f = 0)) as [->|Hf].
    + exists 0. rewrite elem_of_slots, H0, (c_zero _ _ Hc).
      rewrite (proj2 (nz_spec _)) by lia. by split.
    + apply (c_mem _ _ Hc f Hf) in Hin as [k Hk]. exists k.
      rewrite elem_of_slots, (c_nr _ _ Hc _ _ Hk), (proj2 (nz_spec _)) by lia.
      rewrite (proj2 (at0_wf _ _ _ Hwf Hf) Hk). destruct (table_wf_range _ _ _ Hwf Hk).
      split; [lia|done].
Qed.

Lemma counts_rows_NoDup t l : counts t l → NoDup (summary_rows t).*1.
Proof.
  intros Hc. pose proof (c_wf _ _ Hc) as Hwf.
  assert ((summary_rows t).*1 =
    omap (λ i, if nz (at0 (nr_pages t) i) then Some (at0 (page_flags t) i) else None) slots) as ->.
  { unfold summary_rows. generalize slots as ks. induction ks as [|k ks IH]; [done|].
    cbn [omap list_omap]. destruct (nz _); [|done]. rewrite fmap_cons. by rewrite IH. }
  apply NoDup_omap; [|apply NoDup_slots]. intros k1 k2 f H1 H2.
  destruct (nz (at0 (nr_pages t) k1)) eqn:N1, (nz (at0 (nr_pages t) k2)) eqn:N2; simplify_eq.
  apply nz_spec in N1, N2.
  assert (∀ k, at0 (nr_pages t) k ≠ 0 → at0 (page_flags t) k = 0 → k = 0) as Hz.
  { intros k Hk Hfree. destruct (decide (k = 0)); [done|]. destruct Hk.
    apply (c_free _ _ Hc); [done|]. by apply at0_wf_free. }
  destruct (decide (at0 (page_flags t) k1 = 0)) as [E|E].
  - rewrite (Hz k1), (Hz k2) by congruence. done.
  - eapply (table_wf_unique (page_flags t)); [done|by apply at0_wf|].
    apply at0_wf; [done|done|congruence].
Qed.

Lemma summary_rows_sum t : zsum (summary_rows t).*2 = zsum (at0 (nr_pages t) <$> slots).
Proof.
  unfold summary_rows. generalize slots as ks. induction ks as [|k ks IH]; [done|].
  cbn [omap list_omap]. rewrite fmap_cons. unfold nz at 1.
  destruct (Z.eqb_spec (at0 (nr_pages t) k) 0) as [->|]; simpl; by rewrite <- IH.
Qed.

(** The words of [l] counted from the empty table. *)
Lemma count_pages_ok l :
  Z.of_nat (length l) < 2 ^ 64 → (size (distinct l) ≤ Z.to_nat (HASH_SIZE - 1))%nat →
  ∃ t, count_pages l empty_table = Ok t ∧ counts t l.
Proof.
  intros Hlen Hd. destruct (count_pages_counts l empty_table [] counts_empty Hlen)
    as [(t & Ht & Hc)|[_ Hsize]]; simpl in *; [eauto|lia].
Qed.

(** C5: the open-addressing table counts.  After any sequence of fewer than
    2^64 page words, if they hold at most 8191 distinct words other than 0
    the rows of the summary are exactly the distinct words, each once, with
    the number of pages that carry it, and the rows add up to the total line;
    with more distinct words the program ends with the table-full error. *)
Theorem count_pages_histogram (l : list Z) :
  Z.of_nat (length l) < 2 ^ 64 →
  if decide (size (distinct l) ≤ Z.to_nat (HASH_SIZE - 1))%nat then
    ∃ t, count_pages l empty_table = Ok t
         ∧ NoDup (summary_rows t).*1
         ∧ (∀ f c, (f, c) ∈ summary_rows t ↔ f ∈ l ∧ c = occ f l)
         ∧ zsum (summary_rows t).*2 = total_pages t
         ∧ total_pages t = Z.of_nat (length l)
  else count_pages l empty_table = fatal.
Proof.
  intros Hlen. case_decide as Hd.
  - destruct (count_pages_ok l Hlen Hd) as (t & Ht & Hc).
    exists t. split; [done|]. split; [by eapply counts_rows_NoDup|].
    split; [intros; by apply counts_rows|].
    by rewrite summary_rows_sum, (c_sum _ _ Hc), (c_total _ _ Hc).
  - destruct (count_pages_counts l empty_table [] counts_empty Hlen)
      as [(t & Ht & Hc)|[Hfatal _]]; [|done].
    destruct (counts_distinct _ _ Hc) as [? _]. by destruct Hd.
Qed.

Lemma count_pages_histogram_witness :
  Z.of_nat (length [5; 0; 8197; 5]) < 2 ^ 64
  ∧ ∃ t, count_pages [5; 0; 8197; 5] empty_table = Ok t
         ∧ (5, 2) ∈ summary_rows t ∧ (8197, 1) ∈ summary_rows t ∧ total_pages t = 4.
Proof.
  split; [done|].
  pose proof (count_pages_histogram [5; 0; 8197; 5] ltac:(done)) as H.
  destruct (decide _) as [_|Hn]; [|exfalso; apply Hn; by vm_compute; lia].
  destruct H as (t & Ht & _ & Hrows & _ & Htot). exists t. rewrite !Hrows.
  split; [done|]. split; [by split; [left|]|]. split; [|done].
  split; [|done]. by apply (bool_decide_unpack _); vm_compute.
Defined.
