(* ===== verification/PageWalk.v ===== *)
(** * PageWalk: reading the page files, listing pages and the page walkers

    [do_u64_read] and its two users, the actions of [add_page] on one page,
    and the loops that visit pages: [walk_pfn] over page frames, [walk_vma]
    over the pages of a mapping, [walk_task] over the mappings of a process.
    The kernel is a parameter: what each [pread] and each [write] gives, which
    may change from one call to the next. *)
From Stdlib Require Import String Sorted.
From S2P Require Import Prelude CLib PageFlags PageHash.

(** ** The kernel's side *)

(** The descriptors: [kpageflags_fd], [pagemap_fd]; [hwpoison_inject_fd],
    [hwpoison_forget_fd]. *)
Inductive rfd := kpageflags_fd | pagemap_fd.
Inductive wfd := hwpoison_inject_fd | hwpoison_forget_fd.

Class kernel := {
  (** The [n]-th [pread(fd, buf, bytes, off)]: what it returns, and the whole
      64-bit words it stored. *)
  k_pread : nat → rfd → Z → Z → Z * list Z;
  (** What the [n]-th [write] of a text returns. *)
  k_write : nat → wfd → cstr → Z
}.

(** ** The state *)

Record opts := Opts {
  opt_raw : Z;
  opt_list : Z;
  opt_no_summary : Z;
  opt_pid : Z;
  opt_file : option cstr;
  addr_ranges : list (Z * Z);     (* opt_offset and opt_size, nr_addr_ranges *)
  vmas : list (Z * Z);            (* pg_start and pg_end, nr_vmas *)
  bit_filters : list (Z * Z);     (* opt_mask and opt_bits, nr_bit_filters *)
  opt_hwpoison : Z;
  opt_unpoison : Z;
  page_size : Z
}.

(** What the program writes, the statics of [show_page_range] and the table. *)
Record pt := PT {
  stdout : list cstr;             (* one element per [printf] *)
  perrors : list cstr;            (* the arguments of [perror] *)
  written : list (wfd * cstr);
  flags0 : Z; voff : Z; r_index : Z; r_count : Z;
  table : hash_table
}.
Definition pt0 : pt := PT [] [] [] 0 0 0 0 empty_table.

Definition print (text : cstr) : prog pt unit :=
  p_modify (λ s, PT (stdout s ++ [text]) (perrors s) (written s)
                   (flags0 s) (voff s) (r_index s) (r_count s) (table s)).
Definition perror (what : cstr) : prog pt unit :=
  p_modify (λ s, PT (stdout s) (perrors s ++ [what]) (written s)
                   (flags0 s) (voff s) (r_index s) (r_count s) (table s)).
Definition set_range (f v i c : Z) : prog pt unit :=
  p_modify (λ s, PT (stdout s) (perrors s) (written s) f v i c (table s)).
Definition set_table (t : hash_table) : prog pt unit :=
  p_modify (λ s, PT (stdout s) (perrors s) (written s)
                   (flags0 s) (voff s) (r_index s) (r_count s) t).

(** The walkers also count the reads they have made. *)
Definition walk : Type := nat * pt.
Definition lift {A} (p : prog pt A) : prog walk A :=
  λ w, let '(r, s) := p w.2 in (r, (w.1, s)).

(** ** Listing pages *)

(** The [voffset] columns: hexadecimal for a process, decimal for a file. *)
Definition show_voff (o : opts) (v : Z) : prog pt unit :=
  p_when (nz (opt_pid o)) (print (fmt_x v ++ [TAB]));;
  p_when (is_Some_b (opt_file o)) (print (fmt_u v ++ [TAB])).

Definition show_page_range (o : opts) (voffset offset size flags : Z) : prog pt unit :=
  s ← p_get;
  if (flags =? flags0 s) && (offset =? u64 (r_index s + r_count s)) && nz size
     && (voffset =? u64 (voff s + r_count s))
  then set_range (flags0 s) (voff s) (r_index s) (u64 (r_count s + size))
  else
    p_when (nz (r_count s))
      (show_voff o (voff s);;
       name ← p_lift (page_flag_name (flags0 s));
       print (fmt_x (r_index s) ++ TAB :: fmt_x (r_count s) ++ TAB :: name ++ [NL]));;
    set_range flags voffset offset size.

Definition flush_page_range (o : opts) : prog pt unit := show_page_range o 0 0 0 0.

Definition show_page (o : opts) (voffset offset flags : Z) : prog pt unit :=
  show_voff o voffset;;
  name ← p_lift (page_flag_name flags);
  print (fmt_x offset ++ TAB :: name ++ [NL]).

Definition pages2mb (o : opts) (pages : Z) : Z := u64 (pages * page_size o) .>> 20.

(** ["%*lu"] and ["%0*llx"] *)
Definition fmt_right (w : nat) (fill : ascii) (s : cstr) : cstr :=
  replicate (w - length s) fill ++ s.

Definition summary_head : cstr :=
  lit "             flags" ++ TAB :: lit "page-count       MB  symbolic-flags"
  ++ [TAB; TAB; TAB] ++ lit "long-symbolic-flags" ++ [NL].

Definition summary_row (o : opts) (flags n : Z) : res cstr :=
  name ← page_flag_name flags;
  longname ← page_flag_longname flags;
  Ok (lit "0x" ++ fmt_right 16 "0" (fmt_x flags) ++ TAB :: fmt_right 10 " " (fmt_u n)
      ++ " "%char :: fmt_right 8 " " (fmt_u (pages2mb o n)) ++ lit "  "
      ++ name ++ TAB :: longname ++ [NL]).

Definition summary_total (o : opts) (n : Z) : cstr :=
  lit "             total" ++ TAB :: fmt_right 10 " " (fmt_u n)
  ++ " "%char :: fmt_right 8 " " (fmt_u (pages2mb o n)) ++ [NL].

Definition show_summary (o : opts) : prog pt unit :=
  print summary_head;;
  s ← p_get;
  p_for slots (λ i,
    p_when (nz (at0 (nr_pages (table s)) i))
      (text ← p_lift (summary_row o (at0 (page_flags (table s)) i) (at0 (nr_pages (table s)) i));
       print text));;
  print (summary_total o (total_pages (table s))).

(** ** Walking *)

Section Walk.
Context `{K : kernel} (o : opts).

(** The text both actions write, and what they do when [write] fails. *)
Definition write_pfn (fd : wfd) (what : cstr) (offset : Z) : prog pt unit :=
  s ← p_get;
  let text := lit "0x" ++ fmt_x offset ++ [NL] in
  let len := i32 (k_write (length (written s)) fd text) in
  p_modify (λ s, PT (stdout s) (perrors s) (written s ++ [(fd, text)])
                   (flags0 s) (voff s) (r_index s) (r_count s) (table s));;
  p_when (len <? 0) (perror what).
Definition hwpoison_page := write_pfn hwpoison_inject_fd (lit "hwpoison inject").
Definition unpoison_page := write_pfn hwpoison_forget_fd (lit "hwpoison forget").

Definition add_page (voffset offset flags pme : Z) : prog pt unit :=
  let flags := kpageflags_flags (opt_raw o) flags pme in
  if negb (bit_mask_ok (bit_filters o) flags) then mret () else
  p_when (nz (opt_hwpoison o)) (hwpoison_page offset);;
  p_when (nz (opt_unpoison o)) (unpoison_page offset);;
  (if opt_list o =? 1 then show_page_range o voffset offset 1 flags
   else if opt_list o =? 2 then show_page o voffset offset flags
   else mret ());;
  s ← p_get;
  t ← p_lift (count_page flags (table s));
  set_table t.

(** [index * 8] is computed in [off_t], a signed 64-bit type. *)
Definition do_u64_read (fd : rfd) (index count : Z) : prog walk (Z * list Z) := λ w,
  if ULONG_MAX / 8 <? index then (fatal, w)
  else if LLONG_MAX <? index * 8 then (Undef, w)
  else
    let '(bytes, buf) := k_pread w.1 fd (u64 (count * 8)) (index * 8) in
    let w := (S w.1, w.2) in
    if bytes <? 0 then (Exit EXIT_FAILURE, w)
    else if nz (Z.rem bytes 8) then (fatal, w)
    else (Ok (bytes / 8, buf), w).
Definition kpageflags_read := do_u64_read kpageflags_fd.
Definition pagemap_read := do_u64_read pagemap_fd.

(** [buf[i]]: an element the read did not fill is not initialised. *)
Definition buf_at (buf : list Z) (i : Z) : res Z :=
  match buf !! Z.to_nat i with Some x => Ok x | None => Undef end.

Definition KPAGEFLAGS_BATCH : Z := 64 .<< 10.
Definition PAGEMAP_BATCH : Z := 64 .<< 10.

(** The loops end when a read gives nothing: [fuel] bounds the iterations. *)
Fixpoint walk_pfn (fuel : nat) (voffset index count pme : Z) : prog walk unit :=
  match fuel with
  | O => p_nofuel
  | S fuel =>
      if count =? 0 then mret () else
      let batch := Z.min count KPAGEFLAGS_BATCH in
      '(pages, buf) ← kpageflags_read index batch;
      if pages =? 0 then mret () else
      p_for (seqZ 0 pages) (λ i,
        flags ← p_lift (buf_at buf i);
        lift (add_page (u64 (voffset + i)) (u64 (index + i)) flags pme));;
      walk_pfn fuel voffset (u64 (index + pages)) (u64 (count - pages)) pme
  end.

(** What [walk_vma] does with one entry of the pagemap: the walk of one page,
    which takes at most two tests of [count]. *)
Definition walk_pme (v pme : Z) : prog walk unit :=
  let pfn := pagemap_pfn pme in
  p_when (nz pfn) (walk_pfn 2 v pfn 1 pme).

Fixpoint walk_vma (fuel : nat) (index count : Z) : prog walk unit :=
  match fuel with
  | O => p_nofuel
  | S fuel' =>
      if count =? 0 then mret () else
      let batch := Z.min count PAGEMAP_BATCH in
      '(pages, buf) ← pagemap_read index batch;
      if pages =? 0 then mret () else
      p_for (seqZ 0 pages) (λ i,
        pme ← p_lift (buf_at buf i);
        walk_pme (u64 (index + i)) pme);;
      walk_vma fuel' (u64 (index + pages)) (u64 (count - pages))
  end.
End Walk.

(** [walk_task] over what it does with a piece of a mapping. *)
Section Task.
Context {S : Type} (f : Z → Z → prog S unit).

(** [while (pg_end[i] <= index) if (++i >= nr_vmas) return;]: the mappings
    from [i] on.  The arrays are static: with no mapping at all, [pg_end[0]]
    is 0, and the function returns. *)
Fixpoint skip_vmas (l : list (Z * Z)) (index : Z) : list (Z * Z) :=
  match l with
  | [] => []
  | (_, pg_end) :: l' => if pg_end <=? index then skip_vmas l' index else l
  end.

(** The abort of a failed [assert]: the shell's view of SIGABRT. *)
Definition ABORTED : Z := 134.

Fixpoint walk_task_loop (fuel : nat) (l : list (Z * Z)) (index end_ : Z) : prog S unit :=
  match fuel with
  | O => p_nofuel
  | Datatypes.S fuel =>
      if index <? end_ then
        match skip_vmas l index with
        | [] => mret ()
        | ((pg_start, pg_end) :: _) as l =>
            if end_ <=? pg_start then mret () else
            let start := Z.max pg_start index in
            let index := Z.min pg_end end_ in
            if start <? index then
              f start (index - start);; walk_task_loop fuel l index end_
            else p_exit ABORTED
        end
      else mret ()
  end.
Definition walk_task (l : list (Z * Z)) (index count : Z) : prog S unit :=
  walk_task_loop (length l + 2) l index (u64 (index + count)).
End Task.

(** ** A kernel whose page files do not change during the run *)

(** The page files as [content], [size] words long.  Each read may be short:
    it gives some of the words asked for, and none only at the end. *)
Class snapshot (K : kernel) (size : rfd → Z) (content : rfd → Z → Z) : Prop := {
  snapshot_size fd : 0 ≤ size fd ∧ size fd * 8 ≤ LLONG_MAX;
  snapshot_read t fd c i :
    0 < c ≤ KPAGEFLAGS_BATCH → 0 ≤ i → i * 8 ≤ LLONG_MAX →
    ∃ n, k_pread t fd (c * 8) (i * 8) = (n * 8, content fd <$> seqZ i n)
         ∧ 0 ≤ n ≤ c ∧ n ≤ Z.max 0 (size fd - i) ∧ (i < size fd → 0 < n)
}.

(** [p] does what [q] does, whatever the number of reads made. *)
Definition reads {A} (p : prog walk A) (q : prog pt A) : Prop :=
  ∀ n s, ∃ n', p (n, s) = ((q s).1, (n', (q s).2)).

#[export] Instance reads_proper {A} :
  Proper (prog_eq ==> prog_eq ==> iff) (@reads A).
Proof.
  intros p p' Hp q q' Hq. split; intros H n s; destruct (H n s) as [n' E]; exists n'.
  - by rewrite <- Hp, <- Hq.
  - by rewrite Hp, Hq.
Qed.

Lemma reads_lift {A} (p : prog pt A) : reads (lift p) p.
Proof. intros n s. exists n. unfold lift. simpl. by destruct (p s). Qed.

Lemma reads_ret {A} (a : A) : reads (mret a) (mret a).
Proof. intros n s. by exists n. Qed.

Lemma reads_bind {A B} (p : prog walk A) q (f : A → prog walk B) g :
  reads p q → (∀ a, reads (f a) (g a)) → reads (p ≫= f) (q ≫= g).
Proof.
  intros Hp Hf n s. unfold mbind, prog_bind. destruct (Hp n s) as [n1 ->].
  destruct (q s) as [[a| | |] s1]; simpl; eauto. apply Hf.
Qed.

Lemma reads_for {A} (l : list A) (f : A → prog walk unit) g :
  (∀ a, a ∈ l → reads (f a) (g a)) → reads (p_for l f) (p_for l g).
Proof.
  induction l as [|a l IH]; intros H; simpl; [apply reads_ret|].
  apply reads_bind; [apply H; by left|]. intros _. apply IH. intros b Hb. apply H. by right.
Qed.

Lemma buf_at_seqZ (h : Z → Z) i n k : 0 ≤ k < n →
  buf_at (h <$> seqZ i n) k = Ok (h (i + k)).
Proof.
  intros Hk. unfold buf_at. rewrite list_lookup_fmap, lookup_seqZ_lt by lia. simpl.
  by rewrite Z2Nat.id by lia.
Qed.

Section Snapshot.
Context {K : kernel} {size : rfd → Z} {content : rfd → Z → Z}.
Context {Hsnap : snapshot K size content} (o : opts).

(** One read: some words, none only at the end of the file. *)
Lemma do_u64_read_snapshot fd i c w :
  0 < c ≤ KPAGEFLAGS_BATCH → 0 ≤ i → i * 8 ≤ LLONG_MAX →
  ∃ n, do_u64_read fd i c w = (Ok (n, content fd <$> seqZ i n), (S w.1, w.2))
       ∧ 0 ≤ n ≤ c ∧ n ≤ Z.max 0 (size fd - i) ∧ (i < size fd → 0 < n).
Proof.
  intros Hc Hi H8. destruct (snapshot_read (snapshot:=Hsnap) w.1 fd c i Hc Hi H8) as (n & Hr & Hn).
  exists n. split; [|done]. unfold do_u64_read.
  change KPAGEFLAGS_BATCH with 65536 in Hc. change LLONG_MAX with 9223372036854775807 in *.
  change (ULONG_MAX / 8) with 2305843009213693951.
  rewrite (u64_small (c * 8)) by (unfold is_u64; lia). rewrite Hr.
  destruct (Z.ltb_spec 2305843009213693951 i); [lia|].
  destruct (Z.ltb_spec 9223372036854775807 (i * 8)); [lia|].
  destruct (Z.ltb_spec (n * 8) 0); [lia|].
  by rewrite Z.rem_mul, Z.div_mul by done.
Qed.

(** *** walk_pfn *)

(** The page frames [walk_pfn] visits. *)
Definition pfns (index count : Z) : list Z :=
  seqZ 0 (Z.max 0 (Z.min count (size kpageflags_fd - index))).

(** The visit of the page frame [index + i], under the voffset [vo i]. *)
Definition visit_pfn (vo : Z → Z) (index pme i : Z) : prog pt unit :=
  add_page o (vo i) (index + i) (content kpageflags_fd (index + i)) pme.

Lemma batch_visits n voffset index pme :
  0 ≤ voffset → voffset + n < 2 ^ 64 → 0 ≤ index → index + n < 2 ^ 64 →
  reads (p_for (seqZ 0 n) (λ i,
           flags ← p_lift (buf_at (content kpageflags_fd <$> seqZ index n) i);
           lift (add_page o (u64 (voffset + i)) (u64 (index + i)) flags pme)))
        (p_for (seqZ 0 n) (visit_pfn (λ i, voffset + i) index pme)).
Proof.
  intros. apply reads_for. intros i Hi%elem_of_seqZ.
  rewrite buf_at_seqZ by lia. rewrite !u64_small by (unfold is_u64; lia). apply reads_lift.
Qed.

Lemma walk_pfn_reads fuel voffset index count pme :
  0 ≤ count → 0 ≤ voffset → voffset + count < 2 ^ 64 →
  0 ≤ index → index * 8 ≤ LLONG_MAX → index + count < 2 ^ 64 →
  (length (pfns index count) < fuel)%nat →
  ∀ nr s, ∃ nr' vo,
    (∀ i, 0 ≤ i → voffset ≤ vo i ≤ voffset + i) ∧
    let q := p_for (pfns index count) (visit_pfn vo index pme) s in
    walk_pfn o fuel voffset index count pme (nr, s) = (q.1, (nr', q.2)).
Proof.
  revert index count. induction fuel as [|fuel IH];
    intros index count Hc Hv Hvc Hi Hi8 Hic Hfuel nr s; [lia|]. cbn [walk_pfn].
  destruct (Z.eqb_spec count 0) as [->|Hne].
  { exists nr, (λ i, voffset + i). split; [lia|]. unfold pfns. by rewrite Z.max_l by lia. }
  set (batch := Z.min count KPAGEFLAGS_BATCH).
  assert (0 < batch ≤ KPAGEFLAGS_BATCH) as Hb.
  { unfold batch, KPAGEFLAGS_BATCH. change (64 .<< 10) with 65536. lia. }
  destruct (do_u64_read_snapshot kpageflags_fd index batch (nr, s)) as (n & Hr & Hn & Hns & Hpos);
    [done..|].
  unfold kpageflags_read. rewrite (p_bind_ok _ _ _ _ _ Hr). simpl.
  destruct (Z.eqb_spec n 0) as [->|Hn0].
  { exists (S nr), (λ i, voffset + i). split; [lia|]. unfold pfns.
    by rewrite Z.max_l by (destruct (Z.lt_ge_cases index (size kpageflags_fd)); lia). }
  pose proof (snapshot_size kpageflags_fd) as [_ Hsize].
  assert (n ≤ count) by (unfold batch in *; lia).
  rewrite !(u64_small (_ + n)), (u64_small (count - n)) by (unfold is_u64; lia).
  assert (pfns index count = seqZ 0 n ++ (Z.add n <$> pfns (index + n) (count - n))) as Hsplit.
  { unfold pfns. rewrite fmap_add_seqZ, Z.add_0_r.
    rewrite <- (seqZ_app 0 n) by lia. f_equal. lia. }
  rewrite Hsplit in *. rewrite length_app, length_fmap, length_seqZ in Hfuel.
  destruct (batch_visits n voffset index pme ltac:(lia) ltac:(lia) ltac:(lia) ltac:(lia) (S nr) s)
    as [nr1 H1].
  set (p1 := p_for (seqZ 0 n) (visit_pfn (λ i, voffset + i) index pme)) in *.
  destruct (IH (index + n) (count - n)) with (nr := nr1) (s := (p1 s).2)
    as (nr2 & vo & Hvo & H2); try lia.
  exists (if p1 s is (Ok _, _) then nr2 else nr1), (λ i, if i <? n then voffset + i else vo (i - n)).
  split; [intros i Hi0; specialize (Hvo (i - n)); destruct (Z.ltb_spec i n); lia|].
  rewrite p_for_app. cbv zeta. rewrite !p_bind_run, H1.
  rewrite (p_for_ext (seqZ 0 n) _ (visit_pfn (λ i, voffset + i) index pme)).
  2:{ intros i Hi'%elem_of_seqZ s'. unfold visit_pfn. by destruct (Z.ltb_spec i n); [|lia]. }
  fold p1. destruct (p1 s) as [[[]| | |] s1]; simpl in *; [|done..]. rewrite H2, p_for_fmap.
  match goal with |- context [p_for ?l ?f s1] =>
    assert (p_for l f ≡p p_for l (visit_pfn vo (index + n) pme)) as Hext; [|by rewrite (Hext s1)]
  end.
  apply p_for_ext. intros i Hi' s'. unfold pfns in Hi'. apply elem_of_seqZ in Hi'. unfold visit_pfn.
  destruct (Z.ltb_spec (n + i) n); [lia|]. by rewrite Z.add_simpl_l, Z.add_assoc.
Qed.

(** *** walk_vma *)

(** The visit of the virtual page [v] whose pagemap entry is [pme]. *)
Definition visit_pme (v pme : Z) : prog pt unit :=
  let pfn := pagemap_pfn pme in
  p_when (nz pfn && (pfn <? size kpageflags_fd))
    (add_page o v pfn (content kpageflags_fd pfn) pme).
Definition visit_page (v : Z) : prog pt unit := visit_pme v (content pagemap_fd v).

Lemma pagemap_pfn_range pme : 0 ≤ pagemap_pfn pme < 2 ^ 55.
Proof.
  unfold pagemap_pfn. destruct (nz _); [|done]. unfold PM_PFRAME.
  change PM_PFRAME_MASK with (Z.ones 55). rewrite Z.land_ones by done. by apply Z.mod_pos_bound.
Qed.

Lemma walk_pme_reads v pme : 0 ≤ v → v + 1 < 2 ^ 64 → reads (walk_pme o v pme) (visit_pme v pme).
Proof.
  intros Hv Hv1. unfold walk_pme, visit_pme. cbv zeta. pose proof (pagemap_pfn_range pme) as Hpfn.
  destruct (nz (pagemap_pfn pme)); cbn [andb p_when]; [|apply reads_ret]. intros nr s.
  set (pfn := pagemap_pfn pme) in *.
  assert (pfns pfn 1 = if pfn <? size kpageflags_fd then [0] else []) as Hp.
  { unfold pfns. destruct (Z.ltb_spec pfn (size kpageflags_fd)).
    - by replace (Z.max 0 _) with 1 by lia.
    - by replace (Z.max 0 _) with 0 by lia. }
  destruct (walk_pfn_reads 2 v pfn 1 pme) with (nr := nr) (s := s) as (nr' & vo & Hvo & ->);
    rewrite ?Hp; unfold LLONG_MAX; try lia; [by destruct (_ <? _); simpl; lia|].
  exists nr'. cbv zeta. destruct (pfn <? size kpageflags_fd); [|done].
  assert (p_for [0] (visit_pfn vo pfn pme) s
    = add_page o v pfn (content kpageflags_fd pfn) pme s) as ->; [|done].
  cbn [p_for]. rewrite p_bind_run. unfold visit_pfn. rewrite Z.add_0_r.
  replace (vo 0) with v by (specialize (Hvo 0); lia).
  by destruct (add_page _ _ _ _ _ s) as [[[]| | |] ?].
Qed.

Lemma walk_vma_reads fuel index count :
  0 ≤ count → 0 ≤ index → index + count ≤ size pagemap_fd → (Z.to_nat count < fuel)%nat →
  reads (walk_vma o fuel index count) (p_for (seqZ index count) visit_page).
Proof.
  pose proof (snapshot_size pagemap_fd) as [_ Hsize]. unfold LLONG_MAX in Hsize.
  revert index count. induction fuel as [|fuel IH]; intros index count Hc Hi Hic Hfuel nr s; [lia|].
  cbn [walk_vma]. destruct (Z.eqb_spec count 0) as [->|Hne]; [apply reads_ret|].
  set (batch := Z.min count PAGEMAP_BATCH).
  assert (0 < batch ≤ KPAGEFLAGS_BATCH) as Hb.
  { unfold batch, PAGEMAP_BATCH, KPAGEFLAGS_BATCH. change (64 .<< 10) with 65536. lia. }
  destruct (do_u64_read_snapshot pagemap_fd index batch (nr, s)) as (n & Hr & Hn & Hns & Hpos);
    [done|done|unfold LLONG_MAX; lia|].
  unfold pagemap_read. rewrite (p_bind_ok _ _ _ _ _ Hr). simpl.
  destruct (Z.eqb_spec n 0) as [->|Hn0]; [lia|].
  rewrite !(u64_small (_ + n)), (u64_small (count - n)) by (unfold is_u64; lia).
  assert (seqZ index count = seqZ index n ++ seqZ (index + n) (count - n)) as ->
    by (rewrite <- seqZ_app by lia; f_equal; lia).
  assert (reads (p_for (seqZ 0 n) (λ i,
            pme ← p_lift (buf_at (content pagemap_fd <$> seqZ index n) i);
            walk_pme o (u64 (index + i)) pme))
          (p_for (seqZ index n) visit_page)) as H1.
  { rewrite (p_for_shift index n visit_page).
    apply reads_for. intros i Hi'%elem_of_seqZ. rewrite buf_at_seqZ by lia.
    rewrite u64_small by (unfold is_u64; lia). apply walk_pme_reads; lia. }
  rewrite p_for_app. apply (reads_bind _ _ _ _ H1). intros _. apply IH; lia.
Qed.
End Snapshot.

(** *** walk_task *)

(** The pages of the mappings, and the pieces of them in [index, end_). *)
Definition vma_pages (l : list (Z * Z)) : list Z := l ≫= λ '(s, e), seqZ s (e - s).
Definition vmas_ok (l : list (Z * Z)) : Prop :=
  Forall (λ '(s, e), 0 ≤ s < e) l ∧ StronglySorted (λ a b, a.2 ≤ b.1) l.
Definition in_range (index end_ v : Z) : Prop := index ≤ v < end_.
#[export] Instance in_range_dec index end_ v : Decision (in_range index end_ v).
Proof. unfold in_range. apply _. Defined.

Lemma filter_seqZ index end_ s n :
  0 ≤ n → filter (in_range index end_) (seqZ s n)
  = seqZ (Z.max s index) (Z.min (s + n) end_ - Z.max s index).
Proof.
  intros Hn. rewrite <- (Z2Nat.id n) by done. generalize (Z.to_nat n) as k. clear n Hn.
  induction k as [|k IH].
  { by rewrite (seqZ_nil (Z.max s index)) by lia. }
  rewrite seqZ_S, filter_app, IH, filter_cons, filter_nil.
  destruct (decide _) as [Hin|Hin]; unfold in_range in Hin.
  - rewrite Z.max_comm.
    replace (Z.min (s + Z.of_nat (S k)) end_ - Z.max index s)
      with (Z.of_nat (S (Z.to_nat (Z.min (s + Z.of_nat k) end_ - Z.max index s)))) by lia.
    rewrite seqZ_S, Z2Nat.id by lia. f_equal. f_equal. lia.
  - rewrite app_nil_r. destruct (decide (Z.min (s + Z.of_nat k) end_ - Z.max s index ≤ 0)).
    + by rewrite !seqZ_nil by lia.
    + f_equal. lia.
Qed.

Lemma filter_vma_pages_after index end_ l :
  Forall (λ '(s, e), 0 ≤ s < e) l → Forall (λ b, end_ ≤ b.1) l →
  filter (in_range index end_) (vma_pages l) = [].
Proof.
  induction 1 as [|[s e] l Hse Hl IH]; [done|]. inversion 1; subst; simpl in *.
  rewrite filter_app, IH by done. rewrite filter_seqZ, seqZ_nil by lia. done.
Qed.

Lemma skip_vmas_spec l index end_ : vmas_ok l →
  vmas_ok (skip_vmas l index) ∧ (length (skip_vmas l index) ≤ length l)%nat
  ∧ filter (in_range index end_) (vma_pages (skip_vmas l index))
    = filter (in_range index end_) (vma_pages l)
  ∧ (∀ s e l', skip_vmas l index = (s, e) :: l' → index < e).
Proof.
  intros [Hl Hs]. induction Hl as [|[s e] l Hse Hl IH]; [done|].
  apply StronglySorted_inv in Hs as [Hs Hhd]. cbn [skip_vmas].
  destruct (Z.leb_spec e index).
  - destruct IH as (? & ? & Hf & ?); [done|]. split; [done|]. split; [simpl; lia|]. split; [|done].
    rewrite Hf. cbn [vma_pages mbind list_bind]. rewrite filter_app, filter_seqZ by lia.
    by rewrite seqZ_nil by lia.
  - split; [split; constructor; done|]. split; [done|]. split; [done|]. by intros ??? [= _ <- _].
Qed.

(** Moving the start of the range past the end of the first mapping. *)
Lemma filter_vma_pages_step s e l index end_ :
  vmas_ok ((s, e) :: l) → index < e → s < end_ → index < end_ →
  filter (in_range index end_) (vma_pages ((s, e) :: l))
  = seqZ (Z.max s index) (Z.min e end_ - Z.max s index)
    ++ filter (in_range (Z.min e end_) end_) (vma_pages ((s, e) :: l)).
Proof.
  intros [Hl Hs] He Hend Hi. apply StronglySorted_inv in Hs as [Hs Hhd].
  inversion Hl as [|? ? Hse Hl']; subst. cbn [vma_pages mbind list_bind].
  rewrite !filter_app, !filter_seqZ by lia. rewrite (seqZ_nil (Z.max s (Z.min e end_))) by lia.
  rewrite app_nil_l. f_equal; [f_equal; lia|].
  apply filter_ext_in. intros v Hv. apply list_elem_of_bind in Hv as ([s' e'] & Hv & Hin).
  rewrite Forall_forall in Hhd, Hl'. apply elem_of_seqZ in Hv. specialize (Hhd _ Hin).
  specialize (Hl' _ Hin). unfold in_range. simpl in *. lia.
Qed.

Definition task_measure (l : list (Z * Z)) (index end_ : Z) : nat :=
  if index <? end_ then S (length (skip_vmas l index)) else 0.

Lemma walk_task_loop_reads (f : Z → Z → prog walk unit) (g : Z → prog pt unit) fuel l index end_ :
  (∀ s e, (s, e) ∈ l → ∀ a n, s ≤ a → 0 < n → a + n ≤ e →
     reads (f a n) (p_for (seqZ a n) g)) →
  vmas_ok l → (task_measure l index end_ < fuel)%nat →
  reads (walk_task_loop f fuel l index end_)
        (p_for (filter (in_range index end_) (vma_pages l)) g).
Proof.
  revert l index. induction fuel as [|fuel IH]; intros l index Hf Hok Hfuel; [lia|].
  cbn [walk_task_loop]. unfold task_measure in Hfuel. destruct (Z.ltb_spec index end_).
  2:{ destruct (filter _ _) as [|v r] eqn:E; [apply reads_ret|].
      assert (v ∈ v :: r) as Hv by left. rewrite <- E, list_elem_of_filter in Hv.
      unfold in_range in Hv. lia. }
  destruct (skip_vmas_spec l index end_ Hok) as (Hok' & Hlen & Hfilter & Hhd).
  assert (∀ x, x ∈ skip_vmas l index → x ∈ l) as Hsub.
  { clear. induction l as [|[s e] l IH]; [done|]. cbn [skip_vmas].
    destruct (e <=? index); [|done]. intros x Hx. right. by apply IH. }
  rewrite <- Hfilter. destruct (skip_vmas l index) as [|[s e] l'] eqn:E; [apply reads_ret|].
  specialize (Hhd s e l' eq_refl).
  assert (0 ≤ s < e) as Hse by (destruct Hok' as [Hl _]; by inversion Hl).
  destruct (Z.leb_spec end_ s).
  { rewrite filter_vma_pages_after; [apply reads_ret|apply Hok'|].
    destruct Hok' as [_ Hs]. apply StronglySorted_inv in Hs as [_ Hs]. constructor; [done|].
    eapply Forall_impl; [exact Hs|]. simpl. intros ??. lia. }
  destruct (Z.ltb_spec (Z.max s index) (Z.min e end_)); [|lia].
  rewrite filter_vma_pages_step by done. rewrite p_for_app. apply reads_bind.
  - apply (Hf s e); [apply Hsub; by left|lia..].
  - intros _. apply IH; [|done|].
    + intros s1 e1 Hin. apply Hf. by apply Hsub.
    + unfold task_measure. destruct (Z.ltb_spec (Z.min e end_) end_); [|lia].
      rewrite Z.min_l by lia. cbn [skip_vmas]. rewrite Z.leb_refl.
      assert (length (skip_vmas l' e) ≤ length l')%nat; [|simpl in *; lia].
      destruct Hok' as [Hl Hs]. apply StronglySorted_inv in Hs as [Hs _].
      inversion Hl; subst. by apply (skip_vmas_spec l' e 0).
Qed.

(** C12: page-types -p visits each page of the process's mappings that lies in
    the requested range exactly once, in address order, and adds the page
    frames that are present: whatever sizes the reads come in, the walk of the
    mappings is the loop over those pages. *)
Theorem walk_task_visits K size content (Hsnap : snapshot K size content) o fuel index count :
  vmas_ok (vmas o) →
  Forall (λ '(_, e), e ≤ size pagemap_fd ∧ (Z.to_nat e < fuel)%nat) (vmas o) →
  0 ≤ index → 0 ≤ count → index + count < 2 ^ 64 →
  reads (walk_task (walk_vma o fuel) (vmas o) index count)
        (p_for (filter (in_range index (index + count)) (vma_pages (vmas o)))
               (visit_page (size := size) (content := content) o)).
Proof.
  intros Hok Hvmas Hi Hc Hic. unfold walk_task. rewrite u64_small by (unfold is_u64; lia).
  apply walk_task_loop_reads; [|done|].
  - intros s e Hin a n Ha Hn Han. rewrite Forall_forall in Hvmas.
    destruct (Hvmas _ Hin). destruct Hok as [Hl _]. rewrite Forall_forall in Hl.
    specialize (Hl _ Hin). simpl in Hl. apply (walk_vma_reads (Hsnap := Hsnap)); lia.
  - unfold task_measure. destruct (index <? _); [|lia].
    pose proof (skip_vmas_spec (vmas o) index 0 Hok) as (_ & ? & _). lia.
Qed.

(** ** A concrete kernel: files of words, read as far as they go *)

Definition file_kernel (fsize : rfd → Z) (content : rfd → Z → Z) : kernel := {|
  k_pread _ fd bytes off :=
    let n := Z.max 0 (Z.min (bytes / 8) (fsize fd - off / 8)) in
    (n * 8, content fd <$> seqZ (off / 8) n);
  k_write _ _ text := Z.of_nat (length text)
|}.

Lemma file_kernel_snapshot fsize content :
  (∀ fd, 0 ≤ fsize fd ∧ fsize fd * 8 ≤ LLONG_MAX) →
  snapshot (file_kernel fsize content) fsize content.
Proof.
  intros Hsize. split; [done|]. intros t fd c i Hc Hi Hi8. simpl.
  rewrite !Z.div_mul by done. eexists. split; [done|]. lia.
Qed.

(** A process with two mappings on a machine of 16 page frames. *)
Definition demo_size (fd : rfd) : Z := match fd with kpageflags_fd => 16 | pagemap_fd => 64 end.
Definition demo_content (fd : rfd) (i : Z) : Z :=
  match fd with kpageflags_fd => BIT KPF_LRU | pagemap_fd => PM_PRESENT .| (i / 4) end.
Definition demo_opts : opts := Opts 0 0 0 7 None [] [(8, 12); (40, 50)] [] 0 0 4096.

Lemma demo_snapshot : snapshot (file_kernel demo_size demo_content) demo_size demo_content.
Proof. apply file_kernel_snapshot. by intros []. Qed.

Lemma walk_task_visits_witness :
  vmas_ok (vmas demo_opts)
  ∧ reads (walk_task (walk_vma (K := file_kernel demo_size demo_content) demo_opts 51) (vmas demo_opts) 10 32)
      (p_for [10; 11; 40; 41]
         (visit_page (K := file_kernel demo_size demo_content) (size := demo_size) (content := demo_content) demo_opts)).
Proof.
  assert (vmas_ok (vmas demo_opts)) as H.
  { split; [by apply (bool_decide_unpack _); vm_compute|]. repeat constructor. simpl. lia. }
  split; [done|].
  exact (walk_task_visits _ _ _ demo_snapshot demo_opts 51 10 32 H
           ltac:(repeat constructor; simpl; lia) ltac:(lia) ltac:(lia) ltac:(done)).
Defined.
