(* ===== verification/PageList.v ===== *)
(** * PageList: the ranges page-types lists

    [show_page_range] folds the pages it is given into ranges and prints a
    range when it is complete; [flush_page_range] prints the last one.  The
    contract is a run-length encoding: the printed rows expand back to the
    pages, and no two consecutive rows could have been one. *)
From Stdlib Require Import String.
From S2P Require Import Prelude CLib PageFlags PageHash PageWalk.

(** A page as listed: voffset, offset and flags; a row adds the length. *)
Abbreviation page := (Z * Z * Z)%type.
Record row := Row { row_voff : Z; row_index : Z; row_count : Z; row_flags : Z }.

Definition expand_row (r : row) : list page :=
  (λ k, (row_voff r + k, row_index r + k, row_flags r)) <$> seqZ 0 (row_count r).

Lemma expand_row_one v i f : expand_row (Row v i 1 f) = [(v, i, f)].
Proof.
  unfold expand_row. cbn [row_voff row_index row_flags row_count].
  change (seqZ 0 1) with [0]. by rewrite list_fmap_singleton, !Z.add_0_r.
Qed.

(** [r2] goes on where [r1] stops. *)
Definition continues (r1 r2 : row) : Prop :=
  row_flags r2 = row_flags r1 ∧ row_index r2 = row_index r1 + row_count r1
  ∧ row_voff r2 = row_voff r1 + row_count r1.

(** No row is empty and none continues the one before it. *)
Fixpoint maximal (rows : list row) : Prop :=
  match rows with
  | [] => True
  | r :: rows' =>
      0 < row_count r
      ∧ match rows' with [] => True | r2 :: _ => ¬ continues r r2 end
      ∧ maximal rows'
  end.

(** What is printed for a row. *)
Definition row_text (o : opts) (r : row) : list cstr :=
  (if nz (opt_pid o) then [fmt_x (row_voff r) ++ [TAB]] else [])
  ++ (if is_Some_b (opt_file o) then [fmt_u (row_voff r) ++ [TAB]] else [])
  ++ [fmt_x (row_index r) ++ TAB :: fmt_x (row_count r) ++ TAB
      :: flag_columns flag_indices (row_flags r) ++ [NL]].

Definition page_ok (p : page) : Prop :=
  let '(v, i, f) := p in
  0 ≤ v < ULONG_MAX ∧ 0 ≤ i < ULONG_MAX ∧ unnamed_bits f = [].

(** The state after [text] was printed and the current range set to [r]. *)
Definition listing (s : pt) (text : list cstr) (r : row) : pt :=
  PT (stdout s ++ text) (perrors s) (written s)
     (row_flags r) (row_voff r) (row_index r) (row_count r) (table s).
Definition row0 : row := Row 0 0 0 0.

Definition show_pages (o : opts) (pages : list page) : prog pt unit :=
  p_for pages (λ '(v, i, f), show_page_range o v i 1 f).

Lemma show_row o s text r v i c f :
  unnamed_bits (row_flags r) = [] → row_count r ≠ 0 →
  (f =? row_flags r) && (i =? u64 (row_index r + row_count r)) && nz c
    && (v =? u64 (row_voff r + row_count r)) = false →
  show_page_range o v i c f (listing s text r) =
  (Ok (), listing s (text ++ row_text o r) (Row v i c f)).
Proof.
  intros Hf Hc Hne. unfold show_page_range. rewrite p_bind_run. cbn [p_get listing flags0 voff r_index r_count].
  rewrite Hne. rewrite (proj2 (nz_spec _) Hc). cbn [p_when].
  unfold p_lift. rewrite page_flag_name_eq, Hf, decide_True by done.
  unfold show_voff, row_text, p_when, mbind, prog_bind.
  destruct (nz (opt_pid o)), (is_Some_b (opt_file o)); unfold listing; cbn;
    by rewrite <- ?app_assoc.
Qed.

(** The rows the pages make when the current range is [r]. *)
Lemma show_pages_rows o s pages text r :
  Forall page_ok pages → unnamed_bits (row_flags r) = [] →
  0 ≤ row_voff r → 0 ≤ row_index r → 0 < row_count r →
  row_voff r + row_count r < 2 ^ 64 → row_index r + row_count r < 2 ^ 64 →
  ∃ c rows r',
    maximal (Row (row_voff r) (row_index r) c (row_flags r) :: rows)
    ∧ (Row (row_voff r) (row_index r) c (row_flags r) :: rows) ≫= expand_row = expand_row r ++ pages
    ∧ show_pages o pages (listing s text r)
      = (Ok (), listing s (text ++ (removelast (Row (row_voff r) (row_index r) c (row_flags r) :: rows)
                                   ≫= row_text o)) r')
    ∧ list.last (Row (row_voff r) (row_index r) c (row_flags r) :: rows) = Some r' ∧ unnamed_bits (row_flags r') = [].
Proof.
  intros Hp. revert text r. induction Hp as [|[[v i] f] pages (Hv & Hi & Hf) Hp IH];
    intros text r Hr Hv0 Hi0 Hc Hvc Hic.
  - exists (row_count r), [], r. destruct r; simpl in *. rewrite !app_nil_r.
    repeat split; try done.
  - unfold ULONG_MAX, umax in *. unfold show_pages. cbn [p_for].
    destruct ((f =? row_flags r) && (i =? u64 (row_index r + row_count r)) && nz 1
       && (v =? u64 (row_voff r + row_count r))) eqn:E.
    + rewrite !u64_small in E by (unfold is_u64; lia).
      rewrite !andb_true_iff, !Z.eqb_eq in E. destruct E as (((-> & ->) & _) & ->).
      destruct (IH text (Row (row_voff r) (row_index r) (row_count r + 1) (row_flags r)))
        as (c & rows & r' & Hm & Hx & Hs & Hl); cbn [row_voff row_index row_flags row_count]; try done; try lia.
      cbn [row_voff row_index row_flags row_count] in *.
      exists c, rows, r'. split; [done|]. split; [|split; [|done]].
      * rewrite Hx. unfold expand_row. cbn [row_voff row_index row_flags row_count].
        rewrite seqZ_app, fmap_app, <- app_assoc by lia. done.
      * rewrite <- Hs. unfold show_pages. rewrite p_bind_run. unfold show_page_range.
        rewrite p_bind_run. cbn [p_get listing flags0 voff r_index r_count].
        rewrite !u64_small by (unfold is_u64; lia). by rewrite !Z.eqb_refl.
    + rewrite (p_bind_ok _ _ _ _ _ (show_row o s text r v i 1 f Hr ltac:(lia) E)).
      destruct (IH (text ++ row_text o r) (Row v i 1 f)) as (c & rows & r' & Hm & Hx & Hs & Hl);
        cbn [row_voff row_index row_flags row_count]; try done; try lia.
      cbn [row_voff row_index row_flags row_count] in *.
      exists (row_count r), (Row v i c f :: rows), r'. destruct r as [rv ri rc rf].
      cbn [row_voff row_index row_flags row_count] in *. split; [|split; [|split; [|done]]].
      * split; [done|]. split; [|done]. unfold continues. simpl. intros (-> & -> & ->).
        rewrite !u64_small, !Z.eqb_refl in E by (unfold is_u64; lia). done.
      * rewrite expand_row_one in Hx. cbn [mbind list_bind] in *. by rewrite Hx.
      * unfold show_pages in Hs. rewrite Hs. cbn [removelast mbind list_bind].
        by rewrite app_assoc.
Qed.

Lemma maximal_last rows r : maximal rows → list.last rows = Some r → 0 < row_count r.
Proof.
  induction rows as [|r1 rows IH]; [done|]. intros (Hc & _ & Hm).
  destruct rows as [|r2 rows]; [by intros [= <-]|]. by apply IH.
Qed.

Lemma removelast_last {A} (l : list A) x : list.last l = Some x → l = removelast l ++ [x].
Proof.
  induction l as [|y l IH]; [done|]. destruct l as [|z l]; [by intros [= <-]|].
  intros H. cbn [removelast app]. f_equal. by apply IH.
Qed.

(** C23: [--list] is a run-length encoding.  From an empty range, showing any
    pages in ranges and flushing prints rows that expand back to exactly those
    pages in order, none empty and none continuing the row before it, and
    leaves the range empty again. *)
Theorem show_page_range_rle o s pages :
  Forall page_ok pages → r_count s = 0 → flags0 s = 0 → voff s = 0 → r_index s = 0 →
  ∃ rows, rows ≫= expand_row = pages ∧ maximal rows
    ∧ (p_for pages (λ '(v, i, f), show_page_range o v i 1 f);; flush_page_range o) s
      = (Ok (), listing s (rows ≫= row_text o) row0).
Proof.
  intros Hp Hc Hf Hv Hi.
  assert (∀ v i f, show_page_range o v i 1 f s = (Ok (), listing s [] (Row v i 1 f))) as Hfirst.
  { intros v i f. unfold show_page_range. rewrite p_bind_run. cbn [p_get].
    rewrite Hc, Hf, Hv, Hi. change (u64 (0 + 0)) with 0. change (u64 (0 + 1)) with 1.
    unfold listing. rewrite app_nil_r. destruct s. simpl in *.
    by destruct (Z.eqb_spec f 0) as [->|], (Z.eqb_spec i 0) as [->|], (Z.eqb_spec v 0) as [->|]. }
  destruct Hp as [|[[v i] f] pages (Hv' & Hi' & Hf') Hp].
  - exists []. split; [done|]. split; [done|]. unfold listing. destruct s. simpl in *. subst.
    unfold flush_page_range, show_page_range. cbn. by rewrite app_nil_r.
  - unfold ULONG_MAX, umax in *.
    destruct (show_pages_rows o s pages [] (Row v i 1 f)) as (c & rows & r' & Hm & Hx & Hs & Hl & Hr');
      cbn [row_voff row_index row_flags row_count]; try done; try lia.
    cbn [row_voff row_index row_flags row_count] in *. exists (Row v i c f :: rows).
    split; [|split; [done|]].
    { by rewrite Hx, expand_row_one. }
    cbn [p_for]. rewrite p_bind_assoc, p_bind_run, Hfirst, p_bind_run.
    unfold show_pages in Hs. rewrite Hs. unfold flush_page_range.
    assert (row_count r' ≠ 0) as Hr0 by (pose proof (maximal_last _ _ Hm Hl); lia).
    rewrite show_row by (done || by rewrite andb_false_r). do 2 f_equal.
    rewrite (removelast_last _ _ Hl) at 2. rewrite bind_app. cbn. by rewrite app_nil_r.
Qed.

Lemma show_page_range_rle_witness :
  Forall page_ok [(0, 0, 0); (1, 1, 0); (2, 2, BIT KPF_DIRTY); (7, 3, BIT KPF_DIRTY)]
  ∧ ∃ rows, rows ≫= expand_row = [(0, 0, 0); (1, 1, 0); (2, 2, BIT KPF_DIRTY); (7, 3, BIT KPF_DIRTY)]
            ∧ maximal rows.
Proof.
  assert (Forall page_ok [(0, 0, 0); (1, 1, 0); (2, 2, BIT KPF_DIRTY); (7, 3, BIT KPF_DIRTY)]) as H
    by (repeat constructor; by vm_compute).
  split; [done|].
  destruct (show_page_range_rle (Opts 0 1 0 0 None [] [] [] 0 0 4096) pt0 _ H eq_refl eq_refl
    eq_refl eq_refl) as (rows & Hx & Hm & _).
  by exists rows.
Defined.
