(* ===== verification/PageMain.v ===== *)
(** * PageMain: arguments, address ranges and the main program of page-types

    The parsing of the address ranges and of /proc/<pid>/maps, the walk of the
    ranges and of a file's page cache, the search for debugfs, and [main]. *)
From Stdlib Require Import String.
From S2P Require Import Prelude CLib Getopt PageFlags PageHash PageWalk PageList.

(** ** The rest of the system *)

(** A piece of a file mapped by [walk_file]: its address, and the address of
    the fault if touching its cached pages raises SIGBUS. *)
Record mapping := Mapping { m_ptr : Z; m_sigbus : option Z }.
Record fstat := Stat { st_size : Z; st_ino : Z; st_atime : Z; st_mtime : Z }.
(** What [nftw] calls [walk_tree] with: a regular file or another one (both
    FTW_F), a directory it cannot read, anything else. *)
Inductive ftw := FTW_F_reg | FTW_F_other | FTW_DNR | FTW_other.
(** What [stat] finds: a regular file, a directory with what [nftw] goes
    through and whether it succeeds, or another type. *)
Inductive file_type := S_IFREG (st : fstat) | S_IFDIR (tree : list (cstr * ftw * fstat)) (ok : bool) | S_IFOTHER.

Class system := {
  sys_kernel :: kernel;
  s_open : cstr → bool;                       (* [open] of a path succeeds *)
  s_read : cstr → option cstr;                (* [fopen] and the contents *)
  s_stat : cstr → option file_type;
  s_statfs : cstr → option Z;                 (* the type of a file system *)
  s_getenv : cstr → option cstr;
  s_mount : cstr → bool;
  (** [mmap] at an offset of a file, [mincore] and [madvise] of what it gave,
      [time]: the number is that of the reads of the page files before. *)
  s_mmap : nat → cstr → Z → Z → option mapping;
  s_mincore : nat → Z → Z → bool;
  s_madvise : nat → Z → Z → bool;
  s_time : nat → Z;
  s_strftime : Z → cstr;                      (* [strftime("%c", localtime(t))] *)
  s_pagesize : Z
}.

(** ** Address ranges *)

Definition MAX_ADDR_RANGES : nat := 1024.
Definition add_addr_range (l : list (Z * Z)) (offset size : Z) : res (list (Z * Z)) :=
  if (MAX_ADDR_RANGES <=? length l)%nat then fatal
  else Ok (l ++ [(offset, Z.min size (u64 (ULONG_MAX - offset)))]).

Definition parse_addr_range (l : list (Z * Z)) (optarg : cstr) : res (list (Z * Z)) :=
  let p := match strchr optarg "," with
           | Some p => Some p
           | None => strchr optarg "+"
           end in
  match p with
  | Some p =>
      if (length p =? length optarg)%nat then
        size ← parse_number (tail p); add_addr_range l 0 size
      else
        offset ← parse_number optarg;
        if bool_decide (chr0 (tail p) = NUL) then add_addr_range l offset ULONG_MAX
        else
          size ← parse_number (tail p);
          if bool_decide (chr0 p = ","%char) then
            if size <? offset then fatal else add_addr_range l offset (size - offset)
          else add_addr_range l offset size
  | None => offset ← parse_number optarg; add_addr_range l offset 1
  end.

(** ** The mappings of a process *)

(** [%lx] and [%x] (base 16) and [%lu] (base 10) of [scanf]: the value and the rest. *)
Fixpoint digits_rest (base : Z) (s : cstr) : cstr :=
  match s with
  | c :: s' => if is_digit base c then digits_rest base s' else s
  | [] => []
  end.
Definition scan_num (base : Z) (s : cstr) : option (Z * cstr) :=
  let '(neg, s1) := read_sign (skip_spaces s) in
  let '(b, s2) := read_base base s1 in
  if is_digit b (chr0 s2) then
    let m := read_digits b 0 s2 in
    Some (if ULONG_MAX <? m then ULONG_MAX else if neg then u64 (- m) else m, digits_rest b s2)
  else None.
Definition scan_char (c : ascii) (s : cstr) : option cstr :=
  match s with a :: s' => if decide (a = c) then Some s' else None | [] => None end.
(** Four [%c]. *)
Definition scan_perms (s : cstr) : option cstr :=
  match s with _ :: _ :: _ :: _ :: s' => Some s' | _ => None end.

(** [sscanf(buf, "%lx-%lx %c%c%c%c %llx %x:%x %lu", ...)]: the two addresses,
    when all ten conversions succeed. *)
Definition sscanf_maps (buf : cstr) : option (Z * Z) :=
  '(vm_start, s) ← scan_num 16 buf;
  s ← scan_char "-" s;
  '(vm_end, s) ← scan_num 16 s;
  s ← scan_perms (skip_spaces s);
  '(_, s) ← scan_num 16 s;
  '(_, s) ← scan_num 16 s;
  s ← scan_char ":" s;
  '(_, s) ← scan_num 16 s;
  '(_, _) ← scan_num 10 s;
  Some (vm_start, vm_end).

Definition MAX_VMAS : nat := 10240.
Definition MAPS_BUF : nat := 5000.

(** The loop over the lines of /proc/<pid>/maps. *)
Fixpoint read_maps (fuel : nat) (page_size : Z) (file : cstr) (vmas : list (Z * Z))
  : res (list (Z * Z)) :=
  match fuel with
  | O => NoFuel
  | S fuel =>
      match fgets MAPS_BUF file with
      | None => Ok vmas
      | Some buf =>
          let file := drop (length buf) file in
          match sscanf_maps buf with
          | None => read_maps fuel page_size file vmas
          | Some (vm_start, vm_end) =>
              (* the arrays may be full from an earlier -p *)
              if (MAX_VMAS <=? length vmas)%nat then Undef else
              let vmas := vmas ++ [(vm_start / page_size, vm_end / page_size)] in
              if (MAX_VMAS <=? length vmas)%nat then Ok vmas
              else read_maps fuel page_size file vmas
          end
      end
  end.

(** ** debugfs *)

Definition PATH_MAX : Z := 4096.
Definition DEBUGFS_MAGIC : Z := 0x64626720.
Definition DEBUGFS_DEFAULT_PATH : cstr := lit "/sys/kernel/debug".
Definition debugfs_known_mountpoints : list cstr := [lit "/sys/kernel/debug"; lit "/debug"].

(** [%Ns] of [scanf]: a token of at most [w] characters, and the rest. *)
Fixpoint token_rest (w : nat) (s : cstr) : cstr * cstr :=
  match w, s with
  | S w, c :: s' => if isspace c then ([], s) else let '(t, r) := token_rest w s' in (c :: t, r)
  | _, _ => ([], s)
  end.
Definition scan_token (w : nat) (s : cstr) : option (cstr * cstr) :=
  let '(t, r) := token_rest w (skip_spaces s) in
  match t with [] => None | _ => Some (t, r) end.

Section System.
Context `{Sys : system}.

Definition ENOENT : Z := 2.
Definition valid_mountpoint (mount : cstr) (magic : Z) : Z :=
  match s_statfs mount with
  | None => - ENOENT
  | Some f_type => if f_type =? magic then 0 else - ENOENT
  end.

(** The rest of a line after the type: ["%*s %*d %*d\n"], which stops where a
    conversion fails. *)
Definition mounts_rest (s : cstr) : cstr :=
  match scan_token (length s) s with
  | None => s
  | Some (_, s1) =>
      match scan_num 10 s1 with
      | None => s1
      | Some (_, s2) => match scan_num 10 s2 with None => s2 | Some (_, s3) => skip_spaces s3 end
      end
  end.

(** The lines of /proc/mounts until one of the type wanted: the mount point
    and the type read last.  Both buffers keep what a failed [fscanf] stored;
    [type] is not initialised before. *)
Fixpoint scan_mounts (fuel : nat) (fstype : cstr) (len : Z) (s : cstr)
    (mountpoint : cstr) (type : option cstr) : res (cstr * option cstr) :=
  match fuel with
  | O => NoFuel
  | S fuel =>
      match scan_token (length s) s with
      | None => Ok (mountpoint, type)
      | Some (_, s1) =>
          match scan_token (Z.to_nat len) s1 with
          | None => Ok (mountpoint, type)
          | Some (m, s2) =>
              if len <=? Z.of_nat (length m) then Undef (* the NUL is stored past the array *)
              else match scan_token 99 s2 with
              | None => Ok (m, type)
              | Some (t, s3) =>
                  if strcmp_eq t fstype then Ok (m, Some t)
                  else scan_mounts fuel fstype len (mounts_rest s3) m (Some t)
              end
          end
      end
  end.

(** What it returns (null or the buffer) and the buffer after the call. *)
Definition find_mountpoint (fstype : cstr) (magic : Z) (mountpoint : cstr) (len : Z)
    (known_mountpoints : list cstr) : res (bool * cstr) :=
  match filter (λ m, valid_mountpoint m magic = 0) known_mountpoints with
  | m :: _ => Ok (true, take (Z.to_nat (len - 1)) m)
  | [] =>
      match s_read (lit "/proc/mounts") with
      | None => Ok (false, mountpoint)
      | Some text =>
          '(m, type) ← scan_mounts (S (length text)) fstype len text mountpoint None;
          match type with
          | None => Undef
          | Some type => Ok (strcmp_eq type fstype, m)
          end
      end
  end.

(** [debugfs_mountpoint] and [debugfs_found] are the state. *)
Definition debugfs_state : Type := cstr * bool.
Definition debugfs0 : debugfs_state := (DEBUGFS_DEFAULT_PATH, false).

Definition debugfs_find_mountpoint (st : debugfs_state) : res (option cstr * debugfs_state) :=
  let '(m, found) := st in
  if found then Ok (Some m, st)
  else
    '(ret, m) ← find_mountpoint (lit "debugfs") DEBUGFS_MAGIC m (PATH_MAX + 1)
                  debugfs_known_mountpoints;
    Ok (match ret with true => Some m | false => None end, (m, ret)).

Definition debugfs_mount (mountpoint : option cstr) (st : debugfs_state)
  : res (option cstr * debugfs_state) :=
  '(ret, st) ← debugfs_find_mountpoint st;
  match ret with
  | Some _ => Ok (Some st.1, st)
  | None =>
      let mountpoint :=
        match mountpoint with
        | Some m => m
        | None => default DEBUGFS_DEFAULT_PATH (s_getenv (lit "PERF_DEBUGFS_DIR"))
        end in
      if s_mount mountpoint then Ok (Some mountpoint, (mountpoint, true)) else Ok (None, st)
  end.

Definition checked_open (path : cstr) : res unit :=
  if s_open path then Ok () else Exit EXIT_FAILURE.

(** [hwpoison_inject_fd] and [hwpoison_forget_fd] are 0 until opened. *)
Record hwpoison_fds := Fds { fds_debugfs : debugfs_state; inject_open : bool; forget_open : bool }.
Definition fds0 : hwpoison_fds := Fds debugfs0 false false.

Definition MAX_PATH : nat := 256.
Definition prepare_hwpoison_fd (o : opts) (h : hwpoison_fds) : res hwpoison_fds :=
  '(dir, st) ← debugfs_mount None (fds_debugfs h);
  match dir with
  | None => Exit EXIT_FAILURE
  | Some dir =>
      inject ← (if nz (opt_hwpoison o) && negb (inject_open h)
                then _ ← checked_open (snprintf MAX_PATH (dir ++ lit "/hwpoison/corrupt-pfn"));
                     Ok true
                else Ok (inject_open h));
      forget ← (if nz (opt_unpoison o) && negb (forget_open h)
                then _ ← checked_open (snprintf MAX_PATH (dir ++ lit "/hwpoison/unpoison-pfn"));
                     Ok true
                else Ok (forget_open h));
      Ok (Fds st inject forget)
  end.

(** ** Options *)

Definition with_pid (o : opts) (pid : Z) (l : list (Z * Z)) : opts :=
  Opts (opt_raw o) (opt_list o) (opt_no_summary o) pid (opt_file o) (addr_ranges o) l
       (bit_filters o) (opt_hwpoison o) (opt_unpoison o) (page_size o).
Definition with_file (o : opts) (name : cstr) : opts :=
  Opts (opt_raw o) (opt_list o) (opt_no_summary o) (opt_pid o) (Some name) (addr_ranges o) (vmas o)
       (bit_filters o) (opt_hwpoison o) (opt_unpoison o) (page_size o).
Definition with_ranges (o : opts) (l : list (Z * Z)) : opts :=
  Opts (opt_raw o) (opt_list o) (opt_no_summary o) (opt_pid o) (opt_file o) l (vmas o)
       (bit_filters o) (opt_hwpoison o) (opt_unpoison o) (page_size o).
Definition with_filters (o : opts) (l : list (Z * Z)) : opts :=
  Opts (opt_raw o) (opt_list o) (opt_no_summary o) (opt_pid o) (opt_file o) (addr_ranges o) (vmas o)
       l (opt_hwpoison o) (opt_unpoison o) (page_size o).
Definition with_modes (o : opts) (raw list_ nosum hw un : Z) : opts :=
  Opts raw list_ nosum (opt_pid o) (opt_file o) (addr_ranges o) (vmas o)
       (bit_filters o) hw un (page_size o).

(** Both descriptors and the mappings are those of the last [-p]. *)
Definition parse_pid (o : opts) (str : cstr) : res opts :=
  n ← parse_number str;
  let pid := i32 n in
  _ ← checked_open (lit "/proc/" ++ fmt_d pid ++ lit "/pagemap");
  match s_read (lit "/proc/" ++ fmt_d pid ++ lit "/maps") with
  | None => Exit EXIT_FAILURE
  | Some file =>
      l ← read_maps (S (length file)) (page_size o) file (vmas o);
      Ok (with_pid o pid l)
  end.

(** One option as [getopt_long] returns it. *)
Inductive opt :=
| opt_r | opt_p (arg : cstr) | opt_f (arg : cstr) | opt_a (arg : cstr) | opt_b (arg : cstr)
| opt_d (arg : cstr) | opt_l | opt_L | opt_N | opt_X | opt_x | opt_h | opt_other.

Definition page_table : opt_table :=
  OptTable (lit "rp:f:a:b:d:lLNXxh") (Some (long_table
    [("raw", false, "r"%char); ("pid", true, "p"%char); ("file", true, "f"%char); ("addr", true, "a"%char); ("bits", true, "b"%char);
     ("describe", true, "d"%char); ("list", false, "l"%char); ("list-each", false, "L"%char); ("no-summary", false, "N"%char);
     ("hwpoison", false, "X"%char); ("unpoison", false, "x"%char); ("help", false, "h"%char)]%string, true)).
Definition page_opt (r : opt_ret) : opt :=
  match r with
  | Got "r" _ => opt_r | Got "p" (Some s) => opt_p s | Got "f" (Some s) => opt_f s | Got "a" (Some s) => opt_a s
  | Got "b" (Some s) => opt_b s | Got "d" (Some s) => opt_d s | Got "l" _ => opt_l | Got "L" _ => opt_L
  | Got "N" _ => opt_N | Got "X" _ => opt_X | Got "x" _ => opt_x | Got "h" _ => opt_h | _ => opt_other
  end%char.

Fixpoint usage_flags (idxs : list Z) (j : nat) : list cstr :=
  match idxs with
  | [] => []
  | i :: idxs' =>
      match page_flag_names !! i with
      | None => usage_flags idxs' j
      | Some name =>
          (fmt_right 16 " " (drop 2 name) ++ page_flag_type (1 .<< i))
          :: if (3 <? S j)%nat then [NL] :: usage_flags idxs' 0 else usage_flags idxs' (S j)
      end
  end.
(** The part of the usage message that is computed: the flags, four a line. *)
Definition usage_names : list cstr := usage_flags flag_indices 0.
Definition usage_head : cstr := text [
    "page-types [options]";
    "            -r|--raw                   Raw mode, for kernel developers";
    "            -d|--describe flags        Describe flags";
    "            -a|--addr    addr-spec     Walk a range of pages";
    "            -b|--bits    bits-spec     Walk pages with specified bits";
    "            -p|--pid     pid           Walk process address space";
    "            -f|--file    filename      Walk file address space";
    "            -l|--list                  Show page details in ranges";
    "            -L|--list-each             Show page details one by one";
    "            -N|--no-summary            Don't show summary info";
    "            -X|--hwpoison              hwpoison pages";
    "            -x|--unpoison              unpoison pages";
    "            -h|--help                  Show this usage message";
    "flags:";
    "            0x10                       bitfield format, e.g.";
    "            anon                       bit-name, e.g.";
    "            0x10,anon                  comma-separated list, e.g.";
    "addr-spec:";
    "            N                          one page at offset N (unit: pages)";
    "            N+M                        pages range from N to N+M-1";
    "            N,M                        pages range from N to M-1";
    "            N,                         pages range from N to end";
    "            ,M                         pages range from 0 to M-1";
    "bits-spec:";
    "            bit1,bit2                  (flags & (bit1|bit2)) != 0";
    "            bit1,bit2=bit1             (flags & (bit1|bit2)) == bit1";
    "            bit1,~bit2                 (flags & (bit1|bit2)) == bit1";
    "            =bit1,bit2                 flags == (bit1|bit2)";
    "bit-names:"]%string.
Definition usage_tail : cstr :=
  NL :: lit "                                   (r) raw mode bits  (o) overloaded bits" ++ [NL].
Definition usage_all : list cstr := usage_head :: usage_names ++ [usage_tail].
Definition print_all (l : list cstr) : prog pt unit := p_for l print.

Definition handle_opt (c : opt) (st : opts * hwpoison_fds) : prog pt (opts * hwpoison_fds) :=
  let '(o, h) := st in
  let modes r l n x u := with_modes o r l n x u in
  match c with
  | opt_r => mret (modes 1 (opt_list o) (opt_no_summary o) (opt_hwpoison o) (opt_unpoison o), h)
  | opt_p arg => o' ← p_lift (parse_pid o arg); mret (o', h)
  | opt_f arg => mret (with_file o arg, h)
  | opt_a arg => l ← p_lift (parse_addr_range (addr_ranges o) arg); mret (with_ranges o l, h)
  | opt_b arg => l ← p_lift (parse_bits_mask (bit_filters o) arg); mret (with_filters o l, h)
  | opt_d arg =>
      '(flags, name, longname) ← p_lift (describe_flags arg);
      print (lit "0x" ++ fmt_right 16 "0" (fmt_x flags) ++ TAB :: name ++ TAB :: longname ++ [NL]);;
      p_exit 0
  | opt_l => mret (modes (opt_raw o) 1 (opt_no_summary o) (opt_hwpoison o) (opt_unpoison o), h)
  | opt_L => mret (modes (opt_raw o) 2 (opt_no_summary o) (opt_hwpoison o) (opt_unpoison o), h)
  | opt_N => mret (modes (opt_raw o) (opt_list o) 1 (opt_hwpoison o) (opt_unpoison o), h)
  | opt_X =>
      let o' := modes (opt_raw o) (opt_list o) (opt_no_summary o) 1 (opt_unpoison o) in
      h' ← p_lift (prepare_hwpoison_fd o' h); mret (o', h')
  | opt_x =>
      let o' := modes (opt_raw o) (opt_list o) (opt_no_summary o) (opt_hwpoison o) 1 in
      h' ← p_lift (prepare_hwpoison_fd o' h); mret (o', h')
  | opt_h => print_all usage_all;; p_exit 0
  | opt_other => print_all usage_all;; p_exit 1
  end.

Fixpoint handle_opts (l : list opt) (st : opts * hwpoison_fds) : prog pt (opts * hwpoison_fds) :=
  match l with
  | [] => mret st
  | c :: l' => st ← handle_opt c st; handle_opts l' st
  end.

(** ** The walks *)

(** The reads are counted with the state of the walks. *)
Definition reads_made : prog walk nat := λ w, (Ok w.1, w).

Definition walk_range (o : opts) (fuel : nat) (r : Z * Z) : prog walk unit :=
  if nz (opt_pid o) then walk_task (walk_vma o fuel) (vmas o) r.1 r.2
  else walk_pfn o fuel r.1 r.1 r.2 0.

Definition PROC_KPAGEFLAGS : cstr := lit "/proc/kpageflags".
Definition walk_addr_ranges (o : opts) (fuel : nat) : prog walk unit :=
  p_lift (checked_open PROC_KPAGEFLAGS);;
  ranges ← p_lift (match addr_ranges o with [] => add_addr_range [] 0 ULONG_MAX | l => Ok l end);
  p_for ranges (walk_range o fuel).

(** [show_file]; the inode number and the sizes are printed as unsigned. *)
Definition show_file (o : opts) (name : cstr) (st : fstat) (now : Z) : prog pt unit :=
  print (name ++ TAB :: lit "Inode: " ++ fmt_u (u32 (st_ino st)) ++ TAB :: lit "Size: "
         ++ fmt_u (u64 (st_size st)) ++ lit " ("
         ++ fmt_u (u64 (u64 (st_size st) + page_size o - 1) / page_size o) ++ lit " pages)" ++ [NL]);;
  print (lit "Modify: " ++ s_strftime (st_mtime st) ++ lit " (" ++ fmt_d (now - st_mtime st)
         ++ lit " seconds ago)" ++ NL :: lit "Access: " ++ s_strftime (st_atime st) ++ lit " ("
         ++ fmt_d (now - st_atime st) ++ lit " seconds ago)" ++ [NL]).

(** One page of a piece of the file; [first] is set until a page was listed. *)
Definition walk_file_page (o : opts) (name : cstr) (st : fstat) (off : Z) (buf : list Z)
    (first : bool) (i : Z) : prog walk bool :=
  pme ← p_lift (buf_at buf i);
  let pfn := pagemap_pfn pme in
  if negb (nz pfn) then mret first else
  '(pages, fl) ← kpageflags_read pfn 1;
  if pages =? 0 then mret first else
  flags ← p_lift (buf_at fl 0);
  n ← reads_made;
  p_when (first && nz (opt_list o)) (lift (flush_page_range o;; show_file o name st (s_time n)));;
  lift (add_page o (u64 (off / page_size o + i)) pfn flags pme);;
  mret (first && negb (nz (opt_list o))).

(** [end = off + sigbus_addr ? sigbus_addr - ptr : 0], as C groups it. *)
Definition sigbus_end (off addr ptr : Z) : Z := if nz (off + addr) then addr - ptr else 0.

Fixpoint walk_file_loop (fuel : nat) (o : opts) (name : cstr) (st : fstat) (off end_ : Z)
    (first : bool) : prog walk unit :=
  match fuel with
  | O => p_nofuel
  | S fuel =>
      if end_ <=? off then mret () else
      let nr_pages := Z.min (Z.quot (end_ - off + page_size o - 1) (page_size o)) PAGEMAP_BATCH in
      let len := nr_pages * page_size o in
      n ← reads_made;
      match s_mmap n name off len with
      | None => p_lift fatal
      | Some m =>
          if negb (s_mincore n (m_ptr m) len) || negb (s_madvise n (m_ptr m) len) then p_lift fatal
          else
            let end_ := match m_sigbus m with
                        | Some addr => sigbus_end off addr (m_ptr m)
                        | None => end_
                        end in
            '(pages, buf) ← pagemap_read (m_ptr m / page_size o) nr_pages;
            if negb (pages =? nr_pages) then p_lift fatal
            else
              first ← p_fold (seqZ 0 nr_pages) (walk_file_page o name st off buf) first;
              walk_file_loop fuel o name st (off + len) end_ first
      end
  end.
Definition walk_file (o : opts) (fuel : nat) (name : cstr) (st : fstat) : prog walk unit :=
  p_lift (checked_open name);;
  walk_file_loop fuel o name st 0 (st_size st) true.

Definition walk_tree (o : opts) (fuel : nat) (e : cstr * ftw * fstat) : prog walk unit :=
  match e with
  | (name, FTW_F_reg, st) => walk_file o fuel name st
  | _ => mret ()
  end.

Definition walk_page_cache (o : opts) (fuel : nat) (name : cstr) : prog walk unit :=
  p_lift (checked_open PROC_KPAGEFLAGS);;
  p_lift (checked_open (lit "/proc/self/pagemap"));;
  match s_stat name with
  | None => p_lift fatal
  | Some (S_IFREG st) => walk_file o fuel name st
  | Some (S_IFDIR tree ok) =>
      p_for tree (walk_tree o fuel);;
      if ok then mret () else p_lift fatal
  | Some S_IFOTHER => p_lift fatal
  end.

(** ** main *)

Definition opts0 : opts := Opts 0 0 0 0 None [] [] [] 0 0 s_pagesize.

Definition list_header (o : opts) : prog pt unit :=
  p_when (nz (opt_list o) && nz (opt_pid o)) (print (lit "voffset" ++ [TAB]));;
  p_when (nz (opt_list o) && is_Some_b (opt_file o)) (print (lit "foffset" ++ [TAB]));;
  p_when (opt_list o =? 1) (print (lit "offset" ++ TAB :: lit "len" ++ TAB :: lit "flags" ++ [NL]));;
  p_when (opt_list o =? 2) (print (lit "offset" ++ TAB :: lit "flags" ++ [NL])).

Definition main (fuel : nat) (argv : list opt) : prog walk Z :=
  '(o, _) ← lift (handle_opts argv (opts0, fds0));
  lift (list_header o);;
  match opt_file o with
  | Some name => walk_page_cache o fuel name
  | None => walk_addr_ranges o fuel
  end;;
  p_when (opt_list o =? 1) (lift (flush_page_range o));;
  (if nz (opt_no_summary o) then mret 0
   else
     p_when (nz (opt_list o)) (lift (print [NL; NL]));;
     lift (show_summary o);;
     mret 0).
(** The program from its arguments; what is not an option is not looked at. *)
Definition page_types (fuel : nat) (args : list cstr) : prog (nat * pt) Z :=
  main fuel (page_opt <$> calls (getopt page_table args)).
End System.

(** ** Numbers in text *)

Lemma is_digit_char_check (c : ascii) : is_digit 16 c = true →
  isspace c = false ∧ c ≠ "-"%char ∧ c ≠ "+"%char ∧ c ≠ "x"%char ∧ c ≠ "X"%char.
Proof. destruct c as [[] [] [] [] [] [] [] []]; vm_compute; intuition congruence. Qed.

Lemma is_digit_le b b' c : b ≤ b' → is_digit b c = true → is_digit b' c = true.
Proof.
  unfold is_digit. destruct (digit_val c); [|done]. rewrite !Z.ltb_lt. lia.
Qed.

Lemma no_digit_not_digit b c : digit_val c = None → is_digit b c = false.
Proof. unfold is_digit. by intros ->. Qed.

Lemma read_digits_app base acc ds rest : Forall (λ c, is_digit base c = true) ds → no_digit rest →
  read_digits base acc (ds ++ rest) = read_digits base acc ds.
Proof.
  intros Hds Hrest. revert acc. induction Hds as [|c ds Hc Hds IH]; intros acc; simpl.
  - by apply read_digits_stop.
  - unfold is_digit in Hc. destruct (digit_val c) as [d|]; [|done]. rewrite Hc. apply IH.
Qed.

Lemma digits_rest_app base ds rest : Forall (λ c, is_digit base c = true) ds → no_digit rest →
  digits_rest base (ds ++ rest) = rest.
Proof.
  intros Hds Hrest. induction Hds as [|c ds Hc Hds IH]; simpl; [|by rewrite Hc].
  destruct rest as [|c rest]; [done|]. simpl. by rewrite (no_digit_not_digit base c Hrest).
Qed.

Lemma scan_num_digits base ds rest :
  base = 10 ∨ base = 16 → ds ≠ [] → Forall (λ c, is_digit base c = true) ds → no_digit rest →
  read_digits base 0 ds ≤ ULONG_MAX →
  scan_num base (ds ++ rest) = Some (read_digits base 0 ds, rest).
Proof.
  intros Hb Hne Hds Hrest Hmax. unfold scan_num. destruct ds as [|c ds]; [done|].
  assert (Forall (λ c, is_digit 16 c = true) (c :: ds)) as H16.
  { eapply Forall_impl; [exact Hds|]. simpl. intros x. apply is_digit_le. lia. }
  inversion H16 as [|? ? Hc Hds']; subst.
  destruct (is_digit_char_check c Hc) as (Hsp & Hm & Hp & _).
  assert (read_sign (skip_spaces ((c :: ds) ++ rest)) = (false, (c :: ds) ++ rest)) as ->.
  { simpl. rewrite Hsp. simpl. by rewrite !decide_False by done. }
  assert (read_base base ((c :: ds) ++ rest) = (base, (c :: ds) ++ rest)) as ->.
  { assert (chr0 (ds ++ rest) ≠ "x"%char ∧ chr0 (ds ++ rest) ≠ "X"%char) as [Hx HX].
    { destruct ds as [|x ds]; simpl.
      - destruct rest as [|x rest]; [done|]. unfold no_digit in Hrest. simpl in *.
        by split; intros ->.
      - inversion Hds'; subst. by destruct (is_digit_char_check x) as (_ & _ & _ & ? & ?). }
    destruct Hb as [-> | ->]; simpl; destruct (ds ++ rest) as [|x [|y r]]; simpl in *; try done;
      repeat case_decide; try done; repeat case_bool_decide; try congruence; simpl;
      by rewrite ?andb_false_r. }
  inversion Hds; subst. cbn [app chr0]. rewrite (H1 : is_digit base c = true).
  change (c :: ds ++ rest) with ((c :: ds) ++ rest). rewrite read_digits_app, digits_rest_app by done.
  by destruct (Z.ltb_spec ULONG_MAX (read_digits base 0 (c :: ds))); [lia|].
Qed.

(** A number printed in hexadecimal with leading zeros. *)
Definition hex_pad (w : nat) (n : Z) : cstr := fmt_right w "0" (fmt_x n).

Lemma read_zeros base k s : 0 < base → read_digits base 0 (replicate k "0"%char ++ s) = read_digits base 0 s.
Proof.
  intros Hb. induction k as [|k IH]; [done|]. cbn [replicate app read_digits].
  change (digit_val "0") with (Some 0). cbv iota beta.
  destruct (Z.ltb_spec 0 base); [exact IH|lia].
Qed.

Lemma fmt_base_ne base n : 2 ≤ base ≤ 16 → 0 ≤ n → fmt_base base n ≠ [].
Proof. intros Hb Hn. by destruct (fmt_base_head base Hb n Hn) as (d & t & -> & _). Qed.

Lemma read_digits_fmt base n : 2 ≤ base ≤ 16 → 0 ≤ n → read_digits base 0 (fmt_base base n) = n.
Proof.
  intros Hb Hn. rewrite <- (app_nil_r (fmt_base base n)). by rewrite read_fmt_base.
Qed.

Lemma scan_hex_pad w n rest : is_u64 n → no_digit rest →
  scan_num 16 (hex_pad w n ++ rest) = Some (n, rest).
Proof.
  intros Hn Hrest. unfold is_u64 in Hn. assert (read_digits 16 0 (hex_pad w n) = n) as Hr.
  { unfold hex_pad, fmt_right. rewrite read_zeros by lia. apply read_digits_fmt; lia. }
  rewrite scan_num_digits; rewrite ?Hr; try done; [by right|..].
  - unfold hex_pad, fmt_right. intros [_ He]%app_eq_nil.
    eapply fmt_base_ne; [| |exact He]; lia.
  - unfold hex_pad, fmt_right. apply Forall_app. split; [by apply Forall_replicate|].
    apply fmt_base_digits; lia.
  - unfold ULONG_MAX, umax. lia.
Qed.

Lemma scan_dec n rest : is_u64 n → no_digit rest → scan_num 10 (fmt_u n ++ rest) = Some (n, rest).
Proof.
  intros Hn Hrest. unfold is_u64 in Hn. rewrite scan_num_digits; try done; [|by left|..].
  - unfold fmt_u. by rewrite read_digits_fmt by lia.
  - apply fmt_base_ne; lia.
  - apply fmt_base_digits; lia.
  - unfold fmt_u. rewrite read_digits_fmt by lia. unfold ULONG_MAX, umax. lia.
Qed.

(** ** Address ranges: the documented forms *)

Inductive addr_spec :=
| One (n : Z)                    (* N     one page at offset N *)
| Len (n m : Z)                  (* N+M   pages range from N to N+M-1 *)
| To (n m : Z)                   (* N,M   pages range from N to M-1 *)
| From (n : Z)                   (* N,    pages range from N to end *)
| UpTo (m : Z).                  (* ,M    pages range from 0 to M-1 *)

Definition render_addr (a : addr_spec) : cstr :=
  match a with
  | One n => fmt_u n
  | Len n m => fmt_u n ++ "+"%char :: fmt_u m
  | To n m => fmt_u n ++ ","%char :: fmt_u m
  | From n => fmt_u n ++ [","%char]
  | UpTo m => ","%char :: fmt_u m
  end.

(** The first page of the range and the one after the last. *)
Definition addr_first (a : addr_spec) : Z :=
  match a with One n | Len n _ | To n _ | From n => n | UpTo _ => 0 end.
Definition addr_end (a : addr_spec) : Z :=
  match a with One n => n + 1 | Len n m => n + m | To _ m | UpTo m => m | From _ => ULONG_MAX end.

Definition number_ok (n : Z) : Prop := 0 ≤ n ≤ LLONG_MAX.
Definition addr_ok (a : addr_spec) : Prop :=
  match a with
  | One n | From n | UpTo n => number_ok n
  | Len n m | To n m => number_ok n ∧ number_ok m
  end.

Lemma parse_number_fmt n rest : number_ok n → no_digit rest → parse_number (fmt_u n ++ rest) = Ok n.
Proof.
  intros Hn Hrest. unfold parse_number. rewrite strtoll_fmt_u by (done || by left). simpl.
  unfold number_ok, LLONG_MAX in Hn. rewrite u64_small by (unfold is_u64; lia).
  destruct (Z.eqb_spec n 0) as [->|]; [|done]. by rewrite bool_decide_true.
Qed.

Lemma fmt_u_notin c n : 0 ≤ n → is_digit 10 c = false → c ∉ fmt_u n.
Proof.
  intros Hn Hc Hin. pose proof (fmt_base_digits 10 ltac:(lia) n Hn) as H.
  rewrite Forall_forall in H. specialize (H c Hin). simpl in H. congruence.
Qed.

Lemma length_fmt_u_app n t : (length t =? length (fmt_u n ++ t))%nat = false ∨ fmt_u n = [].
Proof.
  destruct (fmt_u n) as [|c s]; [by right|]. left. apply Nat.eqb_neq. simpl. rewrite length_app. lia.
Qed.

(** What the cases of the argument need of a number. *)
Lemma add_one_range l n size : (length l < MAX_ADDR_RANGES)%nat → number_ok n → 0 ≤ size →
  n + size ≤ ULONG_MAX ∨ size = ULONG_MAX → add_addr_range l n size = Ok (l ++ [(n, Z.min size (ULONG_MAX - n))]).
Proof.
  intros Hl Hn Hs Hm. unfold add_addr_range, number_ok, LLONG_MAX, ULONG_MAX, umax in *.
  rewrite (proj2 (Nat.leb_gt _ _)) by done. by rewrite u64_small by (unfold is_u64; lia).
Qed.
Lemma number_notin n c : number_ok n → is_digit 10 c = false → c ∉ fmt_u n.
Proof. intros [Hn _] Hc. by apply fmt_u_notin. Qed.
Lemma number_not_empty n t : number_ok n → (length t =? length (fmt_u n ++ t))%nat = false.
Proof. intros [Hn _]. destruct (length_fmt_u_app n t) as [|He]; [done|]. exfalso. eapply fmt_base_ne; [| |exact He]; lia. Qed.
Lemma number_parsed n : number_ok n → parse_number (fmt_u n) = Ok n.
Proof. intros Hn. rewrite <- (app_nil_r (fmt_u n)). by apply parse_number_fmt. Qed.
Lemma number_chr0 n : number_ok n → bool_decide (chr0 (fmt_u n) = NUL) = false.
Proof.
  intros [Hn _]. apply bool_decide_false. unfold fmt_u.
  destruct (fmt_base_head 10 ltac:(lia) n Hn) as (d & t & -> & Hd & _). simpl.
  intros E. destruct (digit_char_spec d ltac:(lia)) as (Hv & _). by rewrite E in Hv.
Qed.
Lemma end_below (l : list (Z * Z)) n size e : e - n = size →
  (if e <? n then fatal else Ok (l ++ [(n, e - n)])) = if size <? 0 then fatal else Ok (l ++ [(n, size)]).
Proof. intros <-. by destruct (Z.ltb_spec e n), (Z.ltb_spec (e - n) 0); try lia. Qed.

(** C24: each of the five forms of the address argument that the usage message
    documents adds exactly the range of pages the message gives for it; the
    form N,M with M below N is refused. *)
Theorem parse_addr_range_spec l a :
  addr_ok a → (length l < MAX_ADDR_RANGES)%nat →
  parse_addr_range l (render_addr a) =
  if addr_end a <? addr_first a then fatal
  else Ok (l ++ [(addr_first a, addr_end a - addr_first a)]).
Proof.
  intros Ha Hl. unfold parse_addr_range.
  assert (∀ n, number_ok n → 0 ≤ n ≤ 2 ^ 63 - 1) as Hrange by done.
  destruct a as [n|n m|n m|n|m]; cbn [render_addr addr_ok addr_first addr_end] in *.
  - rewrite !strchr_notin by (by apply number_notin). rewrite number_parsed by done. cbn [mbind res_bind].
    rewrite add_one_range by (done || lia || (left; specialize (Hrange n Ha); unfold ULONG_MAX, umax; lia)).
    rewrite (end_below l n 1) by lia. simpl. do 4 f_equal.
    specialize (Hrange n Ha). unfold ULONG_MAX, umax. lia.
  - destruct Ha as [Hn Hm]. pose proof (Hrange n Hn). pose proof (Hrange m Hm).
    rewrite strchr_notin.
    2:{ rewrite elem_of_app, elem_of_cons. intros [H'|[|H']]; try done; by apply number_notin in H'. }
    rewrite strchr_app, number_not_empty, parse_number_fmt by (done || by apply number_notin).
    cbn [tail mbind res_bind chr0]. rewrite number_chr0, number_parsed by done. cbn [mbind res_bind].
    rewrite bool_decide_false by done. rewrite add_one_range by (done || lia || (left; unfold ULONG_MAX, umax; lia)).
    rewrite (end_below l n m) by lia. destruct (Z.ltb_spec m 0); [lia|]. do 4 f_equal.
    unfold ULONG_MAX, umax. lia.
  - destruct Ha as [Hn Hm]. pose proof (Hrange n Hn). pose proof (Hrange m Hm).
    rewrite strchr_app, number_not_empty, parse_number_fmt by (done || by apply number_notin).
    cbn [tail mbind res_bind chr0]. rewrite number_chr0, number_parsed by done. cbn [mbind res_bind].
    rewrite bool_decide_true by done. destruct (Z.ltb_spec m n); [done|].
    rewrite add_one_range by (done || lia || (left; unfold ULONG_MAX, umax; lia)). do 4 f_equal.
    unfold ULONG_MAX, umax. lia.
  - pose proof (Hrange n Ha).
    rewrite strchr_app, number_not_empty, parse_number_fmt by (done || by apply number_notin).
    cbn [tail mbind res_bind chr0]. rewrite bool_decide_true by done.
    rewrite add_one_range by (done || (unfold ULONG_MAX, umax; lia) || by right).
    destruct (Z.ltb_spec ULONG_MAX n); [unfold ULONG_MAX, umax in *; lia|]. do 4 f_equal. lia.
  - pose proof (Hrange m Ha). rewrite strchr_head, Nat.eqb_refl. cbn [tail].
    rewrite number_parsed by done. cbn [mbind res_bind].
    rewrite add_one_range by (done || lia || (left; unfold ULONG_MAX, umax; lia)).
    destruct (Z.ltb_spec m 0); [lia|]. do 4 f_equal. unfold ULONG_MAX, umax. lia.
Qed.

Lemma parse_addr_range_spec_witness :
  addr_ok (To 16 32) ∧ parse_addr_range [] (lit "16,32") = Ok [(16, 16)].
Proof.
  assert (addr_ok (To 16 32)) as H by (by vm_compute).
  split; [done|]. pose proof (parse_addr_range_spec [] (To 16 32) H ltac:(by vm_compute; lia)) as E.
  exact E.
Defined.

(** ** /proc/<pid>/maps: reading back what the kernel prints *)

Record maps_entry := Maps {
  vm_start : Z; vm_end : Z; vm_perms : ascii * ascii * ascii * ascii;
  vm_pgoff : Z; vm_major : Z; vm_minor : Z; vm_ino : Z; vm_name : cstr
}.

(** A line as the kernel prints it; the name with the blanks before it. *)
Definition maps_line (m : maps_entry) : cstr :=
  let '(r, w, x, s) := vm_perms m in
  hex_pad 8 (vm_start m) ++ "-"%char :: hex_pad 8 (vm_end m) ++ " "%char :: [r; w; x; s]
  ++ " "%char :: hex_pad 8 (vm_pgoff m) ++ " "%char :: hex_pad 2 (vm_major m)
  ++ ":"%char :: hex_pad 2 (vm_minor m) ++ " "%char :: fmt_u (vm_ino m) ++ vm_name m ++ [NL].

Definition maps_ok (m : maps_entry) : Prop :=
  is_u64 (vm_start m) ∧ is_u64 (vm_end m) ∧ is_u64 (vm_pgoff m) ∧ is_u64 (vm_major m)
  ∧ is_u64 (vm_minor m) ∧ is_u64 (vm_ino m)
  ∧ isspace (vm_perms m).1.1.1 = false
  ∧ Forall (λ c, c ≠ NL) [(vm_perms m).1.1.1; (vm_perms m).1.1.2; (vm_perms m).1.2; (vm_perms m).2]
  ∧ NL ∉ vm_name m ∧ (vm_name m = [] ∨ chr0 (vm_name m) = " "%char)
  ∧ (length (maps_line m) < MAPS_BUF)%nat.

Lemma scan_num_space base s : scan_num base (" "%char :: s) = scan_num base s.
Proof. done. Qed.

Lemma sscanf_maps_line m : maps_ok m → sscanf_maps (maps_line m) = Some (vm_start m, vm_end m).
Proof.
  intros (H1 & H2 & H3 & H4 & H5 & H6 & Hr & _ & _ & Hname & _).
  unfold sscanf_maps, maps_line. destruct m as [st en [[[r w] x] s] pg ma mi ino name]. simpl in *.
  rewrite scan_hex_pad by done. cbn [mbind option_bind scan_char]. rewrite decide_True by done.
  cbn [mbind option_bind]. rewrite scan_hex_pad by done. cbn [mbind option_bind skip_spaces].
  change (isspace " ") with true. cbv iota. cbn [skip_spaces]. rewrite Hr. cbn [scan_perms mbind option_bind].
  rewrite scan_num_space, scan_hex_pad by done. cbn [mbind option_bind].
  rewrite scan_num_space, scan_hex_pad by done. cbn [mbind option_bind scan_char].
  rewrite decide_True by done. cbn [mbind option_bind]. rewrite scan_hex_pad by done.
  cbn [mbind option_bind]. rewrite scan_num_space, scan_dec; [done|done|].
  unfold no_digit. destruct Hname as [-> | Hc]; [done|]. destruct name as [|c name]; simpl in *; [done|].
  by subst c.
Qed.

Lemma hex_pad_chars w n c : 0 ≤ n → c ∈ hex_pad w n → is_digit 16 c = true.
Proof.
  intros Hn. unfold hex_pad, fmt_right. rewrite elem_of_app, elem_of_replicate.
  intros [[-> _]|Hc]; [done|]. pose proof (fmt_base_digits 16 ltac:(lia) n Hn) as H.
  rewrite Forall_forall in H. by apply H.
Qed.

Lemma maps_line_NL m : maps_ok m → ∃ t, maps_line m = t ++ [NL] ∧ NL ∉ t.
Proof.
  intros (H1 & H2 & H3 & H4 & H5 & H6 & _ & Hp & Hn & _). unfold is_u64 in *.
  assert (∀ w n, 0 ≤ n → NL ∉ hex_pad w n) as Hhex.
  { intros w n Hn' Hin. by apply hex_pad_chars in Hin. }
  assert (NL ∉ fmt_u (vm_ino m)) as Hdec by (apply fmt_u_notin; done || lia).
  destruct m as [st en [[[r w] x] s] pg ma mi ino name]. unfold maps_line. simpl in *.
  eexists. split.
  - repeat (rewrite app_comm_cons || rewrite app_assoc). reflexivity.
  - rewrite !Forall_cons in Hp. destruct Hp as (? & ? & ? & ? & _).
    repeat (rewrite elem_of_app || rewrite elem_of_cons || rewrite elem_of_nil).
    pose proof (Hhex 8%nat st). pose proof (Hhex 8%nat en). pose proof (Hhex 8%nat pg).
    pose proof (Hhex 2%nat ma). pose proof (Hhex 2%nat mi).
    assert (NL ≠ "-"%char ∧ NL ≠ " "%char ∧ NL ≠ ":"%char) by done. intuition congruence.
Qed.

Lemma fgets_line n t rest : NL ∉ t → (length t < n)%nat →
  fgets_aux n (t ++ NL :: rest) = t ++ [NL].
Proof.
  revert n. induction t as [|c t IH]; intros n Ht Hn; (destruct n; [simpl in *; lia|]); simpl.
  - done.
  - rewrite decide_False by (intros ->; apply Ht; by left).
    f_equal. apply IH; [|simpl in *; lia]. intros H. apply Ht. by right.
Qed.

Lemma read_maps_lines fuel page_size ms vmas :
  Forall maps_ok ms → (length vmas + length ms ≤ MAX_VMAS)%nat → (length ms < fuel)%nat →
  read_maps fuel page_size (concat (maps_line <$> ms)) vmas
  = Ok (vmas ++ ((λ m, (vm_start m / page_size, vm_end m / page_size)) <$> ms)).
Proof.
  intros Hms. revert fuel vmas. induction Hms as [|m ms Hm Hms IH]; intros fuel vmas Hlen Hfuel;
    (destruct fuel as [|fuel]; [simpl in *; lia|]).
  { simpl. by rewrite app_nil_r. }
  rewrite fmap_cons. cbn [concat read_maps]. destruct (maps_line_NL m Hm) as (t & Ht & HNL).
  pose proof Hm as (_ & _ & _ & _ & _ & _ & _ & _ & _ & _ & Hbuf).
  assert (fgets MAPS_BUF (maps_line m ++ concat (maps_line <$> ms)) = Some (maps_line m)) as ->.
  { rewrite Ht in *. rewrite length_app in Hbuf. rewrite <- app_assoc. cbn [app].
    unfold fgets. rewrite fgets_line by (done || (simpl in Hbuf; lia)). by destruct t. }
  rewrite drop_app_length, sscanf_maps_line by done. cbn [length] in Hlen.
  rewrite (proj2 (Nat.leb_gt _ _)) by lia. cbv zeta.
  set (vmas' := vmas ++ [(vm_start m / page_size, vm_end m / page_size)]).
  assert (length vmas' = S (length vmas)) as Hl' by (unfold vmas'; rewrite length_app; simpl; lia).
  assert (vmas ++ ((λ m0, (vm_start m0 / page_size, vm_end m0 / page_size)) <$> m :: ms)
    = vmas' ++ ((λ m0, (vm_start m0 / page_size, vm_end m0 / page_size)) <$> ms)) as ->
    by (unfold vmas'; by rewrite <- app_assoc).
  destruct (Nat.leb_spec MAX_VMAS (length vmas')).
  - destruct ms; [by rewrite app_nil_r|]. simpl in Hlen. lia.
  - apply IH; lia || (cbn [length] in Hfuel; lia).
Qed.

(** C25: parse_pid reads the mappings back from /proc/<pid>/maps: for any file
    of lines as the kernel prints them, up to 10240 of them, the loop ends with
    one range of pages per line, in order, its ends divided by the page size. *)
Theorem read_maps_roundtrip page_size (ms : list maps_entry) vmas :
  Forall maps_ok ms → (length vmas + length ms ≤ MAX_VMAS)%nat →
  read_maps (S (length (concat (maps_line <$> ms)))) page_size (concat (maps_line <$> ms)) vmas
  = Ok (vmas ++ ((λ m, (vm_start m / page_size, vm_end m / page_size)) <$> ms)).
Proof.
  intros Hms Hlen. apply read_maps_lines; [done|done|].
  clear -Hms. induction Hms as [|m ms Hm Hms IH]; [simpl; lia|].
  rewrite fmap_cons. cbn [concat length]. destruct (maps_line_NL m Hm) as (t & -> & _). rewrite !length_app. simpl in *. lia.
Qed.

(** Two lines of a real file. *)
Lemma read_maps_roundtrip_witness :
  let l1 := Maps 0x400000 0x402000 ("r", "-", "x", "p")%char 0x1000 8 2 4711 (lit "    /bin/true") in
  let l2 := Maps 0x7ffff000 0x80000000 ("r", "w", "-", "p")%char 0 0 0 0 [] in
  maps_line l1 = lit "00400000-00402000 r-xp 00001000 08:02 4711    /bin/true" ++ [NL]
  ∧ Forall maps_ok [l1; l2]
  ∧ read_maps (S (length (maps_line l1 ++ maps_line l2 ++ []))) 4096 (maps_line l1 ++ maps_line l2 ++ []) []
    = Ok [(0x400, 0x402); (0x7ffff, 0x80000)].
Proof.
  intros l1 l2. split; [by vm_compute|].
  assert (Forall maps_ok [l1; l2]) as H.
  { repeat apply Forall_cons_2; [| |done];
      (repeat match goal with |- _ ∧ _ => split end); try (by vm_compute);
      try (by apply (bool_decide_unpack _); vm_compute); by (right + left). }
  split; [done|]. exact (read_maps_roundtrip 4096 [l1; l2] [] H ltac:(by apply (bool_decide_unpack _); vm_compute)).
Defined.
