(* ===== verification/PageRun.v ===== *)
(** * PageRun: whole runs of page-types

    The main program composed with its parts: on a machine whose page files do
    not change, the summary of a run without listing is the exact histogram of
    the selected pages. *)
From Stdlib Require Import String.
From S2P Require Import Prelude CLib Getopt PageFlags PageHash PageWalk PageList PageMain.

(** Options that print nothing but the summary of all of memory. *)
Definition quiet (o : opts) : Prop :=
  opt_list o = 0 ∧ opt_pid o = 0 ∧ opt_file o = None ∧ opt_no_summary o = 0
  ∧ opt_hwpoison o = 0 ∧ opt_unpoison o = 0 ∧ addr_ranges o = [].

(** The words counted for pages with kernel words [ws]. *)
Definition selected (o : opts) (ws : list Z) : list Z :=
  filter (λ f, bit_mask_ok (bit_filters o) f = true) ((λ f, kpageflags_flags (opt_raw o) f 0) <$> ws).

Definition with_table (s : pt) (t : hash_table) : pt :=
  PT (stdout s) (perrors s) (written s) (flags0 s) (voff s) (r_index s) (r_count s) t.

Section Run.
Context {K : kernel} (o : opts) (Hq : quiet o).

Lemma add_page_quiet v i f pme s :
  add_page o v i f pme s =
  (let fl := kpageflags_flags (opt_raw o) f pme in
   if bit_mask_ok (bit_filters o) fl
   then match count_page fl (table s) with
        | Ok t => (Ok (), with_table s t)
        | Exit c => (Exit c, s) | Undef => (Undef, s) | NoFuel => (NoFuel, s)
        end
   else (Ok (), s)).
Proof.
  destruct Hq as (Hl & _ & _ & _ & Hh & Hu & _). unfold add_page. rewrite Hl, Hh, Hu. cbv zeta.
  destruct (bit_mask_ok _ _); [|done]. cbn [negb nz p_when Z.eqb]. unfold mbind, prog_bind. simpl.
  unfold p_lift. by destruct (count_page _ _).
Qed.

Lemma visits_quiet (visit : Z → prog pt unit) (w : Z → Z) l s t :
  (∀ i, i ∈ l → ∃ v p, visit i = add_page o v p (w i) 0) →
  count_pages (selected o (w <$> l)) (table s) = Ok t →
  p_for l visit s = (Ok (), with_table s t).
Proof.
  revert s. induction l as [|i l IH]; intros s Hv Ht.
  { simpl in Ht. injection Ht as <-. by destruct s. }
  destruct (Hv i) as (v & p & Hvi); [by left|]. cbn [p_for]. rewrite p_bind_run, Hvi, add_page_quiet.
  cbv zeta. unfold selected in *. rewrite !fmap_cons, filter_cons in Ht.
  assert (∀ j, j ∈ l → ∃ v p, visit j = add_page o v p (w j) 0) as Hv' by (intros; apply Hv; by right).
  destruct (bit_mask_ok (bit_filters o) (kpageflags_flags (opt_raw o) (w i) 0)) eqn:E.
  - rewrite decide_True in Ht by done. cbn [count_pages] in Ht.
    destruct (count_page _ (table s)) as [t1| | |]; try done. simpl in Ht.
    change (p_for l visit (with_table s t1) = (Ok (), with_table (with_table s t1) t)). by apply IH.
  - rewrite decide_False in Ht by done. by apply IH.
Qed.
End Run.

(** The rows of the summary: each printed as one line. *)
Lemma show_rows o t ks s :
  (∀ k, k ∈ ks → nz (at0 (nr_pages t) k) = true → unnamed_bits (at0 (page_flags t) k) = []) →
  ∃ texts,
    Forall2 (λ r text, summary_row o r.1 r.2 = Ok text)
      (omap (λ i, if nz (at0 (nr_pages t) i)
                  then Some (at0 (page_flags t) i, at0 (nr_pages t) i) else None) ks) texts
    ∧ p_for ks (λ i, p_when (nz (at0 (nr_pages t) i))
        (text ← p_lift (summary_row o (at0 (page_flags t) i) (at0 (nr_pages t) i)); print text)) s
      = (Ok (), PT (stdout s ++ texts) (perrors s) (written s) (flags0 s) (voff s) (r_index s)
                  (r_count s) (table s)).
Proof.
  revert s. induction ks as [|k ks IH]; intros s Hok.
  { exists []. split; [constructor|]. rewrite app_nil_r. by destruct s. }
  cbn [omap list_omap p_for]. rewrite p_bind_run.
  destruct (nz (at0 (nr_pages t) k)) eqn:E; cbn [p_when].
  - assert (∃ text, summary_row o (at0 (page_flags t) k) (at0 (nr_pages t) k) = Ok text) as [text Ht].
    { unfold summary_row. rewrite page_flag_name_eq, (Hok k ltac:(left) E).
      rewrite decide_True by done. rewrite page_flag_longname_eq. by eexists. }
    rewrite Ht.
    destruct (IH (PT (stdout s ++ [text]) (perrors s) (written s) (flags0 s) (voff s) (r_index s)
                  (r_count s) (table s))) as (texts & H2 & Hs).
    { intros k' Hk'. apply Hok. by right. }
    exists (text :: texts). split; [by constructor|].
    change ((text0 ← p_lift (Ok text); print text0) s) with
      (@Ok unit (), PT (stdout s ++ [text]) (perrors s) (written s) (flags0 s) (voff s) (r_index s)
         (r_count s) (table s)).
    cbv iota. rewrite Hs. cbn [stdout perrors written flags0 voff r_index r_count table].
    by rewrite <- app_assoc.
  - destruct (IH s) as (texts & H2 & Hs); [intros; apply Hok; [by right|done]|]. eauto.
Qed.

Lemma page_table_ok : table_ok page_table.
Proof. apply (bool_decide_unpack _). by vm_compute. Qed.

Section Summary.
Context `{Sys : system} (fsize : rfd → Z) (content : rfd → Z → Z).
Context {Hsnap : snapshot sys_kernel fsize content}.

(** The kernel words of all of memory. *)
Definition memory_words : list Z := content kpageflags_fd <$> seqZ 0 (fsize kpageflags_fd).

Lemma walk_all_memory o fuel s t nr :
  quiet o → s_open PROC_KPAGEFLAGS = true → (Z.to_nat (fsize kpageflags_fd) < fuel)%nat →
  count_pages (selected o memory_words) (table s) = Ok t →
  ∃ nr', walk_addr_ranges o fuel (nr, s) = (Ok (), (nr', with_table s t)).
Proof.
  intros Hq Hopen Hfuel Ht. pose proof (snapshot_size (snapshot := Hsnap) kpageflags_fd) as [Hs0 Hs1].
  unfold walk_addr_ranges. pose proof Hq as (Hl & Hp & _ & _ & _ & _ & Hr).
  rewrite Hr. unfold checked_open. rewrite Hopen. rewrite !p_bind_run. cbn [p_lift].
  change (add_addr_range [] 0 ULONG_MAX) with (@Ok (list (Z * Z)) [(0, ULONG_MAX)]).
  rewrite p_bind_run. cbn [p_lift p_for]. rewrite p_bind_run. unfold walk_range. rewrite Hp.
  cbn [nz negb Z.eqb fst snd].
  assert (pfns (size := fsize) 0 ULONG_MAX = seqZ 0 (fsize kpageflags_fd)) as Hpf.
  { unfold pfns. unfold LLONG_MAX in Hs1. f_equal. unfold ULONG_MAX, umax. lia. }
  destruct (walk_pfn_reads (Hsnap := Hsnap) o fuel 0 0 ULONG_MAX 0) with (nr := nr) (s := s)
    as (nr' & vo & _ & ->); try done; [by rewrite Hpf, length_seqZ|].
  rewrite Hpf. cbv zeta.
  rewrite (visits_quiet o Hq _ (content kpageflags_fd) _ s t); [by exists nr'| |done].
  intros i _. exists (vo i), (0 + i). done.
Qed.

(** C1: a run of page-types that only summarises all of memory, whatever -r
    and -b options its arguments have in whatever spelling, ends with status 0 and prints one line per distinct
    word among the selected pages with the number of pages that carry it, and
    the total: nothing is lost between the kernel's file and the summary.  The
    page files are taken not to change during the run, every kernel flag is
    one the tool has a name for, and there are at most 8191 distinct words. *)
Theorem main_summary args evs rest o h fuel :
  command page_table args evs rest →
  handle_opts (page_opt <$> evs) (opts0, fds0) pt0 = (Ok (o, h), pt0) → quiet o →
  s_open PROC_KPAGEFLAGS = true →
  (∀ i, 0 ≤ i < fsize kpageflags_fd → known_word (content kpageflags_fd i)) →
  (size (distinct (selected o memory_words)) ≤ Z.to_nat (HASH_SIZE - 1))%nat →
  (Z.to_nat (fsize kpageflags_fd) < fuel)%nat →
  ∃ reads_made s rows texts,
    page_types fuel args (O, pt0) = (Ok 0, (reads_made, s))
    ∧ stdout s = summary_head :: texts ++
        [summary_total o (Z.of_nat (length (selected o memory_words)))]
    ∧ Forall2 (λ r text, summary_row o r.1 r.2 = Ok text) rows texts
    ∧ NoDup rows.*1
    ∧ ∀ f c, (f, c) ∈ rows ↔ f ∈ selected o memory_words ∧ c = occ f (selected o memory_words).
Proof.
  intros Hcmd Hargv Hq Hopen Hknown Hd Hfuel.
  unfold page_types. destruct (getopt_command _ page_table_ok _ _ _ Hcmd) as [-> _]. set (argv := page_opt <$> evs) in *.
  pose proof (snapshot_size (snapshot := Hsnap) kpageflags_fd) as [Hs0 Hs1].
  destruct (count_pages_ok (selected o memory_words)) as (t & Ht & Hc); [|done|].
  { unfold selected. eapply Z.le_lt_trans; [apply Nat2Z.inj_le, length_filter|].
    unfold memory_words. rewrite !length_fmap, length_seqZ, Z2Nat.id by done.
    unfold LLONG_MAX in Hs1. lia. }
  destruct (walk_all_memory o fuel pt0 t 0 Hq Hopen Hfuel Ht) as (nr & Hwalk).
  pose proof Hq as (Hl & Hp & Hf & Hn & _).
  destruct (show_rows o t slots (PT [summary_head] [] [] 0 0 0 0 t)) as (texts & Htexts & Hshow).
  { intros k _ Hk. destruct (decide (at0 (page_flags t) k = 0)) as [->|Hne]; [by vm_compute|].
    assert (at0 (page_flags t) k ∈ selected o memory_words) as Hin.
    { apply (c_mem _ _ Hc); [done|]. exists k. by apply (at0_wf _ _ _ (c_wf _ _ Hc)). }
    unfold selected in Hin. apply list_elem_of_filter in Hin as [_ Hin].
    apply list_elem_of_fmap in Hin as (w & -> & Hin). apply list_elem_of_fmap in Hin as (i & -> & Hi).
    apply elem_of_seqZ in Hi. apply kpageflags_unnamed, Hknown. lia. }
  fold (summary_rows t) in Htexts.
  exists nr, (PT ((summary_head :: texts) ++ [summary_total o (total_pages t)]) [] [] 0 0 0 0 t),
    (summary_rows t), texts.
  split; [|split; [by rewrite (c_total _ _ Hc)|split; [done|split; [by eapply counts_rows_NoDup|]]]].
  2:{ intros. by apply counts_rows. }
  unfold main. rewrite p_bind_run. unfold lift at 1. cbn [fst snd]. rewrite Hargv, p_bind_run.
  assert (list_header o pt0 = (Ok (), pt0)) as Hhead.
  { unfold list_header. rewrite Hl. by rewrite Hf. }
  unfold lift at 1. cbn [fst snd]. rewrite Hhead, Hf, p_bind_run, Hwalk, p_bind_run.
  rewrite Hl. cbn [p_when Z.eqb mret prog_ret nz negb]. rewrite Hn. cbn [nz negb Z.eqb].
  rewrite p_bind_run. unfold mret at 1, prog_ret at 1. rewrite p_bind_run. unfold lift. cbn [fst snd].
  assert (show_summary o (with_table pt0 t)
    = (Ok (), PT ((summary_head :: texts) ++ [summary_total o (total_pages t)]) [] [] 0 0 0 0 t)) as ->;
    [|done].
  unfold show_summary. rewrite p_bind_run. cbn [print p_modify]. rewrite p_bind_run. cbn [p_get].
  unfold with_table, pt0. cbn [stdout perrors written flags0 voff r_index r_count table app].
  rewrite p_bind_run. by rewrite Hshow.
Qed.
End Summary.

(** A machine of 16 page frames, each on the LRU list, run with [-r -b lru]. *)
Definition demo_system : system := {|
  sys_kernel := file_kernel demo_size demo_content;
  s_open _ := true; s_read _ := None; s_stat _ := None; s_statfs _ := None;
  s_getenv _ := None; s_mount _ := false; s_mmap _ _ _ _ := None; s_mincore _ _ _ := false;
  s_madvise _ _ _ := false; s_time _ := 0; s_strftime _ := []; s_pagesize := 4096
|}.

#[local] Existing Instance demo_system.

Lemma main_summary_witness :
  ∃ n s, page_types (Sys := demo_system) 17 [lit "--raw"; lit "-blru"] (O, pt0) = (Ok 0, (n, s))
         ∧ length (stdout s) = 3%nat.
Proof.
  set (o := with_filters (with_modes (opts0 (Sys := demo_system)) 1 0 0 0 0) [(BIT KPF_LRU, KPF_ALL_BITS)]).
  set (ws := replicate 16 (BIT KPF_LRU)).
  assert (selected o (memory_words demo_size demo_content) = ws) as Hws by (by vm_compute).
  assert (known_word (BIT KPF_LRU)) as Hknown.
  { split; [done|]. intros n. destruct (decide (0 ≤ n)); [|by rewrite Z.testbit_neg_r by lia].
    unfold BIT. rewrite testbit_bit1 by done. intros ->%Z.eqb_eq. left. by vm_compute. }
  assert (handle_opts [opt_r; opt_b (lit "lru")] (opts0, fds0) pt0
          = (Ok (o, fds0), pt0)) as Hargv by (unfold o; vm_compute; reflexivity).
  assert (command page_table [lit "--raw"; lit "-blru"] [Got "r" None; Got "b" (Some (lit "lru"))]%char []) as Hcmd.
  { apply (cmd_option _ _ [lit "--raw"]).
    { apply (spell_long_flag _ (LongOption (lit "raw") false "r")); [|done].
      split; [done|]. do 2 eexists. split; [reflexivity|]. left. }
    apply (cmd_option _ _ [lit "-blru"]); [by apply (spell_arg_joined _ "b"%char (lit "lru"))|]. constructor. }
  destruct (main_summary (Sys := demo_system) demo_size demo_content (Hsnap := demo_snapshot)
    [lit "--raw"; lit "-blru"] [Got "r" None; Got "b" (Some (lit "lru"))]%char [] o fds0 17 Hcmd Hargv)
    as (n & s & rows & texts & Hrun & Hout & H2 & Hnd & Hrows); [done|done|by intros|..].
  - rewrite Hws. by apply (bool_decide_unpack _); vm_compute.
  - simpl. lia.
  - exists n, s. split; [exact Hrun|]. rewrite Hws in *. rewrite Hout.
    simpl. rewrite length_app, <- (Forall2_length _ _ _ H2). simpl.
    assert (rows = [(BIT KPF_LRU, 16)]) as ->; [|done].
    assert (∀ f c, (f, c) ∈ rows ↔ f = BIT KPF_LRU ∧ c = 16) as Hr.
    { intros f c. rewrite Hrows. unfold ws. rewrite elem_of_replicate. split.
      - intros [[-> _] ->]. by split.
      - intros [-> ->]. by repeat split. }
    clear -Hnd Hr. destruct rows as [|[f c] rows].
    { exfalso. by apply (elem_of_nil (BIT KPF_LRU, 16)), Hr. }
    destruct (proj1 (Hr f c)) as [-> ->]; [by left|]. destruct rows as [|[f c] rows]; [done|].
    destruct (proj1 (Hr f c)) as [-> ->]; [by right; left|].
    rewrite !fmap_cons in Hnd. apply NoDup_cons in Hnd as [Hn _]. exfalso. apply Hn. by left.
Defined.

(** [walk_pfn] does not move [voffset] on between its reads, which
    [show_page_range] compares: with a kernel that gives one word a read, two
    neighbouring pages with the same flags are listed as two ranges.  The reads
    of the program are of at most 65536 pages, so a listing is cut at least
    there. *)
Definition word_kernel (fsize : Z) (content : Z → Z) : kernel := {|
  k_pread _ _ bytes off :=
    let n := Z.max 0 (Z.min 1 (fsize - off / 8)) in (n * 8, content <$> seqZ (off / 8) n);
  k_write _ _ text := Z.of_nat (length text)
|}.

Lemma list_cut_at_reads :
  let o := Opts 0 1 0 0 None [] [] [] 0 0 4096 in
  let cols := lit "________________________________________" in
  match walk_pfn (K := word_kernel 2 (λ _, 0)) o 4 0 0 10 0 (O, pt0) with
  | (Ok _, (_, s)) =>
      stdout (flush_page_range o s).2
      = [lit "0" ++ TAB :: lit "1" ++ TAB :: cols ++ [NL]; lit "1" ++ TAB :: lit "1" ++ TAB :: cols ++ [NL]]
  | _ => False
  end.
Proof. by vm_compute. Qed.
