(* ===== verification/Splitstr.v ===== *)
(** * Splitstr: splitting a command line into its arguments (ltp-pan)

    [splitstr] fills an array that grows by 20 elements with the tokens
    [strtok] finds, and ends it with null pointers.  The contract is the list
    of the maximal runs of characters that are not separators. *)
From Stdlib Require Import String.
From S2P Require Import Prelude CLib.

(** An element of the array: not written yet, a null pointer, or a token. *)
Inductive cell := Uninit | Null | Tok (t : cstr).

Section Splitstr.
(** What the allocations give: [strdup], [malloc], and the [n]-th [realloc]. *)
Context (strdup_ok malloc_ok : bool) (realloc_ok : nat → bool).

(** [arg_array[i] = c]: a store outside the array is undefined, and so is one
    through the null pointer of a failed [realloc]. *)
Definition store (array : option (list cell)) (i : nat) (c : cell) : res (option (list cell)) :=
  match array with
  | None => Undef
  | Some a => if (i <? length a)%nat then Ok (Some (<[i := c]> a)) else Undef
  end.

(** [realloc]: the old elements, and new ones that are not initialised. *)
Definition grow (k : nat) (array : option (list cell)) (max_toks : nat) : option (list cell) :=
  if realloc_ok k then
    match array with
    | Some a => Some (a ++ replicate (max_toks - length a) Uninit)
    | None => None
    end
  else None.

(** The loop over the tokens; [saved] is where the next [strtok] goes on. *)
Fixpoint tok_loop (fuel : nat) (separator : cstr) (cur_tok : option (cstr * cstr))
    (array : option (list cell)) (num_toks max_toks k : nat)
  : res (option (list cell) * nat * nat) :=
  match fuel with
  | O => NoFuel
  | S fuel =>
      match cur_tok with
      | None => Ok (array, num_toks, max_toks)
      | Some (t, saved) =>
          array ← store array num_toks (Tok t);
          let num_toks := S num_toks in
          let cur_tok := strtok saved separator in
          if (num_toks =? max_toks)%nat then
            tok_loop fuel separator cur_tok (grow k array (max_toks + 20)) num_toks (max_toks + 20) (S k)
          else tok_loop fuel separator cur_tok array num_toks max_toks k
      end
  end.

(** [for (i = num_toks + 1; i < max_toks; i++) arg_array[i] = NULL] *)
Fixpoint null_rest (n i : nat) (array : option (list cell)) : res (option (list cell)) :=
  match n with
  | O => Ok array
  | S n => array ← store array i Null; null_rest n (S i) array
  end.

Definition MAX_TOKS0 : nat := 20.
(** The array ([None]: a null pointer is returned) and [*argcount]. *)
Definition splitstr (str separator : option cstr) : res (option (list cell) * nat) :=
  match str with
  | None => Ok (None, 0%nat)
  | Some str =>
      if negb strdup_ok then Ok (None, 0%nat)
      else if negb malloc_ok then Ok (None, 0%nat)
      else
        let separator := default [" "%char; TAB] separator in
        '(array, num_toks, max_toks) ←
          tok_loop (S (length str)) separator (strtok str separator)
            (Some (replicate MAX_TOKS0 Uninit)) 0 MAX_TOKS0 0;
        array ← store array num_toks Null;
        array ← null_rest (max_toks - S num_toks) (S num_toks) array;
        Ok (array, num_toks)
  end.
End Splitstr.

(** [splitstr_free]: the array, and what its first element points at: a place
    in the copy of the string, [offset] characters after its start.  [free]
    takes a null pointer or the start of a block; [*p_return] is read before
    [p_return] is compared with NULL.  The value: whether the copy was freed. *)
Definition free_at (offset : nat) : res unit := if decide (offset = 0%nat) then Ok () else Undef.
Definition splitstr_free (offset : nat) (p_return : option (list cell)) : res bool :=
  match p_return with
  | Some (Tok _ :: _) => free_at offset;; Ok true
  | Some (Null :: _) => Ok false
  | _ => Undef
  end.
(** Where the first [strtok] finds its token. *)
Definition first_offset (sep s : cstr) : nat := (length s - length (strspn_drop sep s))%nat.

(** ** The contract *)

(** The maximal runs of characters not in [sep]; [cur] is the run under way. *)
Fixpoint fields_aux (sep s cur : cstr) : list cstr :=
  match s with
  | [] => if decide (cur = []) then [] else [cur]
  | c :: s' =>
      if decide (c ∈ sep) then
        (if decide (cur = []) then [] else [cur]) ++ fields_aux sep s' []
      else fields_aux sep s' (cur ++ [c])
  end.
Definition fields (sep s : cstr) : list cstr := fields_aux sep s [].

Lemma fields_aux_cons sep s cur : cur ≠ [] →
  ∃ t rest, strcspn_split sep s = (t, rest) ∧ fields_aux sep s cur = (cur ++ t) :: fields sep rest.
Proof.
  revert cur. induction s as [|c s IH]; intros cur Hcur; simpl.
  - exists [], []. rewrite decide_False by done. by rewrite app_nil_r.
  - case_decide.
    + exists [], s. rewrite decide_False by done. by rewrite app_nil_r.
    + destruct (IH (cur ++ [c])) as (t & rest & -> & ->); [by destruct cur|].
      exists (c :: t), rest. by rewrite <- app_assoc.
Qed.

(** One [strtok] takes one field off the string, which gets shorter. *)
Lemma strtok_fields sep s :
  match strtok s sep with
  | None => fields sep s = []
  | Some (t, rest) => fields sep s = t :: fields sep rest ∧ (length rest < length s)%nat
  end.
Proof.
  unfold strtok, fields. induction s as [|c s IH]; [done|]. cbn [strspn_drop fields_aux].
  case_decide as Hc.
  - rewrite decide_True, app_nil_l by done. destruct (strspn_drop sep s) as [|c' s'] eqn:E; [done|].
    destruct (strcspn_split sep (c' :: s')) as [t rest]. destruct IH. cbn [length]. split; [done|lia].
  - cbn [strcspn_split app]. rewrite decide_False by done.
    destruct (fields_aux_cons sep s [c]) as (t & rest & Hs & ->); [done|]. rewrite Hs.
    split; [done|]. clear -Hs. revert t rest Hs. induction s as [|d s IH]; simpl; intros t rest Hs.
    + simplify_eq. simpl. lia.
    + case_decide; [simplify_eq; lia|]. destruct (strcspn_split sep s) as [t' r'].
      simplify_eq. specialize (IH t' rest eq_refl). simpl in *. lia.
Qed.

(** The array while the loop runs: the tokens, then elements not written. *)
Definition filled (toks : list cstr) (n : nat) : list cell :=
  (Tok <$> toks) ++ replicate n Uninit.

Lemma store_middle l1 x l2 c : store (Some (l1 ++ x :: l2)) (length l1) c = Ok (Some (l1 ++ c :: l2)).
Proof.
  unfold store. rewrite length_app. cbn [length].
  rewrite (proj2 (Nat.ltb_lt _ _)) by lia. do 2 f_equal.
  rewrite <- (Nat.add_0_r (length l1)). by rewrite insert_app_r.
Qed.

Lemma store_next toks n c :
  store (Some (filled toks (S n))) (length toks) c = Ok (Some ((Tok <$> toks) ++ c :: replicate n Uninit)).
Proof. rewrite <- (length_fmap Tok toks). apply store_middle. Qed.

Lemma filled_snoc toks t n :
  (Tok <$> toks) ++ Tok t :: replicate n Uninit = filled (toks ++ [t]) n.
Proof. unfold filled. by rewrite fmap_app, <- app_assoc. Qed.

Lemma tok_loop_spec realloc_ok fuel sep s toks max k :
  (∀ i, realloc_ok i = true) → (length (fields sep s) < fuel)%nat → (length toks < max)%nat →
  ∃ max', tok_loop realloc_ok fuel sep (strtok s sep)
            (Some (filled toks (max - length toks))) (length toks) max k
          = Ok (Some (filled (toks ++ fields sep s) (max' - length (toks ++ fields sep s))),
                length (toks ++ fields sep s), max')
          ∧ (length (toks ++ fields sep s) < max')%nat.
Proof.
  intros Hre. revert s toks max k. induction fuel as [|fuel IH]; intros s toks max k Hf Hm; [lia|].
  cbn [tok_loop]. pose proof (strtok_fields sep s) as Hs.
  destruct (strtok s sep) as [[t rest]|].
  2:{ rewrite Hs, app_nil_r. by exists max. }
  destruct Hs as [Hs _]. rewrite Hs in *. cbn [length] in Hf.
  replace (max - length toks)%nat with (S (max - S (length toks)))%nat by lia.
  rewrite store_next, filled_snoc. cbn [mbind res_bind].
  assert (length (toks ++ [t]) = S (length toks)) as Hl by (rewrite length_app; simpl; lia).
  replace (toks ++ t :: fields sep rest) with ((toks ++ [t]) ++ fields sep rest) by (by rewrite <- app_assoc).
  destruct (Nat.eqb_spec (S (length toks)) max) as [<-|Hne].
  - unfold grow. rewrite Hre, Nat.sub_diag.
    assert (filled (toks ++ [t]) 0 ++ replicate (S (length toks) + 20 - length (filled (toks ++ [t]) 0)) Uninit
      = filled (toks ++ [t]) (S (length toks) + 20 - length (toks ++ [t]))) as ->.
    { unfold filled. rewrite app_nil_r, length_fmap. done. }
    rewrite <- Hl. apply IH; lia.
  - rewrite <- Hl. apply IH; lia.
Qed.

Lemma null_rest_spec l n : null_rest n (length l) (Some (l ++ replicate n Uninit))
  = Ok (Some (l ++ replicate n Null)).
Proof.
  revert l. induction n as [|n IH]; intros l; cbn [null_rest]; [done|].
  cbn [replicate]. rewrite store_middle. cbn [mbind res_bind].
  specialize (IH (l ++ [Null])). rewrite <- !app_assoc, length_app, Nat.add_1_r in IH. exact IH.
Qed.

(** The array, when the allocations succeed. *)
Lemma splitstr_run realloc_ok (s : cstr) (separator : option cstr) :
  (∀ k, realloc_ok k = true) →
  let toks := fields (default [" "%char; TAB] separator) s in
  ∃ nulls, splitstr true true realloc_ok (Some s) separator
           = Ok (Some ((Tok <$> toks) ++ Null :: replicate nulls Null), length toks).
Proof.
  intros Hre. cbv zeta. unfold splitstr. cbn [negb]. set (sep := default _ separator).
  assert (length (fields sep s) < S (length s))%nat as Hlen.
  { assert (∀ n s, (length s ≤ n)%nat → (length (fields sep s) ≤ length s)%nat) as H.
    { induction n as [|n IH]; intros s' Hn; pose proof (strtok_fields sep s') as Hs;
        destruct (strtok s' sep) as [[t rest]|]; try (rewrite Hs; simpl; lia);
        destruct Hs as [-> ?]; [lia|]. simpl. specialize (IH rest). lia. }
    specialize (H (length s) s). lia. }
  destruct (tok_loop_spec realloc_ok (S (length s)) sep s [] MAX_TOKS0 0 Hre Hlen) as (max & Hl & Hmax).
  { unfold MAX_TOKS0. simpl. lia. }
  change (filled [] (MAX_TOKS0 - length [])) with (replicate MAX_TOKS0 Uninit) in Hl.
  change (length (@nil cstr)) with O in Hl. rewrite Hl. cbn [app mbind res_bind] in *.
  set (toks := fields sep s) in *. exists (max - S (length toks))%nat.
  replace (max - length toks)%nat with (S (max - S (length toks)))%nat by lia.
  rewrite store_next. cbn [mbind res_bind].
  pose proof (null_rest_spec ((Tok <$> toks) ++ [Null]) (max - S (length toks))) as Hn.
  rewrite <- !app_assoc, length_app, length_fmap, Nat.add_1_r in Hn. cbn [app] in Hn. by rewrite Hn.
Qed.

(** C27: splitstr stores exactly the fields of the string, in order, ends the
    array with null pointers and gives their number; however many fields there
    are, no store goes outside the array.  The allocations are taken to
    succeed. *)
Theorem splitstr_fields realloc_ok (s : cstr) (separator : option cstr) :
  (∀ k, realloc_ok k = true) →
  let toks := fields (default [" "%char; TAB] separator) s in
  ∃ nulls, splitstr true true realloc_ok (Some s) separator
           = Ok (Some ((Tok <$> toks) ++ Null :: replicate nulls Null), length toks).
Proof. exact (splitstr_run realloc_ok s separator). Qed.

Lemma splitstr_fields_witness :
  (∀ k : nat, (λ _, true) k = true)
  ∧ ∃ nulls, splitstr true true (λ _, true) (Some (lit " ls -l	/tmp ")) None
      = Ok (Some (Tok (lit "ls") :: Tok (lit "-l") :: Tok (lit "/tmp") :: Null :: replicate nulls Null), 3%nat).
Proof. split; [done|]. exact (splitstr_fields (λ _, true) (lit " ls -l	/tmp ") None (λ _, eq_refl)). Defined.

(** *** Giving the array back *)

Lemma first_offset_0 sep s : first_offset sep s = 0%nat ↔ ∀ c t, s = c :: t → c ∉ sep.
Proof.
  unfold first_offset. destruct s as [|c s]; [split; [done|by intros]|]. cbn [strspn_drop]. case_decide as Hc.
  - assert (length (strspn_drop sep s) ≤ length s)%nat as Hl.
    { clear. induction s as [|d s IH]; [done|]. cbn [strspn_drop]. case_decide; cbn [length]; lia. }
    cbn [length]. split; [lia|]. intros H. by destruct (H c s eq_refl).
  - split; [|cbn [length]; lia]. intros _ c' t [= <- <-]. done.
Qed.

(** C39: what [splitstr_free] does with the array of a [splitstr].  The copy of
    the string is freed with the array only when the string starts with a
    token; it leaks when there is no token; and when separators come before the
    first token [free] is given a pointer into the middle of the copy, which is
    undefined. *)
Theorem splitstr_free_spec realloc_ok (s : cstr) (separator : option cstr) a n :
  (∀ k, realloc_ok k = true) →
  splitstr true true realloc_ok (Some s) separator = Ok (a, n) →
  let sep := default [" "%char; TAB] separator in
  (fields sep s = [] → splitstr_free (first_offset sep s) a = Ok false)
  ∧ (fields sep s ≠ [] → (∀ c t, s = c :: t → c ∉ sep) → splitstr_free (first_offset sep s) a = Ok true)
  ∧ (fields sep s ≠ [] → (∃ c t, s = c :: t ∧ c ∈ sep) → splitstr_free (first_offset sep s) a = Undef).
Proof.
  intros Hre E. destruct (splitstr_run realloc_ok s separator Hre) as (nulls & E'). cbv zeta in *.
  set (sep := default _ separator) in *. rewrite E' in E. injection E as <- _.
  destruct (fields sep s) as [|t toks]; [by repeat split|]. split; [done|].
  split; intros _ H; cbn [splitstr_free fmap list_fmap app]; unfold free_at.
  - by rewrite decide_True by (by apply first_offset_0).
  - rewrite decide_False; [done|]. intros H0. destruct H as (c & t' & -> & Hc).
    by apply (proj1 (first_offset_0 _ _) H0 c t').
Qed.

Lemma splitstr_free_spec_witness :
  splitstr_free (first_offset [" "%char; TAB] (lit " ls")) (Some (Tok (lit "ls") :: replicate 19 Null)) = Undef.
Proof.
  refine (proj2 (proj2 (splitstr_free_spec (λ _, true) (lit " ls") None _ 1 (λ _, eq_refl) eq_refl)) _ _); [done|].
  exists " "%char, (lit "ls"). split; [done|]. vm_compute. left.
Defined.

(** A string of words, each followed by a separator. *)
Lemma fields_word sep w c s : w ≠ [] → Forall (λ d, d ∉ sep) w → c ∈ sep → fields sep (w ++ c :: s) = w :: fields sep s.
Proof.
  intros Hw Hsep Hc. unfold fields.
  assert (∀ cur, cur ++ w ≠ [] → fields_aux sep (w ++ c :: s) cur = (cur ++ w) :: fields_aux sep s []) as H.
  { clear Hw. induction Hsep as [|d w Hd Hsep IH]; intros cur Hcur; cbn [app fields_aux].
    - rewrite app_nil_r in *. by rewrite decide_True, decide_False by done.
    - rewrite decide_False by done. rewrite IH, <- app_assoc; [done|]. by destruct cur. }
  by apply (H []).
Qed.
