(* ===== verification/Zoo.v ===== *)
(** * Zoo: the file of running tests (ltp-pan)

    A zoo is a text file of 80-character lines, one per running test, in which
    a line that starts with # is free.  [zoo_mark] writes an entry over the
    first free line, [zoo_clear] frees the line of a process and [zoo_getpid]
    looks a tag up, each under the lock of the file. *)
From Stdlib Require Import String.
From S2P Require Import Prelude CLib.

Definition BUFLEN : nat := 81.
Inductive zoo_t := zoo_null | zoo_fp.
(** What one [fcntl(F_SETLKW)] does. *)
Inductive fcntl_res := F_done | F_EINTR | F_failed.
(** The messages left in [zoo_error]. *)
Inductive zoo_message :=
| seek_error_writing | seek_error_end | failed_to_unlock | failed_to_lock | did_not_find (p : Z)
| malloc_error | could_not_open | closing_error.

(** The file, whether its lock is held, the number of system calls made, and
    [zoo_error]. *)
Record zoo := ZooState {
  z_file : cstr; z_locked : bool; z_calls : nat; zoo_error : option zoo_message
}.

Class zoo_io := {
  io_fcntl : nat → fcntl_res;
  io_fseek : nat → bool
}.

Definition set_error (m : zoo_message) : prog zoo unit :=
  p_modify (λ s, ZooState (z_file s) (z_locked s) (z_calls s) (Some m)).
Definition set_file (f : cstr) : prog zoo unit :=
  p_modify (λ s, ZooState f (z_locked s) (z_calls s) (zoo_error s)).
(** The number of a system call. *)
Definition call : prog zoo nat :=
  λ s, (Ok (z_calls s), ZooState (z_file s) (z_locked s) (S (z_calls s)) (zoo_error s)).

(** The lines of the file until one satisfies [P]: its offset and text. *)
Fixpoint zoo_scan (fuel : nat) (P : cstr → bool) (pos : nat) (rest : cstr)
  : res (option (nat * cstr)) :=
  match fuel with
  | O => NoFuel
  | S fuel =>
      match fgets BUFLEN rest with
      | None => Ok None
      | Some buf =>
          if P buf then Ok (Some (pos, buf))
          else zoo_scan fuel P (pos + length buf) (drop (length buf) rest)
      end
  end.
Definition zoo_find (P : cstr → bool) : prog zoo (option (nat * cstr)) :=
  s ← p_get; p_lift (zoo_scan (S (length (z_file s))) P 0 (z_file s)).

Definition recycled (buf : cstr) : bool := bool_decide (chr0 buf = "#"%char).

Section Zoo.
Context `{zoo_io}.

(** [do ret = fcntl(...) while (ret == -1 && errno == EINTR)] *)
Fixpoint fcntl_loop (fuel : nat) : prog zoo bool :=
  match fuel with
  | O => p_nofuel
  | S fuel =>
      n ← call;
      match io_fcntl n with
      | F_done => mret true
      | F_EINTR => fcntl_loop fuel
      | F_failed => mret false
      end
  end.
Context (fuel : nat).

Definition set_locked (b : bool) : prog zoo unit :=
  p_modify (λ s, ZooState (z_file s) b (z_calls s) (zoo_error s)).

Definition zoo_lock (z : zoo_t) : prog zoo Z :=
  match z with
  | zoo_null => mret (-1)
  | zoo_fp =>
      ok ← fcntl_loop fuel;
      if ok : bool then set_locked true;; mret 0 else set_error failed_to_unlock;; mret (-1)
  end.
Definition zoo_unlock (z : zoo_t) : prog zoo Z :=
  match z with
  | zoo_null => mret (-1)
  | zoo_fp =>
      ok ← fcntl_loop fuel;
      if ok : bool then set_locked false;; mret 0 else set_error failed_to_lock;; mret (-1)
  end.

(** [if (zoo_lock(z)) return -1; ... if (zoo_unlock(z)) return -1; return r;] *)
Definition fseek : prog zoo bool := n ← call; mret (io_fseek n).

Definition zoo_mark (z : zoo_t) (entry : cstr) : prog zoo Z :=
  match z with
  | zoo_null => mret (-1)
  | zoo_fp =>
      l ← zoo_lock z;
      if nz l then mret (-1) else
      found ← zoo_find recycled;
      ok ← fseek;
      s ← p_get;
      match found with
      | Some (pos, buf) =>
          if negb ok then set_error seek_error_writing;; mret (-1) else
          set_file (fwrite_at pos (fmt_pad (length buf - 1) entry ++ [NL]) (z_file s));;
          u ← zoo_unlock z; mret (if nz u then -1 else 0)
      | None =>
          if negb ok then set_error seek_error_end;; mret (-1) else
          set_file (z_file s ++ fmt_pad 79 entry ++ [NL]);;
          u ← zoo_unlock z; mret (if nz u then -1 else 0)
      end
  end.

Definition zoo_mark_cmdline (z : zoo_t) (p : Z) (tag cmdline : cstr) : prog zoo Z :=
  zoo_mark z (snprintf 80 (fmt_d p ++ ","%char :: tag ++ ","%char :: cmdline)).

Definition has_pid (p : Z) (buf : cstr) : bool := negb (recycled buf) && (atoi buf =? p).

Definition zoo_clear (z : zoo_t) (p : Z) : prog zoo Z :=
  match z with
  | zoo_null => mret (-1)
  | zoo_fp =>
      l ← zoo_lock z;
      if nz l then mret (-1) else
      found ← zoo_find (has_pid p);
      match found with
      | Some (pos, _) =>
          ok ← fseek;
          s ← p_get;
          if negb ok then set_error seek_error_writing;; mret (-1) else
          set_file (fwrite_at pos (lit "#") (z_file s));;
          u ← zoo_unlock z; mret (if nz u then -1 else 0)
      | None =>
          u ← zoo_unlock z;
          if nz u then mret (-1) else set_error (did_not_find p);; mret 1
      end
  end.

Definition has_tag (tag buf : cstr) : bool :=
  negb (recycled buf) &&
  match strchr buf "," with
  | None => false
  | Some s => strncmp_eq (tail s) tag (length tag)
  end.

Definition zoo_getpid (z : zoo_t) (tag : cstr) : prog zoo Z :=
  match z with
  | zoo_null => mret (-1)
  | zoo_fp =>
      l ← zoo_lock z;
      if nz l then mret (-1) else
      found ← zoo_find (has_tag tag);
      u ← zoo_unlock z;
      if nz u then mret (-1) else
      mret (match found with Some (_, buf) => atoi buf | None => -1 end)
  end.
End Zoo.

(** ** The command line of an entry *)

(** [size] of the buffer, and [strcat] into it: a store past its end is
    undefined. *)
Definition args_size (argv : list cstr) : Z := zsum ((λ a, Z.of_nat (length a) + 1) <$> argv).
Definition strcat (size : Z) (cmd s : cstr) : res cstr :=
  if Z.of_nat (length (cmd ++ s)) + 1 <=? size then Ok (cmd ++ s) else Undef.

Fixpoint cat_loop (size : Z) (a : nat) (argv : list cstr) (cmd : cstr) : res cstr :=
  match argv with
  | [] => Ok cmd
  | arg :: argv' =>
      cmd ← (match a with O => Ok cmd | _ => strcat size cmd (lit " ") end);
      cmd ← strcat size cmd arg;
      cat_loop size (S a) argv' cmd
  end.

(** The command line, or nothing when [malloc] fails; [*cmd = '\0'] comes
    first. *)
Definition cat_args (malloc_ok : bool) (argv : list cstr) : res (option cstr) :=
  let size := args_size argv in
  if negb malloc_ok then Ok None
  else if size <? 1 then Undef
  else cmd ← cat_loop size 0 argv []; Ok (Some cmd).

(** A null [cmdline] is printed with ["%s"]. *)
Definition zoo_mark_args `{zoo_io} (fuel : nat) (malloc_ok : bool) (z : zoo_t) (p : Z) (tag : cstr)
    (av : list cstr) : prog zoo Z :=
  cmdline ← p_lift (cat_args malloc_ok av);
  match cmdline with
  | Some cmdline => zoo_mark_cmdline fuel z p tag cmdline
  | None => set_error malloc_error;; p_undef
  end.

(** ** Opening *)

Definition zoo_getname (env : option cstr) : option cstr :=
  (λ zoo, snprintf 1024 (zoo ++ lit "/active")) <$> env.

Inductive fopen_res := fopen_done | fopen_ENOENT | fopen_failed.
(** The three [fopen]s, in ["r+"], ["a+"] and ["r+"] mode; the second makes
    the file.  On failure the pointer is null and [zoo_error] set, but not when
    the last [fopen] fails. *)
Definition zoo_open (r1 r2 r3 : fopen_res) : prog zoo zoo_t :=
  match r1 with
  | fopen_done => mret zoo_fp
  | fopen_failed => set_error could_not_open;; mret zoo_null
  | fopen_ENOENT =>
      match r2 with
      | fopen_done => mret (match r3 with fopen_done => zoo_fp | _ => zoo_null end)
      | _ => set_error could_not_open;; mret zoo_null
      end
  end.
Definition zoo_close (fclose : Z) : prog zoo Z :=
  p_when (nz fclose) (set_error closing_error);; mret fclose.

(** ** The zoo as a list of records *)

Definition render (rs : list cstr) : cstr := concat ((λ r, r ++ [NL]) <$> rs).
Definition record_ok (r : cstr) : Prop := length r = 79%nat ∧ NL ∉ r.
Definition zoo_ok (rs : list cstr) : Prop := Forall record_ok rs.

(** The first record that satisfies [P] replaced; nothing if there is none. *)
Fixpoint update_first (P : cstr → bool) (f : cstr → cstr) (rs : list cstr) : option (list cstr) :=
  match rs with
  | [] => None
  | r :: rs' => if P r then Some (f r :: rs') else (cons r) <$> update_first P f rs'
  end.

Definition free (r : cstr) : bool := recycled (r ++ [NL]).
Definition pid_of (r : cstr) : Z := atoi (r ++ [NL]).
(** [zoo_mark]: the first free record, or a new one. *)
Definition mark_record (e : cstr) (rs : list cstr) : list cstr :=
  default (rs ++ [e]) (update_first free (λ _, e) rs).
Definition recycle (r : cstr) : cstr := "#"%char :: tail r.
Definition clear_record (p : Z) (rs : list cstr) : option (list cstr) :=
  update_first (λ r, has_pid p (r ++ [NL])) recycle rs.
Definition tagged_record (tag : cstr) (rs : list cstr) : option cstr :=
  head (filter (λ r, has_tag tag (r ++ [NL]) = true) rs).
(** The entries of the tests that run. *)
Definition live (rs : list cstr) : list cstr := filter (λ r, free r = false) rs.

Lemma render_cons r rs : render (r :: rs) = (r ++ [NL]) ++ render rs.
Proof. done. Qed.

Lemma fgets_record r rs : record_ok r →
  fgets BUFLEN (render (r :: rs)) = Some (r ++ [NL]).
Proof.
  intros [Hl Hn]. rewrite render_cons, <- app_assoc. unfold fgets, BUFLEN.
  assert (∀ n t rest, NL ∉ t → (length t < n)%nat → fgets_aux n (t ++ NL :: rest) = t ++ [NL]) as H.
  { intros n t. revert n. induction t as [|c t IH]; intros n rest Ht Hlt;
      (destruct n; [simpl in *; lia|]); cbn [app fgets_aux].
    - by rewrite decide_True.
    - rewrite decide_False by (intros ->; apply Ht; by left).
      f_equal. apply IH; [|simpl in *; lia]. intros Hin. apply Ht. by right. }
  cbn [app]. rewrite H by (done || lia). by destruct r.
Qed.

(** The scan stops at the first record that satisfies [P]. *)
Lemma zoo_scan_render fuel P rs pos :
  zoo_ok rs → (length rs < fuel)%nat →
  match list_find (λ r, P (r ++ [NL]) = true) rs with
  | None => zoo_scan fuel P pos (render rs) = Ok None
  | Some (i, r) => zoo_scan fuel P pos (render rs) = Ok (Some ((pos + 80 * i)%nat, r ++ [NL]))
  end.
Proof.
  intros Hok. revert fuel pos. induction Hok as [|r rs Hr Hok IH]; intros fuel pos Hf;
    (destruct fuel as [|fuel]; [simpl in *; lia|]).
  { done. }
  cbn [zoo_scan list_find]. rewrite fgets_record by done. case_decide as HP.
  - rewrite HP. do 3 f_equal. lia.
  - apply not_true_is_false in HP. rewrite HP, render_cons, drop_app_length.
    specialize (IH fuel (pos + length (r ++ [NL]))%nat). cbn [length] in Hf.
    destruct (list_find _ rs) as [[i r']|]; cbn [fmap option_fmap option_map prod_map];
      rewrite IH by lia; [|done].
    destruct Hr as [Hl _]. rewrite length_app, Hl. do 3 f_equal. simpl. lia.
Qed.

Lemma update_first_find P f rs :
  match list_find (λ r, P r = true) rs with
  | None => update_first P f rs = None
  | Some (i, r) => ∃ rs1 rs2, rs = rs1 ++ r :: rs2 ∧ length rs1 = i
                   ∧ update_first P f rs = Some (rs1 ++ f r :: rs2) ∧ P r = true
                   ∧ Forall (λ r, P r = false) rs1
  end.
Proof.
  induction rs as [|r rs IH]; [done|]. cbn [list_find update_first]. case_decide as HP.
  - rewrite HP. by exists [], rs.
  - apply not_true_is_false in HP. rewrite HP. destruct (list_find _ rs) as [[i r']|]; simpl.
    + destruct IH as (rs1 & rs2 & -> & <- & -> & Hr & Hall). exists (r :: rs1), rs2.
      repeat split; try done. by constructor.
    + by rewrite IH.
Qed.

Lemma length_render rs : zoo_ok rs → length (render rs) = (80 * length rs)%nat.
Proof.
  induction 1 as [|r rs [Hl _] Hok IH]; [done|]. rewrite render_cons, !length_app, IH, Hl. simpl. lia.
Qed.

Lemma render_app rs1 rs2 : render (rs1 ++ rs2) = render rs1 ++ render rs2.
Proof. unfold render. by rewrite fmap_app, concat_app. Qed.

(** Writing over a whole record, and over its first character. *)
Lemma fwrite_at_app f1 text old f2 : length text = length old →
  fwrite_at (length f1) text (f1 ++ old ++ f2) = f1 ++ text ++ f2.
Proof.
  intros Hl. unfold fwrite_at. rewrite take_app_length. do 2 f_equal.
  rewrite Hl, <- length_app, app_assoc. apply drop_app_length.
Qed.

Lemma fwrite_record rs1 r rs2 e : zoo_ok rs1 → record_ok r → length e = 79%nat →
  fwrite_at (80 * length rs1) (e ++ [NL]) (render (rs1 ++ r :: rs2)) = render (rs1 ++ e :: rs2).
Proof.
  intros Hok [Hl _] He. rewrite !render_app, !render_cons, <- (length_render rs1 Hok).
  apply fwrite_at_app. rewrite !length_app. simpl. lia.
Qed.

Lemma fwrite_hash rs1 r rs2 : zoo_ok rs1 → record_ok r →
  fwrite_at (80 * length rs1) (lit "#") (render (rs1 ++ r :: rs2)) = render (rs1 ++ recycle r :: rs2).
Proof.
  intros Hok [Hl _]. rewrite !render_app, !render_cons, <- (length_render rs1 Hok).
  destruct r as [|c r]; [done|]. exact (fwrite_at_app _ ["#"%char] [c] _ eq_refl).
Qed.

Lemma record_ok_recycle r : record_ok r → record_ok (recycle r).
Proof.
  intros [Hl Hn]. destruct r as [|c r]; [done|]. split; [done|].
  unfold recycle. cbn [tail]. intros [|Hin]%elem_of_cons; [done|]. apply Hn. by right.
Qed.

Lemma record_ok_entry e : NL ∉ e → record_ok (fmt_pad 79 e).
Proof.
  intros He. split; [apply length_fmt_pad|]. intros Hin.
  apply elem_of_fmt_pad in Hin as [|]; done.
Qed.

Lemma update_first_ok P f rs rs' : zoo_ok rs → (∀ r, record_ok r → record_ok (f r)) →
  update_first P f rs = Some rs' → zoo_ok rs'.
Proof.
  intros Hok Hf Hu. pose proof (update_first_find P f rs) as H.
  destruct (list_find _ rs) as [[i r]|]; [|congruence].
  destruct H as (rs1 & rs2 & -> & _ & Hu' & _). rewrite Hu in Hu'. simplify_eq.
  unfold zoo_ok in *. rewrite Forall_app, Forall_cons in *. naive_solver.
Qed.

Lemma mark_record_ok e rs : zoo_ok rs → record_ok e → zoo_ok (mark_record e rs).
Proof.
  intros Hok He. unfold mark_record. destruct (update_first _ _ rs) as [rs'|] eqn:E; simpl.
  - by eapply update_first_ok; [|intros; exact He|].
  - apply Forall_app. split; [done|]. by constructor.
Qed.

(** ** The operations on a zoo of records *)

(** System calls that succeed, the lock after any number of interruptions. *)
Definition interrupted (io : zoo_io) (fuel : nat) : Prop :=
  (∀ n, io_fseek n = true)
  ∧ ∀ n, ∃ k, (k < fuel)%nat ∧ io_fcntl (n + k) = F_done ∧ ∀ j, (j < k)%nat → io_fcntl (n + j) = F_EINTR.

Lemma fcntl_loop_done `{io : zoo_io} fuel s k :
  (k < fuel)%nat → io_fcntl (z_calls s + k) = F_done →
  (∀ j, (j < k)%nat → io_fcntl (z_calls s + j) = F_EINTR) →
  fcntl_loop fuel s = (Ok true, ZooState (z_file s) (z_locked s) (z_calls s + S k) (zoo_error s)).
Proof.
  revert s k. induction fuel as [|fuel IH]; intros s k Hk Hd Hi; [lia|]. cbn [fcntl_loop].
  rewrite p_bind_run. cbn [call]. destruct k as [|k].
  - rewrite Nat.add_0_r in Hd. by rewrite Hd, Nat.add_1_r.
  - pose proof (Hi 0%nat ltac:(lia)) as H0. rewrite Nat.add_0_r in H0. rewrite H0.
    rewrite (IH _ k); simpl; [do 2 f_equal; lia|lia|by rewrite <- Nat.add_succ_r|].
    intros j Hj. rewrite <- Nat.add_succ_r. apply Hi. lia.
Qed.

Section Ops.
Context `{io : zoo_io} (fuel : nat) (Hio : interrupted io fuel).

(** [s] holds the zoo [rs], unlocked. *)
Definition holds (s : zoo) (rs : list cstr) : Prop :=
  z_file s = render rs ∧ zoo_ok rs ∧ z_locked s = false.

Lemma zoo_lock_done s : ∃ n, zoo_lock fuel zoo_fp s = (Ok 0, ZooState (z_file s) true n (zoo_error s)).
Proof.
  destruct (proj2 Hio (z_calls s)) as (k & Hk & Hd & Hi). exists (z_calls s + S k)%nat.
  unfold zoo_lock. by rewrite p_bind_run, (fcntl_loop_done fuel s k).
Qed.

Lemma zoo_unlock_done s : ∃ n, zoo_unlock fuel zoo_fp s = (Ok 0, ZooState (z_file s) false n (zoo_error s)).
Proof.
  destruct (proj2 Hio (z_calls s)) as (k & Hk & Hd & Hi). exists (z_calls s + S k)%nat.
  unfold zoo_unlock. by rewrite p_bind_run, (fcntl_loop_done fuel s k).
Qed.

Lemma zoo_find_render P rs l n e : zoo_ok rs →
  zoo_find P (ZooState (render rs) l n e) =
  (Ok (match list_find (λ r, P (r ++ [NL]) = true) rs with
       | None => None
       | Some (i, r) => Some ((80 * i)%nat, r ++ [NL])
       end), ZooState (render rs) l n e).
Proof.
  intros Hok. unfold zoo_find. rewrite p_bind_run. cbn [p_get p_lift z_file].
  pose proof (zoo_scan_render (S (length (render rs))) P rs 0 Hok) as H.
  rewrite length_render in H by done. rewrite length_render by done.
  unfold p_lift. destruct (list_find _ rs) as [[i r]|]; by rewrite H by lia.
Qed.

Lemma mark_run s rs entry :
  holds s rs → NL ∉ entry →
  ∃ s', zoo_mark fuel zoo_fp entry s = (Ok 0, s') ∧ holds s' (mark_record (fmt_pad 79 entry) rs).
Proof.
  intros (Hf & Hok & Hl) Hn. pose proof (record_ok_entry entry Hn) as He. unfold zoo_mark.
  destruct (zoo_lock_done s) as (n1 & H1). rewrite (p_bind_ok _ _ _ _ _ H1). cbn [nz negb Z.eqb].
  rewrite Hf. rewrite (p_bind_ok _ _ _ _ _ (zoo_find_render recycled rs true n1 _ Hok)).
  unfold fseek. rewrite p_bind_assoc, p_bind_run. cbn [call z_calls]. rewrite p_bind_run.
  cbn [mret prog_ret]. rewrite (proj1 Hio), p_bind_run. cbn [p_get negb z_file].
  pose proof (update_first_find free (λ _, fmt_pad 79 entry) rs) as Hu. unfold free in Hu at 1.
  assert (∀ f s1, z_file s1 = f → ∃ s', (u ← zoo_unlock fuel zoo_fp; mret (if nz u then -1 else 0)) s1 = (Ok 0, s')
    ∧ z_file s' = f ∧ z_locked s' = false) as Hunlock.
  { intros f s1 <-. destruct (zoo_unlock_done s1) as (n2 & H2). rewrite (p_bind_ok _ _ _ _ _ H2). by eexists. }
  pose proof (mark_record_ok _ rs Hok He) as Hok'. unfold mark_record in *.
  destruct (list_find _ rs) as [[i r]|]; rewrite p_bind_run; cbn [set_file p_modify].
  - destruct Hu as (rs1 & rs2 & -> & <- & Hu & _). rewrite Hu in *. cbn [default from_option] in *.
    apply Forall_app in Hok as [Hok1 Hr]. inversion Hr as [|? ? Hr1 Hok2]; subst.
    destruct (Hunlock (render (rs1 ++ fmt_pad 79 entry :: rs2))
      (ZooState (render (rs1 ++ fmt_pad 79 entry :: rs2)) true (S n1) (zoo_error s)) eq_refl) as (s' & Hs' & ? & ?).
    exists s'. split; [|done]. rewrite <- Hs'. cbn [z_file z_locked z_calls zoo_error].
    replace (length (r ++ [NL]) - 1)%nat with 79%nat by (rewrite length_app; destruct Hr1 as [-> _]; simpl; lia).
    by rewrite fwrite_record by (done || apply He).
  - rewrite Hu in *. cbn [default from_option] in *.
    destruct (Hunlock (render (rs ++ [fmt_pad 79 entry]))
      (ZooState (render (rs ++ [fmt_pad 79 entry])) true (S n1) (zoo_error s)) eq_refl) as (s' & Hs' & ? & ?).
    exists s'. split; [|done]. rewrite <- Hs', render_app. cbn [z_file z_locked z_calls zoo_error render].
    unfold render at 3. cbn [fmap list_fmap concat]. by rewrite app_nil_r.
Qed.

Lemma clear_run s rs p :
  holds s rs →
  ∃ s', zoo_clear fuel zoo_fp p s = (Ok (match clear_record p rs with Some _ => 0 | None => 1 end), s')
        ∧ holds s' (default rs (clear_record p rs))
        ∧ (clear_record p rs = None → zoo_error s' = Some (did_not_find p)).
Proof.
  intros (Hf & Hok & Hl). unfold zoo_clear, clear_record.
  destruct (zoo_lock_done s) as (n1 & H1). rewrite (p_bind_ok _ _ _ _ _ H1). cbn [nz negb Z.eqb].
  rewrite Hf. rewrite (p_bind_ok _ _ _ _ _ (zoo_find_render (has_pid p) rs true n1 _ Hok)).
  pose proof (update_first_find (λ r, has_pid p (r ++ [NL])) recycle rs) as Hu.
  pose proof (update_first_ok (λ r, has_pid p (r ++ [NL])) recycle rs) as Hok'.
  destruct (list_find _ rs) as [[i r]|].
  - destruct Hu as (rs1 & rs2 & -> & <- & Hu & _). rewrite Hu in *.
    apply Forall_app in Hok as Hok12. destruct Hok12 as [Hok1 Hr].
    inversion Hr as [|? ? Hr1 Hok2]; subst.
    unfold fseek. rewrite p_bind_assoc, p_bind_run. cbn [call z_calls]. rewrite p_bind_run.
    cbn [mret prog_ret]. rewrite (proj1 Hio), p_bind_run. cbn [p_get negb z_file].
    rewrite p_bind_run. cbn [set_file p_modify z_file z_locked z_calls zoo_error].
    rewrite fwrite_hash by done.
    destruct (zoo_unlock_done (ZooState (render (rs1 ++ recycle r :: rs2)) true (S n1) (zoo_error s)))
      as (n2 & H2).
    rewrite (p_bind_ok _ _ _ _ _ H2). eexists. split; [done|]. split; [|done].
    split; [done|]. split; [|done]. by apply Hok'; [|apply record_ok_recycle|].
  - rewrite Hu in *. destruct (zoo_unlock_done (ZooState (render rs) true n1 (zoo_error s))) as (n2 & H2).
    rewrite (p_bind_ok _ _ _ _ _ H2). cbn [nz negb Z.eqb]. rewrite p_bind_run.
    cbn [set_error p_modify]. eexists. split; [done|]. by repeat split.
Qed.

Lemma getpid_run s rs tag :
  holds s rs →
  ∃ s', zoo_getpid fuel zoo_fp tag s
        = (Ok (match tagged_record tag rs with Some r => pid_of r | None => -1 end), s') ∧ holds s' rs.
Proof.
  intros (Hf & Hok & Hl). unfold zoo_getpid, tagged_record.
  destruct (zoo_lock_done s) as (n1 & H1). rewrite (p_bind_ok _ _ _ _ _ H1). cbn [nz negb Z.eqb].
  rewrite Hf. rewrite (p_bind_ok _ _ _ _ _ (zoo_find_render (has_tag tag) rs true n1 _ Hok)).
  destruct (zoo_unlock_done (ZooState (render rs) true n1 (zoo_error s))) as (n2 & H2).
  rewrite (p_bind_ok _ _ _ _ _ H2). cbn [nz negb Z.eqb].
  exists (ZooState (render rs) false n2 (zoo_error s)). split; [|done].
  assert (head (filter (λ r, has_tag tag (r ++ [NL]) = true) rs)
    = snd <$> list_find (λ r, has_tag tag (r ++ [NL]) = true) rs) as ->.
  { clear. induction rs as [|r rs IH]; [done|]. rewrite filter_cons. cbn [list_find].
    case_decide; [done|]. rewrite IH. by destruct (list_find _ rs) as [[]|]. }
  by destruct (list_find _ rs) as [[i r]|].
Qed.

End Ops.

(** *** Entries *)

Definition entry_of (p : Z) (tag cmdline : cstr) : cstr :=
  fmt_pad 79 (snprintf 80 (fmt_d p ++ ","%char :: tag ++ ","%char :: cmdline)).

(** A tag and a process that fit in an entry. *)
Definition entry_ok (p : Z) (tag cmdline : cstr) : Prop :=
  0 ≤ p < 2 ^ 31 ∧ NL ∉ tag ∧ NL ∉ cmdline ∧ NUL ∉ tag ∧ (length (fmt_d p) + S (length tag) ≤ 79)%nat.

Lemma fmt_d_nonneg p : 0 ≤ p → fmt_d p = fmt_u p.
Proof. intros. unfold fmt_d. destruct (Z.ltb_spec p 0); [lia|done]. Qed.

Lemma fmt_u_chars p c : 0 ≤ p → c ∈ fmt_u p → is_digit 10 c = true.
Proof.
  intros Hp Hc. pose proof (fmt_base_digits 10 ltac:(lia) p Hp) as H.
  rewrite Forall_forall in H. by apply H.
Qed.

(** The entry starts with the process, a comma and the tag. *)
Lemma entry_of_head p tag cmdline : entry_ok p tag cmdline →
  ∃ rest, entry_of p tag cmdline = fmt_u p ++ ","%char :: tag ++ rest.
Proof.
  intros (Hp & _ & _ & _ & Hlen). unfold entry_of, fmt_pad, snprintf. rewrite fmt_d_nonneg in * by lia.
  change (80 - 1)%nat with 79%nat. rewrite take_take, Nat.min_id.
  set (e := fmt_u p ++ ","%char :: tag). assert (length e ≤ 79)%nat as He.
  { unfold e. rewrite length_app. simpl. lia. }
  assert (fmt_u p ++ ","%char :: tag ++ ","%char :: cmdline = e ++ ","%char :: cmdline) as ->
    by (unfold e; by rewrite <- app_assoc).
  rewrite take_app_ge by done. rewrite <- app_assoc. unfold e at 1. rewrite <- app_assoc. cbn [app].
  eexists. done.
Qed.

Lemma entry_of_ok p tag cmdline : entry_ok p tag cmdline → record_ok (entry_of p tag cmdline).
Proof.
  intros (Hp & Ht & Hc & _). apply record_ok_entry. unfold snprintf. intros Hin.
  assert (NL ∈ fmt_d p ++ ","%char :: tag ++ ","%char :: cmdline) as H.
  { rewrite <- (take_drop (80 - 1)). apply elem_of_app. by left. }
  rewrite fmt_d_nonneg, !elem_of_app, !elem_of_cons, !elem_of_app, elem_of_cons in H by lia.
  destruct H as [H|[H|[H|[H|H]]]]; try done. by apply fmt_u_chars in H; [|lia].
Qed.

(** The shape of an entry decides what the lookups make of it. *)
Lemma entry_head_pid p rest : 0 ≤ p < 2 ^ 31 →
  free (fmt_u p ++ ","%char :: rest) = false ∧ pid_of (fmt_u p ++ ","%char :: rest) = p.
Proof.
  intros Hp. unfold free, pid_of, recycled. split.
  - apply bool_decide_false. intros Hc.
    destruct (fmt_base_head 10 ltac:(lia) p ltac:(lia)) as (d & t & E & Hd & _). unfold fmt_u in Hc.
    rewrite E in Hc. simpl in Hc. destruct (digit_char_spec d ltac:(lia)) as (Hv & _).
    by rewrite Hc in Hv.
  - rewrite <- app_assoc, <- fmt_d_nonneg by lia. by apply atoi_fmt_d.
Qed.

Lemma entry_has_tag p tag rest : 0 ≤ p < 2 ^ 31 → NUL ∉ tag →
  has_tag tag ((fmt_u p ++ ","%char :: tag ++ rest) ++ [NL]) = true.
Proof.
  intros Hp Hn. unfold has_tag. destruct (entry_head_pid p (tag ++ rest) Hp) as [Hf _].
  unfold free in Hf. rewrite Hf, <- app_assoc. cbn [negb andb].
  change ((","%char :: tag ++ rest) ++ [NL]) with (","%char :: (tag ++ rest) ++ [NL]).
  rewrite strchr_app; cbn [tail].
  - rewrite <- app_assoc. apply strncmp_eq_spec; [done|]. by exists (rest ++ [NL]).
  - intros Hin. apply fmt_u_chars in Hin; [done|lia].
Qed.

Lemma entry_of_facts p tag cmdline : entry_ok p tag cmdline →
  let e := entry_of p tag cmdline in
  free e = false ∧ pid_of e = p ∧ has_tag tag (e ++ [NL]) = true ∧ record_ok e.
Proof.
  intros H. cbv zeta. pose proof (entry_of_ok _ _ _ H) as Hok.
  destruct (entry_of_head _ _ _ H) as (rest & E). destruct H as (Hp & _ & _ & Hn & _).
  rewrite E in *. destruct (entry_head_pid p (tag ++ rest) Hp). pose proof (entry_has_tag p tag rest Hp Hn).
  done.
Qed.

Lemma entry_no_newline p tag cmdline : entry_ok p tag cmdline →
  NL ∉ snprintf 80 (fmt_d p ++ ","%char :: tag ++ ","%char :: cmdline).
Proof.
  intros He Hin. destruct (entry_of_ok _ _ _ He) as [_ Hn]. apply Hn. unfold entry_of, fmt_pad, snprintf in *.
  apply elem_of_app. left. change (80 - 1)%nat with 79%nat in *. by rewrite take_take, Nat.min_id.
Qed.

Lemma free_not_tagged tag r : free r = true → has_tag tag (r ++ [NL]) = false.
Proof. unfold free, has_tag. by intros ->. Qed.

Lemma free_not_pid p r : free r = true → has_pid p (r ++ [NL]) = false.
Proof. unfold free, has_pid. by intros ->. Qed.

Lemma has_pid_live p r : free r = false → has_pid p (r ++ [NL]) = (pid_of r =? p).
Proof. unfold free, has_pid, pid_of. by intros ->. Qed.

(** A mark adds one live entry; its place is a free line if there is one. *)
Lemma mark_record_split e rs : ∃ rs1 rs2 old,
  rs = rs1 ++ old ++ rs2 ∧ mark_record e rs = rs1 ++ e :: rs2
  ∧ (old = [] ∧ rs2 = [] ∨ ∃ r, old = [r] ∧ free r = true).
Proof.
  unfold mark_record. pose proof (update_first_find free (λ _, e) rs) as H.
  destruct (list_find _ rs) as [[i r]|].
  - destruct H as (rs1 & rs2 & -> & _ & -> & Hr & _). exists rs1, rs2, [r].
    split; [done|]. split; [done|]. right. by exists r.
  - rewrite H. exists rs, [], []. rewrite !app_nil_r. split; [done|]. split; [done|]. by left.
Qed.

(** The first entry that satisfies [P] when only one does. *)
Lemma update_first_unique (P : cstr → bool) f rs1 e rs2 :
  Forall (λ r, P r = false) rs1 → P e = true →
  update_first P f (rs1 ++ e :: rs2) = Some (rs1 ++ f e :: rs2).
Proof.
  intros H He. induction H as [|r rs1 Hr H IH]; cbn [app update_first]; [by rewrite He|].
  by rewrite Hr, IH.
Qed.

Lemma head_filter_unique (P : cstr → bool) rs1 e rs2 :
  Forall (λ r, P r = false) rs1 → P e = true →
  head (filter (λ r, P r = true) (rs1 ++ e :: rs2)) = Some e.
Proof.
  intros H He. induction H as [|r rs1 Hr H IH]; cbn [app]; rewrite filter_cons.
  - by rewrite decide_True.
  - by rewrite decide_False by congruence.
Qed.

Lemma recycle_free e : free (recycle e) = true.
Proof. unfold free, recycled, recycle. by apply bool_decide_true. Qed.

Lemma live_app rs1 rs2 : live (rs1 ++ rs2) = live rs1 ++ live rs2.
Proof. apply filter_app. Qed.
Lemma live_cons r rs : live (r :: rs) = if free r then live rs else r :: live rs.
Proof. unfold live. rewrite filter_cons. by destruct (free r). Qed.

(** The scan ends on any file, and so do the operations. *)
Lemma zoo_scan_total fuel P pos rest : (length rest < fuel)%nat → ∃ r, zoo_scan fuel P pos rest = Ok r.
Proof.
  revert pos rest. induction fuel as [|fuel IH]; intros pos rest Hf; [lia|]. cbn [zoo_scan].
  destruct rest as [|c rest]; [by eexists|]. cbn [fgets]. destruct (P _); [by eexists|].
  apply IH. rewrite length_drop. unfold BUFLEN. cbn [Nat.sub fgets_aux].
  case_decide; simpl in *; lia.
Qed.

Lemma zoo_find_total P s : ∃ r, zoo_find P s = (Ok r, s).
Proof.
  destruct (zoo_scan_total (S (length (z_file s))) P 0 (z_file s)) as [r Hr]; [lia|].
  exists r. unfold zoo_find. rewrite p_bind_run. cbn [p_get p_lift]. unfold p_lift. by rewrite Hr.
Qed.

Lemma zoo_clear_total `{io : zoo_io} fuel p s : interrupted io fuel →
  ∃ r s', zoo_clear fuel zoo_fp p s = (Ok r, s').
Proof.
  intros Hio. unfold zoo_clear.
  destruct (zoo_lock_done fuel Hio s) as (n1 & H1). rewrite (p_bind_ok _ _ _ _ _ H1). cbn [nz negb Z.eqb].
  match goal with |- context [(zoo_find ?P ≫= _) ?s1] => destruct (zoo_find_total P s1) as [r Hr] end.
  rewrite (p_bind_ok _ _ _ _ _ Hr). destruct r as [[pos buf]|].
  - unfold fseek. rewrite p_bind_assoc, p_bind_run. cbn [call]. rewrite p_bind_run. cbn [mret prog_ret].
    rewrite (proj1 Hio), p_bind_run. cbn [p_get negb]. rewrite p_bind_run. cbn [set_file p_modify].
    match goal with |- context [(zoo_unlock _ _ ≫= _) ?s1] => destruct (zoo_unlock_done fuel Hio s1) as (n2 & H2) end.
    rewrite (p_bind_ok _ _ _ _ _ H2). by do 2 eexists.
  - match goal with |- context [(zoo_unlock _ _ ≫= _) ?s1] => destruct (zoo_unlock_done fuel Hio s1) as (n2 & H2) end.
    rewrite (p_bind_ok _ _ _ _ _ H2). by do 2 eexists.
Qed.

Section Contract.
Context `{io : zoo_io} (fuel : nat) (Hio : interrupted io fuel).

(** Zoo_mark keeps the zoo a file of 80-character lines, puts the entry,
    cut or padded to 79 characters, in the place of the first free line or
    after the last line, changes no other line, and leaves the file unlocked;
    interrupted locks are tried again. *)
Theorem zoo_mark_spec s rs entry :
  holds s rs → NL ∉ entry →
  ∃ s', zoo_mark fuel zoo_fp entry s = (Ok 0, s') ∧ holds s' (mark_record (fmt_pad 79 entry) rs).
Proof. by apply mark_run. Qed.

(** Zoo_clear frees the first running entry of the process, by its first
    character alone, and returns 0; if there is none it changes nothing,
    returns 1 and leaves the message that says so. *)
Theorem zoo_clear_spec s rs p :
  holds s rs →
  ∃ s', zoo_clear fuel zoo_fp p s = (Ok (match clear_record p rs with Some _ => 0 | None => 1 end), s')
        ∧ holds s' (default rs (clear_record p rs))
        ∧ (clear_record p rs = None → zoo_error s' = Some (did_not_find p)).
Proof. by apply clear_run. Qed.

(** C14: the life of an entry.  In a zoo of records where no line matches the
    tag and no running test has the process, once a test is marked its process
    is found under its tag; once it is cleared the tag is not found any more,
    and the running tests are those there were before. *)
Theorem zoo_lifecycle s rs p tag cmdline :
  holds s rs → entry_ok p tag cmdline →
  (∀ r, r ∈ rs → has_tag tag (r ++ [NL]) = false) →
  (∀ r, r ∈ live rs → pid_of r ≠ p) →
  ∃ s1 s2 s3 s4 rs',
    zoo_mark_cmdline fuel zoo_fp p tag cmdline s = (Ok 0, s1)
    ∧ zoo_getpid fuel zoo_fp tag s1 = (Ok p, s2)
    ∧ zoo_clear fuel zoo_fp p s2 = (Ok 0, s3)
    ∧ zoo_getpid fuel zoo_fp tag s3 = (Ok (-1), s4)
    ∧ holds s4 rs' ∧ live rs' = live rs.
Proof.
  intros Hs He Htag Hpid. destruct (entry_of_facts _ _ _ He) as (Hef & Hep & Het & Heo).
  pose proof (entry_no_newline _ _ _ He) as Hn.
  destruct (mark_run fuel Hio s rs _ Hs Hn) as (s1 & H1 & Hs1). fold (entry_of p tag cmdline) in Hs1.
  destruct (mark_record_split (entry_of p tag cmdline) rs) as (rs1 & rs2 & old & -> & Hmark & Hold).
  rewrite Hmark in Hs1. set (e := entry_of p tag cmdline) in *.
  assert (Forall (λ r, has_tag tag (r ++ [NL]) = false) (rs1 ++ rs2)) as Htag'.
  { apply Forall_forall. intros r Hr. apply Htag. rewrite !elem_of_app in *. tauto. }
  assert (Forall (λ r, has_pid p (r ++ [NL]) = false) rs1) as Hpid'.
  { apply Forall_forall. intros r Hr. destruct (free r) eqn:Ef; [by apply free_not_pid|].
    rewrite has_pid_live by done. apply Z.eqb_neq, Hpid. unfold live.
    apply list_elem_of_filter. split; [done|]. apply elem_of_app. by left. }
  apply Forall_app in Htag' as Htag12. destruct Htag12 as [Htag1 Htag2].
  destruct (getpid_run fuel Hio s1 _ tag Hs1) as (s2 & H2 & Hs2).
  unfold tagged_record in H2.
  rewrite (head_filter_unique (λ r, has_tag tag (r ++ [NL]))), Hep in H2 by done.
  destruct (clear_run fuel Hio s2 _ p Hs2) as (s3 & H3 & Hs3 & _). unfold clear_record in *.
  rewrite (update_first_unique (λ r, has_pid p (r ++ [NL]))) in H3, Hs3
    by (done || (rewrite has_pid_live by done; by apply Z.eqb_eq)).
  cbn [default from_option] in Hs3.
  destruct (getpid_run fuel Hio s3 _ tag Hs3) as (s4 & H4 & Hs4).
  exists s1, s2, s3, s4, (rs1 ++ recycle e :: rs2). split; [exact H1|]. split; [exact H2|].
  split; [exact H3|]. split; [|split; [done|]].
  - rewrite H4. destruct (tagged_record _ _) as [r|] eqn:E; [exfalso|done].
    assert (has_tag tag (r ++ [NL]) = true ∧ r ∈ rs1 ++ recycle e :: rs2) as [Hr Hin].
    { unfold tagged_record in E. destruct (filter _ _) as [|r' l] eqn:E'; [done|].
      injection E as ->. assert (r ∈ r :: l) as Hr by left. rewrite <- E' in Hr.
      by apply list_elem_of_filter in Hr. }
    apply elem_of_app in Hin as [Hin|[->|Hin]%elem_of_cons].
    + rewrite Forall_forall in Htag1. by rewrite Htag1 in Hr.
    + by rewrite free_not_tagged in Hr by apply recycle_free.
    + rewrite Forall_forall in Htag2. by rewrite Htag2 in Hr.
  - rewrite !live_app. f_equal. unfold live at 1. rewrite filter_cons, recycle_free.
    rewrite decide_False by done. fold (live rs2).
    destruct Hold as [[-> _]|(r & -> & Hr)]; [done|]. unfold live at 2. rewrite filter_cons, Hr.
    by rewrite decide_False.
Qed.

End Contract.

Lemma args_size_cons a l : args_size (a :: l) = Z.of_nat (length a) + 1 + args_size l.
Proof. done. Qed.

Lemma args_size_nonneg l : 0 ≤ args_size l.
Proof. induction l as [|a l IH]; [done|]. rewrite args_size_cons. lia. Qed.

Lemma strcat_fits size cmd s :
  Z.of_nat (length cmd) + Z.of_nat (length s) + 1 ≤ size → strcat size cmd s = Ok (cmd ++ s).
Proof.
  intros H. unfold strcat. rewrite length_app. by destruct (Z.leb_spec (Z.of_nat (length cmd + length s) + 1) size); [|lia].
Qed.

Lemma intercalate_head {A} (sep x y : list A) l :
  intercalate sep ((x ++ y) :: l) = x ++ intercalate sep (y :: l).
Proof. destruct l; [done|]. simpl. by rewrite <- app_assoc. Qed.

Lemma cat_loop_spec size a argv cmd :
  Z.of_nat (length cmd) + args_size argv + 1 ≤ size →
  cat_loop size (S a) argv cmd = Ok (intercalate (lit " ") (cmd :: argv)).
Proof.
  revert a cmd. induction argv as [|arg argv IH]; intros a cmd H; [done|].
  rewrite args_size_cons in H. pose proof (args_size_nonneg argv). cbn [cat_loop].
  rewrite strcat_fits by (simpl; lia). cbn [mbind res_bind].
  rewrite strcat_fits by (rewrite length_app; simpl; lia). cbn [mbind res_bind].
  rewrite IH by (rewrite !length_app; simpl; lia).
  rewrite <- app_assoc, !intercalate_head. by rewrite (intercalate_cons _ cmd).
Qed.

(** The buffer cat_args takes is large enough for the command line it
    builds: with at least one argument no store goes past its end, and the
    result is the arguments with one space between them. *)
Theorem cat_args_fits (argv : list cstr) :
  argv ≠ [] → cat_args true argv = Ok (Some (intercalate (lit " ") argv)).
Proof.
  destruct argv as [|arg argv]; [done|]. intros _. unfold cat_args. cbn [negb].
  pose proof (args_size_nonneg argv). rewrite args_size_cons.
  destruct (Z.ltb_spec (Z.of_nat (length arg) + 1 + args_size argv) 1); [lia|].
  cbn [cat_loop mbind res_bind]. rewrite strcat_fits by (simpl; lia). cbn [mbind res_bind app].
  by rewrite cat_loop_spec by lia.
Qed.

Lemma cat_args_fits_witness :
  [lit "mce-inject"; lit "-f"; lit "x"] ≠ []
  ∧ cat_args true [lit "mce-inject"; lit "-f"; lit "x"] = Ok (Some (lit "mce-inject -f x")).
Proof. split; [done|]. exact (cat_args_fits [lit "mce-inject"; lit "-f"; lit "x"] ltac:(done)). Defined.

(** With no argument, the first store is past the end of the empty buffer. *)
Lemma cat_args_empty : cat_args true [] = Undef.
Proof. done. Qed.

(** ** Witnesses: a zoo of two lines, the first free *)

Definition quick_io : zoo_io := {| io_fcntl _ := F_done; io_fseek _ := true |}.
Lemma quick_interrupted : interrupted quick_io 1.
Proof. split; [done|]. intros n. exists 0%nat. repeat split; [lia|]. intros j Hj. lia. Qed.

Definition demo_records : list cstr := [fmt_pad 79 (lit "#71,old,cmd"); fmt_pad 79 (lit "12,pan,ltp-pan -n pan")].
Definition demo_zoo : zoo := ZooState (render demo_records) false 0 None.
Lemma demo_holds : holds demo_zoo demo_records.
Proof.
  split; [done|]. split; [|done]. by repeat apply Forall_cons_2; try apply Forall_nil_2;
    split; try done; apply (bool_decide_unpack _); vm_compute.
Qed.

Lemma zoo_mark_spec_witness :
  holds demo_zoo demo_records ∧ NL ∉ lit "99,test1,sleep 1"
  ∧ ∃ s', zoo_mark (H := quick_io) 1 zoo_fp (lit "99,test1,sleep 1") demo_zoo = (Ok 0, s')
          ∧ holds s' [fmt_pad 79 (lit "99,test1,sleep 1"); fmt_pad 79 (lit "12,pan,ltp-pan -n pan")].
Proof.
  assert (NL ∉ lit "99,test1,sleep 1") as Hn by (by apply (bool_decide_unpack _); vm_compute).
  split; [apply demo_holds|]. split; [done|].
  exact (zoo_mark_spec (io := quick_io) 1 quick_interrupted demo_zoo demo_records _ demo_holds Hn).
Defined.

Lemma zoo_clear_spec_witness :
  holds demo_zoo demo_records
  ∧ ∃ s', zoo_clear (H := quick_io) 1 zoo_fp 12 demo_zoo = (Ok 0, s')
          ∧ holds s' [fmt_pad 79 (lit "#71,old,cmd"); fmt_pad 79 (lit "#2,pan,ltp-pan -n pan")].
Proof.
  split; [apply demo_holds|].
  destruct (zoo_clear_spec (io := quick_io) 1 quick_interrupted demo_zoo demo_records 12 demo_holds)
    as (s' & Hr & Hs & _).
  exists s'. split; [exact Hr|exact Hs].
Defined.

Lemma zoo_lifecycle_witness :
  ∃ s1 s2, zoo_mark_cmdline (H := quick_io) 1 zoo_fp 99 (lit "test1") (lit "sleep 1") demo_zoo = (Ok 0, s1)
           ∧ zoo_getpid (H := quick_io) 1 zoo_fp (lit "test1") s1 = (Ok 99, s2).
Proof.
  assert (entry_ok 99 (lit "test1") (lit "sleep 1")) as He.
  { repeat split; try done; try (by apply (bool_decide_unpack _); vm_compute). }
  destruct (zoo_lifecycle (io := quick_io) 1 quick_interrupted demo_zoo demo_records 99 (lit "test1")
    (lit "sleep 1") demo_holds He) as (s1 & s2 & s3 & s4 & rs' & H1 & H2 & _).
  - apply Forall_forall. by apply (bool_decide_unpack _); vm_compute.
  - apply Forall_forall. by apply (bool_decide_unpack _); vm_compute.
  - exists s1, s2. split; [exact H1|exact H2].
Defined.
