(* ===== verification/PanUnit.v ===== *)
(** * PanUnit: the unit tests of splitstr.c and zoolib.c

    The two [main]s that are compiled with UNIT_TEST.  That of splitstr.c splits
    the lines of 0 to 999 arguments and asserts what it gets; that of zoolib.c
    marks twenty tests in a zoo and clears them, five times. *)
From Stdlib Require Import String.
From S2P Require Import Prelude CLib Splitstr Zoo.

(** ** splitstr.c *)

(** The signal of [abort]: an assertion that fails ends the program with it. *)
Definition SIGABRT : Z := 6.
Definition assert (c : bool) : res unit := if c then Ok () else Exit SIGABRT.
(** [strncat] into an array of [size] characters. *)
Definition unit_strncat (size : Z) (dst src : cstr) (n : nat) : res cstr :=
  let r := dst ++ take n src in if Z.of_nat (length r) <? size then Ok r else Undef.
Fixpoint res_for {A} (l : list A) (f : A → res unit) : res unit :=
  match l with [] => Ok () | a :: l => f a;; res_for l f end.
Fixpoint res_fold {A B} (l : list A) (f : B → A → res B) (b : B) : res B :=
  match l with [] => Ok b | a :: l => b ← f b a; res_fold l f b end.

Definition test_size : Z := 1000.
Definition test_arg (i : Z) : cstr := snprintf 16 (lit "arg" ++ fmt_d i).
Definition test_str_array : list cstr := test_arg <$> seqZ 0 test_size.
Definition test_str (i : Z) : res cstr :=
  res_fold (seqZ 0 i) (λ str y, unit_strncat 32768 str (snprintf 16 (lit "arg" ++ fmt_d y ++ lit " ")) 16) [].
(** [strcmp(ret[y], test_str_array[y]) == 0] *)
Definition same_arg (ret : option (list cell)) (y : nat) : res bool :=
  match ret ≫= (.!! y), test_str_array !! y with
  | Some (Tok t), Some u => Ok (strcmp_eq t u)
  | _, _ => Undef
  end.

Section SplitUnit.
Context (strdup_ok malloc_ok : bool) (realloc_ok : nat → bool).
Definition unit_round (i : Z) : res unit :=
  str ← test_str i;
  '(ret, size_ret) ← splitstr strdup_ok malloc_ok realloc_ok (Some str) None;
  assert (Z.of_nat size_ret =? i);;
  res_for (seq 0 (Z.to_nat i)) (λ y, same ← same_arg ret y; assert same);;
  splitstr_free (first_offset [" "%char; TAB] str) ret;;
  Ok ().
Definition splitstr_unit_test : res Z := res_for (seqZ 0 test_size) unit_round;; Ok 0.
End SplitUnit.

(** ** zoolib.c *)

Section ZooUnit.
Context `{io : zoo_io} (fuel : nat).

Definition zt_add (z : zoo_t) (n : Z) : prog zoo Z :=
  let tag := snprintf 10 (lit "test" ++ fmt_d n) in
  let cmdline := snprintf 200 (lit "runtest" ++ fmt_d n ++ lit " one two three") in
  zoo_mark_cmdline fuel z n tag cmdline.

(** [for (i = 0; i < 20; i++) zt_add(test_zoo, i); for (; i >= 0; i--)
    zoo_clear(test_zoo, i);], the results not looked at: the second loop
    starts at 20. *)
Definition zoo_unit_round (z : zoo_t) : prog zoo unit :=
  p_for (seqZ 0 20) (λ i, zt_add z i;; mret ());;
  p_for (reverse (seqZ 0 21)) (λ i, zoo_clear fuel z i;; mret ()).

(** The file it prints the name of. *)
Definition unit_zooname (env : option cstr) : cstr := default (lit "test_zoo") (zoo_getname env).
Definition zoo_unit_test (r1 r2 r3 : fopen_res) (malloc_ok : bool) (pid : Z) (av : list cstr) : prog zoo Z :=
  test_zoo ← zoo_open r1 r2 r3;
  match test_zoo with
  | zoo_null => p_exit 255
  | zoo_fp =>
      zoo_mark_args fuel malloc_ok test_zoo pid (lit "unittest") av;;
      p_for (seqZ 0 5) (λ _, zoo_unit_round test_zoo);;
      zoo_clear fuel test_zoo pid;;
      mret 0
  end.
End ZooUnit.

(** ** The test of splitstr passes *)

Lemma res_for_ok {A} (l : list A) (f : A → res unit) : (∀ a, a ∈ l → f a = Ok ()) → res_for l f = Ok ().
Proof.
  induction l as [|a l IH]; intros H; cbn [res_for]; [done|].
  rewrite (H a) by left. apply IH. intros b Hb. apply H. by right.
Qed.

Notation blanks := ([" "%char; TAB]).
(** The words of a line: short, without blanks, and the same with one after. *)
Definition arg_fine (y : Z) : bool :=
  bool_decide (test_arg y ≠ [] ∧ Forall (λ d, d ∉ blanks) (test_arg y) ∧ (length (test_arg y) ≤ 6)%nat
    ∧ take 16 (snprintf 16 (lit "arg" ++ fmt_d y ++ lit " ")) = test_arg y ++ lit " ").
Lemma args_fine y : 0 ≤ y < test_size → arg_fine y = true.
Proof.
  intros Hy. assert (forallb arg_fine (seqZ 0 test_size) = true) as H by by vm_compute.
  rewrite forallb_forall in H. apply H, list_elem_of_In, elem_of_seqZ. lia.
Qed.

Definition line_of (ys : list Z) : cstr := concat ((λ y, test_arg y ++ lit " ") <$> ys).
Lemma line_of_snoc ys y : line_of (ys ++ [y]) = line_of ys ++ test_arg y ++ lit " ".
Proof. unfold line_of. rewrite fmap_app, concat_app. cbn [fmap list_fmap concat]. by rewrite app_nil_r. Qed.
Lemma line_of_cons y ys : line_of (y :: ys) = test_arg y ++ " "%char :: line_of ys.
Proof. unfold line_of. cbn [fmap list_fmap concat]. by rewrite <- app_assoc. Qed.
Definition fine_all (ys : list Z) : Prop := ∀ y, y ∈ ys → 0 ≤ y < test_size.

Lemma length_line_of ys : fine_all ys → (length (line_of ys) ≤ 7 * length ys)%nat.
Proof.
  induction ys as [|y ys IH]; intros Hys; [done|].
  pose proof (args_fine y (Hys y ltac:(left))) as (_ & _ & Hl & _)%bool_decide_eq_true.
  rewrite line_of_cons, length_app. cbn [length].
  assert (fine_all ys) as Hys' by (intros z Hz; apply Hys; by right). specialize (IH Hys'). lia.
Qed.

Lemma fields_line_of ys : fine_all ys → fields blanks (line_of ys) = test_arg <$> ys.
Proof.
  induction ys as [|y ys IH]; intros Hys; [done|].
  pose proof (args_fine y (Hys y ltac:(left))) as (Hne & Hb & _ & _)%bool_decide_eq_true.
  rewrite line_of_cons, fields_word by (done || by left). cbn [fmap list_fmap]. f_equal. apply IH. intros z Hz. apply Hys. by right.
Qed.

(** The buffer of 32768 characters is large enough. *)
Lemma test_str_line i : 0 ≤ i ≤ test_size → test_str i = Ok (line_of (seqZ 0 i)).
Proof.
  intros Hi. unfold test_str.
  assert (∀ ys zs, fine_all (zs ++ ys) → (length (zs ++ ys) ≤ 1000)%nat →
    res_fold ys (λ str y, unit_strncat 32768 str (snprintf 16 (lit "arg" ++ fmt_d y ++ lit " ")) 16) (line_of zs)
    = Ok (line_of (zs ++ ys))) as H.
  { induction ys as [|y ys IH]; intros zs Hf Hl; cbn [res_fold]; [by rewrite app_nil_r|].
    assert (0 ≤ y < test_size) as Hy by (apply Hf, elem_of_app; right; left).
    pose proof (args_fine y Hy) as (_ & _ & Hlen & Htake)%bool_decide_eq_true.
    assert (fine_all zs) as Hz by (intros z Hz; apply Hf, elem_of_app; by left).
    pose proof (length_line_of zs Hz). unfold unit_strncat. rewrite Htake, !length_app in *.
    cbn [length lit String.list_ascii_of_string] in *.
    rewrite (proj2 (Z.ltb_lt _ _)) by lia. cbn [mbind res_bind].
    change (" "%char :: []) with (lit " "). rewrite <- line_of_snoc.
    replace (zs ++ y :: ys) with ((zs ++ [y]) ++ ys) in * by by rewrite <- app_assoc.
    apply IH; [done|]. rewrite !length_app in *. cbn [length] in *. lia. }
  apply (H (seqZ 0 i) []).
  - intros y [? ?]%elem_of_seqZ. lia.
  - cbn [app]. rewrite length_seqZ. unfold test_size in Hi. lia.
Qed.

Lemma same_arg_ok i nulls y : 0 ≤ i ≤ test_size → (y < Z.to_nat i)%nat →
  same_arg (Some ((Tok <$> (test_arg <$> seqZ 0 i)) ++ Null :: replicate nulls Null)) y = Ok true.
Proof.
  intros Hi Hy. unfold same_arg, test_str_array. cbn [mbind option_bind].
  rewrite lookup_app_l by (rewrite !length_fmap, length_seqZ; lia).
  rewrite !list_lookup_fmap, !lookup_seqZ_lt by lia. cbn [fmap option_fmap option_map].
  unfold strcmp_eq. by rewrite bool_decide_true.
Qed.

(** The unit test of splitstr passes: with allocations that succeed no
    assertion fails, on any of its thousand lines, its buffers are large enough,
    what it gives back was allocated, and it returns 0. *)
Theorem splitstr_unit_passes realloc_ok :
  (∀ k, realloc_ok k = true) → splitstr_unit_test true true realloc_ok = Ok 0.
Proof.
  intros Hre. unfold splitstr_unit_test. rewrite res_for_ok; [done|].
  intros i [Hi0 Hi]%elem_of_seqZ. assert (0 ≤ i ≤ test_size) as Hi' by lia.
  assert (fine_all (seqZ 0 i)) as Hf by (intros y [? ?]%elem_of_seqZ; lia).
  unfold unit_round. rewrite test_str_line by done. cbn [mbind res_bind].
  destruct (splitstr_run realloc_ok (line_of (seqZ 0 i)) None Hre) as (nulls & E). cbv zeta in E.
  cbn [default from_option] in E. rewrite fields_line_of in E by done. rewrite E. cbn [mbind res_bind].
  rewrite length_fmap, length_seqZ, Z2Nat.id, Z.eqb_refl by lia. cbn [assert mbind res_bind].
  rewrite res_for_ok by (intros y Hy%elem_of_seq; rewrite same_arg_ok by lia; done). cbn [mbind res_bind].
  destruct (decide (i = 0)) as [->|Hne]; [done|].
  rewrite (seqZ_cons 0 i) by lia. rewrite line_of_cons. cbn [fmap list_fmap app splitstr_free].
  unfold free_at. rewrite decide_True; [done|]. by apply first_offset_0; intros c t [= <- <-]; vm_compute; set_solver.
Qed.

Lemma splitstr_unit_passes_witness : splitstr_unit_test true true (λ _, true) = Ok 0.
Proof. exact (splitstr_unit_passes (λ _, true) (λ _, eq_refl)). Defined.

(** ** The test of the zoo leaves the zoo as it was *)

(** The processes of the running tests, and the entries of the others. *)
Definition pids (rs : list cstr) : list Z := pid_of <$> live rs.
Definition others (ps : list Z) (rs : list cstr) : list cstr := filter (λ r, pid_of r ∉ ps) (live rs).

Lemma mark_record_pids ps e rs : free e = false → pid_of e ∈ ps →
  pids (mark_record e rs) ≡ₚ pid_of e :: pids rs ∧ others ps (mark_record e rs) = others ps rs.
Proof.
  intros He Hp. destruct (mark_record_split e rs) as (rs1 & rs2 & old & -> & -> & Hold).
  assert (live (old ++ rs2) = live rs2) as Hl.
  { destruct Hold as [[-> _]|(r & -> & Hr)]; [done|]. cbn [app]. by rewrite live_cons, Hr. }
  unfold pids, others. rewrite !live_app in *. rewrite Hl, live_cons, He, !fmap_app, fmap_cons, !filter_app, filter_cons.
  split; [by rewrite <- Permutation_middle|]. by rewrite decide_False by auto.
Qed.

Lemma update_first_split (P : cstr → bool) f rs :
  match update_first P f rs with
  | Some rs' => ∃ rs1 r rs2, rs = rs1 ++ r :: rs2 ∧ rs' = rs1 ++ f r :: rs2 ∧ P r = true
  | None => Forall (λ r, P r = false) rs
  end.
Proof.
  induction rs as [|r rs IH]; cbn [update_first]; [done|]. destruct (P r) eqn:E.
  - by exists [], r, rs.
  - destruct (update_first P f rs) as [rs'|]; cbn [fmap option_fmap option_map]; [|by constructor].
    destruct IH as (rs1 & r0 & rs2 & -> & -> & H). by exists (r :: rs1), r0, rs2.
Qed.

(** A clear takes one entry of its process away. *)
Lemma clear_record_pids ps p rs : p ∈ ps →
  (pids rs ≡ₚ p :: pids (default rs (clear_record p rs)) ∨ p ∉ pids rs ∧ clear_record p rs = None)
  ∧ others ps (default rs (clear_record p rs)) = others ps rs.
Proof.
  intros Hp. unfold clear_record. pose proof (update_first_split (λ r, has_pid p (r ++ [NL])) recycle rs) as H.
  destruct (update_first _ _ rs) as [rs'|]; cbn [default from_option id].
  - destruct H as (rs1 & r & rs2 & -> & -> & Hr). destruct (free r) eqn:Ef; [by rewrite free_not_pid in Hr|].
    rewrite has_pid_live in Hr by done. apply Z.eqb_eq in Hr. unfold pids, others.
    rewrite !live_app, !live_cons, recycle_free, Ef, !fmap_app, fmap_cons, !filter_app, filter_cons, Hr.
    split; [left; by rewrite <- Permutation_middle|]. by rewrite decide_False by auto.
  - split; [|done]. right. split; [|done]. intros (r & -> & Hr)%list_elem_of_fmap.
    apply list_elem_of_filter in Hr as [Ef Hr]. rewrite Forall_forall in H. specialize (H r Hr).
    cbn beta in H. rewrite has_pid_live in H by done. by apply Z.eqb_neq in H.
Qed.

Section ZooUnitRun.
Context `{io : zoo_io} (fuel : nat) (Hio : interrupted io fuel) (ps : list Z).

(** [s] holds a zoo whose processes are [l], with the entries [keep] of those
    that are not in [ps]. *)
Definition zoo_with (l : list Z) (keep : list cstr) (s : zoo) : Prop :=
  ∃ rs, holds s rs ∧ pids rs ≡ₚ l ∧ others ps rs = keep.
#[export] Instance zoo_with_proper : Proper ((≡ₚ) ==> eq ==> eq ==> iff) zoo_with.
Proof. intros l l' Hl k ? <- s ? <-. unfold zoo_with. by setoid_rewrite Hl. Qed.

Lemma mark_with l keep s p tag cmdline : entry_ok p tag cmdline → p ∈ ps → zoo_with l keep s →
  ∃ s', zoo_mark_cmdline fuel zoo_fp p tag cmdline s = (Ok 0, s') ∧ zoo_with (p :: l) keep s'.
Proof.
  intros He Hp (rs & Hs & Hl & Hk). destruct (entry_of_facts _ _ _ He) as (Hef & Hep & _ & _).
  destruct (mark_run fuel Hio s rs _ Hs (entry_no_newline _ _ _ He)) as (s' & E & Hs').
  exists s'. split; [exact E|]. fold (entry_of p tag cmdline) in Hs'. eexists. split; [exact Hs'|].
  destruct (mark_record_pids ps (entry_of p tag cmdline) rs Hef) as [H1 H2]; [by rewrite Hep|].
  by rewrite H1, H2, Hep, Hl.
Qed.

Lemma clear_with l keep s p : p ∈ ps → zoo_with (p :: l) keep s →
  ∃ s', zoo_clear fuel zoo_fp p s = (Ok 0, s') ∧ zoo_with l keep s'.
Proof.
  intros Hp (rs & Hs & Hl & Hk). destruct (clear_run fuel Hio s rs p Hs) as (s' & E & Hs' & _).
  destruct (clear_record_pids ps p rs Hp) as [[H1|[Hno _]] H2]; [|by rewrite Hl in Hno; destruct Hno; left].
  exists s'. split.
  - rewrite E. destruct (clear_record p rs) eqn:Ec; [done|]. cbn [default from_option] in H1.
    by apply Permutation_length in H1; cbn [length] in H1; lia.
  - exists (default rs (clear_record p rs)). rewrite H2. split; [done|]. split; [|done].
    rewrite Hl in H1. by apply Permutation_cons_inv in H1.
Qed.
Lemma clear_without l keep s p : p ∈ ps → p ∉ l → zoo_with l keep s →
  ∃ s', zoo_clear fuel zoo_fp p s = (Ok 1, s') ∧ zoo_with l keep s'.
Proof.
  intros Hp Hno (rs & Hs & Hl & Hk). destruct (clear_run fuel Hio s rs p Hs) as (s' & E & Hs' & _).
  destruct (clear_record_pids ps p rs Hp) as [[H1|[_ Ec]] _]; [destruct Hno; rewrite <- Hl, H1; left|].
  rewrite Ec in *. exists s'. split; [done|]. by exists rs.
Qed.

(** The twenty tests of a round. *)
Definition zt_entry_ok (n : Z) : bool :=
  bool_decide (entry_ok n (snprintf 10 (lit "test" ++ fmt_d n)) (snprintf 200 (lit "runtest" ++ fmt_d n ++ lit " one two three"))).
Lemma zt_entries n : 0 ≤ n < 20 → zt_entry_ok n = true.
Proof.
  intros Hn. assert (forallb zt_entry_ok (seqZ 0 20) = true) as H by by vm_compute.
  rewrite forallb_forall in H. apply H, list_elem_of_In, elem_of_seqZ. lia.
Qed.

Context (Hps : ∀ n, 0 ≤ n ≤ 20 → n ∈ ps).
Lemma marks_with l keep s ns : (∀ n, n ∈ ns → 0 ≤ n < 20) → zoo_with l keep s →
  ∃ s', p_for ns (λ i, zt_add fuel zoo_fp i;; mret ()) s = (Ok (), s') ∧ zoo_with (ns ++ l) keep s'.
Proof.
  revert l s. induction ns as [|n ns IH]; intros l s Hns Hs; cbn [p_for app]; [by exists s|].
  assert (0 ≤ n < 20) as Hn by (apply Hns; left).
  pose proof (zt_entries n Hn) as He%bool_decide_eq_true.
  destruct (mark_with l keep s n _ _ He (Hps n ltac:(lia)) Hs) as (s1 & E1 & H1).
  rewrite p_bind_assoc. unfold zt_add. rewrite (p_bind_ok _ _ _ _ _ E1), p_ret_bind.
  destruct (IH (n :: l) s1) as (s' & E & H); [intros m Hm; apply Hns; by right|done|].
  exists s'. split; [exact E|]. by rewrite <- Permutation_middle in H.
Qed.
Lemma clears_with l keep s ns : (∀ n, n ∈ ns → 0 ≤ n ≤ 20) → zoo_with (ns ++ l) keep s →
  ∃ s', p_for ns (λ i, zoo_clear fuel zoo_fp i;; mret ()) s = (Ok (), s') ∧ zoo_with l keep s'.
Proof.
  revert s. induction ns as [|n ns IH]; intros s Hns Hs; cbn [p_for app]; [by exists s|].
  assert (0 ≤ n ≤ 20) as Hn by (apply Hns; left).
  destruct (clear_with (ns ++ l) keep s n (Hps n Hn) Hs) as (s1 & E1 & H1).
  rewrite p_bind_assoc, (p_bind_ok _ _ _ _ _ E1), p_ret_bind.
  apply IH; [|done]. intros m Hm. apply Hns. by right.
Qed.

(** A round puts in twenty entries and takes them out again; its first clear,
    of process 20, finds none. *)
Lemma zoo_round l keep s : 20 ∉ l → zoo_with l keep s →
  ∃ s', zoo_unit_round fuel zoo_fp s = (Ok (), s') ∧ zoo_with l keep s'.
Proof.
  intros H20 Hs. unfold zoo_unit_round.
  destruct (marks_with l keep s (seqZ 0 20)) as (s1 & E1 & H1); [by intros n [? ?]%elem_of_seqZ|done|].
  rewrite (p_bind_ok _ _ _ _ _ E1).
  change (reverse (seqZ 0 21)) with (20 :: reverse (seqZ 0 20)). cbn [p_for].
  destruct (clear_without (seqZ 0 20 ++ l) keep s1 20 (Hps 20 ltac:(lia))) as (s2 & E2 & H2);
    [intros [Hin|Hin]%elem_of_app; [apply elem_of_seqZ in Hin; lia|done]|done|].
  rewrite p_bind_assoc, (p_bind_ok _ _ _ _ _ E2), p_ret_bind.
  apply clears_with; [intros n Hn%elem_of_reverse%elem_of_seqZ; lia|]. by rewrite reverse_Permutation.
Qed.
Lemma zoo_rounds {A} (js : list A) l keep s : 20 ∉ l → zoo_with l keep s →
  ∃ s', p_for js (λ _, zoo_unit_round fuel zoo_fp) s = (Ok (), s') ∧ zoo_with l keep s'.
Proof. intros H20 Hs. apply p_for_invariant; [done|]. intros _ s1 _. by apply zoo_round. Qed.
End ZooUnitRun.

(** Entries none of which is of a process of [ps]. *)
Lemma others_live ps rs : (∀ p, p ∈ ps → p ∉ pids rs) → others ps rs = live rs.
Proof.
  unfold others, pids. induction (live rs) as [|r l IH]; intros H; [done|].
  rewrite filter_cons_True; [|intros Hp; apply (H _ Hp); left].
  f_equal. apply IH. intros p Hp Hin. apply (H p Hp). by right.
Qed.

(** C40: the unit test of the zoo, in a zoo in which neither it nor the processes
    0 to 20 have entries, returns 0 and leaves the entries of the others, the
    same and in the same order, and none of its own. *)
Theorem zoo_unit_passes `{io : zoo_io} fuel r1 r2 r3 pid av s s0 rs :
  interrupted io fuel → zoo_open r1 r2 r3 s = (Ok zoo_fp, s0) → holds s0 rs →
  av ≠ [] → entry_ok pid (lit "unittest") (intercalate (lit " ") av) → 20 < pid →
  (∀ r, r ∈ live rs → 20 < pid_of r ∧ pid_of r ≠ pid) →
  ∃ s' rs', zoo_unit_test fuel r1 r2 r3 true pid av s = (Ok 0, s') ∧ holds s' rs' ∧ live rs' = live rs.
Proof.
  intros Hio Eo Hs Hav He Hpid Hlive. set (ps := pid :: seqZ 0 21).
  assert (∀ p, p ∈ ps → p ∉ pids rs) as Hno.
  { intros p Hp (r & -> & Hr)%list_elem_of_fmap. specialize (Hlive r Hr).
    apply elem_of_cons in Hp as [|Hp%elem_of_seqZ]; lia. }
  assert (∀ n, 0 ≤ n ≤ 20 → n ∈ ps) as Hps by (intros n Hn; right; apply elem_of_seqZ; lia).
  assert (zoo_with ps (pids rs) (live rs) s0) as H0 by (exists rs; by rewrite others_live).
  unfold zoo_unit_test. rewrite (p_bind_ok _ _ _ _ _ Eo). unfold zoo_mark_args.
  rewrite cat_args_fits by done. rewrite p_bind_assoc, p_bind_run. cbn [p_lift].
  destruct (mark_with fuel Hio ps (pids rs) (live rs) s0 pid _ _ He ltac:(left) H0) as (s1 & E1 & H1).
  unfold p_lift. rewrite (p_bind_ok _ _ _ _ _ E1).
  destruct (zoo_rounds fuel Hio ps Hps (seqZ 0 5) (pid :: pids rs) (live rs) s1) as (s2 & E2 & H2); [|done|].
  { intros [<-|H20]%elem_of_cons; [lia|]. by apply (Hno 20 ltac:(by apply Hps)). }
  rewrite (p_bind_ok _ _ _ _ _ E2).
  destruct (clear_with fuel Hio ps (pids rs) (live rs) s2 pid ltac:(left) H2) as (s3 & E3 & (rs' & Hs3 & Hp & Hk)).
  rewrite (p_bind_ok _ _ _ _ _ E3). exists s3, rs'. split; [done|]. split; [done|].
  rewrite <- Hk, others_live; [done|]. intros p Hin. rewrite Hp. by apply Hno.
Qed.

Lemma zoo_unit_passes_witness : ∃ s' rs',
  zoo_unit_test (io:=quick_io) 1 fopen_done fopen_done fopen_done true 4711 [lit "zoolib"] (ZooState [] false 0 None) = (Ok 0, s')
  ∧ holds s' rs' ∧ live rs' = [].
Proof.
  apply (zoo_unit_passes (io:=quick_io) 1 fopen_done fopen_done fopen_done 4711 [lit "zoolib"] _ (ZooState [] false 0 None) []).
  - exact quick_interrupted.
  - reflexivity.
  - split_and!; [done|by constructor|done].
  - done.
  - eapply bool_decide_eq_true. vm_compute. reflexivity.
  - lia.
  - intros r Hr. inversion Hr.
Defined.
