(* ===== verification/PanColl.v ===== *)
(** * PanColl: the commands of ltp-pan

    [get_collection] reads the tags and command lines from the file of
    commands and from the arguments, [subst_pcnt_f] fills the %f of a command
    line in, and the options are read into the settings of the scheduler. *)
From Stdlib Require Import String.
From S2P Require Import Prelude CLib.

(** ** Entries *)

Record coll_entry := CollEntry {
  ce_name : cstr;
  ce_cmdline : cstr;
  pcnt_f : bool            (* whether the pointer is not null *)
}.

(** [strstr(s, "%f")] and the store of ['s'] over its second character. *)
Fixpoint mark_pcnt_f (s : cstr) : option cstr :=
  match s with
  | [] => None
  | c :: s' =>
      if bool_decide (c = "%"%char) && bool_decide (chr0 s' = "f"%char)
      then Some (c :: "s"%char :: tail s')
      else (cons c) <$> mark_pcnt_f s'
  end.

(** [strsep(&a, sep)]: the token and the new [a], null when no separator is
    left. *)
Fixpoint strsep (sep a : cstr) : cstr * option cstr :=
  match a with
  | [] => ([], None)
  | c :: a' =>
      if decide (c ∈ sep) then ([], Some a')
      else let '(t, r) := strsep sep a' in (c :: t, r)
  end.

Definition BLANKS : cstr := [" "%char; TAB].

(** The body of the loop over the lines: an entry, or nothing for a comment.
    [strdup] of a null pointer is undefined. *)
Definition coll_line (a : cstr) : res (option coll_entry) :=
  if negb (bool_decide (chr0 a = "#"%char)) && negb (bool_decide (chr0 a = NUL))
     && negb (bool_decide (chr0 a = " "%char))
  then
    let f := mark_pcnt_f a in
    let '(name, rest) := strsep BLANKS (default a f) in
    match rest with
    | Some cmdline => Ok (Some (CollEntry name cmdline (match f with Some _ => true | None => false end)))
    | None => Undef
    end
  else Ok None.

(** [while (a) { b = strchr(a, '\n') ... a = b; }] *)
Fixpoint coll_lines (fuel : nat) (a : option cstr) : res (list coll_entry) :=
  match fuel with
  | O => NoFuel
  | S fuel =>
      match a with
      | None => Ok []
      | Some a =>
          let '(line, b) := strsep [NL] a in
          e ← coll_line line;
          l ← coll_lines fuel b;
          Ok (match e with Some e => e :: l | None => l end)
      end
  end.

(** [strncat(dst, src, n)] into an array of 1024 bytes; a negative [n] is a
    huge [size_t]. *)
Definition WORKSTR : nat := 1024.
Definition strncat (dst src : cstr) (n : Z) : res cstr :=
  let dst' := dst ++ (if n <? 0 then src else take (Z.to_nat n) src) in
  if (length dst' <? WORKSTR)%nat then Ok dst' else Undef.

(** [workstr] and [workstr_left] over the arguments. *)
Fixpoint fill_workstr (argv : list cstr) (workstr : cstr) (workstr_left : Z) : res cstr :=
  match argv with
  | [] => Ok workstr
  | arg :: argv' =>
      workstr ← strncat workstr arg workstr_left;
      let workstr_left := workstr_left - Z.of_nat (length arg) in
      workstr ← strncat workstr (lit " ") workstr_left;
      fill_workstr argv' workstr (workstr_left - 1)
  end.

(** The collection: the entries of the file, then the one of the arguments
    left after the options.  [None]: the file could not be read. *)
Definition get_collection (slurped : option cstr) (args : list cstr) : res (option (list coll_entry)) :=
  match slurped with
  | None => Ok None
  | Some buf =>
      l ← coll_lines (length buf + 2) (Some buf);
      match args with
      | [] => Ok (Some l)
      | _ =>
          workstr ← fill_workstr args [] (Z.of_nat WORKSTR - 1);
          let f := mark_pcnt_f workstr in
          Ok (Some (l ++ [CollEntry (lit "cmdln") (default workstr f)
                            (match f with Some _ => true | None => false end)]))
      end
  end.

(** [slurp]: what [open], [fstat] and [read] give. *)
Definition slurp (opened : bool) (st_size : option Z) (contents : cstr) (nread : Z) : option cstr :=
  match opened, st_size with
  | true, Some n => if negb (nread =? n) then None else Some (take (Z.to_nat n) contents)
  | _, _ => None
  end.

(** ** %f *)

(** [snprintf] with the command line as the format and one argument: %% and
    the first %s are defined, any other conversion reads an argument that is
    not there. *)
Fixpoint format1 (fmt : cstr) (arg : option cstr) : res cstr :=
  match fmt with
  | [] => Ok []
  | c :: fmt' =>
      if decide (c = "%"%char) then
        match fmt' with
        | d :: fmt'' =>
            if decide (d = "%"%char) then r ← format1 fmt'' arg; Ok (c :: r)
            else if decide (d = "s"%char) then
              match arg with
              | Some text => r ← format1 fmt'' None; Ok (text ++ r)
              | None => Undef
              end
            else Undef
        | [] => Undef
        end
      else r ← format1 fmt' arg; Ok (c :: r)
  end.

(** [subst_pcnt_f]: the command line and the new [counter]. *)
Definition subst_pcnt_f (pid counter : Z) (colle : coll_entry) : res (cstr * Z) :=
  if negb (pcnt_f colle) then Ok (ce_cmdline colle, counter)
  else
    let pid_and_counter := snprintf 20 (fmt_d pid ++ "_"%char :: fmt_d counter) in
    new_cmdline ← format1 (ce_cmdline colle) (Some pid_and_counter);
    Ok (snprintf 1024 new_cmdline, i32 (counter + 1)).

(** ** The number of commands to start *)

(** The default of [starts] after the options. *)
Definition default_starts (timed : bool) (starts : Z) (sequential : bool) (cnt keep_active : Z) : Z :=
  if timed && (starts =? -1) then -1
  else if starts =? -1 then (if sequential then cnt else 1)
  else if starts =? 0 then -1
  else if starts <? keep_active then keep_active else starts.

(** [-t]: [sscanf(optarg, "%d%c", &run_time, &modifier)] and the switch on the
    modifier, with the values the variables hold before.  [Exit]: an invalid
    modifier. *)
Definition time_factor (modifier : ascii) : option Z :=
  if decide (modifier = "s"%char) then Some 1
  else if decide (modifier = "m"%char) then Some 60
  else if decide (modifier = "h"%char) then Some (60 * 60)
  else if decide (modifier = "d"%char) then Some (60 * 60 * 24)
  else None.

Fixpoint dec_rest (s : cstr) : cstr :=
  match s with c :: s' => if is_digit 10 c then dec_rest s' else s | [] => [] end.

(** [run_time * k] for the modifier, an [int]. *)
Definition scale_time (run_time : Z) (modifier : ascii) : res (Z * ascii * bool) :=
  match time_factor modifier with
  | None => Exit 255                                      (* exit(-1) *)
  | Some k =>
      if bool_decide (i32 (run_time * k) = run_time * k) then Ok (run_time * k, modifier, true)
      else Undef
  end.

(** The variables (run_time, modifier, timed) after the option.  [sscanf]
    gives 0 when there is no number, 1 without a modifier, 2 with one, and EOF,
    which is taken for 2, when the argument is blank. *)
Definition parse_time (optarg : cstr) (st : Z * ascii * bool) : res (Z * ascii * bool) :=
  let '(run_time, modifier, timed) := st in
  let '(_, s) := read_sign (skip_spaces optarg) in
  if is_digit 10 (chr0 s) then
    let run_time := i32 (fst (strtoll optarg 10)) in
    match dec_rest s with
    | [] => Ok (run_time, modifier, true)
    | m :: _ => scale_time run_time m
    end
  else
    match skip_spaces optarg with
    | [] => scale_time run_time modifier
    | _ => Ok (run_time, modifier, timed)
    end.

(** ** Reading a command file *)

Inductive coll_text :=
| Comment (line : cstr)                  (* empty, or it starts with # or a space *)
| Command (name cmdline : cstr).

Definition text_line (t : coll_text) : cstr :=
  match t with Comment l => l | Command n c => n ++ " "%char :: c end.
Definition text_ok (t : coll_text) : Prop :=
  match t with
  | Comment l => NL ∉ l ∧ (chr0 l = NUL ∨ chr0 l = "#"%char ∨ chr0 l = " "%char)
  | Command n c =>
      n ≠ [] ∧ Forall (λ x, x ≠ " "%char ∧ x ≠ TAB ∧ x ≠ NL ∧ x ≠ NUL ∧ x ≠ "%"%char) n
      ∧ chr0 n ≠ "#"%char ∧ NL ∉ c
  end.

(** The entry a line stands for: the first %f of the command line is made %s
    and noted. *)
Definition text_entry (t : coll_text) : option coll_entry :=
  match t with
  | Comment _ => None
  | Command n c =>
      Some (match mark_pcnt_f c with
            | Some c' => CollEntry n c' true
            | None => CollEntry n c false
            end)
  end.

Lemma strsep_notin sep a : Forall (λ c, c ∉ sep) a → strsep sep a = (a, None).
Proof.
  induction 1 as [|c a Hc H IH]; [done|]. simpl. by rewrite decide_False, IH.
Qed.

Lemma strsep_app sep a s b : Forall (λ c, c ∉ sep) a → s ∈ sep → strsep sep (a ++ s :: b) = (a, Some b).
Proof.
  intros H Hs. induction H as [|c a Hc H IH]; simpl; [by rewrite decide_True|].
  by rewrite decide_False, IH.
Qed.

Lemma mark_pcnt_f_app n s : Forall (λ x, x ≠ "%"%char) n →
  mark_pcnt_f (n ++ s) = (λ s', n ++ s') <$> mark_pcnt_f s.
Proof.
  induction 1 as [|c n Hc H IH]; cbn [app mark_pcnt_f]; [by destruct (mark_pcnt_f s)|].
  rewrite bool_decide_false by done. cbn [andb]. rewrite IH. by destruct (mark_pcnt_f s).
Qed.

Lemma coll_line_text t : text_ok t → coll_line (text_line t) = Ok (text_entry t).
Proof.
  destruct t as [l|n c]; cbn [text_ok text_line text_entry]; unfold coll_line.
  - intros [_ [-> |[-> | ->]]]; done.
  - intros (Hne & Hn & Hhash & _). destruct n as [|x n]; [done|].
    inversion Hn as [|? ? (Hx1 & Hx2 & Hx3 & Hx4 & Hx5) Hn']; subst. simpl in Hhash.
    cbn [app chr0]. rewrite !bool_decide_false by done. cbn [negb andb].
    change (x :: n ++ " "%char :: c) with ((x :: n) ++ [" "%char] ++ c).
    assert (Forall (λ y, y ∉ BLANKS) (x :: n)) as Hsep.
    { eapply Forall_impl; [exact Hn|]. intros y (? & ? & _). unfold BLANKS.
      intros [|[|Hin]%elem_of_cons]%elem_of_cons; try done. by apply elem_of_nil in Hin. }
    rewrite mark_pcnt_f_app by (eapply Forall_impl; [exact Hn|naive_solver]).
    rewrite mark_pcnt_f_app by (by repeat constructor).
    pose proof (λ y, strsep_app BLANKS (x :: n) " "%char y Hsep ltac:(by left)) as Hs.
    cbn [app] in Hs.
    destruct (mark_pcnt_f c) as [c'|]; cbn [fmap option_fmap option_map default from_option app id];
      by rewrite Hs.
Qed.

Lemma coll_lines_text fuel t ts : text_ok t → Forall text_ok ts → (length ts + 1 < fuel)%nat →
  coll_lines fuel (Some (intercalate [NL] (text_line <$> t :: ts))) = Ok (omap text_entry (t :: ts)).
Proof.
  intros Ht Hts. revert fuel t Ht. induction Hts as [|t2 ts Ht2 Hts IH]; intros fuel t Ht Hf;
    (destruct fuel as [|fuel]; [lia|]); cbn [coll_lines].
  all: assert (Forall (λ c, c ∉ [NL]) (text_line t)) as Hnl.
  1,3: apply Forall_forall; intros c Hc ->%list_elem_of_singleton; destruct t as [l|n c'];
    cbn [text_ok text_line] in *; [by destruct Ht|];
    destruct Ht as (_ & Hn & _ & Hc'); apply elem_of_app in Hc as [Hc|[|]%elem_of_cons]; try done;
    rewrite Forall_forall in Hn; by destruct (Hn _ Hc) as (_ & _ & ? & _).
  - cbn [fmap list_fmap intercalate]. rewrite strsep_notin by done. rewrite coll_line_text by done.
    cbn [mbind res_bind omap list_omap]. destruct fuel; [simpl in Hf; lia|].
    cbn [coll_lines mbind res_bind]. by destruct (text_entry t).
  - rewrite fmap_cons, intercalate_cons by done. cbn [app].
    rewrite strsep_app by (done || by left). rewrite coll_line_text by done. cbn [mbind res_bind].
    rewrite IH by (done || (simpl in Hf; lia)). cbn [mbind res_bind].
    change (omap text_entry (t :: t2 :: ts)) with
      (match text_entry t with Some e => e :: omap text_entry (t2 :: ts) | None => omap text_entry (t2 :: ts) end).
    by destruct (text_entry t).
Qed.

Lemma get_collection_text (t : coll_text) (ts : list coll_text) :
  Forall text_ok (t :: ts) →
  get_collection (Some (intercalate [NL] (text_line <$> t :: ts))) []
  = Ok (Some (omap text_entry (t :: ts))).
Proof.
  intros H. inversion H as [|? ? Ht Hts]; subst. unfold get_collection.
  rewrite coll_lines_text; [done|done|done|]. clear.
  assert (∀ l : list cstr, l ≠ [] → (length l ≤ S (length (intercalate [NL] l)))%nat) as H.
  { induction l as [|x l IH]; [done|]. intros _. destruct l as [|y l]; [simpl; lia|].
    rewrite intercalate_cons by done. rewrite !length_app. specialize (IH ltac:(done)). simpl in *. lia. }
  rewrite fmap_cons. specialize (H (text_line t :: (text_line <$> ts)) ltac:(done)).
  cbn [length] in *. rewrite length_fmap in H. lia.
Qed.

(** C28: get_collection reads a command file back: whatever mix of commands,
    comments and empty lines it holds, the collection is the commands in order,
    each with its tag, its command line and whether it has a %f; and no line of
    that form makes it fail. *)
Theorem get_collection_file (t : coll_text) (ts : list coll_text) :
  Forall text_ok (t :: ts) →
  get_collection (Some (intercalate [NL] (text_line <$> t :: ts))) []
  = Ok (Some (omap text_entry (t :: ts))).
Proof. apply get_collection_text. Qed.

Lemma get_collection_file_witness :
  let ts := [Comment (lit "# mce tests"); Command (lit "t1") (lit "sh run.sh %f"); Comment [];
             Command (lit "t2") (lit "true"); Comment []] in
  Forall text_ok ts
  ∧ get_collection (Some (intercalate [NL] (text_line <$> ts))) []
    = Ok (Some [CollEntry (lit "t1") (lit "sh run.sh %s") true; CollEntry (lit "t2") (lit "true") false]).
Proof.
  intros ts. assert (Forall text_ok ts) as H.
  { repeat apply Forall_cons_2; [..|apply Forall_nil_2]; cbn [text_ok];
      repeat match goal with |- _ ∧ _ => split end; try done;
      try (by apply (bool_decide_unpack _); vm_compute). }
  split; [done|]. exact (get_collection_file _ _ H).
Defined.

(** A tag without a command line makes it duplicate a null pointer. *)
Lemma coll_line_no_command : coll_line (lit "tag") = Undef.
Proof. done. Qed.

(** The command of the arguments: as long as the arguments, with a blank
    after each, fit in 1023 characters, workstr holds all of them and nothing
    is stored outside it. *)
Theorem fill_workstr_fits (args : list cstr) :
  (length (concat ((λ a, a ++ lit " ") <$> args)) < WORKSTR)%nat →
  fill_workstr args [] (Z.of_nat WORKSTR - 1) = Ok (concat ((λ a, a ++ lit " ") <$> args)).
Proof.
  assert (∀ w, (length (w ++ concat ((λ a, a ++ lit " ") <$> args)) < WORKSTR)%nat →
    fill_workstr args w (Z.of_nat WORKSTR - 1 - Z.of_nat (length w))
    = Ok (w ++ concat ((λ a, a ++ lit " ") <$> args))) as H; [|exact (H [])].
  induction args as [|arg args IH]; intros w Hw; [by rewrite app_nil_r|].
  rewrite fmap_cons in *. cbn [concat fill_workstr] in *.
  assert (∀ dst src n, (length (dst ++ src) < WORKSTR)%nat → n = Z.of_nat WORKSTR - 1 - Z.of_nat (length dst) →
    strncat dst src n = Ok (dst ++ src)) as Hcat.
  { intros dst src n Hl ->. rewrite length_app in Hl. unfold strncat.
    destruct (Z.ltb_spec (Z.of_nat WORKSTR - 1 - Z.of_nat (length dst)) 0); [lia|].
    rewrite take_ge by lia. rewrite (proj2 (Nat.ltb_lt _ _)) by (rewrite length_app; lia). done. }
  rewrite !length_app in Hw. simpl in Hw.
  rewrite Hcat by (rewrite ?length_app; lia). cbn [mbind res_bind].
  rewrite Hcat by (rewrite ?length_app; simpl; lia). cbn [mbind res_bind].
  replace (Z.of_nat WORKSTR - 1 - Z.of_nat (length w) - Z.of_nat (length arg) - 1)
    with (Z.of_nat WORKSTR - 1 - Z.of_nat (length ((w ++ arg) ++ lit " "))) by (rewrite !length_app; simpl; lia).
  rewrite IH by (rewrite !length_app; simpl; lia). by rewrite <- !app_assoc.
Qed.

Lemma fill_workstr_fits_witness :
  (length (concat ((λ a, a ++ lit " ") <$> [lit "echo"; lit "hi"])) < WORKSTR)%nat
  ∧ fill_workstr [lit "echo"; lit "hi"] [] 1023 = Ok (lit "echo hi ").
Proof.
  assert (length (concat ((λ a, a ++ lit " ") <$> [lit "echo"; lit "hi"])) < WORKSTR)%nat as H
    by (by apply (bool_decide_unpack _); vm_compute).
  split; [done|]. exact (fill_workstr_fits _ H).
Defined.

(** One argument of 1024 characters: what is left goes negative, and the blank
    is stored past the array. *)
Lemma fill_workstr_overflow : fill_workstr [replicate 1024 "a"%char] [] 1023 = Undef.
Proof. by vm_compute. Qed.

(** ** %f filled in *)

Definition plain_text (s : cstr) : Prop := "%"%char ∉ s.

Lemma format1_plain s arg : plain_text s → format1 s arg = Ok s.
Proof.
  unfold plain_text. induction s as [|c s IH]; intros H; [done|]. cbn [format1].
  rewrite decide_False by (intros ->; apply H; by left).
  by rewrite IH by (intros Hc; apply H; by right).
Qed.

Lemma format1_app s r text : plain_text s → plain_text r →
  format1 (s ++ "%"%char :: "s"%char :: r) (Some text) = Ok (s ++ text ++ r).
Proof.
  unfold plain_text. intros Hs Hr. induction s as [|c s IH]; cbn [app format1].
  - rewrite decide_True by done. rewrite decide_False, decide_True by done. by rewrite format1_plain.
  - rewrite decide_False by (intros ->; apply Hs; by left).
    by rewrite IH by (intros Hc; apply Hs; by right).
Qed.

Lemma fmt_u_length n k : 0 ≤ n < 10 ^ Z.of_nat k → (0 < k)%nat → (length (fmt_u n) ≤ k)%nat.
Proof.
  intros Hn Hk. unfold fmt_u, fmt_base.
  assert (∀ f n k, 0 ≤ n < 10 ^ Z.of_nat (S k) → (length (fmt_base_aux 10 f n []) ≤ S k)%nat) as H.
  { clear. intros f. induction f as [|f IH]; intros n k Hn; [simpl; lia|].
    rewrite fmt_base_aux_S. destruct (Z.ltb_spec n 10); [simpl; lia|].
    rewrite fmt_base_aux_app, length_app. destruct k as [|k].
    { change (10 ^ Z.of_nat 1) with 10 in Hn. lia. }
    specialize (IH (n / 10) k). cbn [length].
    rewrite Nat2Z.inj_succ, Z.pow_succ_r in Hn by lia.
    assert (0 ≤ n / 10 < 10 ^ Z.of_nat (S k)); [|lia].
    split; [apply Z.div_pos; lia|apply Z.div_lt_upper_bound; lia]. }
  destruct k as [|k]; [lia|]. by apply H.
Qed.

(** A command line with one %f runs with the process of ltp-pan and the
    count of such commands, whole, in its place, and the counter moves on, so
    that no two commands of a run are given the same name. *)
Theorem subst_pcnt_f_unique pid counter name before after :
  plain_text before → plain_text after → 0 ≤ pid < 2 ^ 22 → 0 ≤ counter < 2 ^ 31 - 1 →
  (length before + length after + 19 < 1024)%nat →
  subst_pcnt_f pid counter (CollEntry name (before ++ "%"%char :: "s"%char :: after) true)
  = Ok (before ++ (fmt_u pid ++ "_"%char :: fmt_u counter) ++ after, counter + 1).
Proof.
  intros Hb Ha Hpid Hc Hlen. unfold subst_pcnt_f. cbn [pcnt_f negb ce_cmdline].
  unfold fmt_d. destruct (Z.ltb_spec pid 0), (Z.ltb_spec counter 0); try lia.
  assert (length (fmt_u pid) ≤ 7)%nat as H1 by (apply fmt_u_length; simpl; lia).
  assert (length (fmt_u counter) ≤ 10)%nat as H2 by (apply fmt_u_length; simpl; lia).
  assert (snprintf 20 (fmt_u pid ++ "_"%char :: fmt_u counter) = fmt_u pid ++ "_"%char :: fmt_u counter) as ->.
  { unfold snprintf. apply take_ge. rewrite length_app. simpl. lia. }
  rewrite format1_app by done. cbn [mbind res_bind]. f_equal. f_equal.
  - unfold snprintf. apply take_ge. rewrite !length_app. simpl. lia.
  - by apply swrap_small; simpl; lia.
Qed.

Lemma subst_pcnt_f_unique_witness :
  plain_text (lit "run -o /tmp/")
  ∧ subst_pcnt_f 4711 1 (CollEntry (lit "t") (lit "run -o /tmp/%s") true) = Ok (lit "run -o /tmp/4711_1", 2).
Proof.
  assert (plain_text (lit "run -o /tmp/")) as H by (by apply (bool_decide_unpack _); vm_compute).
  split; [done|].
  exact (subst_pcnt_f_unique 4711 1 (lit "t") (lit "run -o /tmp/") [] H ltac:(by apply (bool_decide_unpack _); vm_compute)
    ltac:(lia) ltac:(lia) ltac:(by apply (bool_decide_unpack _); vm_compute)).
Defined.

(** [-t 30] without a modifier: the message says minutes, the time stays 30. *)
Lemma parse_time_no_modifier : parse_time (lit "30") (-1, "m"%char, false) = Ok (30, "m"%char, true).
Proof. by vm_compute. Qed.
