(* ===== verification/PanSched.v ===== *)
(** * PanSched: the scheduler of ltp-pan

    Slots for the running tests, the orphaned process groups, the signal
    ratchet, the start and the reaping of a test, and the main loop.  The
    operating system is a parameter that is asked in order ([clock]); it knows
    the children that live.  Signals are taken to arrive where the program
    tests for them and during [wait].  Messages on standard error and the debug
    output are left out. *)
From Stdlib Require Import String.
From S2P Require Import Prelude CLib Splitstr Zoo PanColl.

(** ** Signals and statuses *)

Definition SIGHUP := 1.
Definition SIGINT := 2.
Definition SIGKILL := 9.
Definition SIGUSR1 := 10.
Definition SIGUSR2 := 12.
Definition SIGALRM := 14.
Definition SIGTERM := 15.

Definition WIFSIGNALED (st : Z) : bool := nz (st .& 0x7f) && negb (st .& 0x7f =? 0x7f).
Definition WTERMSIG (st : Z) : Z := st .& 0x7f.
Definition WIFEXITED (st : Z) : bool := st .& 0x7f =? 0.
Definition WEXITSTATUS (st : Z) : Z := (st .& 0xff00) .>> 8.
Definition WIFSTOPPED (st : Z) : bool := st .& 0xff =? 0x7f.

(** ** The operating system *)

(** Starting a command: [pipe] or [fork] fails, the child reports that it
    could not go through with the exec and ends with a status, or it runs. *)
Inductive start_result :=
| start_pipe_failed | start_fork_failed
| start_exec_failed (errbuf : cstr) (status : Z)
| start_ok (cpid : Z).
Inductive wait_result := wait_error | wait_child (cpid stat_loc : Z).
Inductive kill_result := kill_done | kill_ESRCH | kill_EPERM | kill_failed.
Inductive open_result := open_done | open_EEXIST | open_failed.
(** What the child execs: a shell for a line with shell characters, or the
    arguments of the line. *)
Inductive exec_call := exec_sh (cmdline : cstr) | exec_args (argv : list cstr).

Class pan_os := {
  os_zoo :: zoo_io;
  os_zoo_fuel : nat;
  os_getpid : Z;
  os_signals : nat → list Z;                      (* that arrive at a point *)
  os_open : nat → open_result;
  os_start : nat → list Z → start_result;         (* given the children that live *)
  os_wait : nat → list Z → wait_result;
  os_kill : nat → Z → Z → kill_result;
  os_time : nat → Z;
  os_times : nat → Z * Z;                         (* of the children, between two [times] *)
  os_rand : nat → Z;
  os_stop_file : nat → bool;
  os_slurp : nat → option cstr;
  os_uname : option (cstr * cstr * cstr)          (* release, machine, nodename *)
}.

(** ** Settings and state *)

Record settings := Settings {
  panname : cstr;
  test_out_dir : option cstr;
  report_rts : bool;
  coll : list coll_entry;
  keep_active : nat;
  sequential : bool;
  has_brakes : bool;
  track_exit_stats : bool;
  fmt_print : bool;
  quiet_mode : bool;
  has_logfile : bool;
  has_failcmdfile : bool
}.

(** [struct tag_pgrp]; a slot is free when its [pgrp] is 0. *)
Record slot := Slot {
  pgrp : Z; stopping : bool; mystime : Z; scmd : option coll_entry; output : cstr
}.
Definition free_slot : slot := Slot 0 false 0 None [].

Record signals := Signals { rec_signal : Z; send_signal : Z; lastsent : Z }.

(** What the program shares with the system: the calls made, the children,
    the texts written, the commands run, the signals sent, the zoo. *)
Record world := World {
  clock : nat;
  children : list Z;
  w_out : list cstr; w_log : list cstr; w_fail : list cstr;
  execs : list exec_call;
  kills : list (Z * Z);
  w_zoo : zoo;
  cmdno : Z;
  counter : Z
}.

(** The locals of [main] that the loop changes. *)
Record locals := Locals {
  num_active : Z; starts : Z; failcnt : Z; stop : Z; go_idle : Z; fork_in_road : bool;
  exit_stat : Z; cindex : Z
}.

Record pan := Pan {
  p_world : world; p_sigs : signals; running : list slot; orphans : list Z; p_loc : locals
}.

Definition upd_world (f : world → world) : prog pan unit :=
  p_modify (λ s, Pan (f (p_world s)) (p_sigs s) (running s) (orphans s) (p_loc s)).
Definition upd_sigs (f : signals → signals) : prog pan unit :=
  p_modify (λ s, Pan (p_world s) (f (p_sigs s)) (running s) (orphans s) (p_loc s)).
Definition upd_slot (i : nat) (f : slot → slot) : prog pan unit :=
  p_modify (λ s, Pan (p_world s) (p_sigs s) (alter f i (running s)) (orphans s) (p_loc s)).
Definition set_orphans (l : list Z) : prog pan unit :=
  p_modify (λ s, Pan (p_world s) (p_sigs s) (running s) l (p_loc s)).
Definition upd_loc (f : locals → locals) : prog pan unit :=
  p_modify (λ s, Pan (p_world s) (p_sigs s) (running s) (orphans s) (f (p_loc s))).

Definition tick (w : world) : world :=
  World (S (clock w)) (children w) (w_out w) (w_log w) (w_fail w) (execs w) (kills w) (w_zoo w) (cmdno w) (counter w).
Definition set_children (l : list Z) (w : world) : world :=
  World (clock w) l (w_out w) (w_log w) (w_fail w) (execs w) (kills w) (w_zoo w) (cmdno w) (counter w).
Definition add_out (t : cstr) (w : world) : world :=
  World (clock w) (children w) (w_out w ++ [t]) (w_log w) (w_fail w) (execs w) (kills w) (w_zoo w) (cmdno w) (counter w).
Definition add_log (t : cstr) (w : world) : world :=
  World (clock w) (children w) (w_out w) (w_log w ++ [t]) (w_fail w) (execs w) (kills w) (w_zoo w) (cmdno w) (counter w).
Definition add_fail (t : cstr) (w : world) : world :=
  World (clock w) (children w) (w_out w) (w_log w) (w_fail w ++ [t]) (execs w) (kills w) (w_zoo w) (cmdno w) (counter w).
Definition add_exec (e : exec_call) (w : world) : world :=
  World (clock w) (children w) (w_out w) (w_log w) (w_fail w) (execs w ++ [e]) (kills w) (w_zoo w) (cmdno w) (counter w).
Definition add_kill (k : Z * Z) (w : world) : world :=
  World (clock w) (children w) (w_out w) (w_log w) (w_fail w) (execs w) (kills w ++ [k]) (w_zoo w) (cmdno w) (counter w).
Definition set_zoo (z : zoo) (w : world) : world :=
  World (clock w) (children w) (w_out w) (w_log w) (w_fail w) (execs w) (kills w) z (cmdno w) (counter w).
Definition set_counts (n c : Z) (w : world) : world :=
  World (clock w) (children w) (w_out w) (w_log w) (w_fail w) (execs w) (kills w) (w_zoo w) n c.

(** The number of a call to the system. *)
Definition ask : prog pan nat := s ← p_get; upd_world tick;; mret (clock (p_world s)).
Definition puts (t : cstr) : prog pan unit := upd_world (add_out t).
(** An operation on the zoo file. *)
Definition on_zoo {A} (p : prog zoo A) : prog pan A := λ s,
  let '(r, z) := p (w_zoo (p_world s)) in
  (r, Pan (set_zoo z (p_world s)) (p_sigs s) (running s) (orphans s) (p_loc s)).

(** ** The signal ratchet *)

Definition wait_handler (sig : Z) (s : signals) : signals :=
  if sig =? 0 then Signals (rec_signal s) (send_signal s) 0
  else if sig =? SIGUSR2 then Signals sig (send_signal s) (lastsent s)
  else
    let send :=
      if lastsent s =? 0 then sig
      else if lastsent s =? SIGUSR1 then SIGINT
      else if lastsent s =? sig then SIGTERM
      else if lastsent s =? SIGTERM then SIGHUP
      else if lastsent s =? SIGHUP then SIGKILL
      else send_signal s in
    Signals sig send send.

Section Pan.
Context `{OS : pan_os} (cfg : settings).

(** The signals that arrive at a point. *)
Definition deliver : prog pan unit :=
  n ← ask; upd_sigs (λ s, foldl (λ s sig, wait_handler sig s) s (os_signals n)).

(** [kill(-pgrp, sig)] *)
Definition kill_group (pgrp sig : Z) : prog pan kill_result :=
  n ← ask; upd_world (add_kill (- pgrp, sig));; mret (os_kill n (- pgrp) sig).

(** ** Orphaned process groups *)

(** The list from its head on; the result replaces it. *)
Fixpoint check_orphans_loop (l : list Z) (sig : Z) : prog pan (list Z) :=
  match l with
  | [] => mret []
  | p :: l' =>
      if p =? 0 then l' ← check_orphans_loop l' sig; mret (p :: l')
      else
        r ← kill_group p sig;
        match r with
        | kill_ESRCH =>
            on_zoo (zoo_clear os_zoo_fuel zoo_fp p);;
            l' ← check_orphans_loop l' sig; mret (0 :: l')
        | _ => l' ← check_orphans_loop l' sig; mret (p :: l')
        end
  end.
Definition check_orphans (sig : Z) : prog pan unit :=
  s ← p_get; l ← check_orphans_loop (orphans s) sig; set_orphans l.

Fixpoint fill_orphan (l : list Z) (cpid : Z) : option (list Z) :=
  match l with
  | [] => None
  | p :: l' => if p =? 0 then Some (cpid :: l') else (cons p) <$> fill_orphan l' cpid
  end.
(** The first entry that is 0, or a new one just after the head. *)
Definition mark_orphan (l : list Z) (cpid : Z) : list Z :=
  match fill_orphan l cpid with
  | Some l' => l'
  | None => match l with [] => [cpid] | h :: l' => h :: cpid :: l' end
  end.

(** The signal for the test of one slot. *)
Definition signal_slot (i : nat) : prog pan unit :=
  s ← p_get;
  match running s !! i with
  | None => p_undef
  | Some sl =>
      if pgrp sl =? 0 then mret ()
      else
        kill_group (pgrp sl) (send_signal (p_sigs s));;
        upd_slot i (λ sl, Slot (pgrp sl) true (mystime sl) (scmd sl) (output sl))
  end.

Definition propagate_signal : prog pan unit :=
  s ← p_get;
  (if rec_signal (p_sigs s) =? SIGALRM then
     puts (lit "PAN stop Alarm was received" ++ [NL]);;
     upd_sigs (λ g, Signals SIGTERM (send_signal g) (lastsent g))
   else mret ());;
  p_for (seq 0 (keep_active cfg)) signal_slot;;
  check_orphans (send_signal (p_sigs s));;
  upd_sigs (λ g, Signals 0 0 (lastsent g)).

(** ** Reports *)

Definition cmd_name (sl : slot) : cstr := default [] (ce_name <$> scmd sl).
Definition cmd_line (sl : slot) : cstr := default [] (ce_cmdline <$> scmd sl).
Definition yes_no (b : bool) : cstr := if b then lit "yes" else lit "no".
Definition lines (l : list cstr) : cstr := concat ((λ t, t ++ [NL]) <$> l).
Definition DQ : ascii := "034".

Definition write_test_start (sl : slot) : prog pan unit :=
  p_when (report_rts cfg)
    (puts (lines [lit "<<<test_start>>>";
                  lit "tag=" ++ cmd_name sl ++ lit " stime=" ++ fmt_d (mystime sl);
                  lit "cmdline=" ++ DQ :: cmd_line sl ++ [DQ];
                  lit "contacts=" ++ [DQ; DQ]; lit "analysis=exit"; lit "<<<test_output>>>"])).

Definition write_test_end (sl : slot) (init_status : cstr) (exit_time : Z) (term_type : cstr)
    (stat_loc term_id : Z) (tms : Z * Z) : prog pan unit :=
  p_when (report_rts cfg)
    (puts (lines [lit "<<<execution_status>>>";
                  lit "initiation_status=" ++ DQ :: init_status ++ [DQ];
                  lit "duration=" ++ fmt_d (exit_time - mystime sl) ++ lit " termination_type=" ++ term_type
                  ++ lit " termination_id=" ++ fmt_d term_id ++ lit " corefile="
                  ++ yes_no (nz (stat_loc .& 128));
                  lit "cutime=" ++ fmt_d (i32 tms.1) ++ lit " cstime=" ++ fmt_d (i32 tms.2);
                  lit "<<<test_end>>>"])).

(** An empty buffer file is read at the byte before its first. *)
Definition copy_buffered_output : prog pan unit :=
  n ← ask;
  match os_slurp n with
  | None => mret ()
  | Some text =>
      puts text;;
      match list.last text with
      | None => p_undef
      | Some c => p_when (negb (bool_decide (c = NL))) (puts [NL])
      end
  end.

(** ** Reaping a test *)

Inductive status := signaled | exited | stopped | unknown | driver_interrupt.
Definition status_text (s : status) : cstr :=
  match s with
  | signaled => lit "signaled" | exited => lit "exited" | stopped => lit "stopped"
  | unknown => lit "unknown" | driver_interrupt => lit "driver_interrupt"
  end.

(** The status, the number [w] and whether it counts as a failure. *)
Definition decode_status (st : Z) : status * Z * Z :=
  if WIFSIGNALED st then (signaled, WTERMSIG st, 0)
  else if WIFEXITED st then (exited, WEXITSTATUS st, if nz (WEXITSTATUS st) then 1 else 0)
  else if WIFSTOPPED st then (stopped, WEXITSTATUS st, 1)
  else (unknown, 0, 1).

Definition log_line (sl : slot) (t : Z) (status : status) (w st : Z) (tms : Z * Z) : cstr :=
  lit "tag=" ++ cmd_name sl ++ lit " stime=" ++ fmt_d (i32 (mystime sl)) ++ lit " dur="
  ++ fmt_d (i32 (t - mystime sl)) ++ lit " exit=" ++ status_text status ++ lit " stat=" ++ fmt_d w
  ++ lit " core=" ++ yes_no (nz (st .& 128)) ++ lit " cu=" ++ fmt_d (i32 tms.1) ++ lit " cs="
  ++ fmt_d (i32 tms.2) ++ [NL].
Definition fmt_line (sl : slot) (w : Z) : cstr :=
  fmt_pad 30 (cmd_name sl) ++ " "%char :: fmt_pad 10 (if nz w then lit "FAIL" else lit "PASS")
  ++ " "%char :: fmt_d w ++ replicate (5 - length (fmt_d w)) " "%char ++ [NL].

Definition find_slot (P : slot → bool) (l : list slot) : option (nat * slot) :=
  list_find (λ sl, P sl = true) l.

(** The slot of the child that ended: what is logged and cleaned up.  The
    result is the new count of failures. *)
Definition reap (i : nat) (sl : slot) (cpid st ret : Z) (status : status) (w : Z) (tms : Z * Z)
  : prog pan Z :=
  (* a child that exits 130 after we signaled it is given an exit 0 *)
  let undo := (w =? 130) && stopping sl && match status with exited => true | _ => false end in
  let w := if undo then 0 else w in
  let ret := if undo then ret - 1 else ret in
  n ← ask;
  let t := os_time n in
  p_when (has_logfile cfg)
    (if negb (fmt_print cfg) then upd_world (add_log (log_line sl t status w st tms))
     else
       p_when (nz w) (upd_loc (λ l, Locals (num_active l) (starts l) (failcnt l + 1) (stop l) (go_idle l)
                                     (fork_in_road l) (exit_stat l) (cindex l)));;
       upd_world (add_log (fmt_line sl w)));;
  p_when (has_failcmdfile cfg && nz w)
    (upd_world (add_fail (cmd_name sl ++ " "%char :: cmd_line sl ++ [NL])));;
  let shown := if stopping sl then driver_interrupt else status in
  p_when (is_Some_b (test_out_dir cfg))
    (p_when (negb (quiet_mode cfg)) (write_test_start sl);; copy_buffered_output);;
  p_when (negb (quiet_mode cfg)) (write_test_end sl (lit "ok") t (status_text shown) st w tms);;
  let ret := match status with signaled => if stopping sl then ret else ret + 1 | _ => ret end in
  upd_slot i (λ sl, Slot 0 (stopping sl) (mystime sl) (scmd sl) (output sl));;
  c ← on_zoo (zoo_clear os_zoo_fuel zoo_fp cpid);
  if nz c then p_exit 1
  else
    k ← kill_group cpid 0;
    (match k with
     | kill_done | kill_EPERM =>
         m ← on_zoo (zoo_mark_cmdline os_zoo_fuel zoo_fp cpid (lit "panorphan") (cmd_line sl));
         if nz m then p_exit 1
         else
           s ← p_get;
           set_orphans (mark_orphan (orphans s) cpid);;
           kill_group cpid SIGTERM;; mret ()
     | _ => mret ()
     end);;
    mret ret.

(** The kernel's side of [wait]: the child is no longer one. *)
Definition wait : prog pan wait_result :=
  deliver;;
  n ← ask;
  s ← p_get;
  let r := os_wait n (children (p_world s)) in
  match r with
  | wait_child cpid _ => upd_world (set_children (filter (λ p, p ≠ cpid) (children (p_world s))))
  | wait_error => mret ()
  end;;
  mret r.

Definition dec_active (l : locals) : locals :=
  Locals (num_active l - 1) (starts l) (failcnt l) (stop l) (go_idle l) (fork_in_road l) (exit_stat l) (cindex l).

Definition check_pids : prog pan Z :=
  check_orphans 0;;
  r ← wait;
  n ← ask;
  match r with
  | wait_error => mret 0
  | wait_child cpid st =>
      let '(status, w, ret) := decode_status st in
      p_when (match status with signaled | exited => true | _ => false end) (upd_loc dec_active);;
      s ← p_get;
      match find_slot (λ sl, pgrp sl =? cpid) (running s) with
      | None => mret ret
      | Some (i, sl) => reap i sl cpid st ret status w (os_times n)
      end
  end.

(** ** Starting a test *)

Definition SHELL_CHARS : cstr := [DQ; "'"%char; ";"%char; "|"%char; "<"%char; ">"%char; "$"%char; "\"%char].
(** The strings of an array before its null pointer. *)
Fixpoint argv_of (l : list cell) : list cstr :=
  match l with Tok t :: l' => t :: argv_of l' | _ => [] end.
(** [strpbrk] decides; the child's allocations are taken to succeed. *)
Definition child_exec (c_cmdline : cstr) : exec_call :=
  if bool_decide (Exists (λ c, c ∈ SHELL_CHARS) c_cmdline) then exec_sh c_cmdline
  else exec_args (match splitstr true true (λ _, true) (Some c_cmdline) None with
                  | Ok (Some arg_v, _) => argv_of arg_v
                  | _ => []
                  end).

(** The file for the output of the test: the next number that is not taken. *)
Fixpoint open_output (fuel : nat) (dir name : cstr) : prog pan (option cstr) :=
  match fuel with
  | O => p_nofuel
  | S fuel =>
      n ← ask;
      s ← p_get;
      let w := p_world s in
      let path := dir ++ "/"%char :: name ++ "."%char :: fmt_d (cmdno w) in
      upd_world (set_counts (cmdno w + 1) (counter w));;
      match os_open n with
      | open_done => mret (Some path)
      | open_EEXIST => open_output fuel dir name
      | open_failed => mret None
      end
  end.

(** The parent, from the read of the error pipe on: the child could not start
    the command, or runs. *)
Definition child_started (colle : coll_entry) (i : nat) (sl : slot) (r : start_result) : prog pan Z :=
  match r with
  | start_exec_failed errbuf st =>
      n ← ask;
      let '(termtype, termid, _) := decode_status st in
      p_when (negb (quiet_mode cfg))
        (write_test_end sl errbuf (os_time n) (status_text termtype) st termid (0, 0));;
      mret (-1)
  | start_ok cpid =>
      upd_world (λ w, set_children (cpid :: children w) w);;
      upd_slot i (λ sl, Slot cpid false (mystime sl) (scmd sl) (output sl));;
      m ← on_zoo (zoo_mark_cmdline os_zoo_fuel zoo_fp cpid (ce_name colle) (ce_cmdline colle));
      if nz m then p_exit 1 else mret cpid
  | _ => mret (-1)
  end.

Definition run_child (fuel : nat) (colle : coll_entry) (i : nat) : prog pan Z :=
  opened ← (match test_out_dir cfg with
            | None => mret true
            | Some dir =>
                path ← open_output fuel dir (ce_name colle);
                match path with
                | None => mret false
                | Some path =>
                    upd_slot i (λ sl, Slot (pgrp sl) (stopping sl) (mystime sl) (scmd sl) path);; mret true
                end
            end);
  if negb opened then mret (-1) else
  s ← p_get;
  '(c_cmdline, cnt) ← p_lift (subst_pcnt_f os_getpid (counter (p_world s)) colle);
  upd_world (λ w, set_counts (cmdno w) cnt w);;
  n ← ask;
  s ← p_get;
  let r := os_start n (children (p_world s)) in
  match r with
  | start_pipe_failed => mret (-1)
  | _ =>
      let start_time := os_time n in
      upd_slot i (λ sl, Slot (pgrp sl) (stopping sl) start_time (Some colle) (output sl));;
      let sl := Slot 0 false start_time (Some colle) [] in
      p_when (negb (is_Some_b (test_out_dir cfg)) && negb (quiet_mode cfg)) (write_test_start sl);;
      match r with
      | start_exec_failed _ _ | start_ok _ =>
          upd_world (add_exec (child_exec c_cmdline));;
          child_started colle i sl r
      | _ => mret (-1)
      end
  end.

(** ** The main loop *)

Definition incr_stop (l : locals) : locals :=
  Locals (num_active l) (starts l) (failcnt l) (stop l + 1) (go_idle l) (fork_in_road l) (exit_stat l) (cindex l).
Definition incr_idle (l : locals) : locals :=
  Locals (num_active l) (starts l) (failcnt l) (stop l) (go_idle l + 1) (fork_in_road l) (exit_stat l) (cindex l).
Definition incr_exit (l : locals) : locals :=
  Locals (num_active l) (starts l) (failcnt l) (stop l) (go_idle l) (fork_in_road l) (exit_stat l + 1) (cindex l).
Definition set_cindex (c : Z) (l : locals) : locals :=
  Locals (num_active l) (starts l) (failcnt l) (stop l) (go_idle l) (fork_in_road l) (exit_stat l) c.
Definition no_road (l : locals) : locals :=
  Locals (num_active l) (starts l) (failcnt l) (stop l) (go_idle l) false (exit_stat l) (cindex l).
Definition end_idle (l : locals) : locals :=
  Locals (num_active l) (starts l) (failcnt l) (stop l) 0 (fork_in_road l) (exit_stat l) (cindex l).

(** After [run_child]: the counts of running and of remaining tests. *)
Definition started (ok : bool) (l : locals) : locals :=
  Locals (if ok then num_active l + 1 else num_active l)
         (if (ok || sequential cfg) && (0 <? starts l) then starts l - 1 else starts l)
         (failcnt l) (stop l) (go_idle l) (fork_in_road l) (exit_stat l) (cindex l).

Definition cnt : Z := Z.of_nat (length (coll cfg)).

(** One turn of the loop that starts tests: whether to go on. *)
Definition start_step (fuel : nat) : prog pan bool :=
  deliver;;
  s ← p_get;
  let l := p_loc s in
  if negb ((num_active l <? Z.of_nat (keep_active cfg)) && nz (starts l)) then mret false
  else if nz (stop l) || nz (rec_signal (p_sigs s)) || nz (go_idle l) then mret false
  else
    p_when (negb (sequential cfg)) (n ← ask; upd_loc (set_cindex (os_rand n `mod` cnt)));;
    s ← p_get;
    match find_slot (λ sl, pgrp sl =? 0) (running s) with
    | None =>
        upd_sigs (wait_handler SIGINT);; upd_loc incr_exit;; mret false
    | Some (i, _) =>
        match coll cfg !! Z.to_nat (cindex (p_loc s)) with
        | None => p_undef
        | Some colle =>
            cpid ← run_child fuel colle i;
            upd_loc (started (negb (cpid =? -1)));;
            p_when (sequential cfg)
              (upd_loc (λ l, set_cindex (if cnt <=? cindex l + 1 then 0 else cindex l + 1) l));;
            mret true
        end
    end.

Fixpoint start_tests (fuel : nat) : prog pan unit :=
  match fuel with
  | O => p_nofuel
  | S fuel => go ← start_step fuel; if go : bool then start_tests fuel else mret ()
  end.

(** What the loop does with a signal that was received. *)
Definition handle_signal : prog pan unit :=
  deliver;;
  s ← p_get;
  let rec := rec_signal (p_sigs s) in
  let idle_or_stop : prog pan unit :=
    s ← p_get; upd_loc (if fork_in_road (p_loc s) then incr_idle else incr_stop) in
  if rec =? 0 then mret ()
  else if rec =? SIGUSR2 then
    idle_or_stop;; upd_sigs (λ g, Signals 0 0 (lastsent g))
  else
    p_when (rec =? SIGUSR1) (upd_loc no_road);;
    propagate_signal;;
    idle_or_stop.

(** One turn of [while (1)]: whether it breaks. *)
Definition sched_step (fuel : nat) : prog pan bool :=
  start_tests fuel;;
  s ← p_get;
  (if starts (p_loc s) =? 0 then
     p_when (negb (quiet_mode cfg)) (puts (lit "incrementing stop" ++ [NL]));; upd_loc incr_stop
   else if starts (p_loc s) =? -1 then
     n ← ask;
     p_when (os_stop_file n) (puts (lit "Got PAN_STOP_FILE Stopping!" ++ [NL]);; upd_loc incr_stop)
   else mret ());;
  handle_signal;;
  err ← check_pids;
  s ← p_get;
  p_when (nz err)
    (p_when (fork_in_road (p_loc s)) (upd_loc incr_idle);;
     p_when (track_exit_stats cfg) (upd_loc incr_exit);;
     p_when (has_brakes cfg) (upd_sigs (wait_handler SIGINT)));;
  s ← p_get;
  let l := p_loc s in
  if nz (stop l) && (num_active l =? 0) then mret true
  else
    p_when (nz (go_idle l) && (num_active l =? 0))
      (upd_loc end_idle;; upd_sigs (wait_handler 0));;
    mret false.

Fixpoint schedule (fuel : nat) : prog pan unit :=
  match fuel with
  | O => p_nofuel
  | S fuel => done ← sched_step fuel; if done : bool then mret () else schedule fuel
  end.

(** The wait for the orphaned process groups. *)
Fixpoint wait_orphans (fuel : nat) : prog pan unit :=
  match fuel with
  | O => p_nofuel
  | S fuel =>
      s ← p_get;
      if forallb (λ p, p =? 0) (orphans s) then mret ()
      else
        deliver;;                             (* during the sleep *)
        s ← p_get;
        p_when (rec_signal (p_sigs s) =? 0) (upd_sigs (wait_handler SIGINT));;
        propagate_signal;;
        wait_orphans fuel
  end.

(** A line in the zoo for each slot, marked and cleared again. *)
Definition reserve_lines : prog pan unit :=
  p_for (seqZ 0 (Z.of_nat (keep_active cfg))) (λ c,
    m ← on_zoo (zoo_mark_cmdline os_zoo_fuel zoo_fp c (panname cfg) []);
    if nz m then p_exit 1 else mret ());;
  p_for (seqZ 0 (Z.of_nat (keep_active cfg))) (λ c,
    m ← on_zoo (zoo_clear os_zoo_fuel zoo_fp c);
    if nz m then p_exit 1 else mret ()).

(** The end: its entry in the zoo, the totals in a formatted log; when [uname]
    fails the buffer that is printed was never written. *)
Definition totals (failcnt : Z) : prog pan unit :=
  match os_uname with
  | None => p_undef
  | Some (release, machine, nodename) =>
      upd_world (add_log (
        NL :: lit "-----------------------------------------------" ++ NL ::
        lit "Total Tests: " ++ fmt_d cnt ++ NL ::
        lit "Total Failures: " ++ fmt_d failcnt ++ NL ::
        lit "Kernel Version: " ++ release ++ NL ::
        lit "Machine Architecture: " ++ machine ++ NL ::
        lit "Hostname: " ++ nodename ++ [NL; NL]))
  end.
Definition finish : prog pan Z :=
  c ← on_zoo (zoo_clear os_zoo_fuel zoo_fp os_getpid);
  p_when (nz c) (upd_loc incr_exit);;
  s ← p_get;
  p_when (has_logfile cfg && fmt_print cfg) (totals (failcnt (p_loc s)));;
  p_exit (uwrap 8 (exit_stat (p_loc s))).

(** From the mark of ltp-pan's own entry to its exit. *)
Definition pan_main (fuel : nat) (argv : list cstr) : prog pan Z :=
  m ← on_zoo (zoo_mark_args os_zoo_fuel true zoo_fp os_getpid (panname cfg) argv);
  if nz m then p_exit 1 else
  reserve_lines;;
  upd_sigs (λ g, Signals 0 0 (lastsent g));;
  schedule fuel;;
  wait_orphans fuel;;
  finish.

Definition pan0 (z : zoo) (starts : Z) (road : bool) : pan :=
  Pan (World 0 [] [] [] [] [] [] z 0 1) (Signals 0 0 0) (replicate (keep_active cfg) free_slot) [0]
      (Locals 0 starts 0 0 0 road 0 0).
End Pan.
