(* ===== verification/PanProps.v ===== *)
(** * PanProps: what the scheduler of ltp-pan keeps

    The signal ratchet, the propagation of a signal, and the invariant of the
    scheduler: the slots in use are exactly the children that live, and their
    number is the count the loop bounds by [keep_active]. *)
From Stdlib Require Import String.
From S2P Require Import Prelude CLib Splitstr Zoo PanColl PanSched.

(** ** The ratchet *)

(** The signals sent when [sig] is received again and again, each time
    propagated before the next one arrives. *)
Fixpoint sent (sig : Z) (n : nat) (s : signals) : list Z :=
  match n with
  | O => []
  | S n =>
      let s' := wait_handler sig s in
      send_signal s' :: sent sig n (Signals 0 0 (lastsent s'))
  end.

(** The signal ratchet.  When the same signal (SIGINT, or any but the
    five the handler treats apart) keeps arriving, the running tests are sent
    that signal, then SIGTERM, then SIGHUP, then SIGKILL. *)
Theorem ratchet_escalates sig :
  sig ∉ [0; SIGHUP; SIGUSR1; SIGUSR2; SIGTERM] →
  sent sig 4 (Signals 0 0 0) = [sig; SIGTERM; SIGHUP; SIGKILL].
Proof.
  rewrite !not_elem_of_cons. intros (H0 & H1 & H2 & H3 & H4 & _). cbn [sent].
  unfold wait_handler. unfold SIGHUP, SIGUSR1, SIGUSR2, SIGTERM, SIGKILL, SIGINT in *.
  repeat first [ rewrite (proj2 (Z.eqb_neq sig _)) by done
               | rewrite (proj2 (Z.eqb_neq _ sig)) by done
               | rewrite Z.eqb_refl
               | progress cbn [lastsent send_signal rec_signal Z.eqb Pos.eqb] ].
  done.
Qed.

Lemma ratchet_escalates_witness :
  SIGINT ∉ [0; SIGHUP; SIGUSR1; SIGUSR2; SIGTERM]
  ∧ sent SIGINT 4 (Signals 0 0 0) = [SIGINT; SIGTERM; SIGHUP; SIGKILL].
Proof.
  assert (SIGINT ∉ [0; SIGHUP; SIGUSR1; SIGUSR2; SIGTERM]) as H by (by apply (bool_decide_unpack _); vm_compute).
  split; [done|]. exact (ratchet_escalates SIGINT H).
Defined.

(** SIGTERM again and again never goes beyond SIGTERM, and SIGHUP swings
    between SIGHUP and SIGTERM: neither reaches SIGKILL. *)
Lemma sigterm_never_escalates : sent SIGTERM 6 (Signals 0 0 0) = replicate 6 SIGTERM.
Proof. done. Qed.
Lemma sighup_never_kills :
  sent SIGHUP 6 (Signals 0 0 0) = [SIGHUP; SIGTERM; SIGHUP; SIGTERM; SIGHUP; SIGTERM].
Proof. done. Qed.
(** The fifth signal after SIGKILL is signal 0, and the ratchet starts again. *)
Lemma ratchet_wraps :
  sent SIGINT 6 (Signals 0 0 0) = [SIGINT; SIGTERM; SIGHUP; SIGKILL; 0; SIGINT].
Proof. done. Qed.

(** ** The core of the state *)

(** The process groups of the slots, the children that live, the count. *)
Record core := Core { c_pgrps : list Z; c_children : list Z; c_active : Z }.
Definition core_of (s : pan) : core :=
  Core (pgrp <$> running s) (children (p_world s)) (num_active (p_loc s)).

(** [p], when it ends with a value, changes the core by [R]. *)
Definition rel {A} (p : prog pan A) (R : core → A → core → Prop) : Prop :=
  ∀ s r s', p s = (Ok r, s') → R (core_of s) r (core_of s').
Definition frames {A} (p : prog pan A) : Prop := rel p (λ c _ c', c' = c).

Lemma rel_bind {A B} (p : prog pan A) (f : A → prog pan B) R1 R2 :
  rel p R1 → (∀ a, rel (f a) (R2 a)) →
  rel (p ≫= f) (λ c r c', ∃ a c1, R1 c a c1 ∧ R2 a c1 r c').
Proof.
  intros Hp Hf s r s' (a & s1 & H1 & H2)%p_bind_inv. exists a, (core_of s1). split.
  - by eapply Hp.
  - by eapply Hf.
Qed.

Lemma rel_weaken {A} (p : prog pan A) (R R' : core → A → core → Prop) :
  rel p R → (∀ c r c', R c r c' → R' c r c') → rel p R'.
Proof. intros H HR s r s' E. apply HR. by eapply H. Qed.

Lemma frames_bind {A B} (p : prog pan A) (f : A → prog pan B) :
  frames p → (∀ a, frames (f a)) → frames (p ≫= f).
Proof.
  intros Hp Hf. eapply rel_weaken; [exact (rel_bind p f _ (λ _ c _ c', c' = c) Hp Hf)|]. intros c r c' (a & c1 & -> & ->). done.
Qed.

(** A frame before or after a change. *)
Lemma rel_frame_l {A B} (p : prog pan A) (f : A → prog pan B) R :
  frames p → (∀ a, rel (f a) R) → rel (p ≫= f) R.
Proof.
  intros Hp Hf. eapply rel_weaken; [exact (rel_bind p f _ (λ _, R) Hp Hf)|].
  intros c r c' (a & c1 & -> & H). done.
Qed.

Lemma frames_ret {A} (a : A) : frames (mret a).
Proof. intros s r s' [= <- <-]. done. Qed.
Lemma frames_get : frames p_get.
Proof. intros s r s' [= <- <-]. done. Qed.
Lemma frames_exit {A} c : frames (p_exit (A := A) c).
Proof. by intros s r s' [=]. Qed.
Lemma frames_undef {A} : frames (p_undef (A := A)).
Proof. by intros s r s' [=]. Qed.
Lemma frames_nofuel {A} : frames (p_nofuel (A := A)).
Proof. by intros s r s' [=]. Qed.
Lemma frames_lift {A} (x : res A) : frames (p_lift x).
Proof. by intros s r s' [= _ <-]. Qed.
Lemma frames_when c (p : prog pan unit) : frames p → frames (p_when c p).
Proof. intros H. destruct c; [done|apply frames_ret]. Qed.
Lemma frames_if {A} (c : bool) (p q : prog pan A) : frames p → frames q → frames (if c then p else q).
Proof. by destruct c. Qed.
Lemma frames_world f : (∀ w, children (f w) = children w) → frames (upd_world f).
Proof. intros Hf s r s' [= <- <-]. unfold core_of. simpl. by rewrite Hf. Qed.
Lemma frames_sigs f : frames (upd_sigs f).
Proof. by intros s r s' [= <- <-]. Qed.
Lemma frames_orphans l : frames (set_orphans l).
Proof. by intros s r s' [= <- <-]. Qed.
Lemma frames_loc f : (∀ l, num_active (f l) = num_active l) → frames (upd_loc f).
Proof. intros Hf s r s' [= <- <-]. unfold core_of. simpl. by rewrite Hf. Qed.

Lemma pgrps_alter f i (l : list slot) g : (∀ sl, pgrp (f sl) = g (pgrp sl)) →
  pgrp <$> alter f i l = alter g i (pgrp <$> l).
Proof.
  intros Hf. revert i. induction l as [|sl l IH]; intros [|i]; [done|done|..].
  - cbn. by rewrite Hf.
  - rewrite fmap_cons. cbn. f_equal. apply IH.
Qed.

Lemma alter_id_list (i : nat) (l : list Z) : alter (λ x, x) i l = l.
Proof. revert i. induction l as [|x l IH]; intros [|i]; [done..|]. cbn. f_equal. apply IH. Qed.

Lemma frames_slot i f : (∀ sl, pgrp (f sl) = pgrp sl) → frames (upd_slot i f).
Proof.
  intros Hf s r s' [= <- <-]. unfold core_of. simpl. by rewrite (pgrps_alter f i _ (λ x, x)), alter_id_list.
Qed.

Lemma frames_zoo {A} (p : prog zoo A) : frames (on_zoo p).
Proof. intros s r s'. unfold on_zoo. destruct (p _) as [r' z]. by intros [= -> <-]. Qed.

Lemma frames_for {A} (l : list A) (f : A → prog pan unit) :
  (∀ a, frames (f a)) → frames (p_for l f).
Proof. intros H. induction l; simpl; [apply frames_ret|]. by apply frames_bind. Qed.

Create HintDb pan_frames.
#[export] Hint Resolve frames_ret frames_get frames_exit frames_undef frames_nofuel frames_lift
  frames_sigs frames_orphans frames_zoo : pan_frames.

(** Frames are closed under everything the scheduler is built from. *)
Ltac frame :=
  repeat first
    [ progress intros
    | progress cbv zeta
    | solve [auto with pan_frames]
    | apply frames_bind | apply frames_when
    | apply frames_world; intros; reflexivity
    | apply frames_slot; intros; reflexivity
    | apply frames_loc; intros; reflexivity
    | apply frames_for
    | match goal with
      | |- frames (match ?x with _ => _ end) => destruct x
      | |- frames (let '(_, _) := ?x in _) => destruct x
      end ].

Section Frames.
Context `{OS : pan_os} (cfg : settings).

Lemma frames_ask : frames ask.
Proof. unfold ask. frame. Qed.
#[local] Hint Resolve frames_ask : pan_frames.
Lemma frames_puts t : frames (puts t).
Proof. unfold puts. frame. Qed.
#[local] Hint Resolve frames_puts : pan_frames.
Lemma frames_deliver : frames deliver.
Proof. unfold deliver. frame. Qed.
Lemma frames_kill p sig : frames (kill_group p sig).
Proof. unfold kill_group. frame. Qed.
#[local] Hint Resolve frames_deliver frames_kill : pan_frames.
Lemma frames_orphans_loop l sig : frames (check_orphans_loop l sig).
Proof. induction l as [|p l IH]; cbn [check_orphans_loop]; frame. Qed.
#[local] Hint Resolve frames_orphans_loop : pan_frames.
Lemma frames_check_orphans sig : frames (check_orphans sig).
Proof. unfold check_orphans. frame. Qed.
#[local] Hint Resolve frames_check_orphans : pan_frames.
Lemma frames_signal_slot i : frames (signal_slot i).
Proof. unfold signal_slot. frame. Qed.
#[local] Hint Resolve frames_signal_slot : pan_frames.
Lemma frames_propagate : frames (propagate_signal cfg).
Proof. unfold propagate_signal. frame. Qed.
Lemma frames_test_start sl : frames (write_test_start cfg sl).
Proof. unfold write_test_start. frame. Qed.
Lemma frames_test_end sl i t ty st w tms : frames (write_test_end cfg sl i t ty st w tms).
Proof. unfold write_test_end. frame. Qed.
Lemma frames_copy : frames copy_buffered_output.
Proof. unfold copy_buffered_output. frame. Qed.
Lemma frames_open fuel dir name : frames (open_output fuel dir name).
Proof. induction fuel as [|fuel IH]; cbn [open_output]; frame. Qed.
End Frames.
#[export] Hint Resolve frames_ask frames_puts frames_deliver frames_kill frames_orphans_loop
  frames_check_orphans frames_propagate frames_test_start frames_test_end frames_copy frames_open
  : pan_frames.

(** ** The invariant *)

(** What the kernel promises: a new child has a process number that is not
    that of a living child, and [wait] gives a living child that ended. *)
Class pan_laws {OS : pan_os} : Prop := {
  law_start n l c : os_start n l = start_ok c → 0 < c ∧ c ∉ l;
  law_wait n l c st : os_wait n l = wait_child c st →
    c ∈ l ∧ (WIFEXITED st = true ∨ WIFSIGNALED st = true)
}.

Section Invariant.
Context {OS : pan_os} {Laws : pan_laws} (cfg : settings).

Record inv (c : core) : Prop := {
  inv_slots : length (c_pgrps c) = keep_active cfg;
  inv_nodup : NoDup (c_children c);
  inv_pos : Forall (λ p, 0 < p) (c_children c);
  inv_perm : filter (λ p, p ≠ 0) (c_pgrps c) ≡ₚ c_children c;
  inv_active : c_active c = Z.of_nat (length (c_children c))
}.

Lemma inv_bound c : inv c → 0 ≤ c_active c ≤ Z.of_nat (keep_active cfg).
Proof.
  intros H. rewrite (inv_active _ H), <- (Permutation_length (inv_perm _ H)).
  pose proof (length_filter (λ p, p ≠ 0) (c_pgrps c)). rewrite (inv_slots _ H) in *. lia.
Qed.

(** A slot that changes hands. *)
Lemma alter_split {A} (f : A → A) (l : list A) i x : l !! i = Some x →
  ∃ l1 l2, l = l1 ++ x :: l2 ∧ alter f i l = l1 ++ f x :: l2.
Proof.
  revert i. induction l as [|y l IH]; intros [|i] H; [done|done|..].
  - injection H as ->. by exists [], l.
  - destruct (IH i H) as (l1 & l2 & -> & E). exists (y :: l1), l2. split; [done|].
    cbn. f_equal. exact E.
Qed.

Lemma inv_reap c i p : inv c → c_pgrps c !! i = Some p → p ≠ 0 →
  inv (Core (alter (λ _, 0) i (c_pgrps c)) (filter (λ q, q ≠ p) (c_children c)) (c_active c - 1)).
Proof.
  intros [Hs Hn Hpos Hp Ha] Hi Hp0.
  destruct (alter_split (λ _, 0) _ _ _ Hi) as (l1 & l2 & E & ->). rewrite E in *.
  assert (filter (λ q, q ≠ 0) (l1 ++ p :: l2) ≡ₚ p :: filter (λ q, q ≠ 0) (l1 ++ l2)) as Hf.
  { rewrite !filter_app, filter_cons, decide_True by done. symmetry. apply Permutation_middle. }
  set (rest := filter (λ q, q ≠ 0) (l1 ++ l2)) in *.
  assert (c_children c ≡ₚ p :: rest) as Hc by (by rewrite <- Hp, Hf).
  assert (NoDup (p :: rest)) as Hnd by (by rewrite <- Hc).
  apply NoDup_cons in Hnd as [Hnin Hnd].
  assert (filter (λ q, q ≠ p) (c_children c) ≡ₚ rest) as Hr.
  { rewrite Hc, filter_cons, decide_False by tauto. clear -Hnin.
    induction rest as [|x l IH]; [done|]. rewrite not_elem_of_cons in Hnin. destruct Hnin.
    rewrite filter_cons, decide_True by done. by rewrite IH. }
  split; simpl.
  - rewrite length_app in *. simpl in *. lia.
  - by rewrite Hr.
  - rewrite Hr. rewrite Hc in Hpos. by inversion Hpos.
  - rewrite Hr. unfold rest. rewrite !filter_app, filter_cons, decide_False by tauto. done.
  - rewrite Hr, Ha, Hc. simpl. lia.
Qed.

Lemma inv_start c i p : inv c → c_pgrps c !! i = Some 0 → 0 < p → p ∉ c_children c →
  inv (Core (alter (λ _, p) i (c_pgrps c)) (p :: c_children c) (c_active c + 1)).
Proof.
  intros [Hs Hn Hpos Hp Ha] Hi Hp0 Hnew.
  destruct (alter_split (λ _, p) _ _ _ Hi) as (l1 & l2 & E & ->). rewrite E in *.
  split; simpl.
  - rewrite length_app in *. simpl in *. lia.
  - by apply NoDup_cons.
  - by constructor.
  - rewrite <- Hp, !filter_app, !filter_cons, decide_True, decide_False by (tauto || lia).
    symmetry. apply Permutation_middle.
  - rewrite Ha. lia.
Qed.

Definition keeps {A} (p : prog pan A) : Prop := rel p (λ c _ c', inv c → inv c').

Lemma keeps_frames {A} (p : prog pan A) : frames p → keeps p.
Proof. intros H. eapply rel_weaken; [exact H|]. by intros c r c' ->. Qed.

Lemma keeps_bind {A B} (p : prog pan A) (f : A → prog pan B) :
  keeps p → (∀ a, keeps (f a)) → keeps (p ≫= f).
Proof.
  intros Hp Hf. eapply rel_weaken; [exact (rel_bind p f _ (λ _ c _ c', inv c → inv c') Hp Hf)|].
  intros c r c' (a & c1 & H1 & H2). auto.
Qed.

(** *** wait and the reaping of a child *)

Definition waited (c : core) (r : wait_result) (c' : core) : Prop :=
  match r with
  | wait_error => c' = c
  | wait_child p st =>
      p ∈ c_children c ∧ (WIFEXITED st = true ∨ WIFSIGNALED st = true)
      ∧ c' = Core (c_pgrps c) (filter (λ q, q ≠ p) (c_children c)) (c_active c)
  end.

Lemma rel_wait : rel wait waited.
Proof.
  unfold wait. apply rel_frame_l; [frame|]. intros _. apply rel_frame_l; [frame|]. intros n.
  intros s r s' (s1 & s2 & [= <- <-] & H)%p_bind_inv. cbv zeta in H.
  destruct (os_wait n (children (p_world s))) as [|p st] eqn:E.
  - injection H as <- <-. done.
  - apply law_wait in E as [Hp Hst]. injection H as <- <-. done.
Qed.

Lemma rel_reap i sl cpid st ret status w tms :
  rel (reap cfg i sl cpid st ret status w tms)
      (λ c _ c', c' = Core (alter (λ _, 0) i (c_pgrps c)) (c_children c) (c_active c)).
Proof.
  unfold reap. cbv zeta. apply rel_frame_l; [frame|]. intros n.
  do 4 (apply rel_frame_l; [frame|]; intros _).
  eapply rel_weaken.
  - apply (rel_bind _ _ (λ c _ c', c' = Core (alter (λ _, 0) i (c_pgrps c)) (c_children c) (c_active c))
      (λ _ c _ c', c' = c)).
    + intros s r s' [= <- <-]. unfold core_of. simpl. by rewrite (pgrps_alter _ i _ (λ _, 0)).
    + intros _. frame.
  - intros c r c' (_ & c1 & -> & ->). done.
Qed.

Lemma decode_ended st status w ret : decode_status st = (status, w, ret) →
  WIFEXITED st = true ∨ WIFSIGNALED st = true →
  match status with signaled | exited => true | _ => false end = true.
Proof.
  unfold decode_status. intros H [He|Hs].
  - destruct (WIFSIGNALED st); [by simplify_eq|]. rewrite He in H. by simplify_eq.
  - rewrite Hs in H. by simplify_eq.
Qed.

Lemma keeps_check_pids : keeps (check_pids cfg).
Proof.
  unfold check_pids. apply keeps_bind; [apply keeps_frames; frame|]. intros _.
  intros s r s' (wr & s1 & Hw & H)%p_bind_inv Hinv. apply rel_wait in Hw.
  apply p_bind_inv in H as (n & s2 & Hask & H). apply frames_ask in Hask. unfold waited in Hw.
  destruct wr as [|p st].
  { injection H as _ <-. by rewrite Hask, Hw. }
  destruct Hw as (Hp & Hst & Hw). rewrite Hw in Hask.
  destruct (decode_status st) as [[status w] ret] eqn:Hd. rewrite (decode_ended _ _ _ _ Hd Hst) in H.
  cbn [p_when] in H. apply p_bind_inv in H as (? & s3 & [= _ <-] & H).
  apply p_bind_inv in H as (? & s4 & [= <- <-] & H). cbn [running] in H.
  assert (∃ i, c_pgrps (core_of s) !! i = Some p) as [i0 Hi0].
  { apply list_elem_of_lookup. rewrite <- (inv_perm _ Hinv) in Hp.
    by apply list_elem_of_filter in Hp as [_ ?]. }
  assert (pgrp <$> running s2 = c_pgrps (core_of s)) as Hrun by (by injection Hask).
  unfold find_slot in H. destruct (list_find _ (running s2)) as [[i sl]|] eqn:Hfind.
  - apply list_find_Some in Hfind as (Hi & Hpi & _). apply Z.eqb_eq in Hpi.
    apply rel_reap in H.
    assert (core_of s' = Core (alter (λ _, 0) i (c_pgrps (core_of s)))
      (filter (λ q, q ≠ p) (c_children (core_of s))) (c_active (core_of s) - 1)) as ->.
    { rewrite H. injection Hask as H1 H2 H3. cbn in *. by rewrite H1, H2, H3. }
    apply inv_reap; [done| |].
    + by rewrite <- Hrun, list_lookup_fmap, Hi, <- Hpi.
    + pose proof (inv_pos _ Hinv) as Hpos. rewrite Forall_forall in Hpos. specialize (Hpos p Hp). lia.
  - exfalso. rewrite <- Hrun, list_lookup_fmap in Hi0.
    destruct (running s2 !! i0) as [sl|] eqn:E; [|done]. injection Hi0 as Hpg.
    eapply list_find_None in Hfind. rewrite Forall_lookup in Hfind. eapply Hfind; [exact E|].
    by apply Z.eqb_eq.
Qed.

(** *** Starting a test *)

Definition ran (i : nat) (c : core) (r : Z) (c' : core) : Prop :=
  (r = -1 ∧ c' = c)
  ∨ (0 < r ∧ r ∉ c_children c
     ∧ c' = Core (alter (λ _, r) i (c_pgrps c)) (r :: c_children c) (c_active c)).

Lemma rel_start_ok colle (c_cmdline : cstr) i cpid :
  rel (upd_world (add_exec (child_exec c_cmdline));;
       upd_world (λ w, set_children (cpid :: children w) w);;
       upd_slot i (λ sl, Slot cpid false (mystime sl) (scmd sl) (output sl));;
       m ← on_zoo (zoo_mark_cmdline os_zoo_fuel zoo_fp cpid (ce_name colle) (ce_cmdline colle));
       if nz m then p_exit 1 else mret cpid)
      (λ c r c', r = cpid ∧ c' = Core (alter (λ _, cpid) i (c_pgrps c)) (cpid :: c_children c) (c_active c)).
Proof.
  apply rel_frame_l; [frame|]. intros _ s r s' (? & s1 & [= _ <-] & H)%p_bind_inv.
  apply p_bind_inv in H as (? & s2 & [= _ <-] & H). apply p_bind_inv in H as (m & s3 & Hz & H).
  apply frames_zoo in Hz. destruct (nz m); [done|]. injection H as <- <-. split; [done|].
  rewrite Hz. unfold core_of. cbn. by rewrite (pgrps_alter _ i _ (λ _, cpid)).
Qed.

Lemma rel_run_child fuel colle i : rel (run_child cfg fuel colle i) (ran i).
Proof.
  unfold run_child, child_started. apply rel_frame_l; [frame|]. intros opened.
  destruct (negb opened); [intros s r s' [= <- <-]; by left|].
  apply rel_frame_l; [frame|]. intros s0. apply rel_frame_l; [frame|]. intros [c_cmdline cnt].
  apply rel_frame_l; [frame|]. intros _. apply rel_frame_l; [frame|]. intros n.
  intros s r s' (s1 & s2 & [= <- <-] & H)%p_bind_inv. cbv zeta in H.
  destruct (os_start n (children (p_world s))) as [| |errbuf st|cpid] eqn:E.
  - injection H as <- <-. by left.
  - left. apply p_bind_inv in H as (? & s1 & H1 & H). apply frames_slot in H1; [|done].
    apply p_bind_inv in H as (? & s2 & H2 & H). rewrite <- H1.
    assert (core_of s2 = core_of s1) as <- by (eapply (frames_when _ _ (frames_test_start cfg _)); exact H2).
    by injection H as <- <-.
  - left. apply p_bind_inv in H as (? & s1 & H1 & H). apply frames_slot in H1; [|done].
    apply p_bind_inv in H as (? & s2 & H2 & H). rewrite <- H1.
    assert (core_of s2 = core_of s1) as <- by (eapply (frames_when _ _ (frames_test_start cfg _)); exact H2).
    apply p_bind_inv in H as (? & s3 & [= _ <-] & H). apply p_bind_inv in H as (m & s4 & Ha & H).
    apply frames_ask in Ha. destruct (decode_status st) as [[ty id] rt].
    apply p_bind_inv in H as (? & s5 & H5 & H).
    assert (core_of s5 = core_of s4) as H6 by (eapply (frames_when _ _ (frames_test_end cfg _ _ _ _ _ _ _)); exact H5).
    injection H as <- <-. by rewrite H6, Ha.
  - right. apply law_start in E as [Hpos Hnew].
    assert (rel (upd_slot i (λ sl, Slot (pgrp sl) (stopping sl) (os_time n) (Some colle) (output sl));;
      p_when (negb (is_Some_b (test_out_dir cfg)) && negb (quiet_mode cfg))
        (write_test_start cfg (Slot 0 false (os_time n) (Some colle) []));;
      upd_world (add_exec (child_exec c_cmdline));;
      upd_world (λ w, set_children (cpid :: children w) w);;
      upd_slot i (λ sl, Slot cpid false (mystime sl) (scmd sl) (output sl));;
      m ← on_zoo (zoo_mark_cmdline os_zoo_fuel zoo_fp cpid (ce_name colle) (ce_cmdline colle));
      if nz m then p_exit 1 else mret cpid) (λ c r c', r = cpid ∧ c' = Core (alter (λ _, cpid) i (c_pgrps c)) (cpid :: c_children c) (c_active c))) as Hrel.
    { apply rel_frame_l; [frame|]. intros _. apply rel_frame_l; [frame|]. intros _. apply rel_start_ok. }
    apply Hrel in H as [-> ->]. done.
Qed.

Lemma keeps_start_step fuel : keeps (start_step cfg fuel).
Proof.
  unfold start_step. apply keeps_bind; [apply keeps_frames; frame|]. intros _.
  apply keeps_bind; [apply keeps_frames; frame|]. intros s0. cbv zeta.
  do 2 (match goal with |- keeps (if ?c then _ else _) => destruct c; [apply keeps_frames; frame|] end).
  apply keeps_bind; [apply keeps_frames; frame|]. intros _.
  intros s r s' (s1 & s2 & [= <- <-] & H)%p_bind_inv Hinv.
  unfold find_slot in H. destruct (list_find _ (running s)) as [[i sl]|] eqn:Hfind.
  2:{ revert H Hinv. apply keeps_frames. frame. }
  apply list_find_Some in Hfind as (Hi & Hfree & _). apply Z.eqb_eq in Hfree.
  destruct (coll cfg !! _) as [colle|]; [|done].
  apply p_bind_inv in H as (cpid & s1 & Hrun & H). apply rel_run_child in Hrun.
  apply p_bind_inv in H as (? & s2 & [= _ <-] & H). apply p_bind_inv in H as (? & s3 & H3 & H).
  injection H as _ <-.
  assert (core_of s3 = Core (c_pgrps (core_of s1)) (c_children (core_of s1))
    (if negb (cpid =? -1) then c_active (core_of s1) + 1 else c_active (core_of s1))) as ->.
  { apply frames_when in H3; [|frame]. rewrite H3. unfold core_of. cbn. by destruct (negb _). }
  destruct Hrun as [[-> Hc]|(Hpos & Hnew & ->)]; cbn [negb Z.eqb Pos.eqb].
  - rewrite Hc. by destruct (core_of s).
  - destruct (Z.eqb_spec cpid (-1)); [lia|]. cbn [negb c_pgrps c_children c_active].
    apply inv_start; [done| |done|done]. unfold core_of. cbn. by rewrite list_lookup_fmap, Hi, <- Hfree.
Qed.

Lemma keeps_start_tests fuel : keeps (start_tests cfg fuel).
Proof.
  induction fuel as [|fuel IH]; cbn [start_tests]; [apply keeps_frames; frame|].
  apply keeps_bind; [apply keeps_start_step|]. intros []; [done|apply keeps_frames; frame].
Qed.

Lemma frames_handle_signal : frames (handle_signal cfg).
Proof.
  unfold handle_signal. apply frames_bind; [frame|]. intros _. apply frames_bind; [frame|]. intros s.
  cbv zeta. assert (frames (s0 ← p_get; upd_loc (if fork_in_road (p_loc s0) then incr_idle else incr_stop))) as Hi.
  { apply frames_bind; [frame|]. intros s1. destruct (fork_in_road _); frame. }
  destruct (_ =? 0); [frame|]. destruct (_ =? SIGUSR2).
  - apply frames_bind; [exact Hi|frame].
  - apply frames_bind; [frame|]. intros _. apply frames_bind; [frame|]. by intros _.
Qed.

Lemma keeps_sched_step fuel : keeps (sched_step cfg fuel).
Proof.
  unfold sched_step. apply keeps_bind; [by apply keeps_start_tests|]. intros _.
  apply keeps_bind; [apply keeps_frames; frame|]. intros s.
  apply keeps_bind; [apply keeps_frames; frame|]. intros _.
  apply keeps_bind; [apply keeps_frames, frames_handle_signal|]. intros _.
  apply keeps_bind; [apply keeps_check_pids|]. intros err. apply keeps_frames. frame.
Qed.
End Invariant.

Section Safety.
Context {OS : pan_os} {Laws : pan_laws} (cfg : settings).

(** The states between the turns of the main loop. *)
Inductive reachable (fuel : nat) (s0 : pan) : pan → Prop :=
| reach_start : reachable fuel s0 s0
| reach_step s b s' : reachable fuel s0 s → sched_step cfg fuel s = (Ok b, s') → reachable fuel s0 s'.

Lemma inv_pan0 z n road : inv cfg (core_of (pan0 cfg z n road)).
Proof.
  split; simpl; [by rewrite length_fmap, length_replicate|constructor|done| |done].
  unfold core_of, pan0. cbn. induction (keep_active cfg) as [|k IH]; [done|].
  cbn [replicate]. rewrite fmap_cons, filter_cons. by rewrite decide_False by (intros H; by apply H).
Qed.

(** C6: the safety of the scheduler.  Whatever the signals, the failures to
    start and the order in which tests end, between any two turns of the main
    loop the slots in use hold exactly the children that live, each in one
    slot, and their number is num_active, never above keep_active. *)
Theorem scheduler_safe fuel z n road s :
  reachable fuel (pan0 cfg z n road) s →
  filter (λ p, p ≠ 0) (pgrp <$> running s) ≡ₚ children (p_world s)
  ∧ NoDup (children (p_world s))
  ∧ num_active (p_loc s) = Z.of_nat (length (children (p_world s)))
  ∧ 0 ≤ num_active (p_loc s) ≤ Z.of_nat (keep_active cfg).
Proof.
  intros Hr. assert (inv cfg (core_of s)) as H.
  { induction Hr as [|s b s' Hr IH Hs]; [apply inv_pan0|]. by apply (keeps_sched_step cfg fuel _ _ _ Hs). }
  split; [apply H|]. split; [apply H|]. split; [apply H|]. exact (inv_bound cfg _ H).
Qed.

Lemma sched_step_done fuel s s' : sched_step cfg fuel s = (Ok true, s') → num_active (p_loc s') = 0.
Proof.
  unfold sched_step. intros H.
  do 7 (apply p_bind_inv in H as (? & ? & _ & H)).
  apply p_bind_inv in H as (s1 & s2 & [= <- <-] & H). cbv zeta in H.
  match type of H with (if ?c then _ else _) _ = _ => destruct c eqn:E end.
  - injection H as <-. apply andb_true_iff in E as [_ E]. by apply Z.eqb_eq.
  - by apply p_bind_inv in H as (? & ? & _ & [=]).
Qed.

Lemma schedule_done fuel s s' : inv cfg (core_of s) → schedule cfg fuel s = (Ok (), s') →
  inv cfg (core_of s') ∧ num_active (p_loc s') = 0.
Proof.
  revert s. induction fuel as [|fuel IH]; intros s Hinv H; cbn [schedule] in H; [done|].
  apply p_bind_inv in H as ([] & s1 & H1 & H).
  - injection H as <-. split; [by apply (keeps_sched_step cfg fuel _ _ _ H1)|].
    by eapply sched_step_done.
  - apply (IH s1); [|done]. by apply (keeps_sched_step cfg fuel _ _ _ H1).
Qed.

(** No test is left behind: when the main loop ends, every child was
    reaped and every slot is free. *)
Theorem scheduler_drains fuel z n road s' :
  schedule cfg fuel (pan0 cfg z n road) = (Ok (), s') →
  children (p_world s') = [] ∧ Forall (λ sl, pgrp sl = 0) (running s').
Proof.
  intros H. destruct (schedule_done _ _ _ (inv_pan0 z n road) H) as [Hinv Hn].
  assert (children (p_world s') = []) as Hc.
  { apply length_zero_iff_nil. pose proof (inv_active _ _ Hinv) as Ha. simpl in Ha. lia. }
  split; [done|]. pose proof (inv_perm _ _ Hinv) as Hp. simpl in Hp. rewrite Hc in Hp.
  apply Permutation_nil_r in Hp. apply Forall_forall. intros sl Hsl.
  destruct (decide (pgrp sl = 0)) as [|Hne]; [done|exfalso].
  assert (pgrp sl ∈ filter (λ p, p ≠ 0) (pgrp <$> running s')) as Hin.
  { apply list_elem_of_filter. split; [done|]. by apply list_elem_of_fmap_2. }
  rewrite Hp in Hin. by apply elem_of_nil in Hin.
Qed.
End Safety.

(** ** The propagation of a signal *)

Definition marked (sl : slot) : slot :=
  if pgrp sl =? 0 then sl else Slot (pgrp sl) true (mystime sl) (scmd sl) (output sl).
(** One [kill] for each process group other than 0. *)
Definition kills_of (sig : Z) (l : list Z) : list (Z * Z) :=
  (λ p, (- p, sig)) <$> filter (λ p, p ≠ 0) l.

Section Propagate.
Context {OS : pan_os} (cfg : settings) (Hzoo : interrupted os_zoo os_zoo_fuel).

(** What [check_orphans_loop] leaves alone. *)
Definition same_but_world (s s' : pan) : Prop :=
  running s' = running s ∧ p_sigs s' = p_sigs s ∧ p_loc s' = p_loc s ∧ orphans s' = orphans s.

Lemma kill_group_run p sig s : ∃ r s',
  kill_group p sig s = (Ok r, s') ∧ same_but_world s s'
  ∧ kills (p_world s') = kills (p_world s) ++ [(- p, sig)].
Proof. do 2 eexists. split; [done|]. by repeat split. Qed.

Lemma check_orphans_loop_run l sig s : ∃ l' s',
  check_orphans_loop l sig s = (Ok l', s') ∧ same_but_world s s'
  ∧ kills (p_world s') = kills (p_world s) ++ kills_of sig l ∧ length l' = length l.
Proof.
  revert s. induction l as [|p l IH]; intros s; cbn [check_orphans_loop].
  { exists [], s. unfold kills_of. cbn. by rewrite app_nil_r. }
  unfold kills_of in *. rewrite filter_cons. destruct (Z.eqb_spec p 0) as [->|Hp].
  - destruct (IH s) as (l' & s' & H & Hs & Hk & Hl). exists (0 :: l'), s'.
    rewrite (p_bind_ok _ _ _ _ _ H). rewrite decide_False by (intros HH; by apply HH). simpl. auto.
  - rewrite decide_True by done. rewrite fmap_cons.
    destruct (kill_group_run p sig s) as (r & s1 & H1 & Hs1 & Hk1). rewrite (p_bind_ok _ _ _ _ _ H1).
    assert (∃ s2, same_but_world s1 s2 ∧ kills (p_world s2) = kills (p_world s1)
      ∧ ∃ p', (match r with
          | kill_ESRCH => on_zoo (zoo_clear os_zoo_fuel zoo_fp p);;
              l' ← check_orphans_loop l sig; mret (0 :: l')
          | _ => l' ← check_orphans_loop l sig; mret (p :: l')
          end) s1 = (l' ← check_orphans_loop l sig; mret (p' :: l')) s2) as (s2 & Hs2 & Hk2 & p' & ->).
    { destruct r; try (exists s1; split; [done|]; split; [done|]; by eexists).
      destruct (zoo_clear_total os_zoo_fuel p (w_zoo (p_world s1)) Hzoo) as (v & z & Hz).
      eexists. split; [|split]; [..|exists 0; rewrite p_bind_run; unfold on_zoo; by rewrite Hz]; done. }
    destruct (IH s2) as (l' & s' & H & Hs & Hk & Hl). exists (p' :: l'), s'.
    rewrite (p_bind_ok _ _ _ _ _ H). split; [done|]. split; [|split; [|simpl; lia]].
    + unfold same_but_world in *. intuition congruence.
    + by rewrite Hk, Hk2, Hk1, <- app_assoc.
Qed.

Lemma signal_slot_run i sl s : running s !! i = Some sl →
  ∃ s', signal_slot i s = (Ok (), s') ∧ running s' = alter marked i (running s)
  ∧ kills (p_world s') = kills (p_world s) ++ kills_of (send_signal (p_sigs s)) [pgrp sl]
  ∧ p_sigs s' = p_sigs s ∧ p_loc s' = p_loc s ∧ orphans s' = orphans s.
Proof.
  intros Hi. unfold signal_slot. rewrite p_bind_run. cbn [p_get]. rewrite Hi.
  unfold kills_of. rewrite filter_cons, filter_nil. destruct (Z.eqb_spec (pgrp sl) 0) as [E|E].
  - rewrite decide_False by (intros H; by apply H). exists s. split; [done|]. split.
    + rewrite <- (list_alter_id (λ x, x) (running s) i) at 1 by done.
      apply list_alter_ext; [|done]. intros x Hx. rewrite Hi in Hx. injection Hx as <-.
      unfold marked. by rewrite E.
    + cbn. by rewrite app_nil_r.
  - rewrite decide_True by done.
    destruct (kill_group_run (pgrp sl) (send_signal (p_sigs s)) s) as (r & s1 & H1 & (Hr & Hs & Hl & Ho) & Hk).
    rewrite (p_bind_ok _ _ _ _ _ H1). cbn [upd_slot p_modify]. eexists. split; [done|].
    cbn [running p_world p_sigs p_loc orphans]. rewrite Hr. split; [|done].
    apply list_alter_ext; [|done]. intros x Hx. rewrite Hi in Hx. injection Hx as <-.
    unfold marked. by destruct (Z.eqb_spec (pgrp sl) 0).
Qed.

Lemma kills_of_app sig l1 l2 : kills_of sig (l1 ++ l2) = kills_of sig l1 ++ kills_of sig l2.
Proof. unfold kills_of. by rewrite filter_app, fmap_app. Qed.

Lemma signal_slots_run n : ∀ k s, length (running s) = (k + n)%nat →
  ∃ s', p_for (seq k n) signal_slot s = (Ok (), s')
  ∧ running s' = take k (running s) ++ (marked <$> drop k (running s))
  ∧ kills (p_world s') = kills (p_world s) ++ kills_of (send_signal (p_sigs s)) (pgrp <$> drop k (running s))
  ∧ p_sigs s' = p_sigs s ∧ p_loc s' = p_loc s ∧ orphans s' = orphans s.
Proof.
  induction n as [|n IH]; intros k s Hlen; cbn [seq p_for].
  { exists s. rewrite drop_ge by lia. rewrite take_ge by lia. unfold kills_of. simpl.
    by rewrite !app_nil_r. }
  destruct (lookup_lt_is_Some_2 (running s) k) as [sl Hsl]; [lia|].
  destruct (signal_slot_run k sl s Hsl) as (s1 & H1 & Hr1 & Hk1 & Hs1 & Hl1 & Ho1).
  rewrite (p_bind_ok _ _ _ _ _ H1).
  destruct (IH (S k) s1) as (s' & H & Hr & Hk & Hs & Hl & Ho); [rewrite Hr1, length_alter; lia|].
  exists s'. split; [done|]. rewrite (drop_S _ sl k Hsl), !fmap_cons.
  rewrite Hr1, drop_alter_lt in Hr, Hk by lia. rewrite Hs1 in Hk. split; [|split].
  - rewrite Hr. rewrite (take_S_r _ _ (marked sl)) by (by rewrite list_lookup_alter_eq, Hsl).
    by rewrite take_alter_ge, <- app_assoc by lia.
  - rewrite Hk, Hk1, <- app_assoc. f_equal. symmetry. apply (kills_of_app _ [pgrp sl]).
  - by rewrite Hs, Hl, Ho, Hs1, Hl1, Ho1.
Qed.

(** C26: propagate_signal sends the signal of the ratchet once to the process
    group of every running test and of every orphan, to no other, marks
    exactly the running tests as being stopped, and resets both signals. *)
Theorem propagate_signal_spec s :
  length (running s) = keep_active cfg →
  ∃ s', propagate_signal cfg s = (Ok (), s')
    ∧ kills (p_world s') = kills (p_world s)
        ++ kills_of (send_signal (p_sigs s)) ((pgrp <$> running s) ++ orphans s)
    ∧ running s' = marked <$> running s
    ∧ p_sigs s' = Signals 0 0 (lastsent (p_sigs s)) ∧ p_loc s' = p_loc s.
Proof.
  intros Hlen. unfold propagate_signal. rewrite p_bind_run. cbn [p_get].
  assert (∃ s1, (if rec_signal (p_sigs s) =? SIGALRM then
     puts (lit "PAN stop Alarm was received" ++ [NL]);;
     upd_sigs (λ g, Signals SIGTERM (send_signal g) (lastsent g))
   else mret ()) s = (Ok (), s1) ∧ running s1 = running s ∧ orphans s1 = orphans s ∧ p_loc s1 = p_loc s
   ∧ kills (p_world s1) = kills (p_world s) ∧ send_signal (p_sigs s1) = send_signal (p_sigs s)
   ∧ lastsent (p_sigs s1) = lastsent (p_sigs s)) as (s1 & H1 & Hr1 & Ho1 & Hl1 & Hk1 & Hs1 & Hls1).
  { destruct (_ =? SIGALRM); (eexists; split; [done|]; by repeat split). }
  rewrite (p_bind_ok _ _ _ _ _ H1).
  destruct (signal_slots_run (keep_active cfg) 0 s1) as (s2 & H2 & Hr2 & Hk2 & Hs2 & Hl2 & Ho2);
    [by rewrite Hr1|].
  rewrite (p_bind_ok _ _ _ _ _ H2). unfold check_orphans. rewrite p_bind_assoc, p_bind_run. cbn [p_get].
  destruct (check_orphans_loop_run (orphans s2) (send_signal (p_sigs s)) s2)
    as (l' & s3 & H3 & (Hr3 & Hs3 & Hl3 & _) & Hk3 & _).
  rewrite p_bind_assoc. rewrite (p_bind_ok _ _ _ _ _ H3).
  eexists. split; [done|]. cbn [p_world running p_sigs p_loc set_orphans p_modify].
  rewrite Hk3, Hk2, Hk1, Hs1, Hr1, Ho2, Ho1, Hr3, Hr2, Hr1, Hs3, Hs2, Hls1, Hl3, Hl2, Hl1.
  by rewrite kills_of_app, <- app_assoc.
Qed.
End Propagate.

(** ** A run: two commands, at most two at a time, in order *)

Definition demo_os : pan_os := {|
  os_zoo := quick_io; os_zoo_fuel := 1; os_getpid := 4711;
  os_signals _ := []; os_open _ := open_done;
  os_start n l := start_ok (1000 + foldr Z.max 0 l);
  os_wait n l := match l with [] => wait_error | c :: _ => wait_child c 0 end;
  os_kill _ _ _ := kill_ESRCH; os_time n := Z.of_nat n; os_times _ := (0, 0); os_rand _ := 0;
  os_stop_file _ := false; os_slurp _ := None; os_uname := Some (lit "6.1", lit "x86_64", lit "host")
|}.
#[local] Existing Instance demo_os.

Lemma demo_laws : pan_laws.
Proof.
  split.
  - intros n l c [= <-]. assert (∀ x, x ∈ l → x ≤ foldr Z.max 0 l) as H.
    { induction l as [|y l IH]; [by intros x ?%elem_of_nil|]. intros x [->|Hx]%elem_of_cons; simpl; [lia|].
      specialize (IH x Hx). lia. }
    split; [|intros Hin; specialize (H _ Hin); lia].
    assert (0 ≤ foldr Z.max 0 l) by (clear; induction l; simpl; lia). lia.
  - intros n [|c' l] c st; [done|]. intros [= -> <-]. split; [by left|]. by left.
Qed.

Definition demo_cfg : settings :=
  Settings (lit "pan") None true [CollEntry (lit "t1") (lit "true") false; CollEntry (lit "t2") (lit "ls | wc") false]
    2 true false true false true true false.
Definition demo_pan : pan := pan0 demo_cfg (ZooState [] false 0 None) 2 false.

Lemma scheduler_safe_witness :
  ∃ s, reachable demo_cfg 10 demo_pan s ∧ length (children (p_world s)) = 1%nat
       ∧ num_active (p_loc s) = 1.
Proof.
  exists (sched_step demo_cfg 10 demo_pan).2.
  assert (reachable demo_cfg 10 demo_pan (sched_step demo_cfg 10 demo_pan).2) as H.
  { apply (reach_step demo_cfg 10 demo_pan demo_pan false); [apply reach_start|]. by vm_compute. }
  destruct (scheduler_safe (Laws := demo_laws) demo_cfg 10 _ _ _ _ H) as (_ & _ & Hn & _).
  split; [exact H|]. assert (length (children (p_world (sched_step demo_cfg 10 demo_pan).2)) = 1%nat) as Hl
    by (by vm_compute).
  split; [exact Hl|]. rewrite Hn, Hl. reflexivity.
Defined.

Lemma scheduler_drains_witness :
  ∃ s, schedule demo_cfg 10 demo_pan = (Ok (), s) ∧ children (p_world s) = [] ∧ length (w_log (p_world s)) = 2%nat.
Proof.
  exists (schedule demo_cfg 10 demo_pan).2.
  assert (schedule demo_cfg 10 demo_pan = (Ok (), (schedule demo_cfg 10 demo_pan).2)) as H by (by vm_compute).
  split; [exact H|]. destruct (scheduler_drains (Laws := demo_laws) demo_cfg 10 _ _ _ _ H) as [Hc _].
  split; [exact Hc|]. by vm_compute.
Defined.

Lemma propagate_signal_spec_witness :
  let s := upd_sigs (wait_handler SIGINT) (sched_step demo_cfg 10 demo_pan).2 in
  ∃ s', propagate_signal demo_cfg s.2 = (Ok (), s') ∧ kills (p_world s') = kills (p_world s.2) ++ [(-1000, SIGINT)].
Proof.
  intros s. assert (length (running s.2) = keep_active demo_cfg) as Hl by (by vm_compute).
  destruct (propagate_signal_spec (OS := demo_os) demo_cfg quick_interrupted s.2 Hl) as (s' & H & Hk & _).
  exists s'. split; [exact H|]. rewrite Hk. by vm_compute.
Defined.
