(* ===== verification/PanRun.v ===== *)
(** * PanRun: a whole run of ltp-pan

    On a calm machine (no signal arrives, every test starts and ends, and the
    lock of the zoo can be had) ltp-pan -S ends: it runs the commands in order,
    logs each once, leaves the zoo as it was and exits with the number of tests
    that failed.  The proof is by weakest preconditions over what matters of the
    state. *)
From Stdlib Require Import String.
From S2P Require Import Prelude CLib Splitstr Zoo PanColl PanSched PanProps.

(** ** Weakest preconditions *)

(** The state without the number of calls and what is written but to the log. *)
Record view := View {
  v_children : list Z; v_log : list cstr; v_execs : list exec_call; v_zoo : zoo; v_counter : Z;
  v_sigs : signals; v_running : list slot; v_orphans : list Z; v_loc : locals
}.
Definition view_of (s : pan) : view :=
  let w := p_world s in
  View (children w) (w_log w) (execs w) (w_zoo w) (counter w) (p_sigs s) (running s) (orphans s) (p_loc s).

(** [p] ends from [v] with a value and a view in [Q]. *)
Definition wp {A} (p : prog pan A) (v : view) (Q : A → view → Prop) : Prop :=
  ∀ s, view_of s = v → ∃ r s', p s = (Ok r, s') ∧ Q r (view_of s').

Lemma wp_ret {A} (a : A) v (Q : A → view → Prop) : Q a v → wp (mret a) v Q.
Proof. intros H s <-. by exists a, s. Qed.
Lemma wp_bind {A B} (p : prog pan A) (f : A → prog pan B) v Q :
  wp p v (λ a v', wp (f a) v' Q) → wp (p ≫= f) v Q.
Proof.
  intros H s Hs. destruct (H s Hs) as (a & s1 & E & H1). destruct (H1 s1 eq_refl) as (r & s2 & E2 & HQ).
  exists r, s2. by rewrite (p_bind_ok _ _ _ _ _ E).
Qed.
Lemma wp_mono {A} (p : prog pan A) v (Q Q' : A → view → Prop) :
  wp p v Q → (∀ a v', Q a v' → Q' a v') → wp p v Q'.
Proof. intros H HQ s Hs. destruct (H s Hs) as (a & s1 & E & H1). eauto 6. Qed.
(** [p] ends by [exit]. *)
Definition wp_exit {A} (p : prog pan A) (v : view) (Q : Z → view → Prop) : Prop :=
  ∀ s, view_of s = v → ∃ c s', p s = (Exit c, s') ∧ Q c (view_of s').
Lemma wp_exit_bind {A B} (p : prog pan A) (f : A → prog pan B) v Q :
  wp p v (λ a v', wp_exit (f a) v' Q) → wp_exit (p ≫= f) v Q.
Proof.
  intros H s Hs. destruct (H s Hs) as (a & s1 & E & H1). destruct (H1 s1 eq_refl) as (c & s2 & E2 & HQ).
  exists c, s2. by rewrite (p_bind_ok _ _ _ _ _ E).
Qed.
Lemma wp_exit_get {B} (f : pan → prog pan B) v Q :
  (∀ s, view_of s = v → wp_exit (f s) v Q) → wp_exit (p_get ≫= f) v Q.
Proof. intros H s Hs. by apply (H s Hs s). Qed.
Lemma wp_exit_exit {A} c v (Q : Z → view → Prop) : Q c v → wp_exit (A := A) (p_exit c) v Q.
Proof. intros H s <-. by do 2 eexists. Qed.
(** A program that ends with [a] and changes nothing of the view. *)
Definition silent {A} (p : prog pan A) (a : A) : Prop := ∀ v, wp p v (λ a' v', a' = a ∧ v' = v).
Lemma wp_silent {A B} (p : prog pan A) a (f : A → prog pan B) v Q :
  silent p a → wp (f a) v Q → wp (p ≫= f) v Q.
Proof. intros Hp Hf. apply wp_bind. eapply wp_mono; [apply Hp|]. by intros a' v' [-> ->]. Qed.
Lemma wp_get {B} (f : pan → prog pan B) v Q :
  (∀ s, view_of s = v → wp (f s) v Q) → wp (p_get ≫= f) v Q.
Proof. intros H s Hs. by apply (H s Hs s). Qed.
Lemma wp_ask {B} (f : nat → prog pan B) v Q : (∀ n, wp (f n) v Q) → wp (ask ≫= f) v Q.
Proof. intros H s <-. apply (H (clock (p_world s)) (Pan _ _ _ _ _)). by destruct s as [[]]. Qed.
Lemma wp_lift {A} (x : A) v (Q : A → view → Prop) : Q x v → wp (p_lift (Ok x)) v Q.
Proof. intros H s <-. by exists x, s. Qed.
Lemma wp_when c (p : prog pan unit) v Q :
  (c = true → wp p v Q) → (c = false → Q () v) → wp (p_when c p) v Q.
Proof. intros H1 H2. destruct c; [by apply H1|]. apply wp_ret. by apply H2. Qed.

Definition with_sigs (f : signals → signals) (v : view) : view :=
  View (v_children v) (v_log v) (v_execs v) (v_zoo v) (v_counter v) (f (v_sigs v)) (v_running v) (v_orphans v) (v_loc v).
Definition with_loc (f : locals → locals) (v : view) : view :=
  View (v_children v) (v_log v) (v_execs v) (v_zoo v) (v_counter v) (v_sigs v) (v_running v) (v_orphans v) (f (v_loc v)).
Definition with_slot (i : nat) (f : slot → slot) (v : view) : view :=
  View (v_children v) (v_log v) (v_execs v) (v_zoo v) (v_counter v) (v_sigs v) (alter f i (v_running v)) (v_orphans v) (v_loc v).
Definition with_orphans (l : list Z) (v : view) : view :=
  View (v_children v) (v_log v) (v_execs v) (v_zoo v) (v_counter v) (v_sigs v) (v_running v) l (v_loc v).
Definition with_children (l : list Z) (v : view) : view :=
  View l (v_log v) (v_execs v) (v_zoo v) (v_counter v) (v_sigs v) (v_running v) (v_orphans v) (v_loc v).
Definition with_log (t : cstr) (v : view) : view :=
  View (v_children v) (v_log v ++ [t]) (v_execs v) (v_zoo v) (v_counter v) (v_sigs v) (v_running v) (v_orphans v) (v_loc v).
Definition with_exec (e : exec_call) (v : view) : view :=
  View (v_children v) (v_log v) (v_execs v ++ [e]) (v_zoo v) (v_counter v) (v_sigs v) (v_running v) (v_orphans v) (v_loc v).
Definition with_zoo (z : zoo) (v : view) : view :=
  View (v_children v) (v_log v) (v_execs v) z (v_counter v) (v_sigs v) (v_running v) (v_orphans v) (v_loc v).

Lemma wp_sigs f v (Q : unit → view → Prop) : Q () (with_sigs f v) → wp (upd_sigs f) v Q.
Proof. intros H s <-. by do 2 eexists. Qed.
Lemma wp_loc f v (Q : unit → view → Prop) : Q () (with_loc f v) → wp (upd_loc f) v Q.
Proof. intros H s <-. by do 2 eexists. Qed.
Lemma wp_slot i f v (Q : unit → view → Prop) : Q () (with_slot i f v) → wp (upd_slot i f) v Q.
Proof. intros H s <-. by do 2 eexists. Qed.
Lemma wp_orphans l v (Q : unit → view → Prop) : Q () (with_orphans l v) → wp (set_orphans l) v Q.
Proof. intros H s <-. by do 2 eexists. Qed.
Lemma wp_children f v (Q : unit → view → Prop) :
  Q () (with_children (f (v_children v)) v) → wp (upd_world (λ w, set_children (f (children w)) w)) v Q.
Proof. intros H s <-. by do 2 eexists. Qed.
Lemma wp_set_children l v (Q : unit → view → Prop) : Q () (with_children l v) → wp (upd_world (set_children l)) v Q.
Proof. intros H s <-. by do 2 eexists. Qed.
Lemma wp_log t v (Q : unit → view → Prop) : Q () (with_log t v) → wp (upd_world (add_log t)) v Q.
Proof. intros H s <-. by do 2 eexists. Qed.
Lemma wp_exec e v (Q : unit → view → Prop) : Q () (with_exec e v) → wp (upd_world (add_exec e)) v Q.
Proof. intros H s <-. by do 2 eexists. Qed.
Lemma wp_zoo {A} (p : prog zoo A) v (Q : A → view → Prop) r z :
  p (v_zoo v) = (Ok r, z) → Q r (with_zoo z v) → wp (on_zoo p) v Q.
Proof. intros E H s <-. unfold on_zoo. cbn in E. rewrite E. by do 2 eexists. Qed.
Lemma wp_counts c v (Q : unit → view → Prop) :
  c = v_counter v → Q () v → wp (upd_world (λ w, set_counts (cmdno w) c w)) v Q.
Proof. intros -> H s <-. by do 2 eexists. Qed.
Lemma silent_fail t : silent (upd_world (add_fail t)) ().
Proof. intros v s <-. by do 2 eexists. Qed.
Lemma silent_puts t : silent (puts t) ().
Proof. intros v s <-. by do 2 eexists. Qed.
Lemma silent_when c (p : prog pan unit) : silent p () → silent (p_when c p) ().
Proof. intros H v. destruct c; [apply H|by apply wp_ret]. Qed.
Lemma silent_start cfg sl : silent (write_test_start cfg sl) ().
Proof. apply silent_when, silent_puts. Qed.
Lemma silent_end cfg sl a t ty st w tms : silent (write_test_end cfg sl a t ty st w tms) ().
Proof. apply silent_when, silent_puts. Qed.
#[export] Hint Resolve silent_fail silent_puts silent_when silent_start silent_end : pan_wp.

(** ** The running entries of the zoo *)

Section Entries.
Context {io : zoo_io} (fuel : nat) (Hio : interrupted io fuel).

(** The running entries, in any order. *)
Definition shows (z : zoo) (l : list cstr) : Prop := ∃ rs, holds z rs ∧ live rs ≡ₚ l.

Lemma live_mark e rs : free e = false → live (mark_record e rs) ≡ₚ e :: live rs.
Proof.
  intros He. destruct (mark_record_split e rs) as (rs1 & rs2 & old & -> & -> & Hold).
  rewrite !live_app, live_cons, He, <- Permutation_middle.
  destruct Hold as [[-> _]|(r & -> & Hr)]; [done|]. by rewrite live_cons, Hr.
Qed.

Lemma shows_mark z l p tag cmdline : shows z l → entry_ok p tag cmdline →
  ∃ z', zoo_mark_cmdline fuel zoo_fp p tag cmdline z = (Ok 0, z') ∧ shows z' (entry_of p tag cmdline :: l).
Proof.
  intros (rs & Hz & Hl) He. destruct (entry_of_facts _ _ _ He) as (Hfree & _ & _ & _ & Hnl).
  assert (NL ∉ snprintf 80 (fmt_d p ++ ","%char :: tag ++ ","%char :: cmdline)) as Hn.
  { intros Hin. apply Hnl. unfold entry_of, fmt_pad. apply elem_of_app. left. unfold snprintf in *.
    change (80 - 1)%nat with 79%nat in *. by rewrite take_take, Nat.min_id. }
  destruct (mark_run fuel Hio z rs _ Hz Hn) as (z' & E & Hz'). exists z'. split; [exact E|].
  eexists. split; [exact Hz'|]. fold (entry_of p tag cmdline). by rewrite live_mark, Hl.
Qed.

Lemma shows_clear z l e p : shows z (e :: l) → pid_of e = p → Forall (λ r, pid_of r ≠ p) l →
  ∃ z', zoo_clear fuel zoo_fp p z = (Ok 0, z') ∧ shows z' l.
Proof.
  intros (rs & Hz & Hl) He Hnot. destruct (clear_run fuel Hio z rs p Hz) as (z' & E & Hz' & _).
  pose proof (update_first_find (λ r, has_pid p (r ++ [NL])) recycle rs) as H. fold (clear_record p rs) in H.
  destruct (list_find _ rs) as [[i r]|] eqn:Hfind.
  - destruct H as (rs1 & rs2 & -> & _ & Hc & Hr & _). rewrite Hc in *. exists z'. split; [done|].
    exists (rs1 ++ recycle r :: rs2). split; [exact Hz'|].
    assert (free r = false) as Hfree.
    { destruct (free r) eqn:Ef; [|done]. by rewrite free_not_pid in Hr. }
    rewrite has_pid_live in Hr by done. apply Z.eqb_eq in Hr.
    rewrite live_app, live_cons, Hfree, <- Permutation_middle in Hl. rewrite live_app, live_cons, recycle_free.
    assert (r = e) as <-; [|by apply Permutation_cons_inv in Hl].
    assert (r ∈ e :: l) as [|Hin]%elem_of_cons by (rewrite <- Hl; left); [done|].
    rewrite Forall_forall in Hnot. by destruct (Hnot r Hin).
  - exfalso. assert (e ∈ live rs) as Hin by (rewrite Hl; left). unfold live in Hin.
    apply list_elem_of_filter in Hin as [Hfree Hin]. apply list_find_None in Hfind. rewrite Forall_forall in Hfind.
    apply (Hfind e Hin). rewrite has_pid_live by done. by apply Z.eqb_eq.
Qed.
End Entries.

(** ** The slots in use *)

(** Process, whether it is being stopped, and command. *)
Definition test_of (sl : slot) : option (Z * bool * option coll_entry) :=
  if pgrp sl =? 0 then None else Some (pgrp sl, stopping sl, scmd sl).
Definition tests_of (l : list slot) : list (Z * bool * option coll_entry) := omap test_of l.
(** A test that runs. *)
Notation test := (Z * coll_entry)%type.
Definition slot_of (t : test) : Z * bool * option coll_entry := (t.1, false, Some t.2).

Lemma omap_cons_list {A B} (f : A → option B) x l : omap f (x :: l) = option_list (f x) ++ omap f l.
Proof. cbn. by destruct (f x). Qed.
Lemma tests_of_slot l i sl : l !! i = Some sl →
  ∃ rest, tests_of l ≡ₚ option_list (test_of sl) ++ rest
    ∧ ∀ f, tests_of (alter f i l) ≡ₚ option_list (test_of (f sl)) ++ rest.
Proof.
  intros Hi. destruct (list_elem_of_split_length _ _ _ Hi) as (l1 & l2 & -> & ->).
  exists (tests_of l1 ++ tests_of l2).
  assert (∀ x, tests_of (l1 ++ x :: l2) ≡ₚ option_list (test_of x) ++ tests_of l1 ++ tests_of l2) as Hx.
  { intros x. unfold tests_of. rewrite omap_app, omap_cons_list. apply Permutation_app_swap_app. }
  split; [apply Hx|]. intros f. rewrite alter_app_r_alt, Nat.sub_diag by lia. apply Hx.
Qed.

(** With fewer tests than slots one is free, and it is found. *)
Lemma find_free l : (length (tests_of l) < length l)%nat → ∃ i sl, find_slot (λ sl, pgrp sl =? 0) l = Some (i, sl)
  ∧ l !! i = Some sl ∧ pgrp sl = 0.
Proof.
  intros Hlen. unfold find_slot. destruct (list_find _ l) as [[i sl]|] eqn:E.
  - apply list_find_Some in E as (Hi & Hp & _). apply Z.eqb_eq in Hp. eauto.
  - exfalso. apply list_find_None in E. revert Hlen. unfold tests_of. induction E as [|sl l Hp _ IH]; [by cbn; lia|].
    rewrite omap_cons_list. unfold test_of at 1. destruct (Z.eqb_spec (pgrp sl) 0); [done|]. intros H. apply IH. cbn in H. lia.
Qed.
(** The slot of a test is found by its process. *)
Lemma find_test l ts t : tests_of l ≡ₚ slot_of <$> ts → t ∈ ts → NoDup ts.*1 →
  ∃ i sl, find_slot (λ sl, pgrp sl =? t.1) l = Some (i, sl) ∧ l !! i = Some sl ∧ pgrp sl = t.1 ∧ (t.1 ≠ 0 → test_of sl = Some (slot_of t)).
Proof.
  intros Hl Ht Hnd.
  assert (slot_of t ∈ tests_of l) as Hin by (rewrite Hl; by apply list_elem_of_fmap_2).
  unfold tests_of in Hin. apply list_elem_of_omap in Hin as (sl0 & Hsl0 & E0).
  assert (pgrp sl0 = t.1) as Hp0.
  { unfold test_of in E0. destruct (pgrp sl0 =? 0); [done|]. by injection E0. }
  unfold find_slot. destruct (list_find _ l) as [[i sl]|] eqn:E.
  - apply list_find_Some in E as (Hi & Hp & _). apply Z.eqb_eq in Hp. exists i, sl. split; [done|]. split; [done|]. split; [done|].
    intros Hpos. assert (is_Some (test_of sl)) as [x Hx].
    { unfold test_of. rewrite Hp. destruct (Z.eqb_spec t.1 0); [done|]. eauto. }
    assert (x ∈ tests_of l) as Hxin by (apply list_elem_of_omap; exists sl; split; [by eapply list_elem_of_lookup_2|done]).
    rewrite Hl in Hxin. apply list_elem_of_fmap in Hxin as (t' & -> & Ht').
    assert (t'.1 = t.1) as E1.
    { unfold test_of in Hx. destruct (pgrp sl =? 0); [done|]. injection Hx as <- _ _. done. }
    rewrite Hx. do 2 f_equal. apply list_elem_of_lookup in Ht as [k1 H1]. apply list_elem_of_lookup in Ht' as [k2 H2].
    assert (k1 = k2) as ->; [|congruence].
    eapply (NoDup_lookup ts.*1); [done|by rewrite list_lookup_fmap, H1|]. by rewrite list_lookup_fmap, H2, <- E1.
  - exfalso. apply list_find_None in E. rewrite Forall_forall in E. apply (E sl0 Hsl0). by apply Z.eqb_eq.
Qed.

(** ** A calm machine, and settings for a run in order *)

(** No signal arrives; with fewer than [most] running, a test starts in a process
    of its own, other than those the zoo has entries of; [wait] gives a child that ended; a test leaves no
    process group behind; the zoo can be locked. *)
Class calm {OS : pan_os} (base : list Z) (most : nat) : Prop := {
  calm_zoo : interrupted os_zoo os_zoo_fuel;
  calm_signals n : os_signals n = [];
  calm_start n l : (length l < most)%nat → ∃ c, os_start n l = start_ok c ∧ 0 < c < 2 ^ 31 ∧ c ∉ l ∧ c ∉ base;
  calm_wait n l : l ≠ [] → ∃ c st, os_wait n l = wait_child c st ∧ c ∈ l ∧ (WIFEXITED st = true ∨ WIFSIGNALED st = true);
  calm_kill n p : os_kill n p 0 = kill_ESRCH
}.
Definition name_ok (s : cstr) : Prop := NL ∉ s ∧ NUL ∉ s ∧ (length s ≤ 60)%nat.
(** -S, without -O and -A, with the log of lines; names that fit in the zoo. *)
Record in_order (cfg : settings) : Prop := {
  io_sequential : sequential cfg = true;
  io_out : test_out_dir cfg = None;
  io_brakes : has_brakes cfg = false;
  io_log : has_logfile cfg = true;
  io_fmt : fmt_print cfg = false;
  io_active : 0 < Z.of_nat (keep_active cfg) < 2 ^ 31;
  io_name : name_ok (panname cfg);
  io_coll : coll cfg ≠ [];
  io_cmds : Forall (λ c, name_ok (ce_name c) ∧ NL ∉ ce_cmdline c ∧ pcnt_f c = false) (coll cfg)
}.

Lemma name_entry_ok p tag cmdline : 0 ≤ p < 2 ^ 31 → name_ok tag → NL ∉ cmdline → entry_ok p tag cmdline.
Proof.
  intros Hp (Hnl & Hnul & Hlen) Hc. split_and!; [lia|lia|done|done|done|].
  rewrite fmt_d_nonneg by lia. pose proof (fmt_u_length p 10). simpl in *. lia.
Qed.

(** The first [j] commands of a run that goes through the collection again and
    again. *)
Definition commands (cfg : settings) (j : nat) : list coll_entry :=
  omap (λ i, coll cfg !! (i `mod` length (coll cfg))%nat) (seq 0 j).
(** A test that ended counts as failed. *)
Definition failing (st : Z) : bool := WIFSIGNALED st || nz (WEXITSTATUS st).
Notation ended := (coll_entry * Z)%type.
Definition failures (ends : list ended) : Z := Z.of_nat (length (filter (λ e, failing e.2 = true) ends)).
(** The line of the log for a test that ended. *)
Definition logged (e : ended) (line : cstr) : Prop := ∃ sl t tms,
  scmd sl = Some e.1 ∧ line = log_line sl t (decode_status e.2).1.1 (decode_status e.2).1.2 e.2 tms.

Lemma commands_S cfg j : coll cfg ≠ [] → ∃ c, coll cfg !! (j `mod` length (coll cfg))%nat = Some c
  ∧ commands cfg (S j) = commands cfg j ++ [c].
Proof.
  intros Hne. destruct (lookup_lt_is_Some_2 (coll cfg) (j `mod` length (coll cfg))) as [c Hc].
  { apply Nat.mod_upper_bound. by destruct (coll cfg). }
  exists c. split; [done|]. unfold commands. rewrite seq_S, omap_app. cbn. by rewrite Hc.
Qed.
Lemma commands_length cfg j : coll cfg ≠ [] → length (commands cfg j) = j.
Proof.
  intros Hne. induction j as [|j IH]; [done|]. destruct (commands_S cfg j Hne) as (c & _ & ->).
  rewrite length_app, IH. simpl. lia.
Qed.
(** With as many starts as commands, those are the commands. *)
Lemma commands_all cfg : commands cfg (length (coll cfg)) = coll cfg.
Proof.
  apply list_eq. intros i. unfold commands.
  assert (∀ k, (k ≤ length (coll cfg))%nat → omap (λ i, coll cfg !! (i `mod` length (coll cfg))%nat) (seq 0 k) = take k (coll cfg)) as H.
  { induction k as [|k IH]; intros Hk; [done|]. rewrite seq_S, omap_app, IH by lia. cbn.
    rewrite Nat.mod_small by lia. destruct (lookup_lt_is_Some_2 (coll cfg) k Hk) as [c Hc]. rewrite Hc. by apply take_S_r in Hc. }
  by rewrite H, take_ge by lia.
Qed.
Lemma next_index j len : (0 < len)%nat →
  (if Z.of_nat len <=? Z.of_nat (j `mod` len)%nat + 1 then 0 else Z.of_nat (j `mod` len)%nat + 1) = Z.of_nat (S j `mod` len)%nat.
Proof.
  intros Hlen. pose proof (Nat.mod_upper_bound j len ltac:(lia)). pose proof (Nat.div_mod_eq j len).
  destruct (Z.leb_spec (Z.of_nat len) (Z.of_nat (j `mod` len)%nat + 1)).
  - rewrite <- (Nat.mod_unique (S j) len (S (j / len)) 0); lia.
  - rewrite <- (Nat.mod_unique (S j) len (j / len) (S (j `mod` len))); lia.
Qed.

(** ** The turns of the scheduler *)

Section Turns.
Context {OS : pan_os} (base : list Z) (cfg : settings) {Calm : calm base (keep_active cfg)} (Hcfg : in_order cfg).
(** What the log holds before, the entries of others in the zoo, and the number of
    tests to start. *)
Context (log0 : list cstr) (others : list cstr) (Hothers : Forall (λ r, pid_of r ∈ base) others) (N : nat).

Definition test_entry (t : test) : cstr := entry_of t.1 (ce_name t.2) (ce_cmdline t.2).

(** [j] tests were started: [ts] run and [ends] ended; [st] and [x] are [stop]
    and [exit_stat]. *)
Record turn (ts : list test) (ends : list ended) (j : nat) (st x : Z) (v : view) : Prop := {
  t_slots : length (v_running v) = keep_active cfg;
  t_tests : tests_of (v_running v) ≡ₚ slot_of <$> ts;
  t_children : v_children v ≡ₚ ts.*1;
  t_nodup : NoDup ts.*1;
  t_pids : Forall (λ t, 0 < t.1 ∧ t.1 ∉ base ∧ entry_ok t.1 (ce_name t.2) (ce_cmdline t.2)) ts;
  t_zoo : shows (v_zoo v) ((test_entry <$> ts) ++ others);
  t_rec : rec_signal (v_sigs v) = 0;
  t_orphans : Forall (λ p, p = 0) (v_orphans v);
  t_loc : v_loc v = Locals (Z.of_nat (length ts)) (Z.of_nat N - Z.of_nat j) 0 st 0 false x (Z.of_nat (j `mod` length (coll cfg)));
  t_execs : v_execs v = (λ c, child_exec (ce_cmdline c)) <$> commands cfg j;
  t_log : ∃ lines, v_log v = log0 ++ lines ∧ Forall2 logged ends lines;
  t_ran : ts.*2 ++ ends.*1 ≡ₚ commands cfg j;
  t_started : (j ≤ N)%nat
}.

Lemma turn_length ts ends j st x v : turn ts ends j st x v → (length ts + length ends = j)%nat.
Proof.
  intros H. rewrite <- (commands_length cfg j (io_coll _ Hcfg)), <- (t_ran _ _ _ _ _ _ H).
  by rewrite length_app, !length_fmap.
Qed.
Lemma turn_active ts ends j st x v : turn ts ends j st x v → (length ts ≤ keep_active cfg)%nat.
Proof.
  intros H. rewrite <- (t_slots _ _ _ _ _ _ H), <- (length_fmap slot_of ts), <- (t_tests _ _ _ _ _ _ H).
  generalize (v_running v). intros l. induction l as [|sl l IH]; [done|]. unfold tests_of in *. rewrite omap_cons_list, length_app.
  destruct (test_of sl); simpl; lia.
Qed.

Lemma silent_deliver : silent deliver ().
Proof.
  intros v. unfold deliver. apply wp_ask. intros n. rewrite (calm_signals n). apply wp_sigs.
  split; [done|]. by destruct v as [? ? ? ? ? [] ? ? ?].
Qed.

(** *** Starting *)

Lemma run_child_turn fuel c i sl ts ends j x v :
  turn ts ends j 0 x v → (length ts < keep_active cfg)%nat → (j < N)%nat → coll cfg !! (j `mod` length (coll cfg))%nat = Some c →
  v_running v !! i = Some sl → pgrp sl = 0 →
  wp (run_child cfg fuel c i) v (λ cpid v', cpid ≠ -1 ∧ v_loc v' = v_loc v
    ∧ ∀ l, l = Locals (Z.of_nat (S (length ts))) (Z.of_nat N - Z.of_nat (S j)) 0 0 0 false x (Z.of_nat (S j `mod` length (coll cfg))) →
        turn ((cpid, c) :: ts) ends (S j) 0 x (with_loc (λ _, l) v')).
Proof.
  intros H Hlen Hj Hc Hi Hfree.
  pose proof (io_cmds _ Hcfg) as Hcmds. rewrite Forall_forall in Hcmds.
  destruct (Hcmds c) as (Hname & Hnl & Hpf); [by eapply list_elem_of_lookup_2|].
  unfold run_child, child_started. rewrite (io_out _ Hcfg). cbn [is_Some_b negb andb].
  apply wp_bind, wp_ret. cbn [negb]. apply wp_get. intros s Hs.
  unfold subst_pcnt_f. rewrite Hpf. cbn [negb]. apply wp_bind, wp_lift, wp_bind, wp_counts; [by rewrite <- Hs|].
  apply wp_ask. intros n. apply wp_get. intros s2 Hs2.
  destruct (calm_start n (children (p_world s2))) as (cpid & -> & Hpid & Hnew & Hbase).
  { replace (children (p_world s2)) with (v_children v) by (by rewrite <- Hs2).
    by rewrite (t_children _ _ _ _ _ _ H), length_fmap. }
  replace (children (p_world s2)) with (v_children v) in Hnew by (by rewrite <- Hs2).
  apply wp_bind, wp_slot. apply (wp_silent _ ()); [auto with pan_wp|].
  apply wp_bind, wp_exec, wp_bind, (wp_children (cons cpid)), wp_bind, wp_slot, wp_bind.
  assert (entry_ok cpid (ce_name c) (ce_cmdline c)) as He by (apply name_entry_ok; [lia|done|done]).
  destruct (shows_mark _ calm_zoo _ _ _ _ _ (t_zoo _ _ _ _ _ _ H) He) as (z & Ez & Hz).
  eapply wp_zoo; [exact Ez|]. cbn [nz negb Z.eqb]. apply wp_ret. split; [lia|]. split; [done|]. intros l ->.
  destruct H as [Hslots Htests Hch Hnd Hpids Hzoo Hrec Horph Hloc Hexecs Hlog Hran Hle].
  destruct (tests_of_slot _ _ _ Hi) as (rest & Hl & Hf).
  unfold test_of in Hl. rewrite Hfree in Hl. cbn [Z.eqb option_list app] in Hl. rewrite Htests in Hl.
  destruct (commands_S cfg j (io_coll _ Hcfg)) as (c' & Hc' & HS). assert (c' = c) as -> by congruence.
  split; cbn [v_running v_children v_zoo v_sigs v_orphans v_loc v_execs v_log with_loc with_zoo with_slot with_children with_exec].
  - by rewrite !length_alter.
  - rewrite list_alter_alter_eq, Hf. unfold test_of. cbn [compose pgrp stopping scmd].
    destruct (Z.eqb_spec cpid 0); [lia|]. cbn [option_list app fmap list_fmap]. by rewrite <- Hl.
  - by rewrite Hch.
  - cbn [fmap list_fmap]. apply NoDup_cons. split; [by rewrite <- Hch|done].
  - constructor; [|done]. split; [cbn; lia|]. by split.
  - exact Hz.
  - done.
  - done.
  - done.
  - by rewrite Hexecs, HS, fmap_app.
  - done.
  - cbn [fmap list_fmap app]. rewrite HS, <- Hran. by rewrite <- Permutation_cons_append.
  - lia.
Qed.

(** What the loop tests. *)
Lemma turn_view ts ends j st x v s : turn ts ends j st x v → view_of s = v →
  rec_signal (p_sigs s) = 0 ∧ p_loc s = v_loc v ∧ running s = v_running v ∧ orphans s = v_orphans v.
Proof. intros H <-. split; [exact (t_rec _ _ _ _ _ _ H)|done]. Qed.

Lemma start_step_go fuel ts ends j x v :
  turn ts ends j 0 x v → (length ts < keep_active cfg)%nat → (j < N)%nat →
  wp (start_step cfg fuel) v (λ go v', go = true ∧ ∃ t, turn (t :: ts) ends (S j) 0 x v').
Proof.
  intros H Hlen Hj. unfold start_step. apply (wp_silent _ _ _ _ _ silent_deliver). apply wp_get. intros s Hs.
  destruct (turn_view _ _ _ _ _ _ _ H Hs) as (Hrec & Hl & _ & _). rewrite Hrec, Hl, (t_loc _ _ _ _ _ _ H).
  cbv zeta. cbn [num_active starts stop go_idle nz negb Z.eqb orb].
  destruct (Z.ltb_spec (Z.of_nat (length ts)) (Z.of_nat (keep_active cfg))); [|lia].
  unfold nz. destruct (Z.eqb_spec (Z.of_nat N - Z.of_nat j) 0); [lia|]. cbn [andb negb].
  rewrite (io_sequential _ Hcfg). cbn [negb p_when]. apply wp_bind, wp_ret, wp_get. intros s2 Hs2.
  destruct (turn_view _ _ _ _ _ _ _ H Hs2) as (_ & Hl2 & Hr2 & _). rewrite Hr2, Hl2, (t_loc _ _ _ _ _ _ H).
  destruct (find_free (v_running v)) as (i & sl & -> & Hi & Hfree).
  { by rewrite (t_tests _ _ _ _ _ _ H), length_fmap, (t_slots _ _ _ _ _ _ H). }
  cbn [cindex]. rewrite Nat2Z.id. destruct (commands_S cfg j (io_coll _ Hcfg)) as (c & Hc & _). rewrite Hc.
  apply wp_bind. eapply wp_mono; [by apply (run_child_turn fuel c i sl ts ends j x v)|].
  intros cpid v' (Hne & Hloc' & Hturn). apply wp_bind, wp_loc, wp_bind, wp_loc, wp_ret. split; [done|].
  exists (cpid, c). unfold with_loc at 2. cbn [v_children v_log v_execs v_zoo v_counter v_sigs v_running v_orphans v_loc].
  apply Hturn. rewrite Hloc', (t_loc _ _ _ _ _ _ H). destruct (Z.eqb_spec cpid (-1)); [done|].
  unfold started, set_cindex. rewrite (io_sequential _ Hcfg). cbn [negb orb andb num_active starts failcnt stop go_idle fork_in_road exit_stat cindex].
  destruct (Z.ltb_spec 0 (Z.of_nat N - Z.of_nat j)); [|lia]. unfold cnt.
  cbn [v_loc num_active starts failcnt stop go_idle fork_in_road exit_stat cindex].
  rewrite next_index by (pose proof (io_coll _ Hcfg); destruct (coll cfg); [done|simpl; lia]). f_equal; lia.
Qed.

Lemma start_step_stop fuel ts ends j st x v :
  turn ts ends j st x v → length ts = keep_active cfg ∨ j = N →
  wp (start_step cfg fuel) v (λ go v', go = false ∧ v' = v).
Proof.
  intros H Hor. unfold start_step. apply (wp_silent _ _ _ _ _ silent_deliver). apply wp_get. intros s Hs.
  destruct (turn_view _ _ _ _ _ _ _ H Hs) as (_ & Hl & _ & _). rewrite Hl, (t_loc _ _ _ _ _ _ H).
  cbv zeta. cbn [num_active starts]. unfold nz.
  destruct (Z.ltb_spec (Z.of_nat (length ts)) (Z.of_nat (keep_active cfg))), (Z.eqb_spec (Z.of_nat N - Z.of_nat j) 0);
    cbn [andb negb]; try (by apply wp_ret); lia.
Qed.

Lemma start_tests_turn fuel ts ends j st x v :
  turn ts ends j st x v → st = 0 ∨ j = N → (keep_active cfg - length ts < fuel)%nat →
  wp (start_tests cfg fuel) v (λ _ v', ∃ ts' j', turn ts' ends j' st x v' ∧ (st = 0 ∨ j' = N) ∧ (length ts' = keep_active cfg ∨ j' = N)).
Proof.
  revert ts j v. induction fuel as [|fuel IH]; intros ts j v H Hst Hfuel; [lia|]. cbn [start_tests]. apply wp_bind.
  pose proof (turn_active _ _ _ _ _ _ H). pose proof (t_started _ _ _ _ _ _ H).
  destruct (decide (length ts < keep_active cfg ∧ j < N)%nat) as [[Hk Hj]|Hno].
  - destruct Hst as [->|]; [|lia]. eapply wp_mono; [by apply (start_step_go fuel _ _ _ _ _ H)|]. intros go v' (-> & t & Ht).
    apply (IH _ _ _ Ht); [by left|]. cbn [length]. lia.
  - assert (length ts = keep_active cfg ∨ j = N) as Hor by lia.
    eapply wp_mono; [by apply (start_step_stop fuel _ _ _ _ _ _ H)|]. intros go v' (-> & ->). apply wp_ret. eauto 6.
Qed.

(** *** Reaping *)

Lemma silent_kill p : silent (kill_group p 0) kill_ESRCH.
Proof. intros v. unfold kill_group. apply wp_ask. intros n s <-. rewrite calm_kill. by do 2 eexists. Qed.

Definition free_again (sl : slot) : slot := Slot 0 (stopping sl) (mystime sl) (scmd sl) (output sl).

Lemma decode_failing stat : WIFEXITED stat = true ∨ WIFSIGNALED stat = true →
  ∃ status w ret, decode_status stat = (status, w, ret)
    ∧ (status = signaled ∧ ret = 0 ∧ failing stat = true ∨ status = exited ∧ nz ret = failing stat).
Proof.
  intros H. unfold decode_status, failing. destruct (WIFSIGNALED stat) eqn:Es.
  - do 3 eexists. split; [done|]. by left.
  - destruct H as [->|]; [|done]. do 3 eexists. split; [done|]. right. split; [done|]. by destruct (nz (WEXITSTATUS stat)).
Qed.

Lemma reap_run i sl cpid c stat status w ret tms e l v :
  decode_status stat = (status, w, ret) → WIFEXITED stat = true ∨ WIFSIGNALED stat = true →
  stopping sl = false → scmd sl = Some c →
  shows (v_zoo v) (e :: l) → pid_of e = cpid → Forall (λ r, pid_of r ≠ cpid) l →
  wp (reap cfg i sl cpid stat ret status w tms) v (λ err v', nz err = failing stat ∧
    ∃ z line, shows z l ∧ logged (c, stat) line ∧ v' = with_zoo z (with_slot i free_again (with_log line v))).
Proof.
  intros Hd Hend Hstop Hcmd Hz He Hl. destruct (decode_failing stat Hend) as (? & ? & ? & Hd' & Hret).
  rewrite Hd in Hd'. injection Hd' as <- <- <-. unfold reap. rewrite Hstop, (io_log _ Hcfg), (io_fmt _ Hcfg), (io_out _ Hcfg).
  rewrite andb_false_r, andb_false_l. cbv zeta. cbn [negb p_when is_Some_b].
  apply wp_ask. intros n. apply wp_bind, wp_log. apply (wp_silent _ ()); [auto with pan_wp|].
  apply wp_bind, wp_ret. apply (wp_silent _ ()); [auto with pan_wp|]. apply wp_bind, wp_slot, wp_bind.
  destruct (shows_clear _ calm_zoo _ _ _ _ Hz He Hl) as (z & Ez & Hz'). eapply wp_zoo; [exact Ez|]. cbn [nz negb Z.eqb].
  apply (wp_silent _ _ _ _ _ (silent_kill cpid)). apply wp_bind, wp_ret, wp_ret.
  split; [by destruct Hret as [(-> & -> & ->)|[-> ->]]|].
  eexists z, _. split; [done|]. split; [|reflexivity]. eexists sl, _, tms. split; [done|]. cbn [fst snd]. by rewrite Hd.
Qed.

Lemma turn_perm ts ts' ends j st x v : ts ≡ₚ ts' → turn ts ends j st x v → turn ts' ends j st x v.
Proof.
  intros E [Hslots Htests Hch Hnd Hpids (rs & Hh & Hl) Hrec Horph Hloc Hexecs Hlog Hran Hle].
  split; try done; try (by rewrite <- E). exists rs. by rewrite <- E.
Qed.

Lemma silent_check_orphans v : Forall (λ p, p = 0) (v_orphans v) → wp (check_orphans 0) v (λ _ v', v' = v).
Proof.
  intros H. unfold check_orphans. apply wp_get. intros s Hs.
  assert (∀ l, Forall (λ p, p = 0) l → silent (check_orphans_loop l 0) l) as Hloop.
  { induction 1 as [|p l -> _ IH]; intros v'; cbn [check_orphans_loop]; [by apply wp_ret|].
    cbn [Z.eqb]. by apply (wp_silent _ _ _ _ _ IH), wp_ret. }
  replace (orphans s) with (v_orphans v) by (by rewrite <- Hs).
  apply (wp_silent _ _ _ _ _ (Hloop _ H)), wp_orphans. by destruct v.
Qed.

Lemma wait_run v : v_children v ≠ [] →
  wp wait v (λ r v', ∃ cpid stat, r = wait_child cpid stat ∧ cpid ∈ v_children v
    ∧ (WIFEXITED stat = true ∨ WIFSIGNALED stat = true) ∧ v' = with_children (filter (λ p, p ≠ cpid) (v_children v)) v).
Proof.
  intros Hne. unfold wait. apply (wp_silent _ _ _ _ _ silent_deliver). apply wp_ask. intros n. apply wp_get. intros s Hs.
  replace (children (p_world s)) with (v_children v) by (by rewrite <- Hs).
  destruct (calm_wait n _ Hne) as (cpid & stat & -> & Hin & Hend). cbv zeta. apply wp_bind, wp_set_children, wp_ret. eauto 6.
Qed.

Lemma filter_head (p : Z) l : p ∉ l → filter (λ q, q ≠ p) (p :: l) = l.
Proof.
  intros Hp. rewrite filter_cons, decide_False by tauto. induction l as [|q l IH]; [done|].
  rewrite not_elem_of_cons in Hp. destruct Hp. rewrite filter_cons, decide_True by done. f_equal. by apply IH.
Qed.

Lemma check_pids_turn ts ends j st x v : turn ts ends j st x v → ts ≠ [] →
  wp (check_pids cfg) v (λ err v', ∃ (t : test) (ts' : list test) stat, length ts = S (length ts') ∧ nz err = failing stat
    ∧ (WIFEXITED stat = true ∨ WIFSIGNALED stat = true) ∧ turn ts' (ends ++ [(t.2, stat)]) j st x v').
Proof.
  intros H Hne. unfold check_pids. apply wp_bind. eapply wp_mono; [apply silent_check_orphans, H|]. intros _ ? ->.
  apply wp_bind. eapply wp_mono; [apply wait_run|].
  { intros E. apply Hne. pose proof (t_children _ _ _ _ _ _ H) as Hch. rewrite E in Hch. apply Permutation_nil_l in Hch. by destruct ts. }
  intros r v1 (cpid & stat & -> & Hin & Hend & ->). apply wp_ask. intros n.
  rewrite (t_children _ _ _ _ _ _ H) in Hin. apply list_elem_of_fmap in Hin as (t & -> & Ht).
  apply elem_of_Permutation in Ht as (ts' & Hts). apply (turn_perm _ _ _ _ _ _ _ Hts) in H.
  assert (length ts = S (length ts')) as Hlen by (by rewrite Hts). clear Hts Hne.
  destruct H as [Hslots Htests Hch Hnd Hpids Hzoo Hrec Horph Hloc Hexecs Hlog Hran Hle].
  destruct (decode_failing stat Hend) as (status & w & ret & Hd & Hret). rewrite Hd.
  assert (match status with signaled | exited => true | _ => false end = true) as -> by (by destruct Hret as [(-> & _)|[-> _]]).
  cbn [p_when]. apply wp_bind, wp_loc, wp_get. intros s Hs.
  replace (running s) with (v_running v) by (by apply (f_equal v_running) in Hs).
  apply Forall_cons in Hpids as [(Hpos & Hbase & He) Hpids].
  destruct (find_test (v_running v) (t :: ts') t Htests ltac:(left) Hnd) as (i & sl & -> & Hi & Hp & Hsl).
  specialize (Hsl ltac:(lia)). unfold test_of in Hsl. destruct (Z.eqb_spec (pgrp sl) 0); [lia|].
  injection Hsl as _ Hstop Hcmd. cbn [fmap list_fmap] in Hnd. apply NoDup_cons in Hnd as [Hnin Hnd].
  eapply wp_mono.
  { apply (reap_run i sl t.1 t.2 stat status w ret (os_times n) (test_entry t) ((test_entry <$> ts') ++ others)); try done.
    - by apply (entry_of_facts _ _ _ He).
    - apply Forall_app. split.
      + apply Forall_fmap, Forall_forall. intros t' Ht'. rewrite Forall_forall in Hpids.
        destruct (Hpids t' Ht') as (_ & _ & He'). cbn [compose]. unfold test_entry.
        destruct (entry_of_facts _ _ _ He') as (_ & -> & _). intros E. apply Hnin. rewrite <- E. by apply list_elem_of_fmap_2.
      + eapply Forall_impl; [exact Hothers|]. intros r Hr E. apply Hbase. by rewrite <- E. }
  intros err v' (Herr & z & line & Hz & Hline & ->). exists t, ts', stat. split; [done|]. split; [done|]. split; [done|].
  destruct (tests_of_slot _ _ _ Hi) as (rest & Hl & Hf). rewrite Htests in Hl. unfold test_of in Hl.
  rewrite (proj2 (Z.eqb_neq _ _) n0), Hp, Hstop, Hcmd in Hl. apply Permutation_cons_inv in Hl.
  split; cbn [v_running v_children v_zoo v_sigs v_orphans v_loc v_execs v_log with_loc with_zoo with_slot with_children with_log]; try done.
  - by rewrite length_alter.
  - rewrite Hf. cbn [option_list app]. by rewrite <- Hl.
  - rewrite Hch. cbn [fmap list_fmap]. by rewrite filter_head.
  - rewrite Hloc. unfold dec_active. cbn [num_active starts failcnt stop go_idle fork_in_road exit_stat cindex length]. f_equal. lia.
  - destruct Hlog as (lines & -> & Hlines). exists (lines ++ [line]). split; [by rewrite app_assoc|].
    apply Forall2_app; [done|]. by constructor.
  - rewrite <- Hran, fmap_app. cbn [fmap list_fmap app fst]. rewrite app_assoc, <- Permutation_cons_append. done.
Qed.

(** *** The loop *)

Lemma turn_loc f ts ends j st x st' x' v : turn ts ends j st x v →
  (∀ n s c, f (Locals n s 0 st 0 false x c) = Locals n s 0 st' 0 false x' c) → turn ts ends j st' x' (with_loc f v).
Proof. intros H Hf. destruct H. split; try done. cbn [v_loc with_loc]. by rewrite t_loc0. Qed.

Lemma handle_signal_turn ts ends j st x v : turn ts ends j st x v → wp (handle_signal cfg) v (λ _ v', v' = v).
Proof.
  intros H. unfold handle_signal. apply (wp_silent _ _ _ _ _ silent_deliver). apply wp_get. intros s Hs.
  destruct (turn_view _ _ _ _ _ _ _ H Hs) as (-> & _). cbv zeta. cbn [Z.eqb]. by apply wp_ret.
Qed.

Definition exit_step (e : ended) : Z := if track_exit_stats cfg && failing e.2 then 1 else 0.
Lemma sched_step_turn fuel ts ends j st x v :
  turn ts ends j st x v → 0 ≤ st → st = 0 ∨ j = N → (length ends < N)%nat → (keep_active cfg < fuel)%nat →
  wp (sched_step cfg fuel) v (λ d v', ∃ ts' e j' st', turn ts' (ends ++ [e]) j' st' (x + exit_step e) v'
    ∧ 0 ≤ st' ∧ (st' = 0 ∨ j' = N) ∧ (WIFEXITED e.2 = true ∨ WIFSIGNALED e.2 = true) ∧ d = bool_decide (S (length ends) = N)).
Proof.
  intros H Hst0 Hst Hends Hfuel. unfold sched_step. apply wp_bind.
  eapply wp_mono; [apply (start_tests_turn _ _ _ _ _ _ _ H Hst); lia|].
  clear H Hst ts j v. intros _ v (ts & j & H & Hst & Hor). apply wp_get. intros s Hs.
  destruct (turn_view _ _ _ _ _ _ _ H Hs) as (_ & Hl & _). rewrite Hl, (t_loc _ _ _ _ _ _ H). cbn [starts]. clear s Hs Hl.
  pose proof (t_started _ _ _ _ _ _ H) as HjN. pose proof (turn_length _ _ _ _ _ _ H) as Hlen.
  apply wp_bind.
  apply (wp_mono _ _ (λ _ v', ∃ st', turn ts ends j st' x v' ∧ 0 ≤ st' ∧ (st' = 0 ↔ j ≠ N))).
  { destruct (Z.eqb_spec (Z.of_nat N - Z.of_nat j) 0).
    - apply (wp_silent _ ()); [auto with pan_wp|]. apply wp_loc. exists (st + 1). split; [by eapply turn_loc|]. lia.
    - destruct (Z.eqb_spec (Z.of_nat N - Z.of_nat j) (-1)); [lia|]. apply wp_ret. exists st. split; [done|]. lia. }
  clear H Hst Hst0 v st. intros _ v (st & H & Hst0 & Hst). apply wp_bind.
  eapply wp_mono; [by eapply handle_signal_turn|]. intros _ ? ->. apply wp_bind.
  eapply wp_mono; [apply (check_pids_turn _ _ _ _ _ _ H)|].
  { intros ->. pose proof (io_active _ Hcfg). simpl in *. lia. }
  clear H v. intros err v (t & ts' & stat & Hts & Herr & Hend & H). set (e := (t.2, stat)) in *. apply wp_get. intros s Hs.
  apply wp_bind. apply (wp_mono _ _ (λ _ v', turn ts' (ends ++ [e]) j st (x + exit_step e) v')).
  { unfold exit_step. rewrite Herr. destruct (turn_view _ _ _ _ _ _ _ H Hs) as (_ & -> & _).
    rewrite (t_loc _ _ _ _ _ _ H), (io_brakes _ Hcfg). cbn [fork_in_road p_when e snd].
    destruct (failing stat); [|rewrite andb_false_r, Z.add_0_r; by apply wp_ret].
    rewrite andb_true_r. cbn [p_when]. apply wp_bind, wp_ret, wp_bind. destruct (track_exit_stats cfg); cbn [p_when].
    - apply wp_loc, wp_ret. by eapply turn_loc.
    - rewrite Z.add_0_r. by apply wp_ret, wp_ret. }
  clear H Hs s v. intros _ v H. apply wp_get. intros s Hs. destruct (turn_view _ _ _ _ _ _ _ H Hs) as (_ & -> & _).
  rewrite (t_loc _ _ _ _ _ _ H). cbv zeta. cbn [stop num_active go_idle]. unfold nz at 1 2.
  pose proof (turn_length _ _ _ _ _ _ H) as Hlen'. rewrite length_app in Hlen'. cbn [length] in Hlen'.
  assert (negb (st =? 0) && (Z.of_nat (length ts') =? 0) = bool_decide (S (length ends) = N)) as ->.
  { case_bool_decide; bool_cases; simpl; lia. }
  destruct (bool_decide _); cbn [negb andb Z.eqb p_when].
  - apply wp_ret. exists ts', e, j, st. split_and!; try done. lia.
  - apply wp_bind, wp_ret, wp_ret. exists ts', e, j, st. split_and!; try done. lia.
Qed.

(** The failures counted by -e, which are all when it is given. *)
Definition exits (ends : list ended) : Z := if track_exit_stats cfg then failures ends else 0.
Lemma exits_snoc ends e : exits (ends ++ [e]) = exits ends + exit_step e.
Proof.
  unfold exits, exit_step, failures. destruct (track_exit_stats cfg); [|done]. rewrite filter_app, length_app, filter_cons, filter_nil.
  cbn [andb]. destruct (failing e.2); [rewrite decide_True by done|rewrite decide_False by done]; simpl; lia.
Qed.

Definition really_ended (e : ended) : Prop := WIFEXITED e.2 = true ∨ WIFSIGNALED e.2 = true.
Lemma schedule_turns fuel m ts ends j st v :
  turn ts ends j st (exits ends) v → 0 ≤ st → st = 0 ∨ j = N → Forall really_ended ends →
  (length ends + S m = N)%nat → (S m + keep_active cfg < fuel)%nat →
  wp (schedule cfg fuel) v (λ _ v', ∃ ends' st', turn [] ends' N st' (exits ends') v' ∧ Forall really_ended ends').
Proof.
  revert m ts ends j st v. induction fuel as [|fuel IH]; intros m ts ends j st v H Hst0 Hst Hall Hm Hfuel; [lia|].
  cbn [schedule]. apply wp_bind. eapply wp_mono; [apply (sched_step_turn _ _ _ _ _ _ _ H Hst0 Hst); lia|].
  intros d v' (ts' & e & j' & st' & H' & Hst0' & Hst' & He & ->). rewrite <- exits_snoc in H'.
  assert (Forall really_ended (ends ++ [e])) as Hall' by (apply Forall_app; split; [done|by constructor]).
  pose proof (turn_length _ _ _ _ _ _ H') as Hlen. pose proof (t_started _ _ _ _ _ _ H').
  rewrite length_app in Hlen. cbn [length] in Hlen. case_bool_decide.
  - apply wp_ret. assert (j' = N) as -> by lia. destruct ts'; [|simpl in *; lia]. eauto.
  - destruct m as [|m]; [lia|]. apply (IH m ts' (ends ++ [e]) j' st'); try done; rewrite ?length_app; simpl; lia.
Qed.
End Turns.

(** ** The run *)

Lemma shows_perm z l l' : l ≡ₚ l' → shows z l → shows z l'.
Proof. intros E (rs & Hh & Hl). exists rs. by rewrite <- E. Qed.

Section Run.
Context {OS : pan_os} (base : list Z) (cfg : settings) {Calm : calm base (keep_active cfg)} (Hcfg : in_order cfg).

Definition reserved (c : Z) : cstr := entry_of c (panname cfg) [].
Lemma mark_lines l o v : shows (v_zoo v) o → Forall (λ c, 0 ≤ c < 2 ^ 31) l →
  wp (p_for l (λ c, m ← on_zoo (zoo_mark_cmdline os_zoo_fuel zoo_fp c (panname cfg) []); if nz m then p_exit 1 else mret ())) v
     (λ _ v', ∃ z, shows z ((reserved <$> l) ++ o) ∧ v' = with_zoo z v).
Proof.
  intros Hz Hl. revert o v Hz. induction Hl as [|c l Hc Hl IH]; intros o v Hz; cbn [p_for].
  { apply wp_ret. exists (v_zoo v). split; [done|]. by destruct v. }
  destruct (shows_mark _ calm_zoo _ _ c (panname cfg) [] Hz) as (z & Ez & Hz1).
  { apply name_entry_ok; [lia|apply Hcfg|]. by apply not_elem_of_nil. }
  apply wp_bind, wp_bind. eapply wp_zoo; [exact Ez|]. cbn [nz negb Z.eqb]. apply wp_ret.
  eapply wp_mono; [by apply (IH (reserved c :: o))|]. intros _ v' (z' & Hz' & ->). exists z'. split; [|done].
  eapply shows_perm; [|exact Hz']. cbn [fmap list_fmap app]. symmetry. apply Permutation_middle.
Qed.

Lemma clear_lines l o v : shows (v_zoo v) ((reserved <$> l) ++ o) → Forall (λ c, 0 ≤ c < 2 ^ 31) l → NoDup l →
  Forall (λ r, pid_of r ∉ l) o →
  wp (p_for l (λ c, m ← on_zoo (zoo_clear os_zoo_fuel zoo_fp c); if nz m then p_exit 1 else mret ())) v
     (λ _ v', ∃ z, shows z o ∧ v' = with_zoo z v).
Proof.
  assert (∀ c, 0 ≤ c < 2 ^ 31 → pid_of (reserved c) = c) as Hpid.
  { intros c Hc. apply (entry_of_facts c (panname cfg) []). apply name_entry_ok; [lia|apply Hcfg|]. by apply not_elem_of_nil. }
  intros Hz Hl Hnd Ho. revert v Hz. induction Hl as [|c l Hc Hl IH]; intros v Hz; cbn [p_for].
  { apply wp_ret. exists (v_zoo v). split; [done|]. by destruct v. }
  apply NoDup_cons in Hnd as [Hnin Hnd].
  destruct (shows_clear _ calm_zoo _ _ _ c Hz (Hpid c Hc)) as (z & Ez & Hz1).
  { apply Forall_app. split.
    - apply Forall_fmap, Forall_forall. intros c' Hc' E. cbn [compose] in E. rewrite Forall_forall in Hl.
      rewrite (Hpid _ (Hl _ Hc')) in E. by subst c'.
    - eapply Forall_impl; [exact Ho|]. intros r Hr E. apply Hr. rewrite E. left. }
  apply wp_bind, wp_bind. eapply wp_zoo; [exact Ez|]. cbn [nz negb Z.eqb]. apply wp_ret.
  eapply wp_mono; [apply IH; [done| |done]|].
  - eapply Forall_impl; [exact Ho|]. intros r Hr Hin. apply Hr. by right.
  - intros _ v' (z' & Hz' & ->). by exists z'.
Qed.

(** What a run relies on: the zoo is a file of entries, none of a process of
    its own number or of the number of a slot. *)
Record zoo_ready (z : zoo) (others : list cstr) : Prop := {
  zr_shows : shows z others;
  zr_base : Forall (λ r, pid_of r ∈ base ∧ pid_of r ≠ os_getpid ∧ Z.of_nat (keep_active cfg) ≤ pid_of r) others;
  zr_self : os_getpid ∈ base ∧ Z.of_nat (keep_active cfg) ≤ os_getpid < 2 ^ 31
}.

Lemma reserve_run own others v :
  shows (v_zoo v) (own :: others) → Forall (λ r, Z.of_nat (keep_active cfg) ≤ pid_of r) (own :: others) →
  wp (reserve_lines cfg) v (λ _ v', ∃ z, shows z (own :: others) ∧ v' = with_zoo z v).
Proof.
  intros Hz Hpids. pose proof (io_active _ Hcfg). unfold reserve_lines.
  assert (Forall (λ c, 0 ≤ c < 2 ^ 31) (seqZ 0 (Z.of_nat (keep_active cfg)))) as Hl.
  { apply Forall_forall. intros c Hc%elem_of_seqZ. lia. }
  apply wp_bind. eapply wp_mono; [by apply mark_lines|]. intros _ v1 (z & Hz1 & ->).
  eapply wp_mono; [eapply clear_lines; [exact Hz1|exact Hl|apply NoDup_seqZ|]|].
  - eapply Forall_impl; [exact Hpids|]. intros r Hr Hin%elem_of_seqZ. cbn in Hr. lia.
  - intros _ v2 (z2 & Hz2 & ->). by exists z2.
Qed.

Lemma turn_first log0 n z others : shows z others → Forall (λ r, pid_of r ∈ base) others →
  ∀ v, v_children v = [] → v_log v = log0 → v_execs v = [] → v_zoo v = z → rec_signal (v_sigs v) = 0 →
  v_running v = replicate (keep_active cfg) free_slot → v_orphans v = [0] →
  v_loc v = Locals 0 (Z.of_nat n) 0 0 0 false 0 0 → turn base cfg log0 others n [] [] 0 0 0 v.
Proof.
  intros Hz _ v Hc Hl He Hvz Hs Hr Ho Hloc. split; rewrite ?Hr, ?Hc, ?Hvz, ?Hl, ?He, ?Ho; try done.
  - apply length_replicate.
  - clear. unfold tests_of. induction (keep_active cfg) as [|k IH]; [done|]. cbn [replicate]. rewrite omap_cons_list. exact IH.
  - constructor.
  - by repeat constructor.
  - rewrite Hloc, Z.sub_0_r. do 2 f_equal. rewrite Nat.Div0.mod_0_l. done.
  - exists []. by rewrite app_nil_r.
  - lia.
Qed.

(** The view of a run before its first step. *)
Definition at_start (log0 : list cstr) (z : zoo) (n : nat) (v : view) : Prop :=
  v_children v = [] ∧ v_log v = log0 ∧ v_execs v = [] ∧ v_zoo v = z ∧ v_running v = replicate (keep_active cfg) free_slot
  ∧ v_orphans v = [0] ∧ v_loc v = Locals 0 (Z.of_nat n) 0 0 0 false 0 0.
(** What a run has done at its end. *)
Definition at_end (log0 : list cstr) (others : list cstr) (n : nat) (c : Z) (v : view) : Prop := ∃ ends lines,
  c = uwrap 8 (exits cfg ends)
  ∧ v_execs v = (λ c, child_exec (ce_cmdline c)) <$> commands cfg n
  ∧ ends.*1 ≡ₚ commands cfg n ∧ Forall really_ended ends ∧ v_log v = log0 ++ lines ∧ Forall2 logged ends lines
  ∧ v_children v = [] ∧ shows (v_zoo v) others.

Lemma pan_main_run fuel argv log0 z others n v :
  zoo_ready z others → argv ≠ [] → NL ∉ intercalate (lit " ") argv →
  (0 < n)%nat → (n + keep_active cfg < fuel)%nat → at_start log0 z n v →
  wp_exit (pan_main cfg fuel argv) v (at_end log0 others n).
Proof.
  intros [Hz Hbase [Hself Hpid]] Hargv Hnl Hn Hfuel (Hv1 & Hv2 & Hv3 & Hv4 & Hv5 & Hv6 & Hv7).
  assert (entry_ok os_getpid (panname cfg) (intercalate (lit " ") argv)) as He by (apply name_entry_ok; [lia|apply Hcfg|done]).
  set (own := entry_of os_getpid (panname cfg) (intercalate (lit " ") argv)).
  assert (pid_of own = os_getpid) as Hown by (by apply (entry_of_facts _ _ _ He)).
  unfold pan_main, zoo_mark_args. apply wp_exit_bind.
  destruct (shows_mark _ calm_zoo _ _ _ _ _ Hz He) as (z1 & Ez1 & Hz1). fold own in Hz1.
  eapply wp_zoo; [by rewrite p_bind_run; unfold p_lift; rewrite cat_args_fits by done; rewrite Hv4; exact Ez1|].
  cbn [nz negb Z.eqb]. apply wp_exit_bind. eapply wp_mono; [apply (reserve_run own others)|].
  { exact Hz1. }
  { constructor; [lia|]. eapply Forall_impl; [exact Hbase|]. by intros r (_ & _ & ?). }
  intros _ v1 (z2 & Hz2 & ->). apply wp_exit_bind, wp_sigs, wp_exit_bind.
  assert (Forall (λ r, pid_of r ∈ base) (own :: others)) as Hob.
  { constructor; [by rewrite Hown|]. eapply Forall_impl; [exact Hbase|]. by intros r (? & _). }
  eapply wp_mono; [eapply (schedule_turns base cfg Hcfg log0 (own :: others) Hob n fuel (n - 1) [] [] 0 0)|].
  { assert (exits cfg [] = 0) as -> by (unfold exits; by destruct (track_exit_stats cfg)).
    by apply (turn_first log0 n z2 (own :: others)). }
  { done. }
  { by left. }
  { constructor. }
  { simpl. lia. }
  { lia. }
  intros _ v2 (ends & st & H & Hall). apply wp_exit_bind.
  destruct fuel as [|fuel]; [lia|]. cbn [wait_orphans]. apply wp_get. intros s Hs.
  assert (forallb (λ p, p =? 0) (orphans s) = true) as ->.
  { edestruct turn_view as (_ & _ & _ & ->); [exact H|exact Hs|].
    apply forallb_forall. intros p Hp%list_elem_of_In. pose proof (t_orphans _ _ _ _ _ _ _ _ _ _ _ H) as Ho.
    rewrite Forall_forall in Ho. apply Z.eqb_eq. by apply Ho. }
  apply wp_ret. clear s Hs. unfold finish. apply wp_exit_bind.
  destruct (shows_clear _ calm_zoo _ _ _ os_getpid (t_zoo _ _ _ _ _ _ _ _ _ _ _ H) Hown) as (z3 & Ez3 & Hz3).
  { eapply Forall_impl; [exact Hbase|]. by intros r (_ & ? & _). }
  eapply wp_zoo; [exact Ez3|]. cbn [nz negb Z.eqb p_when]. apply wp_exit_bind, wp_ret, wp_exit_get. intros s Hs.
  rewrite (io_fmt _ Hcfg), andb_false_r. cbn [p_when]. apply wp_exit_bind, wp_ret, wp_exit_exit.
  destruct H as [Hslots Htests Hch Hnd Hpids Hzoo Hrec Horph Hloc Hexecs Hlog Hran Hle]. destruct Hlog as (lines & Hlog & Hlines). exists ends, lines.
  assert (p_loc s = v_loc v2) as -> by (by apply (f_equal v_loc) in Hs). rewrite Hloc.
  split; [done|]. split; [exact Hexecs|]. split; [exact Hran|]. split; [done|]. split; [exact Hlog|]. split; [exact Hlines|].
  split; [by apply Permutation_nil_r in Hch|exact Hz3].
Qed.

(** C7: a run of ltp-pan -S from start to end.  On a calm machine, with a
    collection and [n] starts, ltp-pan ends; it has started the first [n] commands
    of the collection, taken again from its head when it is at its end, in
    order and each once; each of them ended and has one line in the log, with its
    tag and its status; no child is left, the running entries of the zoo are those
    there were before, and with -e the exit code is the number of commands that
    failed, modulo 256. *)
Theorem pan_runs_all fuel argv z others n :
  zoo_ready z others → argv ≠ [] → NL ∉ intercalate (lit " ") argv →
  (0 < n)%nat → (n + keep_active cfg < fuel)%nat →
  ∃ ends s', pan_main cfg fuel argv (pan0 cfg z (Z.of_nat n) false) = (Exit (uwrap 8 (exits cfg ends)), s')
    ∧ execs (p_world s') = (λ c, child_exec (ce_cmdline c)) <$> commands cfg n
    ∧ ends.*1 ≡ₚ commands cfg n ∧ Forall really_ended ends ∧ Forall2 logged ends (w_log (p_world s'))
    ∧ children (p_world s') = [] ∧ shows (w_zoo (p_world s')) others.
Proof.
  intros Hready Hargv Hnl Hn Hfuel.
  destruct (pan_main_run fuel argv [] z others n (view_of (pan0 cfg z (Z.of_nat n) false)) Hready Hargv Hnl Hn Hfuel
    ltac:(by repeat split) (pan0 cfg z (Z.of_nat n) false) eq_refl)
    as (c & s' & E & ends & lines & -> & Hexecs & Hran & Hall & Hlog & Hlines & Hrest).
  exists ends, s'. split; [exact E|]. split; [exact Hexecs|]. split; [exact Hran|]. split; [exact Hall|]. split; [|exact Hrest].
  cbn [app] in Hlog. unfold view_of in Hlog. cbn [v_log] in Hlog. by rewrite Hlog.
Qed.
End Run.

(** ** A machine for the example *)

Definition calm_os : pan_os := {|
  os_zoo := quick_io; os_zoo_fuel := 1; os_getpid := 4711;
  os_signals _ := []; os_open _ := open_done;
  os_start n l := start_ok (match l with c :: _ => if c =? 5000 then 5001 else 5000 | [] => 5000 end);
  os_wait n l := match l with [] => wait_error | c :: _ => wait_child c (if c =? 5000 then 256 else 0) end;
  os_kill _ _ _ := kill_ESRCH; os_time n := Z.of_nat n; os_times _ := (0, 0); os_rand _ := 0;
  os_stop_file _ := false; os_slurp _ := None; os_uname := Some (lit "6.1", lit "x86_64", lit "host")
|}.
#[local] Existing Instance calm_os.

Lemma calm_os_calm : calm [4711; 12] 2.
Proof.
  split; [exact quick_interrupted|done| | |done].
  - intros n l Hl. eexists. split; [done|]. destruct l as [|c [|]]; [| |simpl in Hl; lia].
    + split; [lia|]. split; [apply not_elem_of_nil|]. by apply (bool_decide_unpack _).
    + destruct (Z.eqb_spec c 5000) as [->|Hc].
      * split; [lia|]. split; by apply (bool_decide_unpack _).
      * split; [lia|]. split; [by intros E%list_elem_of_singleton; subst|]. by apply (bool_decide_unpack _).
  - intros n [|c l] Hne; [done|]. exists c. eexists. split; [done|]. split; [left|]. left. by destruct (c =? 5000).
Qed.
Lemma demo_in_order : in_order demo_cfg.
Proof.
  split; try done.
  - split_and!; (by apply (bool_decide_unpack _); vm_compute).
  - repeat apply Forall_cons_2; try apply Forall_nil_2; split_and!; (by apply (bool_decide_unpack _); vm_compute).
Qed.
Lemma demo_ready : zoo_ready [4711; 12] demo_cfg demo_zoo (live demo_records).
Proof.
  split; [exists demo_records; split; [apply demo_holds|done]| |by apply (bool_decide_unpack _)].
  by apply (bool_decide_unpack _); vm_compute.
Qed.

Lemma pan_runs_all_witness : ∃ ends s',
  pan_main demo_cfg 5 [lit "ltp-pan"] (pan0 demo_cfg demo_zoo 2 false) = (Exit (uwrap 8 (exits demo_cfg ends)), s')
  ∧ ends.*1 ≡ₚ coll demo_cfg ∧ length (w_log (p_world s')) = 2%nat.
Proof.
  assert ([lit "ltp-pan"] ≠ []) as H1 by done.
  assert (NL ∉ intercalate (lit " ") [lit "ltp-pan"]) as H2 by (by apply (bool_decide_unpack _); vm_compute).
  assert (0 < 2)%nat as H3 by lia. assert (2 + keep_active demo_cfg < 5)%nat as H4 by (simpl; lia).
  destruct (pan_runs_all [4711; 12] demo_cfg (Calm := calm_os_calm) demo_in_order 5 [lit "ltp-pan"] demo_zoo
    (live demo_records) 2 demo_ready H1 H2 H3 H4) as (ends & s' & E & _ & Hran & _ & Hlog & _).
  exists ends, s'. split; [exact E|]. split; [exact Hran|].
  rewrite <- (Forall2_length _ _ _ Hlog), <- (length_fmap fst ends), Hran. reflexivity.
Defined.
Example pan_run_code : (pan_main demo_cfg 5 [lit "ltp-pan"] (pan0 demo_cfg demo_zoo 2 false)).1 = Exit 1.
Proof. by vm_compute. Qed.
