(* ===== verification/PanMain.v ===== *)
(** * PanMain: ltp-pan from its options to its exit

    The options of [main] of ltp-pan.c, the files it opens, the collection, the
    defaults, and then the run ([pan_main] of PanSched).  The files are
    parameters.  What is written to a log that is the standard output ("-l -")
    is kept with the log; the debug output is left out. *)
From Stdlib Require Import String.
From S2P Require Import Prelude CLib Getopt Splitstr Zoo PanColl PanSched PanProps PanRun.

(** ** Options *)

Inductive pan_opt :=
| pan_A | pan_O (optarg : cstr) | pan_S | pan_a (optarg : cstr) | pan_C (optarg : cstr) | pan_d (optarg : cstr)
| pan_e | pan_f (optarg : cstr) | pan_h | pan_l (optarg : cstr) | pan_n (optarg : cstr) | pan_o (optarg : cstr)
| pan_p | pan_q | pan_r (optarg : cstr) | pan_s (optarg : cstr) | pan_t (optarg : cstr) | pan_x (optarg : cstr)
| pan_y | pan_unknown.

Definition pan_table : opt_table := OptTable (lit "AO:Sa:C:d:ef:hl:n:o:pqr:s:t:x:y") None.
Definition pan_opt_of (r : opt_ret) : pan_opt :=
  match r with
  | Got "A" _ => pan_A | Got "O" (Some s) => pan_O s | Got "S" _ => pan_S | Got "a" (Some s) => pan_a s
  | Got "C" (Some s) => pan_C s | Got "d" (Some s) => pan_d s | Got "e" _ => pan_e | Got "f" (Some s) => pan_f s
  | Got "h" _ => pan_h | Got "l" (Some s) => pan_l s | Got "n" (Some s) => pan_n s | Got "o" (Some s) => pan_o s
  | Got "p" _ => pan_p | Got "q" _ => pan_q | Got "r" (Some s) => pan_r s | Got "s" (Some s) => pan_s s
  | Got "t" (Some s) => pan_t s | Got "x" (Some s) => pan_x s | Got "y" _ => pan_y | _ => pan_unknown
  end%char.

(** The variables the options set. *)
Record pan_args := PanArgs {
  a_panname : option cstr; a_zooname : option cstr; a_logfilename : option cstr; a_failcmdfilename : option cstr;
  a_outputfilename : option cstr; a_test_out_dir : option cstr; a_reporttype : option cstr; a_filename : cstr;
  a_keep_active : Z; a_starts : Z; a_time : Z * ascii * bool;      (* run_time, modifier, timed *)
  a_has_brakes : bool; a_sequential : bool; a_fork_in_road : bool; a_track_exit_stats : bool;
  a_fmt_print : bool; a_quiet_mode : bool
}.
Definition pan_args0 : pan_args :=
  PanArgs None None None None None None None (lit "/dev/null") 1 (-1) (-1, "m"%char, false) false false false false false false.

(** Whether [sscanf] gives other than 0 and 1: it found a number and a
    modifier, or the argument is blank. *)
Definition time_scaled (optarg : cstr) : bool :=
  let '(_, s) := read_sign (skip_spaces optarg) in
  if is_digit 10 (chr0 s) then negb (bool_decide (dec_rest s = []))
  else bool_decide (skip_spaces optarg = []).
Definition time_text (run_time : Z) : cstr := lit "PAN will run for " ++ fmt_d run_time ++ lit " seconds" ++ [NL].
Definition usage_text : cstr :=
  lit "Usage: pan -n name [ -SyAehpq ] [ -s starts ] [-t time[s|m|h|d] [ -x nactive ] [ -l logfile ]" ++ NL :: TAB ::
  lit "[ -a active-file ] [ -f command-file ] [ -C fail-command-file ] [ -d debug-level ]" ++ NL :: TAB ::
  lit "[-o output-file] [-O output-buffer-directory] [cmd]" ++ [NL].

Definition pan_option (a : pan_args) (o : pan_opt) : prog pan pan_args :=
  let '(PanArgs nm zo lg fc ou od rp fl ac st tm br sq rd tr fm qt) := a in
  match o with
  | pan_A => mret (PanArgs nm zo lg fc ou od rp fl ac st tm true sq rd true fm qt)
  | pan_O s => mret (PanArgs nm zo lg fc ou (Some s) rp fl ac st tm br sq rd tr fm qt)
  | pan_S => mret (PanArgs nm zo lg fc ou od rp fl ac st tm br true rd tr fm qt)
  | pan_a s => mret (PanArgs nm (Some s) lg fc ou od rp fl ac st tm br sq rd tr fm qt)
  | pan_C s => mret (PanArgs nm zo lg (Some s) ou od rp fl ac st tm br sq rd tr fm qt)
  | pan_d _ => mret a
  | pan_e => mret (PanArgs nm zo lg fc ou od rp fl ac st tm br sq rd true fm qt)
  | pan_f s => mret (PanArgs nm zo lg fc ou od rp s ac st tm br sq rd tr fm qt)
  | pan_h => puts usage_text;; p_exit 0
  | pan_l s => mret (PanArgs nm zo (Some s) fc ou od rp fl ac st tm br sq rd tr fm qt)
  | pan_n s => mret (PanArgs (Some s) zo lg fc ou od rp fl ac st tm br sq rd tr fm qt)
  | pan_o s => mret (PanArgs nm zo lg fc (Some s) od rp fl ac st tm br sq rd tr fm qt)
  | pan_p => mret (PanArgs nm zo lg fc ou od rp fl ac st tm br sq rd tr true qt)
  | pan_q => mret (PanArgs nm zo lg fc ou od rp fl ac st tm br sq rd tr fm true)
  | pan_r s => mret (PanArgs nm zo lg fc ou od (Some s) fl ac st tm br sq rd tr fm qt)
  | pan_s s => mret (PanArgs nm zo lg fc ou od rp fl ac (atoi s) tm br sq rd tr fm qt)
  | pan_t s =>
      tm' ← p_lift (parse_time s tm);
      p_when (time_scaled s && negb qt) (puts (time_text tm'.1.1));;
      mret (PanArgs nm zo lg fc ou od rp fl ac st tm' br sq rd tr fm qt)
  | pan_x s => mret (PanArgs nm zo lg fc ou od rp fl (atoi s) st tm br sq rd tr fm qt)
  | pan_y => mret (PanArgs nm zo lg fc ou od rp fl ac st tm br sq true tr fm qt)
  | pan_unknown => mret a
  end.

(** ** Report type *)

Definition to_lower (c : ascii) : ascii :=
  let n := Z.of_nat (nat_of_ascii c) in
  if (65 <=? n) && (n <=? 90) then ascii_of_nat (Z.to_nat (n + 32)) else c.
Definition strcasecmp_eq (a b : cstr) : bool := bool_decide (to_lower <$> a = to_lower <$> b).
(** The type that is kept; the reports compare it with ["rts"] again, with
    [strcmp]. *)
Definition report_type (reporttype : option cstr) : cstr :=
  match reporttype with
  | Some r => if negb (strcasecmp_eq r (lit "rts")) && negb (strcasecmp_eq r (lit "none")) then lit "rts" else r
  | None => lit "rts"
  end.
Definition reports (reporttype : option cstr) : bool := bool_decide (report_type reporttype = lit "rts").

(** ** The files *)

Class pan_files := {
  pf_zoo : option cstr;                       (* getenv("ZOO") *)
  pf_append : cstr → bool;                    (* [fopen] or [freopen] for appending *)
  pf_slurp : cstr → option cstr;              (* what [slurp] gives *)
  pf_dir : cstr → bool;                       (* [stat], [S_ISDIR] and [access] of the directory of -O *)
  pf_zoo_open : cstr → fopen_res * fopen_res * fopen_res;
  pf_malloc : bool;
  pf_ctime : cstr                             (* without its newline *)
}.

Section Main.
Context `{OS : pan_os} {Files : pan_files}.

Definition startup_text (fmt_print : bool) : cstr :=
  if negb fmt_print then lit "startup='" ++ pf_ctime ++ lit "'" ++ [NL]
  else
    lit "Test Start Time: " ++ pf_ctime ++ NL ::
    lit "-----------------------------------------" ++ NL ::
    fmt_pad 30 (lit "Testcase") ++ " "%char :: fmt_pad 10 (lit "Result") ++ " "%char :: fmt_pad 10 (lit "Exit Value") ++ NL ::
    fmt_pad 30 (lit "--------") ++ " "%char :: fmt_pad 10 (lit "------") ++ " "%char :: fmt_pad 10 (lit "------------") ++ [NL].

(** [if (!fopen(...)) exit(1)] for a name that was given. *)
Definition open_append (name : option cstr) : prog pan unit :=
  match name with Some f => if pf_append f then mret () else p_exit 1 | None => mret () end.
Definition open_log (a : pan_args) : prog pan unit :=
  match a_logfilename a with
  | None => mret ()
  | Some l =>
      p_when (negb (bool_decide (l = lit "-"))) (open_append (Some l));;
      upd_world (add_log (startup_text (a_fmt_print a)))
  end.

Definition settings_of (a : pan_args) (name : cstr) (coll : list coll_entry) : settings :=
  Settings name (if a_keep_active a =? 1 then None else a_test_out_dir a) (reports (a_reporttype a)) coll
    (Z.to_nat (a_keep_active a)) (a_sequential a) (a_has_brakes a) (a_track_exit_stats a) (a_fmt_print a)
    (a_quiet_mode a) (is_Some_b (a_logfilename a)) (is_Some_b (a_failcmdfilename a)).
Definition starts_of (a : pan_args) (coll : list coll_entry) : Z :=
  default_starts (a_time a).2 (a_starts a) (a_sequential a) (Z.of_nat (length coll)) (a_keep_active a).
(** [running], [orphans] and the locals of [main] before the loop. *)
Definition set_up (k : nat) (starts : Z) (road : bool) : prog pan unit :=
  p_modify (λ s, Pan (p_world s) (p_sigs s) (replicate k free_slot) [0] (Locals 0 starts 0 0 0 road 0 0)).

(** [main], given the options [getopt] returns and the arguments after them. *)
Definition ltp_pan (fuel : nat) (options : list pan_opt) (args argv : list cstr) : prog pan Z :=
  a ← p_fold options pan_option pan_args0;
  match a_panname a, match a_zooname a with Some z => Some z | None => zoo_getname pf_zoo end with
  | Some name, Some zooname =>
      open_log a;;
      coll ← p_lift (get_collection (pf_slurp (a_filename a)) args);
      match coll with
      | None | Some [] => p_exit 1
      | Some coll =>
          if negb pf_malloc then p_exit 2
          else if a_keep_active a <? 0 then p_undef          (* memset of a negative size *)
          else
            let cfg := settings_of a name coll in
            set_up (keep_active cfg) (starts_of a coll) (a_fork_in_road a);;
            p_when (match test_out_dir cfg with Some d => negb (pf_dir d) | None => false end) (p_exit 1);;
            open_append (a_outputfilename a);;
            open_append (a_failcmdfilename a);;
            let '(r1, r2, r3) := pf_zoo_open zooname in
            z ← on_zoo (zoo_open r1 r2 r3);
            match z with zoo_null => p_exit 1 | zoo_fp => pan_main cfg fuel argv end
      end
  | _, _ => p_exit 1
  end.
(** The program from its name and its arguments. *)
Definition pan_program (fuel : nat) (name : cstr) (args : list cstr) : prog pan Z :=
  let p := getopt pan_table args in
  ltp_pan fuel (pan_opt_of <$> calls p) (operands p) (name :: permuted p).
End Main.
(** Before [main]. *)
Definition pan_start (z : zoo) : pan :=
  Pan (World 0 [] [] [] [] [] [] z 0 1) (Signals 0 0 0) [] [] (Locals 0 (-1) 0 0 0 false 0 0).

(** ** A run with a command file *)

(** An option that neither prints nor ends the program. *)
Definition plain_opt (o : pan_opt) : Prop := match o with pan_h | pan_t _ => False | _ => True end.
Definition apply_option (a : pan_args) (o : pan_opt) : pan_args :=
  match (pan_option a o (pan_start (ZooState [] false 0 None))).1 with Ok a' => a' | _ => a end.

Lemma silent_options options a : Forall plain_opt options →
  silent (p_fold options pan_option a) (foldl apply_option a options).
Proof.
  intros H. revert a. induction H as [|o options Ho _ IH]; intros a v; cbn [p_fold foldl]; [by apply wp_ret|].
  apply (wp_silent _ (apply_option a o)); [|apply IH].
  intros v'. destruct a, o; try done; by apply wp_ret.
Qed.

Section FileRun.
Context {OS : pan_os} {Files : pan_files} (base : list Z).

(** The command line of a run in order: -S and -n, -a, -l and -f given, none of
    -A, -O, -p, -s, -t and -y, and the files can be opened. *)
Record command_line (options : list pan_opt) (a : pan_args) (name : cstr) (ts : list coll_text) : Prop := {
  cl_plain : Forall plain_opt options;
  cl_args : a = foldl apply_option pan_args0 options;
  cl_name : a_panname a = Some name ∧ name_ok name;
  cl_zoo : ∃ zooname, a_zooname a = Some zooname ∧ (pf_zoo_open zooname).1.1 = fopen_done;
  cl_log : ∃ l, a_logfilename a = Some l ∧ (l = lit "-" ∨ pf_append l = true);
  cl_appends : ∀ f, a_outputfilename a = Some f ∨ a_failcmdfilename a = Some f → pf_append f = true;
  cl_flags : a_sequential a = true ∧ a_has_brakes a = false ∧ a_fmt_print a = false ∧ a_fork_in_road a = false;
  cl_defaults : a_test_out_dir a = None ∧ a_starts a = -1 ∧ (a_time a).2 = false;
  cl_active : 0 < a_keep_active a < 2 ^ 31;
  cl_malloc : pf_malloc = true;
  cl_file : pf_slurp (a_filename a) = Some (intercalate [NL] (text_line <$> ts));
  cl_texts : ts ≠ [] ∧ Forall text_ok ts;
  cl_cmds : omap text_entry ts ≠ []
    ∧ Forall (λ c, name_ok (ce_name c) ∧ NL ∉ ce_cmdline c ∧ pcnt_f c = false) (omap text_entry ts)
}.

Lemma wp_set_up k starts road v (Q : unit → view → Prop) :
  Q () (View (v_children v) (v_log v) (v_execs v) (v_zoo v) (v_counter v) (v_sigs v) (replicate k free_slot) [0]
             (Locals 0 starts 0 0 0 road 0 0)) → wp (set_up k starts road) v Q.
Proof. intros H s <-. by do 2 eexists. Qed.
Lemma wp_silent' {A} (p : prog pan A) a v Q : silent p a → Q a v → wp p v Q.
Proof. intros Hp HQ. eapply wp_mono; [apply Hp|]. by intros ? ? [-> ->]. Qed.
Lemma silent_append name : (∀ f, name = Some f → pf_append f = true) → silent (open_append name) ().
Proof. intros H v. destruct name as [f|]; cbn [open_append]; [rewrite H by done|]; by apply wp_ret. Qed.

Lemma pan_table_ok : table_ok pan_table.
Proof. apply (bool_decide_unpack _). by vm_compute. Qed.
(** The words of [argv], reordered by [getopt] and joined, have no newline. *)
Lemma argv_newline name args : Forall (λ w, NL ∉ w) (name :: args) →
  NL ∉ intercalate (lit " ") (name :: permuted (getopt pan_table args)).
Proof.
  rewrite Forall_forall. intros H [Hin|(w & Hw & Hin)]%elem_of_intercalate; [by apply list_elem_of_singleton in Hin|].
  apply (H w); [|done]. by rewrite <- (permuted_perm pan_table args).
Qed.

(** C2: the whole of ltp-pan.  With a command file of comments and commands and
    arguments that ask for them to be run in order, in whatever spelling and
    order and without a command of their own, on a calm machine, the program ends: the commands it has run are those of the file, in the order of
    the file and each once; the log is the startup line and one line for each
    command, with its tag and how it ended; the zoo shows what it showed before;
    with -e the exit code is the number of commands that failed, modulo 256. *)
Theorem ltp_pan_runs_file fuel prog_name args evs a name ts z others :
  command pan_table args evs [] → command_line (pan_opt_of <$> evs) a name ts →
  calm base (Z.to_nat (a_keep_active a)) →
  zoo_ready base (settings_of a name (omap text_entry ts)) z others →
  Forall (λ w, NL ∉ w) (prog_name :: args) →
  (length (omap text_entry ts) + Z.to_nat (a_keep_active a) < fuel)%nat →
  ∃ ends lines s', pan_program fuel prog_name args (pan_start z)
      = (Exit (if a_track_exit_stats a then uwrap 8 (failures ends) else 0), s')
    ∧ execs (p_world s') = (λ c, child_exec (ce_cmdline c)) <$> omap text_entry ts
    ∧ ends.*1 ≡ₚ omap text_entry ts ∧ Forall really_ended ends
    ∧ w_log (p_world s') = startup_text false :: lines ∧ Forall2 logged ends lines
    ∧ children (p_world s') = [] ∧ shows (w_zoo (p_world s')) others.
Proof.
  intros Hcmd [Hplain Ha [Hname Hnok] (zooname & Hzn & Hzo) (l & Hl & Hlopen) Happ (Hseq & Hbr & Hfmt & Hroad) (Hout & Hst & Htm)
    Hk Hmal Hfile [Hts Htext] [Hne Hcmds]] Hcalm Hready Hnl%argv_newline Hfuel.
  unfold pan_program. destruct (getopt_command _ pan_table_ok _ _ _ Hcmd) as [-> ->].
  set (argv := prog_name :: permuted _) in *. set (options := pan_opt_of <$> evs) in *.
  destruct (omap text_entry ts) as [|c cs'] eqn:Ecs; [done|]. set (cs := c :: cs') in *. set (cfg := settings_of a name cs).
  assert (in_order cfg) as Hin.
  { split; try done; cbn [cfg settings_of test_out_dir has_logfile keep_active]; [by rewrite Hout; destruct (_ =? 1)|by rewrite Hl|lia]. }
  assert (starts_of a cs = Z.of_nat (length cs)) as Hstarts by (unfold starts_of, default_starts; by rewrite Htm, Hst, Hseq).
  assert (wp_exit (ltp_pan fuel options [] argv) (view_of (pan_start z))
    (at_end cfg [startup_text false] others (length cs))) as Hwp.
  2:{ destruct (Hwp _ eq_refl) as (code & s' & E & ends & lines & -> & Hex & Hran & Hall & Hlog & Hlines & Hch & Hz).
      change (length cs) with (length (coll cfg)) in Hex, Hran. rewrite commands_all in Hex, Hran.
      exists ends, lines, s'. split; [|by repeat split]. rewrite E. unfold exits. cbn [cfg settings_of track_exit_stats].
      by destruct (a_track_exit_stats a). }
  unfold ltp_pan. apply wp_exit_bind. eapply wp_mono; [by apply silent_options|]. rewrite <- Ha. intros ? v [-> ->].
  rewrite Hname, Hzn. apply wp_exit_bind. unfold open_log. rewrite Hl, Hfmt.
  assert (silent (p_when (negb (bool_decide (l = lit "-"))) (open_append (Some l))) ()) as Hsl.
  { intros v. apply wp_when; intros E; [|done]. apply silent_append. intros f [= <-].
    destruct Hlopen as [->|]; [by rewrite bool_decide_true in E|done]. }
  apply (wp_silent _ _ _ _ _ Hsl), wp_log. apply wp_exit_bind.
  destruct ts as [|t ts]; [done|]. rewrite Hfile, get_collection_text by done. rewrite Ecs. apply wp_lift. fold cs. rewrite Hmal. cbn [negb].
  destruct (Z.ltb_spec (a_keep_active a) 0); [lia|]. cbv zeta. fold cfg. rewrite Hstarts, Hroad.
  apply wp_exit_bind, wp_set_up, wp_exit_bind.
  change (settings_of a name cs) with cfg. rewrite (io_out _ Hin). cbn [p_when]. apply wp_ret, wp_exit_bind.
  apply (wp_silent' (open_append (a_outputfilename a)) ()); [by apply silent_append; eauto|]. apply wp_exit_bind.
  apply (wp_silent' (open_append (a_failcmdfilename a)) ()); [by apply silent_append; eauto|].
  destruct (pf_zoo_open zooname) as [[r1 r2] r3]. cbn [fst] in Hzo. subst r1. apply wp_exit_bind.
  eapply wp_zoo; [reflexivity|]. apply pan_main_run with (base := base) (z := z); try done.
  simpl. lia.
Qed.
End FileRun.

(** -r RTS is understood, and then no report is written. *)
Lemma report_uppercase : report_type (Some (lit "RTS")) = lit "RTS" ∧ reports (Some (lit "RTS")) = false.
Proof. split; by vm_compute. Qed.
(** Without -n nothing is started, whatever other options come before. *)
Lemma no_name `{OS : pan_os} {Files : pan_files} fuel options args argv s :
  Forall plain_opt options → a_panname (foldl apply_option pan_args0 options) = None →
  ∃ s', ltp_pan fuel options args argv s = (Exit 1, s') ∧ view_of s' = view_of s.
Proof.
  intros Hplain Hname. destruct (silent_options _ pan_args0 Hplain (view_of s) s eq_refl) as (a & s' & E & -> & Hs').
  exists s'. unfold ltp_pan. rewrite (p_bind_ok _ _ _ _ _ E), Hname. done.
Qed.

(** ** The example: two commands of a file *)

Definition demo_texts : list coll_text :=
  [Comment (lit "# mce tests"); Command (lit "t1") (lit "true"); Comment []; Command (lit "t2") (lit "ls | wc"); Comment []].
Definition demo_files : pan_files := {|
  pf_zoo := None; pf_append _ := true; pf_slurp _ := Some (intercalate [NL] (text_line <$> demo_texts));
  pf_dir _ := true; pf_zoo_open _ := (fopen_done, fopen_done, fopen_done); pf_malloc := true; pf_ctime := lit "today"
|}.
#[local] Existing Instance demo_files.
#[local] Existing Instance calm_os.
Definition demo_words : list cstr :=
  lit <$> ["-q"; "-S"; "-e"; "-npan"; "-a"; "/tmp/zoo"; "-f"; "cmds"; "-l"; "log"; "-x2"]%string.
Definition demo_calls : list opt_ret :=
  [Got "q" None; Got "S" None; Got "e" None; Got "n" (Some (lit "pan")); Got "a" (Some (lit "/tmp/zoo"));
   Got "f" (Some (lit "cmds")); Got "l" (Some (lit "log")); Got "x" (Some (lit "2"))]%char.
Definition demo_options : list pan_opt := pan_opt_of <$> demo_calls.
Lemma demo_command : command pan_table demo_words demo_calls [].
Proof.
  apply (cmd_option _ _ [lit "-q"]); [by constructor|]. apply (cmd_option _ _ [lit "-S"]); [by constructor|].
  apply (cmd_option _ _ [lit "-e"]); [by constructor|].
  apply (cmd_option _ _ [lit "-npan"]); [by apply (spell_arg_joined _ "n"%char (lit "pan"))|].
  apply (cmd_option _ _ [lit "-a"; lit "/tmp/zoo"]); [by constructor|].
  apply (cmd_option _ _ [lit "-f"; lit "cmds"]); [by constructor|].
  apply (cmd_option _ _ [lit "-l"; lit "log"]); [by constructor|].
  apply (cmd_option _ _ [lit "-x2"]); [by apply (spell_arg_joined _ "x"%char (lit "2"))|]. constructor.
Qed.
Definition demo_args : pan_args := foldl apply_option pan_args0 demo_options.

Lemma demo_command_line : command_line demo_options demo_args (lit "pan") demo_texts.
Proof.
  split; try done.
  - by repeat constructor.
  - split; [done|]. split_and!; by apply (bool_decide_unpack _); vm_compute.
  - by exists (lit "/tmp/zoo").
  - exists (lit "log"). split; [done|]. by right.
  - split; [done|]. repeat apply Forall_cons_2; try apply Forall_nil_2; cbn [text_ok]; split_and?; try done;
      by apply (bool_decide_unpack _); vm_compute.
  - split; [done|]. repeat apply Forall_cons_2; try apply Forall_nil_2; split_and!;
      by apply (bool_decide_unpack _); vm_compute.
Qed.

Lemma ltp_pan_runs_file_witness : ∃ ends lines s',
  pan_program 5 (lit "ltp-pan") demo_words (pan_start demo_zoo) = (Exit (uwrap 8 (failures ends)), s')
  ∧ ends.*1 ≡ₚ [CollEntry (lit "t1") (lit "true") false; CollEntry (lit "t2") (lit "ls | wc") false]
  ∧ w_log (p_world s') = startup_text false :: lines.
Proof.
  assert (Forall (λ w, NL ∉ w) (lit "ltp-pan" :: demo_words)) as H2 by (by apply (bool_decide_unpack _); vm_compute).
  assert (length (omap text_entry demo_texts) + Z.to_nat (a_keep_active demo_args) < 5)%nat as H3
    by (by apply (bool_decide_unpack _); vm_compute).
  assert (zoo_ready [4711; 12] (settings_of demo_args (lit "pan") (omap text_entry demo_texts)) demo_zoo (live demo_records)) as H4.
  { split; [apply demo_ready|apply demo_ready|apply demo_ready]. }
  destruct (ltp_pan_runs_file [4711; 12] 5 (lit "ltp-pan") demo_words demo_calls demo_args (lit "pan") demo_texts demo_zoo
    (live demo_records) demo_command demo_command_line calm_os_calm H4 H2 H3) as (ends & lines & s' & E & _ & Hran & _ & Hlog & _).
  exists ends, lines, s'. split; [exact E|]. split; [exact Hran|exact Hlog].
Defined.
Example ltp_pan_code : (pan_program 5 (lit "ltp-pan") demo_words (pan_start demo_zoo)).1 = Exit 1.
Proof. by vm_compute. Qed.
