(* ===== verification/Cper.v ===== *)
(** * Cper: the common platform error record (cper.h, uuid.h)

    The packed structures of cases/function/erst-inject/cper.h as the bytes they
    occupy, [LGUID] of uuid.h, and the constants and GUIDs the header defines.
    A byte is a [Z] in [0, 256).  A structure is a [Record] with its members; its
    layout, a list of member types, gives the conversions from and to bytes. *)
From Stdlib Require Import String.
From S2P Require Import Prelude CLib.

(** ** Packed structures *)

(** A little-endian object of [n] bytes. *)
Fixpoint le_bytes (n : nat) (x : Z) : list Z :=
  match n with
  | O => []
  | S n' => x .& 0xff :: le_bytes n' (x .>> 8)
  end.

Fixpoint le_val (l : list Z) : Z :=
  match l with
  | [] => 0
  | b :: l' => b .| (le_val l' .<< 8)
  end.

Definition lguid_t : Type := list Z.

Definition LGUID (a b c d0 d1 d2 d3 d4 d5 d6 d7 : Z) : lguid_t :=
  [a .& 0xff; (a .>> 8) .& 0xff; (a .>> 16) .& 0xff; (a .>> 24) .& 0xff;
   b .& 0xff; (b .>> 8) .& 0xff;
   c .& 0xff; (c .>> 8) .& 0xff;
   d0; d1; d2; d3; d4; d5; d6; d7].

(** [memset] of a GUID and of an array of bytes. *)
Definition zero_bytes (n : nat) : list Z := replicate n 0.

(** ** Constants *)

Definition CPER_SER_RECOVERABLE : Z := 0x0.
Definition CPER_SER_FATAL : Z := 0x1.
Definition CPER_SER_CORRECTED : Z := 0x2.
Definition CPER_SER_INFORMATIONAL : Z := 0x3.
Definition CPER_VALID_PLATFORM_ID : Z := 0x0001.
Definition CPER_VALID_TIMESTAMP : Z := 0x0002.
Definition CPER_VALID_PARTITION_ID : Z := 0x0004.
Definition CPER_HW_ERROR_FLAGS_RECOVERED : Z := 0x1.
Definition CPER_HW_ERROR_FLAGS_PREVERR : Z := 0x2.
Definition CPER_HW_ERROR_FLAGS_SIMULATED : Z := 0x4.
Definition CPER_SEC_VALID_FRU_ID : Z := 0x1.
Definition CPER_SEC_VALID_FRU_STRING : Z := 0x2.
Definition CPER_SEC_PRIMARY : Z := 0x0001.
Definition CPER_SEC_CONTAINMENT_WARNING : Z := 0x0002.
Definition CPER_SEC_RESET : Z := 0x0004.
Definition CPER_SEC_ERROR_THRESHOLD_EXCEEDED : Z := 0x0008.
Definition CPER_SEC_RESOURCE_NOT_ACCESSIBLE : Z := 0x0010.
Definition CPER_SEC_LATENT_ERROR : Z := 0x0020.
Definition CPER_SIG_SIZE : nat := 4.
Definition CPER_SIG_RECORD : list Z := (λ c, Z.of_N (N_of_ascii c)) <$> lit "REPC".

(** [CPER_SEC_PROC_IPF] has an argument too many and cannot be used. *)
Definition CPER_NOTIFY_CMC : lguid_t :=
  LGUID 0x2DCE8BB1 0xBDD7 0x450e 0xB9 0xAD 0x9C 0xF4 0xEB 0xD4 0xF8 0x90.
Definition CPER_NOTIFY_CPE : lguid_t :=
  LGUID 0x4E292F96 0xD843 0x4a55 0xA8 0xC2 0xD4 0x81 0xF2 0x7E 0xBE 0xEE.
Definition CPER_NOTIFY_MCE : lguid_t :=
  LGUID 0xE8F56FFE 0x919C 0x4cc5 0xBA 0x88 0x65 0xAB 0xE1 0x49 0x13 0xBB.
Definition CPER_NOTIFY_PCIE : lguid_t :=
  LGUID 0xCF93C01F 0x1A16 0x4dfc 0xB8 0xBC 0x9C 0x4D 0xAF 0x67 0xC1 0x04.
Definition CPER_NOTIFY_INIT : lguid_t :=
  LGUID 0xCC5263E8 0x9308 0x454a 0x89 0xD0 0x34 0x0B 0xD3 0x9B 0xC9 0x8E.
Definition CPER_NOTIFY_NMI : lguid_t :=
  LGUID 0x5BAD89FF 0xB7E6 0x42c9 0x81 0x4A 0xCF 0x24 0x85 0xD6 0xE9 0x8A.
Definition CPER_NOTIFY_BOOT : lguid_t :=
  LGUID 0x3D61A466 0xAB40 0x409a 0xA6 0x98 0xF3 0x62 0xD4 0x64 0xB3 0x8F.
Definition CPER_NOTIFY_DMAR : lguid_t :=
  LGUID 0x667DD791 0xC6B3 0x4c27 0x8A 0x6B 0x0F 0x8E 0x72 0x2D 0xEB 0x41.
Definition CPER_SEC_PROC_GENERIC : lguid_t :=
  LGUID 0x9876CCAD 0x47B4 0x4bdb 0xB6 0x5E 0x16 0xF1 0x93 0xC4 0xF3 0xDB.
Definition CPER_SEC_PROC_IA : lguid_t :=
  LGUID 0xDC3EA0B0 0xA144 0x4797 0xB9 0x5B 0x53 0xFA 0x24 0x2B 0x6E 0x1D.
Definition CPER_SEC_PLATFORM_MEM : lguid_t :=
  LGUID 0xA5BC1114 0x6F64 0x4EDE 0xB8 0x63 0x3E 0x83 0xED 0x7C 0x83 0xB1.
Definition CPER_SEC_PCIE : lguid_t :=
  LGUID 0xD995E954 0xBBC1 0x430F 0xAD 0x91 0xB4 0x4D 0xCB 0x3C 0x6F 0x35.
Definition CPER_SEC_FW_ERR_REC_REF : lguid_t :=
  LGUID 0x81212A96 0x09ED 0x4996 0x94 0x71 0x8D 0x72 0x9C 0x8E 0x69 0xED.
Definition CPER_SEC_PCI_X_BUS : lguid_t :=
  LGUID 0xC5753963 0x3B84 0x4095 0xBF 0x78 0xED 0xDA 0xD3 0xF9 0xC9 0xDD.
Definition CPER_SEC_PCI_DEV : lguid_t :=
  LGUID 0xEB5E4685 0xCA66 0x4769 0xB6 0xA2 0x26 0x06 0x8B 0x00 0x13 0x26.
Definition CPER_SEC_DMAR_GENERIC : lguid_t :=
  LGUID 0x5B51FEF7 0xC79D 0x4434 0x8F 0x1B 0xAA 0x62 0xDE 0x3E 0x2C 0x64.
Definition CPER_SEC_DMAR_VT : lguid_t :=
  LGUID 0x71761D37 0x32B2 0x45cd 0xA7 0xD0 0xB0 0xFE 0xDD 0x93 0xE8 0xCF.
Definition CPER_SEC_DMAR_IOMMU : lguid_t :=
  LGUID 0x036F84E1 0x7F37 0x428c 0xA7 0x9E 0x57 0x5F 0xDF 0xAA 0x84 0xEC.

Definition notify_guids : list lguid_t :=
  [CPER_NOTIFY_CMC; CPER_NOTIFY_CPE; CPER_NOTIFY_MCE; CPER_NOTIFY_PCIE; CPER_NOTIFY_INIT; CPER_NOTIFY_NMI;
    CPER_NOTIFY_BOOT; CPER_NOTIFY_DMAR].
Definition section_guids : list lguid_t :=
  [CPER_SEC_PROC_GENERIC; CPER_SEC_PROC_IA; CPER_SEC_PLATFORM_MEM; CPER_SEC_PCIE; CPER_SEC_FW_ERR_REC_REF;
    CPER_SEC_PCI_X_BUS; CPER_SEC_PCI_DEV; CPER_SEC_DMAR_GENERIC; CPER_SEC_DMAR_VT; CPER_SEC_DMAR_IOMMU].

(** ** The structures *)

Record cper_record_header := RecordHeader {
  rh_signature : list Z;
  rh_revision : Z;
  rh_signature_end : Z;
  rh_section_count : Z;
  rh_error_severity : Z;
  rh_validation_bits : Z;
  rh_record_length : Z;
  rh_timestamp : Z;
  rh_platform_id : lguid_t;
  rh_partition_id : lguid_t;
  rh_creator_id : lguid_t;
  rh_notification_type : lguid_t;
  rh_record_id : Z;
  rh_flags : Z;
  rh_persistence_information : Z;
  rh_reserved : list Z
}.

Record cper_section_descriptor := SectionDescriptor {
  sd_section_offset : Z;
  sd_section_length : Z;
  sd_revision : Z;
  sd_validation_bits : Z;
  sd_reserved : Z;
  sd_flags : Z;
  sd_section_type : lguid_t;
  sd_fru_id : lguid_t;
  sd_section_severity : Z;
  sd_fru_text : list Z
}.

Record cper_sec_proc_generic := SecProcGeneric {
  pg_validation_bits : Z;
  pg_proc_type : Z;
  pg_proc_isa : Z;
  pg_proc_error_type : Z;
  pg_operation : Z;
  pg_flags : Z;
  pg_level : Z;
  pg_reserved : Z;
  pg_cpu_version : Z;
  pg_cpu_brand : list Z;
  pg_proc_id : Z;
  pg_target_addr : Z;
  pg_requestor_id : Z;
  pg_responder_id : Z;
  pg_ip : Z
}.

Record cper_sec_proc_ia := SecProcIa {
  pi_validation_bits : Z;
  pi_lapic_id : Z;
  pi_cpuid : list Z
}.

Record cper_ia_err_info := IaErrInfo {
  ie_err_type : lguid_t;
  ie_validation_bits : Z;
  ie_check_info : Z;
  ie_target_id : Z;
  ie_requestor_id : Z;
  ie_responder_id : Z;
  ie_ip : Z
}.

Record cper_ia_proc_ctx := IaProcCtx {
  pc_reg_ctx_type : Z;
  pc_reg_arr_size : Z;
  pc_msr_addr : Z;
  pc_mm_reg_addr : Z
}.

Record cper_sec_mem_err := SecMemErr {
  me_validation_bits : Z;
  me_error_status : Z;
  me_physical_addr : Z;
  me_physical_addr_mask : Z;
  me_node : Z;
  me_card : Z;
  me_module : Z;
  me_bank : Z;
  me_device : Z;
  me_row : Z;
  me_column : Z;
  me_bit_pos : Z;
  me_requestor_id : Z;
  me_responder_id : Z;
  me_target_id : Z;
  me_error_type : Z
}.

(** The bytes of the members in order, without padding ([pragma pack(1)]). *)
Definition header_fields (h : cper_record_header) : list (list Z) :=
  [rh_signature h; le_bytes 2 (rh_revision h); le_bytes 4 (rh_signature_end h);
   le_bytes 2 (rh_section_count h); le_bytes 4 (rh_error_severity h);
   le_bytes 4 (rh_validation_bits h); le_bytes 4 (rh_record_length h);
   le_bytes 8 (rh_timestamp h); rh_platform_id h; rh_partition_id h;
   rh_creator_id h; rh_notification_type h; le_bytes 8 (rh_record_id h);
   le_bytes 4 (rh_flags h); le_bytes 8 (rh_persistence_information h); rh_reserved h].
Definition descriptor_fields (d : cper_section_descriptor) : list (list Z) :=
  [le_bytes 4 (sd_section_offset d); le_bytes 4 (sd_section_length d);
   le_bytes 2 (sd_revision d); le_bytes 1 (sd_validation_bits d);
   le_bytes 1 (sd_reserved d); le_bytes 4 (sd_flags d); sd_section_type d;
   sd_fru_id d; le_bytes 4 (sd_section_severity d); sd_fru_text d].
Definition mem_err_fields (e : cper_sec_mem_err) : list (list Z) :=
  [le_bytes 8 (me_validation_bits e); le_bytes 8 (me_error_status e);
   le_bytes 8 (me_physical_addr e); le_bytes 8 (me_physical_addr_mask e);
   le_bytes 2 (me_node e); le_bytes 2 (me_card e); le_bytes 2 (me_module e);
   le_bytes 2 (me_bank e); le_bytes 2 (me_device e); le_bytes 2 (me_row e);
   le_bytes 2 (me_column e); le_bytes 2 (me_bit_pos e);
   le_bytes 8 (me_requestor_id e); le_bytes 8 (me_responder_id e);
   le_bytes 8 (me_target_id e); le_bytes 1 (me_error_type e)].

(** The widths of the members, the size of a structure and the offset of its
    [i]-th member. *)
Definition header_widths : list nat := [4; 2; 4; 2; 4; 4; 4; 8; 16; 16; 16; 16; 8; 4; 8; 12]%nat.
Definition descriptor_widths : list nat := [4; 4; 2; 1; 1; 4; 16; 16; 4; 20]%nat.
Definition mem_err_widths : list nat := [8; 8; 8; 8; 2; 2; 2; 2; 2; 2; 2; 2; 8; 8; 8; 1]%nat.
Definition sizeof (ws : list nat) : nat := sum_list ws.
Definition offsetof (ws : list nat) (i : nat) : nat := sum_list (take i ws).
(** The [i]-th member of the structure at the start of [buf]. *)
Definition member (ws : list nat) (i : nat) (buf : list Z) : list Z :=
  take (nth i ws 0%nat) (drop (offsetof ws i) buf).

(** ** Lemmas: little-endian bytes and packed members *)

Definition is_byte (b : Z) : Prop := 0 ≤ b < 256.
#[export] Instance is_byte_dec b : Decision (is_byte b).
Proof. unfold is_byte. apply _. Defined.

Lemma length_le_bytes n x : length (le_bytes n x) = n.
Proof. revert x. induction n as [|n IH]; intros x; simpl; [done|]. by rewrite IH. Qed.

Lemma land_ff x : x .& 0xff = x `mod` 256.
Proof. change 0xff with (Z.ones 8). by rewrite Z.land_ones. Qed.

Lemma le_bytes_range n x : Forall is_byte (le_bytes n x).
Proof.
  revert x. induction n as [|n IH]; intros x; cbn [le_bytes]; constructor; [|apply IH].
  rewrite land_ff. apply Z.mod_pos_bound. lia.
Qed.

(** What a little-endian object of [n] bytes holds. *)
Lemma le_val_le_bytes n x : le_val (le_bytes n x) = x `mod` 2 ^ (8 * Z.of_nat n).
Proof.
  revert x. induction n as [|n IH]; intros x; cbn [le_bytes le_val].
  { by rewrite Z.mod_1_r. }
  rewrite IH, <- !Z.land_ones by lia. change 0xff with (Z.ones 8).
  apply Z.bits_inj'. intros k Hk.
  rewrite Z.lor_spec, Z.land_spec, Z.shiftl_spec, !Z.land_spec by done.
  rewrite !Z.testbit_ones by lia.
  destruct (Z.lt_ge_cases k 8).
  - rewrite (Z.testbit_neg_r _ (k - 8)) by lia. bool_cases; simpl; try lia;
      by rewrite ?andb_false_r, ?orb_false_r.
  - rewrite Z.shiftr_spec by lia. replace (k - 8 + 8) with k by lia.
    bool_cases; simpl; try lia; by rewrite ?andb_false_r.
Qed.

Lemma le_val_small n x : 0 ≤ x < 2 ^ (8 * Z.of_nat n) → le_val (le_bytes n x) = x.
Proof. intros Hx. rewrite le_val_le_bytes. by rewrite Z.mod_small. Qed.

(** The members of a packed structure are its fields. *)
Lemma member_concat (fs : list (list Z)) (rest f : list Z) i :
  fs !! i = Some f → member (length <$> fs) i (concat fs ++ rest) = f.
Proof.
  unfold member, offsetof. revert i. induction fs as [|g fs IH]; intros i Hi; [done|].
  destruct i as [|i]; simpl in *.
  - injection Hi as ->. by rewrite drop_0, <- app_assoc, take_app_length.
  - rewrite <- app_assoc, drop_app_add. by apply IH.
Qed.

Lemma length_concat (fs : list (list Z)) : length (concat fs) = sizeof (length <$> fs).
Proof.
  unfold sizeof. induction fs as [|f fs IH]; simpl; [done|]. by rewrite length_app, IH.
Qed.

(** ** Layouts

    A member is an integer of some bytes, little-endian, or an array of bytes. *)
Inductive ctype := Int (n : nat) | Arr (n : nat).
Definition width (t : ctype) : nat := match t with Int n | Arr n => n end.
Definition value (t : ctype) : Type := match t with Int _ => Z | Arr _ => list Z end.
Definition encode (t : ctype) : value t → list Z :=
  match t with Int n => λ x, le_bytes n x | Arr _ => λ l, l end.
Definition decode (t : ctype) : list Z → value t :=
  match t with Int _ => λ b, le_val b | Arr _ => λ b, b end.
(** The values a member of the type has. *)
Definition fits (t : ctype) : value t → Prop :=
  match t with
  | Int n => λ x, 0 ≤ x < 2 ^ (8 * Z.of_nat n)
  | Arr n => λ l, length l = n ∧ Forall is_byte l
  end.

Fixpoint values (l : list ctype) : Type := match l with [] => unit | t :: l => value t * values l end.
Fixpoint pack (l : list ctype) : values l → list Z :=
  match l with [] => λ _, [] | t :: l => λ v, encode t v.1 ++ pack l v.2 end.
Fixpoint unpack (l : list ctype) (b : list Z) : values l :=
  match l with [] => () | t :: l => (decode t (take (width t) b), unpack l (drop (width t) b)) end.
Fixpoint fit (l : list ctype) : values l → Prop :=
  match l with [] => λ _, True | t :: l => λ v, fits t v.1 ∧ fit l v.2 end.
Definition packed_size (l : list ctype) : nat := sizeof (width <$> l).

(** A structure and its members. *)
Class Packed (R : Type) := {
  layout : list ctype;
  members : R → values layout;
  of_members : values layout → R;
  of_members_members r : of_members (members r) = r;
  members_of_members v : members (of_members v) = v
}.
Definition to_bytes {R} `{!Packed R} (r : R) : list Z := pack layout (members r).
Definition of_bytes {R} `{!Packed R} (b : list Z) : R := of_members (unpack layout b).
Definition valid {R} `{!Packed R} (r : R) : Prop := fit layout (members r).

(** A nested pair is the pair of its parts. *)
Ltac unpair v := cbv in v;
  repeat match goal with H : (_ * _)%type |- _ => destruct H | H : unit |- _ => destruct H end; reflexivity.

Definition header_types : list ctype :=
  [Arr CPER_SIG_SIZE; Int 2; Int 4; Int 2; Int 4; Int 4; Int 4; Int 8; Arr 16; Arr 16; Arr 16; Arr 16; Int 8;
    Int 4; Int 8; Arr 12]%nat.
Definition header_members (r : cper_record_header) : values header_types :=
  (rh_signature r, (rh_revision r, (rh_signature_end r, (rh_section_count r, (rh_error_severity r,
    (rh_validation_bits r, (rh_record_length r, (rh_timestamp r, (rh_platform_id r, (rh_partition_id r,
    (rh_creator_id r, (rh_notification_type r, (rh_record_id r, (rh_flags r, (rh_persistence_information r,
    (rh_reserved r, ())))))))))))))))).
Definition header_of (v : values header_types) : cper_record_header :=
  let '(x0, (x1, (x2, (x3, (x4, (x5, (x6, (x7, (x8, (x9, (x10, (x11, (x12, (x13, (x14, (x15, _)))))))))))))))) := v in
  RecordHeader x0 x1 x2 x3 x4 x5 x6 x7 x8 x9 x10 x11 x12 x13 x14 x15.
Lemma header_of_members r : header_of (header_members r) = r.
Proof. by destruct r. Qed.
Lemma header_members_of v : header_members (header_of v) = v.
Proof. unpair v. Qed.
#[export] Instance header_packed : Packed cper_record_header :=
  {| layout := header_types; of_members_members := header_of_members; members_of_members := header_members_of |}.

Definition descriptor_types : list ctype :=
  [Int 4; Int 4; Int 2; Int 1; Int 1; Int 4; Arr 16; Arr 16; Int 4; Arr 20]%nat.
Definition descriptor_members (r : cper_section_descriptor) : values descriptor_types :=
  (sd_section_offset r, (sd_section_length r, (sd_revision r, (sd_validation_bits r, (sd_reserved r, (sd_flags
    r, (sd_section_type r, (sd_fru_id r, (sd_section_severity r, (sd_fru_text r, ())))))))))).
Definition descriptor_of (v : values descriptor_types) : cper_section_descriptor :=
  let '(x0, (x1, (x2, (x3, (x4, (x5, (x6, (x7, (x8, (x9, _)))))))))) := v in
  SectionDescriptor x0 x1 x2 x3 x4 x5 x6 x7 x8 x9.
Lemma descriptor_of_members r : descriptor_of (descriptor_members r) = r.
Proof. by destruct r. Qed.
Lemma descriptor_members_of v : descriptor_members (descriptor_of v) = v.
Proof. unpair v. Qed.
#[export] Instance descriptor_packed : Packed cper_section_descriptor :=
  {| layout := descriptor_types; of_members_members := descriptor_of_members; members_of_members :=
    descriptor_members_of |}.

Definition proc_generic_types : list ctype :=
  [Int 8; Int 1; Int 1; Int 1; Int 1; Int 1; Int 1; Int 2; Int 8; Arr 128; Int 8; Int 8; Int 8; Int 8; Int 8]%nat.
Definition proc_generic_members (r : cper_sec_proc_generic) : values proc_generic_types :=
  (pg_validation_bits r, (pg_proc_type r, (pg_proc_isa r, (pg_proc_error_type r, (pg_operation r, (pg_flags r,
    (pg_level r, (pg_reserved r, (pg_cpu_version r, (pg_cpu_brand r, (pg_proc_id r, (pg_target_addr r,
    (pg_requestor_id r, (pg_responder_id r, (pg_ip r, ()))))))))))))))).
Definition proc_generic_of (v : values proc_generic_types) : cper_sec_proc_generic :=
  let '(x0, (x1, (x2, (x3, (x4, (x5, (x6, (x7, (x8, (x9, (x10, (x11, (x12, (x13, (x14, _))))))))))))))) := v in
  SecProcGeneric x0 x1 x2 x3 x4 x5 x6 x7 x8 x9 x10 x11 x12 x13 x14.
Lemma proc_generic_of_members r : proc_generic_of (proc_generic_members r) = r.
Proof. by destruct r. Qed.
Lemma proc_generic_members_of v : proc_generic_members (proc_generic_of v) = v.
Proof. unpair v. Qed.
#[export] Instance proc_generic_packed : Packed cper_sec_proc_generic :=
  {| layout := proc_generic_types; of_members_members := proc_generic_of_members; members_of_members :=
    proc_generic_members_of |}.

Definition proc_ia_types : list ctype :=
  [Int 8; Int 1; Arr 48]%nat.
Definition proc_ia_members (r : cper_sec_proc_ia) : values proc_ia_types :=
  (pi_validation_bits r, (pi_lapic_id r, (pi_cpuid r, ()))).
Definition proc_ia_of (v : values proc_ia_types) : cper_sec_proc_ia :=
  let '(x0, (x1, (x2, _))) := v in
  SecProcIa x0 x1 x2.
Lemma proc_ia_of_members r : proc_ia_of (proc_ia_members r) = r.
Proof. by destruct r. Qed.
Lemma proc_ia_members_of v : proc_ia_members (proc_ia_of v) = v.
Proof. unpair v. Qed.
#[export] Instance proc_ia_packed : Packed cper_sec_proc_ia :=
  {| layout := proc_ia_types; of_members_members := proc_ia_of_members; members_of_members := proc_ia_members_of |}.

Definition ia_err_info_types : list ctype :=
  [Arr 16; Int 8; Int 8; Int 8; Int 8; Int 8; Int 8]%nat.
Definition ia_err_info_members (r : cper_ia_err_info) : values ia_err_info_types :=
  (ie_err_type r, (ie_validation_bits r, (ie_check_info r, (ie_target_id r, (ie_requestor_id r, (ie_responder_id
    r, (ie_ip r, ()))))))).
Definition ia_err_info_of (v : values ia_err_info_types) : cper_ia_err_info :=
  let '(x0, (x1, (x2, (x3, (x4, (x5, (x6, _))))))) := v in
  IaErrInfo x0 x1 x2 x3 x4 x5 x6.
Lemma ia_err_info_of_members r : ia_err_info_of (ia_err_info_members r) = r.
Proof. by destruct r. Qed.
Lemma ia_err_info_members_of v : ia_err_info_members (ia_err_info_of v) = v.
Proof. unpair v. Qed.
#[export] Instance ia_err_info_packed : Packed cper_ia_err_info :=
  {| layout := ia_err_info_types; of_members_members := ia_err_info_of_members; members_of_members :=
    ia_err_info_members_of |}.

Definition ia_proc_ctx_types : list ctype :=
  [Int 2; Int 2; Int 4; Int 8]%nat.
Definition ia_proc_ctx_members (r : cper_ia_proc_ctx) : values ia_proc_ctx_types :=
  (pc_reg_ctx_type r, (pc_reg_arr_size r, (pc_msr_addr r, (pc_mm_reg_addr r, ())))).
Definition ia_proc_ctx_of (v : values ia_proc_ctx_types) : cper_ia_proc_ctx :=
  let '(x0, (x1, (x2, (x3, _)))) := v in
  IaProcCtx x0 x1 x2 x3.
Lemma ia_proc_ctx_of_members r : ia_proc_ctx_of (ia_proc_ctx_members r) = r.
Proof. by destruct r. Qed.
Lemma ia_proc_ctx_members_of v : ia_proc_ctx_members (ia_proc_ctx_of v) = v.
Proof. unpair v. Qed.
#[export] Instance ia_proc_ctx_packed : Packed cper_ia_proc_ctx :=
  {| layout := ia_proc_ctx_types; of_members_members := ia_proc_ctx_of_members; members_of_members :=
    ia_proc_ctx_members_of |}.

Definition mem_err_types : list ctype :=
  [Int 8; Int 8; Int 8; Int 8; Int 2; Int 2; Int 2; Int 2; Int 2; Int 2; Int 2; Int 2; Int 8; Int 8; Int 8; Int
    1]%nat.
Definition mem_err_members (r : cper_sec_mem_err) : values mem_err_types :=
  (me_validation_bits r, (me_error_status r, (me_physical_addr r, (me_physical_addr_mask r, (me_node r, (me_card
    r, (me_module r, (me_bank r, (me_device r, (me_row r, (me_column r, (me_bit_pos r, (me_requestor_id r,
    (me_responder_id r, (me_target_id r, (me_error_type r, ())))))))))))))))).
Definition mem_err_of (v : values mem_err_types) : cper_sec_mem_err :=
  let '(x0, (x1, (x2, (x3, (x4, (x5, (x6, (x7, (x8, (x9, (x10, (x11, (x12, (x13, (x14, (x15, _)))))))))))))))) := v in
  SecMemErr x0 x1 x2 x3 x4 x5 x6 x7 x8 x9 x10 x11 x12 x13 x14 x15.
Lemma mem_err_of_members r : mem_err_of (mem_err_members r) = r.
Proof. by destruct r. Qed.
Lemma mem_err_members_of v : mem_err_members (mem_err_of v) = v.
Proof. unpair v. Qed.
#[export] Instance mem_err_packed : Packed cper_sec_mem_err :=
  {| layout := mem_err_types; of_members_members := mem_err_of_members; members_of_members := mem_err_members_of |}.

(** ** Lemmas: conversions *)

Lemma lor_byte b v : is_byte b → b .| (v .<< 8) = b + 256 * v.
Proof.
  intros Hb. unfold is_byte in Hb. assert (Z.land b (Z.shiftl v 8) = 0) as H0.
  { apply Z.bits_inj'. intros k Hk. rewrite Z.land_spec, Z.bits_0.
    destruct (Z.lt_ge_cases k 8); [by rewrite Z.shiftl_spec_low, andb_false_r by lia|].
    replace b with (b mod 2 ^ 8) by (apply Z.mod_small; lia). by rewrite Z.mod_pow2_bits_high by lia. }
  pose proof (Z.add_lor_land b (v .<< 8)) as E. rewrite H0, Z.shiftl_mul_pow2 in *  by lia. lia.
Qed.
Lemma le_val_cons b l : is_byte b → le_val (b :: l) = b + 256 * le_val l.
Proof. intros. by apply lor_byte. Qed.
Lemma le_val_range l : Forall is_byte l → 0 ≤ le_val l < 2 ^ (8 * Z.of_nat (length l)).
Proof.
  induction 1 as [|b l Hb Hl IH]; [done|]. rewrite le_val_cons by done. cbn [length]. unfold is_byte in Hb.
  replace (8 * Z.of_nat (S (length l))) with (8 + 8 * Z.of_nat (length l)) by lia.
  rewrite Z.pow_add_r by lia. change (2 ^ 8) with 256. nia.
Qed.
Lemma le_bytes_le_val l : Forall is_byte l → le_bytes (length l) (le_val l) = l.
Proof.
  induction 1 as [|b l Hb Hl IH]; [done|]. rewrite le_val_cons by done. cbn [length le_bytes]. unfold is_byte in Hb.
  rewrite land_ff, Z.shiftr_div_pow2 by lia. change (2 ^ 8) with 256.
  rewrite (Z.mul_comm 256), Z.mod_add, Z.mod_small, Z.div_add, Z.div_small, Z.add_0_l by lia. by rewrite IH.
Qed.

(** One member. *)
Lemma encode_spec t (v : value t) : fits t v →
  length (encode t v) = width t ∧ Forall is_byte (encode t v) ∧ decode t (encode t v) = v.
Proof.
  destruct t as [n|n]; cbn [fits encode width decode value] in *; [intros H|intros [? ?]; done].
  split; [apply length_le_bytes|]. split; [apply le_bytes_range|]. by apply le_val_small.
Qed.
Lemma decode_spec t b : length b = width t → Forall is_byte b → fits t (decode t b) ∧ encode t (decode t b) = b.
Proof.
  destruct t as [n|n]; cbn [fits encode width decode]; intros Hl Hb; [|done]. rewrite <- Hl.
  split; [by apply le_val_range|by apply le_bytes_le_val].
Qed.

(** All members. *)
Lemma pack_spec l (v : values l) rest : fit l v →
  length (pack l v) = packed_size l ∧ Forall is_byte (pack l v) ∧ unpack l (pack l v ++ rest) = v.
Proof.
  revert v. unfold packed_size, sizeof. induction l as [|t l IH]; intros v H; cbn [pack fit fmap list_fmap sum_list unpack id] in *.
  { by destruct v. }
  destruct v as [x v], H as [Hx Hv]. cbn [fst snd] in *.
  destruct (encode_spec t x Hx) as (L1 & B1 & D1). destruct (IH v Hv) as (L2 & B2 & D2).
  split; [by rewrite length_app, L1, L2|]. split; [by apply Forall_app|].
  rewrite <- app_assoc, take_app_length', drop_app_length' by done. by rewrite D1, D2.
Qed.
Lemma unpack_spec l b : length b = packed_size l → Forall is_byte b → fit l (unpack l b) ∧ pack l (unpack l b) = b.
Proof.
  revert b. unfold packed_size, sizeof. induction l as [|t l IH]; intros b Hl Hb; cbn [pack fit fmap list_fmap sum_list unpack fst snd id] in *.
  { by destruct b. }
  destruct (decode_spec t (take (width t) b)) as [F1 E1]; [rewrite length_take; lia|by apply Forall_take|].
  destruct (IH (drop (width t) b)) as [F2 E2]; [rewrite length_drop; lia|by apply Forall_drop|].
  split; [done|]. by rewrite E1, E2, take_drop.
Qed.

(** A structure has [n] bytes: its values are the strings of that length. *)
Definition packed_in (R : Type) `{!Packed R} (n : nat) : Prop :=
  (∀ (r : R) rest, valid r → length (to_bytes r) = n ∧ Forall is_byte (to_bytes r) ∧ of_bytes (to_bytes r ++ rest) = r)
  ∧ (∀ b, length b = n → Forall is_byte b → valid (of_bytes (R:=R) b) ∧ to_bytes (of_bytes (R:=R) b) = b).
Lemma packed_in_size R `{!Packed R} n : packed_size layout = n → packed_in R n.
Proof.
  intros <-. split.
  - intros r rest H. unfold to_bytes, of_bytes. destruct (pack_spec layout (members r) rest H) as (L & B & E).
    by rewrite E, of_members_members.
  - intros b Hl Hb. unfold valid, to_bytes, of_bytes. rewrite members_of_members. by apply unpack_spec.
Qed.

(** What [inject] of Erst writes of a structure are its bytes. *)
Lemma header_fields_bytes h : concat (header_fields h) = to_bytes h.
Proof. done. Qed.
Lemma descriptor_fields_bytes d : concat (descriptor_fields d) = to_bytes d.
Proof. done. Qed.
Lemma mem_err_fields_bytes e : concat (mem_err_fields e) = to_bytes e.
Proof. done. Qed.

(** The structures of cper.h are packed: each has the number of bytes that
    its members need and no padding; a structure whose members are in their
    ranges is read back from its bytes, whatever follows them; and every string
    of that many bytes is the bytes of one such structure. *)
Lemma cper_packed :
  packed_in cper_record_header 128 ∧ packed_in cper_section_descriptor 72 ∧ packed_in cper_sec_proc_generic 192
  ∧ packed_in cper_sec_proc_ia 57 ∧ packed_in cper_ia_err_info 64 ∧ packed_in cper_ia_proc_ctx 16
  ∧ packed_in cper_sec_mem_err 73.
Proof. split_and!; by apply packed_in_size. Qed.

(** ** The GUIDs *)

Lemma uint_bytes4 a : 0 ≤ a < 2 ^ 32 → le_val [a .& 0xff; (a .>> 8) .& 0xff; (a .>> 16) .& 0xff; (a .>> 24) .& 0xff] = a.
Proof. intros Ha. rewrite <- (le_val_small 4 a) at 5 by lia. cbn [le_bytes]. by rewrite !Z.shiftr_shiftr by lia. Qed.
Lemma uint_bytes2 a : 0 ≤ a < 2 ^ 16 → le_val [a .& 0xff; (a .>> 8) .& 0xff] = a.
Proof. intros Ha. by rewrite <- (le_val_small 2 a) at 3 by lia. Qed.

(** The parts of a GUID are read from its bytes; no two GUIDs of the header are
    the same, so that a section or notification type is known by its GUID. *)
Theorem guids_distinct :
  NoDup (notify_guids ++ section_guids)
  ∧ ∀ a b c d0 d1 d2 d3 d4 d5 d6 d7, 0 ≤ a < 2 ^ 32 → 0 ≤ b < 2 ^ 16 → 0 ≤ c < 2 ^ 16 →
      let g := LGUID a b c d0 d1 d2 d3 d4 d5 d6 d7 in
      le_val (take 4 g) = a ∧ le_val (take 2 (drop 4 g)) = b ∧ le_val (take 2 (drop 6 g)) = c ∧ drop 8 g = [d0; d1; d2; d3; d4; d5; d6; d7].
Proof.
  split; [apply (bool_decide_unpack _); by vm_compute|]. intros a b c **.
  split; [by apply uint_bytes4|]. split; [by apply uint_bytes2|]. split; [by apply uint_bytes2|done].
Qed.
