(* ===== verification/Erst.v ===== *)
(** * Erst: erst-inject, the test of the error record serialization table

    cases/function/erst-inject: [inject], [poll], [clear], [get_record_count]
    and [main] of erst-inject.c, over the structures of Cper.  The device
    /dev/erst_dbg and [malloc] are the class [erst_dev];
    what the driver documents about the records is the class [erst_laws], and
    [store_dev] is a driver that satisfies it. *)
From Stdlib Require Import String.
From S2P Require Import Prelude CLib Getopt Cper.

Definition CPER_CREATOR_LINUX : lguid_t :=
  LGUID 0x94DB0E05 0xEE60 0x42D8 0x91 0xA5 0xC6 0xC0 0x02 0x41 0x6C 0x6A.

(** ** The system *)

Class erst_dev (D : Type) := {
  (** [open] of the device: a descriptor, or not *)
  dev_open : D → bool * D;
  (** what [malloc] gives: the bytes that happen to be there, or NULL *)
  dev_malloc : Z → D → option (list Z);
  (** [write], [read] and the two requests of [ioctl]: the value returned *)
  dev_write : D → list Z → Z * D;
  dev_read : D → Z → Z * list Z * D;
  dev_clear : D → Z → Z * D;
  dev_count : D → Z * Z * D
}.

Record erst (D : Type) := Erst { e_dev : D; e_out : cstr }.
Arguments Erst {D} _ _.
Arguments e_dev {D} _.
Arguments e_out {D} _.

Section ErstInject.
Context {D : Type} `{!erst_dev D}.

Definition e_print (text : cstr) : prog (erst D) unit :=
  p_modify (λ s, Erst (e_dev s) (e_out s ++ text)).

(** A system call on the device. *)
Definition e_call {A} (f : D → A * D) : prog (erst D) A := λ s,
  let '(a, d) := f (e_dev s) in (Ok a, Erst d (e_out s)).

(** [exit(-1)]: the status the parent sees. *)
Definition error_exit {A} : prog (erst D) A := p_exit 255.
Definition ERROR_EXIT_ON (check : bool) : prog (erst D) unit :=
  if check then error_exit else mret ().

(** [malloc] and the test of what it returns. *)
Definition e_malloc (n : Z) : prog (erst D) (list Z) := λ s,
  match dev_malloc n (e_dev s) with
  | Some buf => (Ok buf, s)
  | None => error_exit s
  end.

Definition record_len : nat := sizeof header_widths + sizeof descriptor_widths + sizeof mem_err_widths.

(** [memcpy] of two characters to the start of a zeroed [__u64]. *)
Definition chars (s : string) : list Z := (λ c, Z.of_N (N_of_ascii c)) <$> lit s.
Definition memcpy_u64 (s : list Z) : Z := le_val (s ++ zero_bytes (8 - length s)).

Definition inject_header (record_id : Z) : cper_record_header := {|
  rh_signature := chars "CPER";
  rh_revision := 0x0100;
  rh_signature_end := 0xffffffff;
  rh_section_count := 1;
  rh_error_severity := CPER_SER_FATAL;
  rh_validation_bits := 0;
  rh_record_length := Z.of_nat record_len;
  rh_timestamp := 0;
  rh_platform_id := zero_bytes 16;
  rh_partition_id := zero_bytes 16;
  rh_creator_id := CPER_CREATOR_LINUX;
  rh_notification_type := CPER_NOTIFY_NMI;
  rh_record_id := record_id;
  rh_flags := 0;
  rh_persistence_information := memcpy_u64 (chars "ER");
  rh_reserved := zero_bytes 12 |}.

Definition inject_section : cper_section_descriptor := {|
  sd_section_offset := Z.of_nat (sizeof header_widths + sizeof descriptor_widths);
  sd_section_length := Z.of_nat (sizeof mem_err_widths);
  sd_revision := 0x0100;
  sd_validation_bits := 0;
  sd_reserved := 0;
  sd_flags := 0;
  sd_section_type := CPER_SEC_PLATFORM_MEM;
  sd_fru_id := zero_bytes 16;
  sd_section_severity := CPER_SER_FATAL;
  sd_fru_text := zero_bytes 20 |}.

Definition inject_mem_err : cper_sec_mem_err := {|
  me_validation_bits := 0x6;
  me_error_status := 0;
  me_physical_addr := 0x2000;
  me_physical_addr_mask := ~. 0xfff;
  me_node := 0; me_card := 0; me_module := 0; me_bank := 0;
  me_device := 0; me_row := 0; me_column := 0; me_bit_pos := 0;
  me_requestor_id := 0; me_responder_id := 0; me_target_id := 0;
  me_error_type := 0 |}.

Definition record_bytes (record_id : Z) : list Z :=
  concat (header_fields (inject_header record_id))
  ++ concat (descriptor_fields inject_section)
  ++ concat (mem_err_fields inject_mem_err).

(** [int rc = write(...)] and the comparison with an unsigned length. *)
Definition inject (record_id : Z) : prog (erst D) unit :=
  e_print (lit "sizes: " ++ fmt_u (Z.of_nat (sizeof header_widths))
         ++ lit ", " ++ fmt_u (Z.of_nat (sizeof descriptor_widths))
         ++ lit ", " ++ fmt_u (Z.of_nat (sizeof mem_err_widths)) ++ [NL]);;
  _ ← e_malloc (Z.of_nat record_len);
  rc ← e_call (λ d, dev_write d (record_bytes record_id));
  ERROR_EXIT_ON (negb (u32 (i32 rc) =? u32 (Z.of_nat record_len))).

Definition POLL_BUF_SIZ : Z := 1024 * 1024.

(** [%4s] of the characters at the start of [buf], up to the first NUL; there
    is none in the buffer. *)
Fixpoint c_string (buf : list Z) : option cstr :=
  match buf with
  | [] => None
  | b :: buf' =>
      if b =? 0 then Some []
      else match c_string buf' with
           | Some s => Some (ascii_of_N (Z.to_N b) :: s)
           | None => None
           end
  end.
Definition fmt_4s (s : cstr) : cstr := replicate (4 - length s) " "%char ++ s.

Definition poll : prog (erst D) Z :=
  buf ← e_malloc POLL_BUF_SIZ;
  r ← e_call (λ d, dev_read d POLL_BUF_SIZ);
  let rc := i32 (fst r) in
  ERROR_EXIT_ON (rc <? 0);;
  let buf := snd r ++ drop (length (snd r)) buf in
  e_print (lit "rc: " ++ fmt_d rc ++ [NL]);;
  match c_string buf with
  | Some sig =>
      e_print (lit "rcd sig: " ++ fmt_4s sig ++ [NL]);;
      e_print (lit "rcd id: 0x" ++ fmt_x (le_val (member header_widths 12 buf)) ++ [NL]);;
      mret rc
  | None => p_undef
  end.

(** [while (poll(fd));] *)
Fixpoint poll_loop (fuel : nat) : prog (erst D) unit :=
  match fuel with
  | O => p_nofuel
  | S fuel => rc ← poll; if nz rc then poll_loop fuel else mret ()
  end.

Definition clear (record_id : Z) : prog (erst D) unit :=
  e_print (lit "clear an error record: id = 0x" ++ fmt_x record_id ++ [NL]);;
  rc ← e_call (λ d, dev_clear d record_id);
  ERROR_EXIT_ON (nz (i32 rc)).

Definition get_record_count : prog (erst D) unit :=
  r ← e_call dev_count;
  ERROR_EXIT_ON (nz (i32 (fst r)));;
  e_print (lit "total error record count: " ++ fmt_u (u32 (snd r)) ++ [NL]).

Inductive todo := ERST_INJECT | ERST_POLL | ERST_CLEAR | ERST_COUNT | ERST_MAX.
(** What [getopt] returns, with its argument. *)
Inductive erst_opt := opt_p | opt_i (optarg : cstr) | opt_c (optarg : cstr) | opt_n | opt_unknown.

Definition erst_table : opt_table := OptTable (lit "pi:c:n") None.
Definition erst_opt_of (r : opt_ret) : erst_opt :=
  match r with
  | Got "p" _ => opt_p | Got "i" (Some s) => opt_i s | Got "c" (Some s) => opt_c s | Got "n" _ => opt_n | _ => opt_unknown
  end%char.

Definition erst_handle_opt (st : todo * Z) (o : erst_opt) : todo * Z :=
  match o with
  | opt_p => (ERST_POLL, snd st)
  | opt_i optarg => (ERST_INJECT, fst (strtoull optarg 16))
  | opt_c optarg => (ERST_CLEAR, fst (strtoull optarg 16))
  | opt_n => (ERST_COUNT, snd st)
  | opt_unknown => st
  end.

Definition erst_usage : cstr :=
  lit "Usage: ./erst-inject [option] <id>" ++ NL ::
  lit "PAY ATTENTION, <id> is hexadecimal." ++ NL ::
  TAB :: lit "p" ++ TAB :: lit "return all error records in the ERST" ++ NL ::
  TAB :: lit "i" ++ TAB :: lit "write an error record to be persisted into one item with <id>" ++ NL ::
  TAB :: lit "c" ++ TAB :: lit "clean specific error record with <id>" ++ NL ::
  TAB :: lit "n" ++ TAB :: lit "return error records count in the ERST" ++ NL ::
  NL :: lit "Example:" ++ TAB :: lit " ./erst-inject -p" ++ NL ::
  TAB :: TAB :: lit " ./erst-inject -i 0x1234567" ++ NL ::
  TAB :: TAB :: lit " ./erst-inject -c 5050" ++ NL ::
  TAB :: TAB :: lit " ./erst-inject -n" ++ [NL].

(** [main] from [argc] and the options [getopt] returns: its status. *)
Definition erst_main (fuel : nat) (argc : Z) (options : list erst_opt) : prog (erst D) Z :=
  if argc =? 1 then e_print erst_usage;; p_exit 0
  else
    let '(todo, record_id) := foldl erst_handle_opt (ERST_MAX, 0x12345678) options in
    ok ← e_call dev_open;
    ERROR_EXIT_ON (negb ok);;
    match todo with
    | ERST_INJECT => inject record_id
    | ERST_POLL => poll_loop fuel
    | ERST_CLEAR => clear record_id
    | ERST_COUNT => get_record_count
    | ERST_MAX => e_print erst_usage
    end;;
    mret 0.
(** The program from its arguments. *)
Definition erst_inject (fuel : nat) (args : list cstr) : prog (erst D) Z :=
  erst_main fuel (Z.of_nat (S (length args))) (erst_opt_of <$> calls (getopt erst_table args)).
End ErstInject.

(** ** Lemmas: the layout of the record *)

Lemma header_layout id : length <$> header_fields (inject_header id) = header_widths.
Proof. done. Qed.
Lemma descriptor_layout : length <$> descriptor_fields inject_section = descriptor_widths.
Proof. done. Qed.
Lemma mem_err_layout : length <$> mem_err_fields inject_mem_err = mem_err_widths.
Proof. done. Qed.

Lemma length_record_bytes id : length (record_bytes id) = record_len.
Proof.
  unfold record_bytes. by rewrite !length_app, !length_concat, header_layout, descriptor_layout, mem_err_layout.
Qed.

(** A member of the record that [inject] writes. *)
Lemma record_member id i f rest :
  header_fields (inject_header id) !! i = Some f →
  member header_widths i (record_bytes id ++ rest) = f.
Proof.
  intros Hf. unfold record_bytes. rewrite <- app_assoc. rewrite <- (header_layout id).
  by apply member_concat.
Qed.

Lemma record_bytes_range id : Forall is_byte (record_bytes id).
Proof.
  unfold record_bytes. rewrite !Forall_app. split_and!; [|apply (bool_decide_unpack _); by vm_compute..].
  apply Forall_concat.
  change (header_fields (inject_header id)) with
    (take 12 (header_fields (inject_header 0)) ++ le_bytes 8 id :: drop 13 (header_fields (inject_header 0))).
  rewrite Forall_app, Forall_cons. split_and!; [|apply le_bytes_range|];
    apply (bool_decide_unpack _); by vm_compute.
Qed.

(** [strtoull] in base 16 reads what [%llx] prints. *)
Lemma strtoull_fmt_x n : is_u64 n → strtoull (fmt_x n) 16 = (n, false).
Proof.
  intros Hn. unfold is_u64 in Hn. unfold strtoull, strto_parse, fmt_x.
  destruct (fmt_base_head 16 ltac:(lia) n ltac:(lia)) as (d & t & E & Hd & H0 & Hnz).
  destruct (digit_char_spec d) as (_ & Hs & Hm & Hp & Hz); [lia|].
  assert (read_sign (skip_spaces (fmt_base 16 n)) = (false, fmt_base 16 n)) as ->.
  { rewrite E. simpl. rewrite Hs. simpl. by rewrite !decide_False. }
  assert (read_base 16 (fmt_base 16 n) = (16, fmt_base 16 n)) as ->.
  { rewrite E. destruct (decide (n = 0)) as [->|Hne]; [by rewrite H0|].
    assert (digit_char d ≠ "0"%char) by (intros ?%Hz; by apply Hnz).
    destruct t as [|x [|y t]]; simpl; [done..|]. by rewrite decide_False. }
  rewrite <- (app_nil_r (fmt_base 16 n)). rewrite (read_fmt_base 16 ltac:(lia)) by lia. simpl.
  destruct (Z.ltb_spec ULONG_MAX n); [unfold ULONG_MAX, umax in *; lia|done].
Qed.

(** ** What the driver documents *)

Definition sig_ok (bs : list Z) : Prop := member header_widths 0 bs = chars "CPER".
Definition len_ok (bs : list Z) : Prop := le_val (member header_widths 6 bs) = Z.of_nat (length bs).
Definition id_of (bs : list Z) : Z := le_val (member header_widths 12 bs).
(** A record the driver takes: large enough for its header, with the signature
    and with its length. *)
Definition record_ok (bs : list Z) : Prop :=
  (sizeof header_widths ≤ length bs)%nat ∧ sig_ok bs ∧ len_ok bs.

(** The records in the store by number, and those the open file has still to
    return. *)
Class erst_laws (D : Type) `{!erst_dev D} := {
  records : D → gmap Z (list Z);
  cursor : D → list Z;
  law_open d ok d' : dev_open d = (ok, d') →
    records d' = records d ∧ (ok = true → cursor d' ≡ₚ elements (dom (records d)));
  law_write d bs : record_ok bs →
    (∃ d', dev_write d bs = (Z.of_nat (length bs), d') ∧ records d' = <[id_of bs := bs]> (records d)
           ∧ cursor d' = cursor d)
    ∨ (∃ e d', dev_write d bs = (- e, d') ∧ 0 < e < 4096 ∧ records d' = records d ∧ cursor d' = cursor d);
  law_read_end d n : cursor d = [] → ∃ d', dev_read d n = (0, [], d') ∧ records d' = records d;
  law_read d n id c bs : cursor d = id :: c → records d !! id = Some bs → Z.of_nat (length bs) ≤ n →
    ∃ d', dev_read d n = (Z.of_nat (length bs), bs, d') ∧ records d' = records d ∧ cursor d' = c;
  law_clear d id :
    (is_Some (records d !! id) → ∃ d', dev_clear d id = (0, d') ∧ records d' = delete id (records d))
    ∧ (records d !! id = None → ∃ e d', dev_clear d id = (- e, d') ∧ 0 < e < 4096 ∧ records d' = records d);
  law_count d : ∃ d', dev_count d = (0, Z.of_nat (size (records d)), d') ∧ records d' = records d
}.

(** What [poll] prints for a record, and for what [read] left of the buffer. *)
Definition poll_text (rc : Z) (buf : list Z) : cstr :=
  (lit "rc: " ++ fmt_d rc ++ [NL])
  ++ (lit "rcd sig: " ++ fmt_4s (default [] (c_string buf)) ++ [NL])
  ++ (lit "rcd id: 0x" ++ fmt_x (id_of buf) ++ [NL]).
Definition record_text (bs : list Z) : cstr := poll_text (Z.of_nat (length bs)) bs.

(** A record [poll] can show: the driver took it, it fits in the buffer, and a
    NUL ends the string it starts with. *)
Definition record_shown (id : Z) (bs : list Z) : Prop :=
  record_ok bs ∧ id_of bs = id ∧ Z.of_nat (length bs) ≤ POLL_BUF_SIZ ∧ 0 ∈ bs.

Lemma c_string_app bs rest : 0 ∈ bs → c_string (bs ++ rest) = c_string bs ∧ is_Some (c_string bs).
Proof.
  induction bs as [|b bs IH]; intros Hin; [by apply elem_of_nil in Hin|]. cbn [app c_string].
  destruct (Z.eqb_spec b 0) as [->|Hb]; [by eauto|].
  destruct IH as [-> [s ->]]; [set_solver|]. by eauto.
Qed.

Lemma member_app ws i bs rest :
  (offsetof ws i + nth i ws 0 ≤ length bs)%nat → member ws i (bs ++ rest) = member ws i bs.
Proof.
  intros Hle. unfold member. rewrite drop_app_le by lia. apply take_app_le.
  rewrite length_drop. lia.
Qed.

Lemma id_of_app bs rest : (sizeof header_widths ≤ length bs)%nat → id_of (bs ++ rest) = id_of bs.
Proof. intros Hle. unfold id_of. rewrite member_app; [done|]. change (sizeof header_widths) with 128%nat in Hle. cbn. lia. Qed.

Lemma record_bytes_ok id : is_u64 id → record_ok (record_bytes id) ∧ record_shown id (record_bytes id).
Proof.
  intros Hid.
  assert (∀ i f, header_fields (inject_header id) !! i = Some f →
    member header_widths i (record_bytes id) = f) as Hm.
  { intros i f Hf. rewrite <- (app_nil_r (record_bytes id)). by apply record_member. }
  assert (record_ok (record_bytes id)) as Hok.
  { unfold record_ok, sig_ok, len_ok. rewrite length_record_bytes.
    rewrite (Hm 0%nat (chars "CPER")), (Hm 6%nat (le_bytes 4 (Z.of_nat record_len))) by done.
    rewrite le_val_small by done. by split_and!; [change record_len with 273%nat; cbn; lia|..]. }
  split; [done|]. split_and!; [done|..].
  - unfold id_of. rewrite (Hm 12%nat (le_bytes 8 id)) by done. by apply le_val_small.
  - rewrite length_record_bytes. by change record_len with 273%nat.
  - unfold record_bytes. rewrite !elem_of_app. right. left.
    change (0 ∈ concat (descriptor_fields inject_section)).
    apply (bool_decide_unpack _). by vm_compute.
Qed.

Lemma record_text_injected id : is_u64 id →
  record_text (record_bytes id) =
  lit "rc: 273" ++ NL :: lit "rcd sig: CPER" ++ NL :: lit "rcd id: 0x" ++ fmt_x id ++ [NL].
Proof.
  intros Hid. unfold record_text, poll_text. destruct (record_bytes_ok id Hid) as [_ (_ & -> & _)].
  rewrite length_record_bytes. done.
Qed.

Section Commands.
Context {D : Type} `{!erst_dev D} {Laws : erst_laws D}.

(** Memory is not short, and the buffer [malloc] gives has a NUL in it. *)
Definition memory : Prop := ∀ n (d : D), 0 < n → ∃ buf, dev_malloc n d = Some buf ∧ 0 ∈ buf.

Lemma e_call_run {A} (f : D → A * D) d d' a out :
  f d = (a, d') → e_call f (Erst d out) = (Ok a, Erst d' out).
Proof. unfold e_call. simpl. by intros ->. Qed.

Lemma e_malloc_run n d buf out :
  dev_malloc n d = Some buf → e_malloc n (Erst d out) = (Ok buf, Erst d out).
Proof. unfold e_malloc. simpl. by intros ->. Qed.

Lemma i32_neg e : 0 < e < 4096 → i32 (- e) = - e.
Proof. intros. apply i32_small. lia. Qed.

Definition sizes_text : cstr := lit "sizes: 128, 72, 73" ++ [NL].

Lemma inject_run d out id : memory → is_u64 id →
  ∃ d', (records d' = <[id := record_bytes id]> (records d) ∧ inject id (Erst d out) = (Ok (), Erst d' (out ++ sizes_text))
         ∨ records d' = records d ∧ inject id (Erst d out) = (Exit 255, Erst d' (out ++ sizes_text))).
Proof.
  intros Hmem Hid. destruct (record_bytes_ok id Hid) as [Hok (_ & Hrid & _)].
  destruct (Hmem (Z.of_nat record_len) d ltac:(done)) as (buf & Hbuf & _).
  unfold inject. rewrite p_bind_run. cbn -[record_len e_malloc record_bytes].
  rewrite (p_bind_ok _ _ _ _ _ (e_malloc_run _ _ _ (out ++ sizes_text) Hbuf)).
  destruct (law_write d _ Hok) as [(d' & Hw & Hrec & _) | (e & d' & Hw & He & Hrec & _)]; exists d'.
  - left. rewrite Hrec, Hrid. split; [done|].
    rewrite (p_bind_ok _ _ _ _ _ (e_call_run _ _ _ _ (out ++ sizes_text) Hw)), length_record_bytes.
    done.
  - right. split; [done|].
    rewrite (p_bind_ok _ _ _ _ _ (e_call_run _ _ _ _ (out ++ sizes_text) Hw)), i32_neg by done.
    unfold ERROR_EXIT_ON, u32, uwrap. rewrite <- (Z_mod_plus_full _ 1), Z.mod_small by lia.
    destruct (Z.eqb_spec (- e + 1 * 2 ^ 32) (Z.of_nat record_len mod 2 ^ 32)) as [E|]; [|done].
    change (Z.of_nat record_len mod 2 ^ 32) with 273 in E. lia.
Qed.

Lemma poll_record d out id c bs :
  memory → cursor d = id :: c → records d !! id = Some bs → record_shown id bs →
  ∃ d', poll (Erst d out) = (Ok (Z.of_nat (length bs)), Erst d' (out ++ record_text bs))
        ∧ records d' = records d ∧ cursor d' = c.
Proof.
  intros Hmem Hcur Hlk ((Hlen & _) & Hid & Hsize & H0).
  destruct (Hmem POLL_BUF_SIZ d ltac:(done)) as (buf & Hbuf & _).
  destruct (law_read d POLL_BUF_SIZ id c bs Hcur Hlk Hsize) as (d' & Hr & Hrec & Hc).
  exists d'. split; [|done]. unfold poll.
  rewrite (p_bind_ok _ _ _ _ _ (e_malloc_run _ _ _ out Hbuf)).
  rewrite (p_bind_ok _ _ _ _ _ (e_call_run _ _ _ _ out Hr)). cbn [fst snd].
  unfold POLL_BUF_SIZ in Hsize.
  rewrite i32_small by lia. destruct (Z.ltb_spec (Z.of_nat (length bs)) 0); [lia|].
  destruct (c_string_app bs (drop (length bs) buf) H0) as [Ec [sig Esig]].
  rewrite Ec, Esig. unfold record_text, poll_text. rewrite Esig.
  pose proof (id_of_app bs (drop (length bs) buf) Hlen) as Ei. unfold id_of in *. rewrite Ei, Hid.
  unfold ERROR_EXIT_ON, e_print. rewrite !p_bind_run. unfold mret, prog_ret, p_modify. cbn [e_dev e_out].
  rewrite !p_bind_run. cbn [e_dev e_out]. by rewrite <- !app_assoc.
Qed.

Lemma poll_end d out :
  memory → cursor d = [] →
  ∃ d' buf, poll (Erst d out) = (Ok 0, Erst d' (out ++ poll_text 0 buf))
            ∧ dev_malloc POLL_BUF_SIZ d = Some buf ∧ records d' = records d.
Proof.
  intros Hmem Hcur.
  destruct (Hmem POLL_BUF_SIZ d ltac:(done)) as (buf & Hbuf & H0).
  destruct (law_read_end d POLL_BUF_SIZ Hcur) as (d' & Hr & Hrec).
  exists d', buf. split_and!; [|done..]. unfold poll.
  rewrite (p_bind_ok _ _ _ _ _ (e_malloc_run _ _ _ out Hbuf)).
  rewrite (p_bind_ok _ _ _ _ _ (e_call_run _ _ _ _ out Hr)). cbn [fst snd length app].
  rewrite drop_0. change (i32 0) with 0.
  destruct (c_string_app buf [] H0) as [_ [sig Esig]]. unfold poll_text. rewrite Esig.
  unfold ERROR_EXIT_ON, e_print. cbn [Z.ltb Z.compare]. rewrite !p_bind_run.
  unfold mret, prog_ret, p_modify. cbn [e_dev e_out]. rewrite !p_bind_run. cbn [e_dev e_out].
  by rewrite <- !app_assoc.
Qed.

(** The loop shows every record left, then stops. *)
Lemma poll_loop_run fuel d out ids bss :
  memory → map_Forall record_shown (records d) → cursor d = ids →
  Forall2 (λ id bs, records d !! id = Some bs) ids bss → (length ids < fuel)%nat →
  ∃ d' buf, poll_loop fuel (Erst d out) = (Ok (), Erst d' (out ++ concat (record_text <$> bss) ++ poll_text 0 buf))
            ∧ records d' = records d.
Proof.
  intros Hmem. revert d out ids bss. induction fuel as [|fuel IH]; intros d out ids bss Hall Hcur Hall2 Hf; [lia|].
  cbn [poll_loop]. destruct Hall2 as [|id bs ids bss Hlk Hall2].
  - destruct (poll_end d out Hmem Hcur) as (d' & buf & Hp & _ & Hrec). exists d', buf. split; [|done].
    by rewrite (p_bind_ok _ _ _ _ _ Hp).
  - pose proof (Hall _ _ Hlk) as Hsh.
    destruct (poll_record d out id ids bs Hmem Hcur Hlk Hsh) as (d1 & Hp & Hrec & Hc).
    rewrite (p_bind_ok _ _ _ _ _ Hp).
    assert (nz (Z.of_nat (length bs)) = true) as ->.
    { apply nz_spec. destruct Hsh as ((Hlen & _) & _). change (sizeof header_widths) with 128%nat in Hlen. lia. }
    rewrite <- Hrec in Hall, Hall2.
    destruct (IH d1 (out ++ record_text bs) ids bss Hall Hc Hall2) as (d2 & buf & Hl & Hr2); [simpl in Hf; lia|].
    exists d2, buf. rewrite Hl, Hr2, Hrec. split; [|done]. cbn [fmap list_fmap concat].
    by rewrite <- !app_assoc.
Qed.

(** The records a listing shows, in the order of the cursor. *)
Lemma cursor_records (m : gmap Z (list Z)) ids : ids ≡ₚ elements (dom m) →
  ∃ kvs, kvs ≡ₚ map_to_list m ∧ ids = kvs.*1 ∧ Forall2 (λ id bs, m !! id = Some bs) ids kvs.*2.
Proof.
  intros Hids.
  assert (elements (dom m) ≡ₚ (map_to_list m).*1) as Hdom.
  { apply NoDup_Permutation; [apply NoDup_elements | apply NoDup_fst_map_to_list|].
    intros x. rewrite elem_of_elements, elem_of_dom, list_elem_of_fmap. split.
    - intros [v Hv]. exists (x, v). by rewrite elem_of_map_to_list.
    - intros ([k v] & -> & Hv%elem_of_map_to_list). simpl. eauto. }
  rewrite Hdom in Hids. apply Permutation_map_inv in Hids as (kvs & -> & Hp).
  exists kvs. split_and!; [by symmetry|done|]. apply Forall2_fmap.
  assert (∀ k v, (k, v) ∈ kvs → m !! k = Some v) as Hin.
  { intros k v. by rewrite <- Hp, elem_of_map_to_list. }
  clear Hp. induction kvs as [|[k v] kvs IH]; constructor.
  - apply Hin. left.
  - apply IH. intros ?? ?. apply Hin. by right.
Qed.

Lemma main_command fuel argc options todo id d d1 out :
  argc ≠ 1 → foldl erst_handle_opt (ERST_MAX, 0x12345678) options = (todo, id) →
  dev_open d = (true, d1) →
  erst_main fuel argc options (Erst d out) =
  (match todo with
   | ERST_INJECT => inject id
   | ERST_POLL => poll_loop fuel
   | ERST_CLEAR => clear id
   | ERST_COUNT => get_record_count
   | ERST_MAX => e_print erst_usage
   end;; mret 0) (Erst d1 out).
Proof.
  intros Hargc Hopt Hopen. unfold erst_main. destruct (Z.eqb_spec argc 1); [done|]. rewrite Hopt.
  by rewrite (p_bind_ok _ _ _ _ _ (e_call_run _ _ _ _ out Hopen)).
Qed.

Lemma main_inject fuel d d1 out id : memory → is_u64 id → dev_open d = (true, d1) →
  ∃ d', (records d' = <[id := record_bytes id]> (records d)
         ∧ erst_main fuel 3 [opt_i (fmt_x id)] (Erst d out) = (Ok 0, Erst d' (out ++ sizes_text))
         ∨ records d' = records d
         ∧ erst_main fuel 3 [opt_i (fmt_x id)] (Erst d out) = (Exit 255, Erst d' (out ++ sizes_text))).
Proof.
  intros Hmem Hid Hopen. destruct (law_open _ _ _ Hopen) as [Hrec _]. rewrite <- Hrec.
  erewrite main_command; [|done|cbn; by rewrite strtoull_fmt_x|done].
  destruct (inject_run d1 out id Hmem Hid) as (d' & [[Hr Hi] | [Hr Hi]]); exists d'; [left|right];
    (split; [done|]); rewrite p_bind_run; cbn [fst]; by rewrite Hi.
Qed.

Lemma main_poll fuel d d1 out : memory → dev_open d = (true, d1) →
  map_Forall record_shown (records d) → (size (records d) < fuel)%nat →
  ∃ d' bss buf, erst_main fuel 2 [opt_p] (Erst d out) =
                (Ok 0, Erst d' (out ++ concat (record_text <$> bss) ++ poll_text 0 buf))
    ∧ bss ≡ₚ (map_to_list (records d)).*2 ∧ records d' = records d.
Proof.
  intros Hmem Hopen Hall Hf. destruct (law_open _ _ _ Hopen) as [Hrec Hcur]. specialize (Hcur eq_refl).
  rewrite <- Hrec in Hcur. destruct (cursor_records _ _ Hcur) as (kvs & Hp & Hids & Hall2).
  rewrite <- Hrec in Hall, Hf.
  destruct (poll_loop_run fuel d1 out _ _ Hmem Hall eq_refl Hall2) as (d' & buf & Hl & Hr').
  { rewrite Hids, length_fmap, Hp. by rewrite length_map_to_list. }
  exists d', kvs.*2, buf. erewrite main_command; [|done..].
  rewrite p_bind_run. cbn match. rewrite Hl, Hr', Hrec. split_and!; [done| |done]. by rewrite Hp, Hrec.
Qed.

Lemma main_clear fuel d d1 out id : is_u64 id → dev_open d = (true, d1) →
  ∃ d' text, erst_main fuel 3 [opt_c (fmt_x id)] (Erst d out) =
               (if decide (is_Some (records d !! id)) then Ok 0 else Exit 255, Erst d' (out ++ text))
             ∧ records d' = delete id (records d).
Proof.
  intros Hid Hopen. destruct (law_open _ _ _ Hopen) as [Hrec _]. rewrite <- Hrec.
  erewrite main_command; [|done|cbn; by rewrite strtoull_fmt_x|done].
  cbn [fst]. unfold clear. destruct (law_clear d1 id) as [Hin Hout]. case_decide as Hs.
  - destruct (Hin Hs) as (d' & Hc & Hr). exists d'. eexists. split; [|done].
    rewrite !p_bind_run. unfold e_print, p_modify. cbn [e_dev e_out].
    by rewrite p_bind_run, (e_call_run _ _ _ _ _ Hc).
  - destruct (Hout ltac:(by apply eq_None_not_Some)) as (e & d' & Hc & He & Hr). exists d'. eexists. split.
    + rewrite !p_bind_run. unfold e_print, p_modify. cbn [e_dev e_out].
      rewrite p_bind_run, (e_call_run _ _ _ _ _ Hc), i32_neg by done.
      destruct (nz_spec (- e)) as [_ ->]; [done|lia].
    + rewrite Hr, delete_id; [done|]. by apply eq_None_not_Some.
Qed.
End Commands.

(** ** A driver that keeps the records in a map *)

Record store_dev := StoreDev { st_map : gmap Z (list Z); st_cursor : list Z }.

#[export] Instance record_ok_dec bs : Decision (record_ok bs).
Proof. unfold record_ok, sig_ok, len_ok. apply _. Defined.

(** The next record of the cursor that is still there, and the cursor left. *)
Fixpoint next_record (m : gmap Z (list Z)) (c : list Z) : option (list Z * list Z) :=
  match c with
  | [] => None
  | id :: c' => match m !! id with Some bs => Some (bs, c') | None => next_record m c' end
  end.

#[export] Instance store_erst_dev : erst_dev store_dev := {|
  dev_open d := (true, StoreDev (st_map d) (elements (dom (st_map d))));
  dev_malloc n d := Some (replicate (Z.to_nat n) 0);
  dev_write d bs :=
    if decide (record_ok bs) then (Z.of_nat (length bs), StoreDev (<[id_of bs := bs]> (st_map d)) (st_cursor d))
    else (-22, d);
  dev_read d n :=
    match next_record (st_map d) (st_cursor d) with
    | Some (bs, c) => if Z.of_nat (length bs) <=? n then (Z.of_nat (length bs), bs, StoreDev (st_map d) c) else (-22, [], d)
    | None => (0, [], d)
    end;
  dev_clear d id :=
    if decide (is_Some (st_map d !! id)) then (0, StoreDev (delete id (st_map d)) (st_cursor d)) else (-2, d);
  dev_count d := (0, Z.of_nat (size (st_map d)), d)
|}.

#[export] Program Instance store_laws : erst_laws store_dev := {|
  records := st_map; cursor := st_cursor
|}.
Next Obligation. intros d ok d' [= <- <-]. done. Qed.
Next Obligation. intros d bs Hok. left. simpl. rewrite decide_True by done. eauto. Qed.
Next Obligation. intros d n Hc. simpl in *. rewrite Hc. simpl. eauto. Qed.
Next Obligation.
  intros d n id c bs Hc Hlk Hn. simpl in *. rewrite Hc. simpl. rewrite Hlk.
  destruct (Z.leb_spec (Z.of_nat (length bs)) n); [eauto|lia].
Qed.
Next Obligation.
  intros d id. simpl. split; intros Hs.
  - rewrite decide_True by done. eauto.
  - rewrite decide_False by (by apply eq_None_not_Some). exists 2, d. split_and!; done || lia.
Qed.
Next Obligation. intros d. simpl. eauto. Qed.

Lemma store_memory : memory (D := store_dev).
Proof.
  intros n d Hn. eexists. split; [done|]. apply elem_of_replicate. lia.
Qed.

(** ** The theorems *)

(** The record that [inject] writes is laid out as cper.h describes: it has
    the 273 bytes that its own length field says, all of them bytes; the
    section it describes starts at the offset and has the length its
    descriptor gives; and the members a reader takes from it are the signature,
    the identifiers and the number of the record. *)
Theorem inject_record_layout id : is_u64 id →
  length (record_bytes id) = 273%nat ∧ Forall is_byte (record_bytes id)
  ∧ member header_widths 0 (record_bytes id) = chars "CPER"
  ∧ le_val (member header_widths 2 (record_bytes id)) = 0xffffffff
  ∧ le_val (member header_widths 6 (record_bytes id)) = Z.of_nat (length (record_bytes id))
  ∧ member header_widths 10 (record_bytes id) = CPER_CREATOR_LINUX
  ∧ le_val (member header_widths 12 (record_bytes id)) = id
  ∧ (let descriptor := drop (sizeof header_widths) (record_bytes id) in
     let offset := le_val (member descriptor_widths 0 descriptor) in
     let size := le_val (member descriptor_widths 1 descriptor) in
     take (Z.to_nat size) (drop (Z.to_nat offset) (record_bytes id)) = concat (mem_err_fields inject_mem_err)
     ∧ offset + size = Z.of_nat (length (record_bytes id))).
Proof.
  intros Hid. destruct (record_bytes_ok id Hid) as [(_ & Hs & Hl) (_ & Hrid & _)].
  split_and!; [by apply length_record_bytes | apply record_bytes_range | done | | done | | done |].
  - rewrite <- (app_nil_r (record_bytes id)), (record_member _ _ (le_bytes 4 0xffffffff)) by done. done.
  - rewrite <- (app_nil_r (record_bytes id)). by rewrite (record_member _ _ CPER_CREATOR_LINUX).
  - unfold record_bytes. rewrite drop_app_length' by (by rewrite length_concat, header_layout). done.
Qed.

Lemma inject_record_layout_witness :
  is_u64 0x1234567 ∧ le_val (member header_widths 12 (record_bytes 0x1234567)) = 0x1234567.
Proof.
  assert (is_u64 0x1234567) as H by (unfold is_u64; lia). split; [done|].
  by destruct (inject_record_layout 0x1234567 H) as (_ & _ & _ & _ & _ & _ & ? & _).
Defined.

(** C15: the life of a record. [erst-inject -i <id>] either ends with status
    255 and leaves the store as it was, or stores the record under its number;
    then [erst-inject -p] shows each record of the store once, the new one with
    its signature and number among them, and ends; and [erst-inject -c <id>]
    takes the record out again and nothing else. *)
Theorem erst_lifecycle {D} `{!erst_dev D} {Laws : erst_laws D} (fuel : nat) (d : D) out id :
  memory (D := D) → (∀ d : D, fst (dev_open d) = true) →
  is_u64 id → map_Forall record_shown (records d) → (S (size (records d)) < fuel)%nat →
  ∃ d1 r, erst_main fuel 3 [opt_i (fmt_x id)] (Erst d out) = (r, Erst d1 (out ++ sizes_text))
  ∧ (r = Exit 255 ∧ records d1 = records d
     ∨ r = Ok 0 ∧ records d1 = <[id := record_bytes id]> (records d)
       ∧ (∃ d2 bss buf,
           erst_main fuel 2 [opt_p] (Erst d1 []) = (Ok 0, Erst d2 (concat (record_text <$> bss) ++ poll_text 0 buf))
           ∧ bss ≡ₚ (map_to_list (records d1)).*2 ∧ records d2 = records d1
           ∧ record_bytes id ∈ bss
           ∧ record_text (record_bytes id) =
             lit "rc: 273" ++ NL :: lit "rcd sig: CPER" ++ NL :: lit "rcd id: 0x" ++ fmt_x id ++ [NL])
       ∧ (∃ d3 text,
           erst_main fuel 3 [opt_c (fmt_x id)] (Erst d1 []) = (Ok 0, Erst d3 text)
           ∧ records d3 = delete id (records d))).
Proof.
  intros Hmem Hopen Hid Hall Hf.
  assert (∀ d : D, ∃ d', dev_open d = (true, d')) as Hop.
  { intros d0. specialize (Hopen d0). destruct (dev_open d0) as [ok d']. simpl in Hopen. subst. eauto. }
  destruct (Hop d) as [d0 H0]. destruct (main_inject fuel d d0 out id Hmem Hid H0) as (d1 & [[Hr Hm] | [Hr Hm]]);
    eexists d1, _; (split; [done|]); [right|by left].
  split_and!; [done|done|..].
  - destruct (Hop d1) as [d1' H1]. destruct (main_poll fuel d1 d1' [] Hmem H1) as (d2 & bss & buf & Hp & Hbss & Hr2).
    + rewrite Hr. apply map_Forall_insert_2; [|done]. by apply record_bytes_ok.
    + rewrite Hr. rewrite map_size_insert. destruct (records d !! id); simpl; lia.
    + exists d2, bss, buf. split_and!; [done..| |by apply record_text_injected].
      rewrite Hbss, Hr. apply list_elem_of_fmap. exists (id, record_bytes id).
      by rewrite elem_of_map_to_list, lookup_insert_eq.
  - destruct (Hop d1) as [d1' H1]. destruct (main_clear fuel d1 d1' [] id Hid H1) as (d3 & text & Hc & Hr3).
    exists d3, text. rewrite Hc, Hr3, Hr, decide_True by (rewrite lookup_insert_eq; eauto).
    split; [done|]. by rewrite delete_insert_eq.
Qed.

Lemma erst_lifecycle_witness :
  ∃ d1, erst_main 5 3 [opt_i (fmt_x 0x1234)] (Erst (StoreDev ∅ []) []) = (Ok 0, Erst d1 sizes_text)
        ∧ st_map d1 = {[0x1234 := record_bytes 0x1234]}.
Proof.
  assert (is_u64 0x1234) as H by (unfold is_u64; lia).
  destruct (erst_lifecycle 5 (StoreDev ∅ []) [] 0x1234 store_memory (λ _, eq_refl) H
              (map_Forall_empty _) ltac:(apply (bool_decide_unpack _); by vm_compute))
    as (d1 & r & Hm & [(-> & _) | (-> & Hr & _)]).
  - exfalso. assert (fst (erst_main (D := store_dev) 5 3 [opt_i (fmt_x 0x1234)] (Erst (StoreDev ∅ []) [])) = Ok 0) as E
      by (by vm_compute). rewrite Hm in E. done.
  - exists d1. split; [done|]. simpl in Hr. rewrite Hr. by rewrite insert_empty.
Defined.

(** C29: the errors. When the device cannot be opened every command ends with
    status 255 before it prints or changes anything; clearing a number that has
    no record ends with status 255 and leaves the store as it was; the count
    printed is that of the store, modulo 2^32. *)
Theorem erst_errors {D} `{!erst_dev D} {Laws : erst_laws D} (fuel : nat) (argc : Z) options (d d1 : D) ok out id :
  argc ≠ 1 → is_u64 id → dev_open d = (ok, d1) →
  (ok = false → erst_main fuel argc options (Erst d out) = (Exit 255, Erst d1 out) ∧ records d1 = records d)
  ∧ (ok = true → records d !! id = None →
     ∃ d2 text, erst_main fuel 3 [opt_c (fmt_x id)] (Erst d out) = (Exit 255, Erst d2 (out ++ text))
                ∧ records d2 = records d)
  ∧ (ok = true → ∃ d2, erst_main fuel 2 [opt_n] (Erst d out) =
       (Ok 0, Erst d2 (out ++ lit "total error record count: " ++ fmt_u (u32 (Z.of_nat (size (records d)))) ++ [NL]))
       ∧ records d2 = records d).
Proof.
  intros Hargc Hid Hopen. destruct (law_open _ _ _ Hopen) as [Hrec _]. split_and!; intros ->.
  - split; [|done]. unfold erst_main. destruct (Z.eqb_spec argc 1); [done|].
    destruct (foldl _ _ _) as [todo rid]. by rewrite (p_bind_ok _ _ _ _ _ (e_call_run _ _ _ _ out Hopen)).
  - intros Hno. destruct (main_clear fuel d d1 out id Hid Hopen) as (d2 & text & Hc & Hr).
    exists d2, text. rewrite Hc, Hr, delete_id, decide_False by (done || by rewrite Hno; intros [? [=]]). done.
  - destruct (law_count d1) as (d2 & Hc & Hr). exists d2. split; [|by rewrite Hr].
    erewrite main_command; [|done..]. unfold get_record_count.
    rewrite !p_bind_run, (e_call_run _ _ _ _ out Hc), Hrec. done.
Qed.

Lemma erst_errors_witness :
  fst (erst_main 1 2 [opt_n] (Erst (StoreDev {[5 := []]} []) [])) = Ok 0.
Proof.
  assert (is_u64 0) as H by (unfold is_u64; lia).
  destruct (erst_errors 1 2 [] (StoreDev {[5 := []]} []) (StoreDev {[5 := []]} [5]) true [] 0
              ltac:(lia) H ltac:(by vm_compute)) as (_ & _ & Hn).
  destruct (Hn eq_refl) as (d2 & -> & _). done.
Defined.
