(* ===== verification/Victim.v ===== *)
(** * Victim: the victim of an injected machine check

    tools/victim/victim.c: [vtop] reads a physical address from
    /proc/<pid>/pagemap, [parse_addr_subopts] parses the argument of -a with
    [getsubopt], [pfa_helper] watches a page being replaced, and [main] takes
    the options and waits for the trigger.  The kernel is the class
    [victim_env]; its answers may change from one call to the next, so they are
    functions of the number of calls before. *)
From Stdlib Require Import String.
From S2P Require Import Prelude CLib Getopt.

Class victim_env := {
  v_pagesize : Z;
  (** the eight bytes at an offset of /proc/<pid>/pagemap, unless the [open] or the
      [pread] fails *)
  v_pagemap : nat → Z → Z → option Z;
  v_mmap : option Z;
  v_getpid : Z;
  (** [unlink] of the trigger file succeeds or says ENOENT *)
  v_unlink : bool;
  (** what a [read] of the trigger file gives, unless its [open] fails *)
  v_trigger : nat → option cstr;
  v_ctime : nat → cstr;
  (** the code of [dummyfunc], as the integers of a page *)
  v_dummyfunc : list Z
}.

(** What was printed, the number of calls so far and the mapped page as integers. *)
Record victim := Vic { v_out : cstr; v_clock : nat; v_page : list Z }.

(** How the program ends: [main] returns, or it executes or reads the page for
    ever. *)
Inductive ending := Returns (status : Z) | Executes_page | Reads_page.

Section Program.
Context {env : victim_env}.

Definition v_print (text : cstr) : prog victim unit :=
  p_modify (λ s, Vic (v_out s ++ text) (v_clock s) (v_page s)).
(** A call whose answer depends on when it is made. *)
Definition v_call {A} (f : nat → A) : prog victim A := λ s,
  (Ok (f (v_clock s)), Vic (v_out s) (S (v_clock s)) (v_page s)).
Definition v_set_page (page : list Z) : prog victim unit :=
  p_modify (λ s, Vic (v_out s) (v_clock s) page).

(** The fields of [struct pagemaps]. *)
Definition pm_pfn (e : Z) : Z := e .& Z.ones 55.
Definition pm_swapped (e : Z) : bool := Z.testbit e 62.
Definition pm_present (e : Z) : bool := Z.testbit e 63.

(** [vtop], at a given time. *)
Definition vtop_offset (addr : Z) : Z := u64 (addr / v_pagesize * 8).
Definition vtop_at (t : nat) (addr pid : Z) : Z :=
  match v_pagemap t pid (vtop_offset addr) with
  | None => 0
  | Some pinfo => u64 (pm_pfn pinfo * v_pagesize) .| (addr .& (v_pagesize - 1))
  end.
Definition vtop (addr pid : Z) : prog victim Z := v_call (λ t, vtop_at t addr pid).

Definition usage : cstr :=
  lit "victim [options]" ++ NL ::
  TAB :: lit "-a|--address vaddr=val, pid=val" ++ TAB :: lit "Translate process virtual address into physical address" ++ NL ::
  TAB :: lit "-d|--data" ++ TAB :: TAB :: TAB :: lit "Inject data error(DCU error) under user context" ++ NL ::
  TAB :: lit "-i|--instruction" ++ TAB :: TAB :: lit "Inject instruction error(IFU error) under user context" ++ NL ::
  TAB :: lit "-k|--kick 0/1" ++ TAB :: TAB :: TAB :: lit "Kick off trigger. Auto(0), Manual(1, by default)" ++ NL ::
  TAB :: lit "-p|--pfa" ++ TAB :: TAB :: TAB :: lit "help to test memory PFA(Predictive Failure Analysis) function" ++ NL ::
  TAB :: lit "-h|--help" ++ TAB :: TAB :: TAB :: lit "Show this usage message" ++ [NL].

(** *** -a *)

(** [getsubopt]: the index of the token or nothing, the value after the equal
    sign if there is one, and the rest of the list. *)
Inductive token := I_VADDR | I_PID.
Definition tokens : list (cstr * token) := [(lit "vaddr", I_VADDR); (lit "pid", I_PID)].
Fixpoint span (c : ascii) (s : cstr) : cstr * cstr :=
  match s with
  | [] => ([], [])
  | a :: s' => if decide (a = c) then ([], s) else let '(x, r) := span c s' in (a :: x, r)
  end.
Definition getsubopt (p : cstr) : option token * option cstr * cstr :=
  let '(option, rest) := span "," p in
  let '(name, value) := span "=" option in
  (snd <$> list_find (λ t, fst t = name) tokens ≫= λ t, Some (snd t),
   match value with [] => None | _ :: v => Some v end,
   tail rest).

(** The loop over the list: the two values, or an error. *)
Fixpoint subopts_loop (fuel : nat) (p : cstr) (svaddr spid : option cstr) : option (option cstr * option cstr) :=
  match fuel with
  | O => None
  | S fuel =>
      if bool_decide (chr0 p = NUL) then Some (svaddr, spid)
      else
        let '(index, subval, p') := getsubopt p in
        match index, subval with
        | Some I_VADDR, Some v => subopts_loop fuel p' (Some v) spid
        | Some I_PID, Some v => subopts_loop fuel p' svaddr (Some v)
        | _, _ => None
        end
  end.

(** [strtoull] or [strtoul] and the test of its result: the value, unless it is not valid. *)
Definition checked_number (conv : Z → Z) (s : cstr) : option Z :=
  let '(v, erange) := strtoull s 0 in
  if ((conv v =? 0) && negb (bool_decide (chr0 s = "0"%char))) || erange then None else Some (conv v).

(** [parse_addr_subopts]: the address and the process, or 1.  A value that the
    list does not have is an uninitialised pointer. *)
Definition parse_addr_subopts (subopts : cstr) : prog victim (option (Z * Z)) :=
  match subopts_loop (S (length subopts)) subopts None None with
  | None => v_print usage;; mret None
  | Some (None, _) => p_undef
  | Some (Some svaddr, spid) =>
      match checked_number (λ v, v) svaddr with
      | None => mret None
      | Some virt =>
          match spid with
          | None => p_undef
          | Some spid => mret ((virt,.) <$> checked_number i32 spid)
          end
      end
  end.

(** *** -p *)

(** The first pass over the page: running totals, written back. *)
Fixpoint touch_totals (total : Z) (page : list Z) : Z * list Z :=
  match page with
  | [] => (total, [])
  | x :: page' =>
      let total := i32 (total + x) in
      let '(t, l) := touch_totals total page' in (t, total :: l)
  end.
(** The second one: each integer becomes its offset. *)
Definition touch_offsets (total : Z) (page : list Z) : Z * list Z :=
  (foldl (λ t x, i32 (t + x)) total page, imap (λ i _, 4 * Z.of_nat i) page).

Definition replaced_text (new_phys : Z) : cstr :=
  lit "Page was replaced. New physical address = 0x" ++ fmt_x new_phys ++ [NL].
(** One turn of the endless loop: the new [total] and [old_phys]. *)
Definition pfa_step (p pid : Z) (st : Z * Z) : prog victim (Z * Z) :=
  let '(total, old_phys) := st in
  s ← p_get;
  let '(total, page) := touch_totals total (v_page s) in
  v_set_page page;;
  new_phys ← vtop p pid;
  if old_phys =? new_phys then
    let '(total, page) := touch_offsets total page in
    v_set_page page;;
    new_phys ← vtop p pid;
    if negb (old_phys =? new_phys) then v_print (replaced_text new_phys);; mret (total, new_phys)
    else mret (total, old_phys)
  else v_print (replaced_text new_phys);; mret (total, new_phys).
(** [pfa_helper]: [total] starts with whatever the stack holds. *)
Fixpoint pfa_loop (fuel : nat) (p pid : Z) (st : Z * Z) : prog victim Empty_set :=
  match fuel with
  | O => p_nofuel
  | S fuel => st ← pfa_step p pid st; pfa_loop fuel p pid st
  end.
Definition pfa_helper (fuel : nat) (garbage p pid old_phys : Z) : prog victim Empty_set :=
  pfa_loop fuel p pid (garbage, old_phys).

(** *** The trigger *)

Definition TRIGGER_BUF : nat := 16.
(** [strstr(trigger_buf, "trigger") != NULL], in a buffer that need not be
    terminated: nothing when the search runs out of it. *)
Fixpoint strstr_buf (buf t : cstr) : option bool :=
  match buf with
  | [] => None
  | c :: buf' =>
      if decide (t `prefix_of` buf) then Some true
      else if decide (c = NUL) then Some false
      else strstr_buf buf' t
  end.

(** [while (count--) ...]: the value of [count] after the loop. *)
Fixpoint trigger_loop (count : nat) (trigger_buf : cstr) : prog victim Z :=
  match count with
  | O => mret (-1)
  | S count =>
      r ← v_call v_trigger;
      match r with
      | None => trigger_loop count trigger_buf
      | Some content =>
          let got := take TRIGGER_BUF content in
          let trigger_buf := got ++ drop (length got) trigger_buf in
          if bool_decide (got = []) then trigger_loop count trigger_buf
          else match strstr_buf trigger_buf (lit "trigger") with
               | None => p_undef
               | Some true => mret (Z.of_nat count)
               | Some false => trigger_loop count trigger_buf
               end
      end
  end.
Definition COUNT : nat := 100.

(** *** main *)

Inductive v_opt := opt_a (optarg : cstr) | opt_d | opt_i | opt_k (optarg : cstr) | opt_p | opt_h.
Definition victim_table : opt_table :=
  OptTable (lit "a:dihk:p") (Some (long_table
    [("address", true, "a"%char); ("data", false, "d"%char); ("instruction", false, "i"%char); ("help", false, "h"%char); ("kick", true, "k"%char);
     ("pfa", false, "p"%char)]%string, true)).
Definition v_opt_of (r : opt_ret) : v_opt :=
  match r with
  | Got "a" (Some s) => opt_a s | Got "d" _ => opt_d | Got "i" _ => opt_i | Got "k" (Some s) => opt_k s
  | Got "p" _ => opt_p | _ => opt_h
  end%char.
Record flags := Flags { iflag : bool; dflag : bool; kick : Z; pfa : bool }.

Definition address_text (pid virt phys : Z) : cstr :=
  lit "physical address of (" ++ fmt_d pid ++ lit ",0x" ++ fmt_x virt ++ lit ") = 0x" ++ fmt_x phys ++ [NL].

(** The loop over the options: the status [main] returns, or the flags. *)
Fixpoint victim_opts (options : list v_opt) (f : flags) : prog victim (Z + flags) :=
  match options with
  | [] => mret (inr f)
  | opt_a optarg :: _ =>
      r ← parse_addr_subopts optarg;
      match r with
      | Some (virt, pid) =>
          phys ← vtop virt pid;
          v_print (address_text pid virt phys);;
          mret (inl 0)
      | None => mret (inl 1)
      end
  | opt_d :: l => victim_opts l (Flags (iflag f) true (kick f) (pfa f))
  | opt_i :: l => victim_opts l (Flags true (dflag f) (kick f) (pfa f))
  | opt_k optarg :: l =>
      let '(v, erange) := strtoll optarg 0 in
      let kick := i32 v in
      if ((kick =? 0) && negb (bool_decide (chr0 optarg = "0"%char))) || erange then mret (inl 1)
      else if negb (kick =? 0) && negb (kick =? 1) then mret (inl 1)
      else victim_opts l (Flags (iflag f) (dflag f) kick (pfa f))
  | opt_p :: l => victim_opts l (Flags (iflag f) (dflag f) (kick f) true)
  | opt_h :: _ => v_print usage;; mret (inl 0)
  end.

(** What follows the wait for the trigger. *)
Definition consume (f : flags) : ending :=
  if iflag f then Executes_page else if dflag f then Reads_page else Returns 0.

Definition wait_trigger (f : flags) : prog victim ending :=
  if kick f =? 0 then
    if negb v_unlink then mret (Returns 1)
    else
      count ← trigger_loop COUNT (replicate TRIGGER_BUF NUL);
      mret (if count =? 0 then Returns 1 else consume f)
  else
    v_print (lit "Hit any key to trigger error: ");;
    now ← v_call v_ctime;
    v_print (lit "Access time at " ++ now ++ [NL]);;
    mret (consume f).

Definition stars : list Z := replicate (Z.to_nat (v_pagesize / 4)) 0x2a2a2a2a.
Definition victim_main (fuel : nat) (garbage argc : Z) (options : list v_opt) : prog victim ending :=
  if argc <=? 1 then v_print usage;; mret (Returns 0)
  else
    r ← victim_opts options (Flags false false 1 false);
    match r with
    | inl status => mret (Returns status)
    | inr f =>
        match v_mmap with
        | None => mret (Returns 1)
        | Some buf =>
            v_set_page stars;;
            let pid := v_getpid in
            phys ← vtop buf pid;
            if phys =? 0 then mret (Returns 1)
            else
              p_when (iflag f) (v_set_page v_dummyfunc);;
              v_print (lit "physical address of (0x" ++ fmt_x buf ++ lit ") = 0x" ++ fmt_x phys ++ [NL]);;
              p_when (pfa f) (e ← pfa_helper fuel garbage buf pid phys; match (e : Empty_set) with end);;
              wait_trigger f
        end
    end.
(** The program from its arguments. *)
Definition victim_program (fuel : nat) (garbage : Z) (args : list cstr) : prog victim ending :=
  victim_main fuel garbage (Z.of_nat (S (length args))) (v_opt_of <$> calls (getopt victim_table args)).
End Program.

(** ** Lemmas *)

Lemma span_app c s t : c ∉ s → span c (s ++ c :: t) = (s, c :: t).
Proof.
  induction s as [|a s IH]; intros Hc; simpl; [by rewrite decide_True|].
  rewrite decide_False by set_solver. rewrite IH by set_solver. done.
Qed.
Lemma span_all c s : c ∉ s → span c s = (s, []).
Proof.
  induction s as [|a s IH]; intros Hc; simpl; [done|].
  rewrite decide_False by set_solver. rewrite IH by set_solver. done.
Qed.

(** [name=value] in front of a list. *)
Lemma getsubopt_value n i v rest :
  ","%char ∉ n → "="%char ∉ n → ","%char ∉ v →
  list_find (λ t, fst t = n) tokens = Some i →
  getsubopt (n ++ "="%char :: v ++ ","%char :: rest) = (Some (snd (snd i)), Some v, rest)
  ∧ getsubopt (n ++ "="%char :: v) = (Some (snd (snd i)), Some v, []).
Proof.
  intros Hn1 Hn2 Hv Hi. unfold getsubopt. split.
  - change (n ++ "="%char :: v ++ ","%char :: rest) with (n ++ ("="%char :: v) ++ ","%char :: rest).
    rewrite app_assoc, span_app by set_solver. rewrite span_app by done. rewrite Hi. by destruct i as [? [? ?]].
  - rewrite (span_all ",") by set_solver. rewrite span_app by done. rewrite Hi. by destruct i as [? [? ?]].
Qed.

Lemma digits_notin base s c : Forall (λ c, is_digit base c = true) s → digit_val c = None → c ∉ s.
Proof.
  intros Hs Hc Hin. rewrite Forall_forall in Hs. specialize (Hs c Hin).
  unfold is_digit in Hs. by rewrite Hc in Hs.
Qed.

Lemma read_sign_none s : chr0 s ≠ "-"%char → chr0 s ≠ "+"%char → read_sign s = (false, s).
Proof. destruct s as [|c s]; [done|]. simpl. intros. by rewrite !decide_False. Qed.

(** The conversions in base 0 of a hexadecimal and of a decimal number. *)
Lemma checked_hex v : is_u64 v → checked_number (λ v, v) (lit "0x" ++ fmt_x v) = Some v.
Proof.
  intros Hv. unfold is_u64 in Hv. unfold checked_number, strtoull, strto_parse, fmt_x.
  destruct (fmt_base_head 16 ltac:(lia) v ltac:(lia)) as (d & t & E & Hd & _).
  assert (read_base 0 (lit "0x" ++ fmt_base 16 v) = (16, fmt_base 16 v)) as Hb.
  { rewrite E. cbn. unfold is_digit. destruct (digit_char_spec d ltac:(lia)) as [-> _].
    by destruct (Z.ltb_spec d 16); [|lia]. }
  change (read_sign (skip_spaces (lit "0x" ++ fmt_base 16 v))) with (false, lit "0x" ++ fmt_base 16 v).
  cbv beta iota. rewrite Hb. rewrite <- (app_nil_r (fmt_base 16 v)), (read_fmt_base 16 ltac:(lia)) by lia.
  simpl read_digits. destruct (Z.ltb_spec ULONG_MAX v); [unfold ULONG_MAX, umax in *; lia|].
  by rewrite andb_false_r.
Qed.

Lemma checked_dec p : 0 ≤ p < 2 ^ 31 → checked_number i32 (fmt_u p) = Some p.
Proof.
  intros Hp. unfold checked_number, strtoull. rewrite <- (app_nil_r (fmt_u p)).
  rewrite strto_parse_fmt; [|lia|done|by left]. rewrite app_nil_r.
  destruct (Z.ltb_spec ULONG_MAX p); [unfold ULONG_MAX, umax in *; lia|].
  assert (i32 p = p) as -> by (apply i32_small; lia).
  by destruct (Z.eqb_spec p 0) as [->|].
Qed.

(** The argument of -a, in the order the usage gives and in the other one. *)
Definition addr_arg (v p : Z) : cstr := lit "vaddr=0x" ++ fmt_x v ++ lit ",pid=" ++ fmt_u p.
Definition addr_arg' (v p : Z) : cstr := lit "pid=" ++ fmt_u p ++ lit ",vaddr=0x" ++ fmt_x v.

Lemma subopts_loop_arg v p arg : 0 ≤ v → 0 ≤ p → arg = addr_arg v p ∨ arg = addr_arg' v p →
  ∀ fuel, (2 < fuel)%nat → subopts_loop fuel arg None None = Some (Some (lit "0x" ++ fmt_x v), Some (fmt_u p)).
Proof.
  intros Hv Hp Harg fuel Hf. destruct fuel as [|[|[|fuel]]]; [lia..|].
  assert (","%char ∉ lit "0x" ++ fmt_x v) as Hcv.
  { rewrite elem_of_app. intros [H|H]; [set_solver|]. revert H.
    apply (digits_notin 16); [by apply fmt_base_digits|done]. }
  assert (","%char ∉ fmt_u p) as Hcp.
  { apply (digits_notin 10); [by apply fmt_base_digits|done]. }
  destruct (getsubopt_value (lit "vaddr") _ (lit "0x" ++ fmt_x v) (lit "pid=" ++ fmt_u p)
    ltac:(set_solver) ltac:(set_solver) Hcv eq_refl) as [Hv1 Hv2].
  destruct (getsubopt_value (lit "pid") _ (fmt_u p) (lit "vaddr=0x" ++ fmt_x v)
    ltac:(set_solver) ltac:(set_solver) Hcp eq_refl) as [Hp1 Hp2].
  destruct Harg as [-> | ->]; cbn [subopts_loop].
  - change (addr_arg v p) with (lit "vaddr" ++ "="%char :: lit "0x" ++ fmt_x v ++ ","%char :: lit "pid=" ++ fmt_u p).
    rewrite (bool_decide_eq_false_2 (chr0 _ = NUL)) by done.
    rewrite (app_assoc (lit "0x")), Hv1. cbn [snd].
    change (lit "pid=" ++ fmt_u p) with (lit "pid" ++ "="%char :: fmt_u p).
    rewrite (bool_decide_eq_false_2 (chr0 _ = NUL)) by done. rewrite Hp2. done.
  - change (addr_arg' v p) with (lit "pid" ++ "="%char :: fmt_u p ++ ","%char :: lit "vaddr=0x" ++ fmt_x v).
    rewrite (bool_decide_eq_false_2 (chr0 _ = NUL)) by done. rewrite Hp1. cbn [snd].
    change (lit "vaddr=0x" ++ fmt_x v) with (lit "vaddr" ++ "="%char :: lit "0x" ++ fmt_x v).
    rewrite (bool_decide_eq_false_2 (chr0 _ = NUL)) by done. rewrite Hv2. done.
Qed.

Lemma strstr_found pre t post : NUL ∉ pre → strstr_buf (pre ++ t ++ post) t = Some true ∨ t = [].
Proof.
  intros Hpre. destruct (decide (t = [])) as [|Ht]; [by right|left].
  induction pre as [|a pre IH].
  - simpl. destruct t as [|c t]; [done|]. simpl. by rewrite decide_True by (by exists post).
  - cbn [app strstr_buf]. case_decide; [done|]. rewrite decide_False by set_solver. apply IH. set_solver.
Qed.

Section Wait.
Context {env : victim_env}.

(** A poll of the trigger file that finds none, or an empty one. *)
Definition quiet (r : option cstr) : Prop := r = None ∨ r = Some [].
(** One that finds the flag. *)
Definition triggered (r : option cstr) : Prop :=
  ∃ pre post, r = Some (pre ++ lit "trigger" ++ post) ∧ NUL ∉ pre ∧ (length pre + 7 ≤ TRIGGER_BUF)%nat.

Lemma trigger_loop_quiet count k buf s :
  (k ≤ count)%nat → (∀ i, (i < k)%nat → quiet (v_trigger (v_clock s + i))) →
  trigger_loop count buf s = trigger_loop (count - k) buf (Vic (v_out s) (v_clock s + k) (v_page s)).
Proof.
  revert count s. induction k as [|k IH]; intros count s Hk Hq.
  { rewrite Nat.sub_0_r, Nat.add_0_r. by destruct s. }
  destruct count as [|count]; [lia|]. cbn [trigger_loop].
  rewrite p_bind_run. unfold v_call at 1.
  assert (quiet (v_trigger (v_clock s))) as [E | E].
  1: { specialize (Hq 0%nat). rewrite Nat.add_0_r in Hq. apply Hq. lia. }
  all: rewrite E; cbv beta iota zeta; rewrite ?take_nil; cbn [length drop app].
  all: rewrite ?bool_decide_eq_true_2 by done; cbv beta iota.
  all: rewrite (IH count); [|lia|]; cbn [v_clock v_out v_page];
    [by rewrite Nat.add_succ_comm, Nat.sub_succ|].
  all: intros i Hi; specialize (Hq (S i)); rewrite <- Nat.add_succ_comm in Hq; apply Hq; lia.
Qed.

Lemma trigger_loop_found count buf s :
  triggered (v_trigger (v_clock s)) →
  trigger_loop (S count) buf s = (Ok (Z.of_nat count), Vic (v_out s) (S (v_clock s)) (v_page s)).
Proof.
  intros (pre & post & E & Hpre & Hlen). cbn [trigger_loop]. rewrite p_bind_run. unfold v_call. rewrite E.
  rewrite app_assoc, take_app_ge by (rewrite length_app; simpl; lia).
  rewrite bool_decide_eq_false_2 by (by destruct pre). rewrite <- !app_assoc.
  destruct (strstr_found pre (lit "trigger") (take (TRIGGER_BUF - length (pre ++ lit "trigger")) post
    ++ drop (length (pre ++ lit "trigger" ++ take (TRIGGER_BUF - length (pre ++ lit "trigger")) post)) buf) Hpre)
    as [Hs|]; [|done]. by rewrite Hs.
Qed.
End Wait.

(** The values of a sequence of observations that differ from the one before. *)
Fixpoint changes (old : Z) (obs : list Z) : list Z :=
  match obs with
  | [] => []
  | x :: obs' => if old =? x then changes old obs' else x :: changes x obs'
  end.

Definition last_seen (old : Z) (obs : list Z) : Z := foldl (λ _ x, x) old obs.

Lemma changes_app old obs1 obs2 :
  changes old (obs1 ++ obs2) = changes old obs1 ++ changes (last_seen old obs1) obs2.
Proof.
  revert old. induction obs1 as [|x obs1 IH]; intros old; [done|]. cbn [app changes].
  change (last_seen old (x :: obs1)) with (last_seen x obs1).
  destruct (Z.eqb_spec old x) as [->|]; by rewrite IH.
Qed.

Section Pfa.
Context {env : victim_env}.

(** What [vtop] answers at the times [t], ..., [t + n - 1]. *)
Definition observed (p pid : Z) (t n : nat) : list Z := (λ i, vtop_at i p pid) <$> seq t n.

Lemma observed_app p pid t n m : observed p pid t (n + m) = observed p pid t n ++ observed p pid (t + n) m.
Proof. unfold observed. by rewrite seq_app, fmap_app. Qed.

(** One turn looks once or twice, and prints what changed. *)
Lemma pfa_step_run p pid total old s :
  ∃ total' n page, (0 < n ≤ 2)%nat ∧
    let obs := observed p pid (v_clock s) n in
    pfa_step p pid (total, old) s =
    (Ok (total', last_seen old obs),
     Vic (v_out s ++ concat (replaced_text <$> changes old obs)) (v_clock s + n) page).
Proof.
  unfold pfa_step. rewrite p_bind_run. cbv beta iota delta [p_get].
  destruct (touch_totals total (v_page s)) as [total1 page1].
  rewrite !p_bind_run. unfold v_set_page at 1, p_modify. cbv beta iota. rewrite p_bind_run.
  unfold vtop at 1, v_call. cbn [v_clock v_out v_page].
  destruct (Z.eqb_spec old (vtop_at (v_clock s) p pid)) as [E|E].
  - destruct (touch_offsets total1 page1) as [total2 page2].
    rewrite !p_bind_run. unfold v_set_page, p_modify. cbv beta iota. rewrite p_bind_run.
    unfold vtop, v_call. cbn [v_clock v_out v_page].
    destruct (Z.eqb_spec old (vtop_at (S (v_clock s)) p pid)) as [E2|E2].
    + exists total2, 2%nat, page2. split; [lia|]. cbn. rewrite <- E, <- E2, Z.eqb_refl.
      by rewrite app_nil_r, (Nat.add_comm _ 2).
    + exists total2, 2%nat, page2. split; [lia|]. cbn [negb]. rewrite p_bind_run.
      unfold v_print, p_modify. cbn. rewrite <- E, Z.eqb_refl. cbn.
      destruct (Z.eqb_spec old (vtop_at (S (v_clock s)) p pid)); [done|]. cbn.
      by rewrite app_nil_r, (Nat.add_comm _ 2).
  - exists total1, 1%nat, page1. split; [lia|]. rewrite p_bind_run. unfold v_print, p_modify. cbn.
    destruct (Z.eqb_spec old (vtop_at (v_clock s) p pid)); [done|]. cbn.
    by rewrite app_nil_r, (Nat.add_comm _ 1).
Qed.

Lemma pfa_loop_run fuel p pid total old s :
  ∃ n page, (fuel ≤ n ≤ 2 * fuel)%nat ∧
    pfa_loop fuel p pid (total, old) s =
    (NoFuel, Vic (v_out s ++ concat (replaced_text <$> changes old (observed p pid (v_clock s) n)))
                 (v_clock s + n) page).
Proof.
  revert total old s. induction fuel as [|fuel IH]; intros total old s.
  { exists 0%nat, (v_page s). split; [lia|]. cbn. rewrite app_nil_r, Nat.add_0_r. by destruct s. }
  cbn [pfa_loop]. destruct (pfa_step_run p pid total old s) as (total' & n & page & Hn & Hs).
  rewrite (p_bind_ok _ _ _ _ _ Hs).
  edestruct IH as (m & page' & Hm & ->). exists (n + m)%nat, page'. split; [lia|].
  cbn [v_out v_clock]. rewrite observed_app, changes_app, fmap_app, concat_app, !app_assoc.
  by rewrite Nat.add_assoc.
Qed.
End Pfa.

(** ** A kernel for the examples: the page moves at the tenth call, and the
    trigger file is there from call [ready] on *)
Definition demo_env (ready : nat) : victim_env := {|
  v_pagesize := 4096;
  v_pagemap t pid off := Some (2 ^ 63 + (if (t <? 10)%nat then 5 else 6) + off / 8);
  v_mmap := Some 0x7000;
  v_getpid := 42;
  v_unlink := true;
  v_trigger t := if (t <? ready)%nat then None else Some (lit "trigger" ++ [NL]);
  v_ctime _ := lit "now";
  v_dummyfunc := []
|}.
Definition victim0 : victim := Vic [] 0 [].

Section Theorems.
Context {env : victim_env}.

Lemma pm_pfn_range e : 0 ≤ pm_pfn e < 2 ^ 55.
Proof. unfold pm_pfn. rewrite Z.land_ones by done. apply Z.mod_pos_bound. lia. Qed.

Lemma vtop_at_eq k t addr pid e :
  v_pagesize = 2 ^ k → 3 ≤ k < 64 → is_u64 addr →
  v_pagemap t pid (8 * (addr / 2 ^ k)) = Some e → pm_pfn e * 2 ^ k < 2 ^ 64 →
  vtop_at t addr pid = pm_pfn e * 2 ^ k + addr `mod` 2 ^ k.
Proof.
  intros Hps Hk Ha He Hphys. unfold is_u64 in Ha. unfold vtop_at, vtop_offset. rewrite Hps.
  assert (0 < 2 ^ k) by (apply Z.pow_pos_nonneg; lia).
  assert (2 ^ 3 ≤ 2 ^ k) by (apply Z.pow_le_mono_r; lia). change (2 ^ 3) with 8 in *.
  assert (0 ≤ addr / 2 ^ k * 8 < 2 ^ 64).
  { pose proof (Z.div_pos addr (2 ^ k)). pose proof (Z.mul_div_le addr (2 ^ k)). nia. }
  rewrite u64_small by done. rewrite Z.mul_comm, He.
  pose proof (pm_pfn_range e). rewrite u64_small by (unfold is_u64; nia).
  replace (2 ^ k - 1) with (Z.ones k) by (rewrite Z.ones_equiv; lia).
  rewrite Z.land_ones by lia. rewrite <- Z.shiftl_mul_pow2 by lia.
  symmetry. rewrite Z.add_nocarry_lxor, <- Z.lxor_lor; [done|..].
  all: apply Z.bits_inj'; intros n Hn; rewrite Z.land_spec, Z.bits_0, Z.shiftl_spec by done.
  all: rewrite <- Z.land_ones, Z.land_spec, Z.testbit_ones by lia.
  all: destruct (Z.lt_ge_cases n k); [by rewrite (Z.testbit_neg_r _ (n - k)) by lia|].
  all: bool_cases; simpl; try lia; by rewrite ?andb_false_r.
Qed.

(** For a page size that is a power of two, [vtop] gives the byte at the
    same offset of the frame that the kernel has for the page of the address:
    the entry it reads is that of the page, and the number is the frame times
    the page size plus the offset. *)
Theorem vtop_spec k t addr pid e :
  v_pagesize = 2 ^ k → 3 ≤ k < 64 → is_u64 addr →
  v_pagemap t pid (8 * (addr / 2 ^ k)) = Some e → pm_pfn e * 2 ^ k < 2 ^ 64 →
  vtop_at t addr pid / 2 ^ k = pm_pfn e ∧ vtop_at t addr pid `mod` 2 ^ k = addr `mod` 2 ^ k.
Proof.
  intros Hps Hk Ha He Hphys. rewrite (vtop_at_eq k t addr pid e) by done.
  assert (0 < 2 ^ k) by (apply Z.pow_pos_nonneg; lia). pose proof (Z.mod_pos_bound addr (2 ^ k)).
  split.
  - rewrite Z.div_add_l, Z.div_small by lia. lia.
  - rewrite Z.add_comm, Z_mod_plus_full. by apply Z.mod_mod; lia.
Qed.

Lemma victim_table_ok : table_ok victim_table.
Proof. apply (bool_decide_unpack _). by vm_compute. Qed.

(** C30: [victim] with -a first, with the address and the process in either order, prints
    the physical address of the address the user wrote in the process the user
    wrote, and returns 0. *)
Theorem address_option v p arg fuel garbage args evs rest s :
  is_u64 v → 0 ≤ p < 2 ^ 31 → arg = addr_arg v p ∨ arg = addr_arg' v p →
  command victim_table args (Got "a" (Some arg) :: evs)%char rest →
  victim_program fuel garbage args s =
  (Ok (Returns 0),
   Vic (v_out s ++ address_text p v (vtop_at (v_clock s) v p)) (S (v_clock s)) (v_page s)).
Proof.
  intros Hv Hp Harg Hcmd. unfold is_u64 in Hv. unfold victim_program.
  destruct (getopt_command _ victim_table_ok _ _ _ Hcmd) as [He _].
  assert (1 < Z.of_nat (S (length args))) as Hargc by (destruct args; [done|cbn [length]; lia]).
  rewrite He. unfold victim_main. destruct (Z.leb_spec (Z.of_nat (S (length args))) 1); [lia|].
  cbn [fmap list_fmap v_opt_of victim_opts].
  assert (parse_addr_subopts arg s = (Ok (Some (v, p)), s)) as Hparse.
  { unfold parse_addr_subopts. rewrite (subopts_loop_arg v p) by (done || lia || (destruct Harg as [-> | ->]; cbn; lia)).
    rewrite checked_hex by done. by rewrite checked_dec. }
  rewrite p_bind_run, (p_bind_ok _ _ _ _ _ Hparse). done.
Qed.

(** C31: the wait for the trigger file, which [victim -k 0] polls a hundred
    times. Once the flag is there at one of the first 99 polls the victim goes
    on. The two other cases are the wrong way round: a flag first seen at the
    hundredth poll is reported as a timeout, and after a hundred polls without
    one the victim goes on as if it had been there. *)
Theorem trigger_wait f s :
  kick f = 0 → v_unlink = true →
  (∀ k, (k < 100)%nat → (∀ i, (i < k)%nat → quiet (v_trigger (v_clock s + i))) →
        triggered (v_trigger (v_clock s + k)) →
        wait_trigger f s = (Ok (if (k =? 99)%nat then Returns 1 else consume f),
                            Vic (v_out s) (v_clock s + S k) (v_page s)))
  ∧ ((∀ i, (i < 100)%nat → quiet (v_trigger (v_clock s + i))) →
     wait_trigger f s = (Ok (consume f), Vic (v_out s) (v_clock s + 100) (v_page s))).
Proof.
  intros Hk Hu. split.
  - intros k Hlt Hq Ht. unfold wait_trigger. rewrite Hk, Hu. cbn [negb Z.eqb].
    rewrite p_bind_run. rewrite (trigger_loop_quiet COUNT k) by (done || unfold COUNT; lia).
    assert ((COUNT - k)%nat = S (99 - k)) as -> by (unfold COUNT; lia).
    rewrite trigger_loop_found by done. cbn [v_out v_clock v_page].
    rewrite <- Nat.add_succ_r.
    destruct (Nat.eqb_spec k 99) as [->|]; [done|].
    destruct (Z.eqb_spec (Z.of_nat (99 - k)) 0); [lia|done].
  - intros Hq. unfold wait_trigger. rewrite Hk, Hu. cbn [negb Z.eqb].
    rewrite p_bind_run. by rewrite (trigger_loop_quiet COUNT COUNT).
Qed.

(** C32: [pfa_helper] never returns, and what it prints are the physical
    addresses at which the page was seen to change, in order: one line for each
    look that differs from the one before, the first compared with the address
    the page had at the start, in one or two looks per turn. *)
Theorem pfa_helper_prints fuel garbage p pid old s :
  ∃ n page, (fuel ≤ n ≤ 2 * fuel)%nat ∧
    pfa_helper fuel garbage p pid old s =
    (NoFuel, Vic (v_out s ++ concat (replaced_text <$> changes old (observed p pid (v_clock s) n)))
                 (v_clock s + n) page).
Proof. apply pfa_loop_run. Qed.
End Theorems.

Lemma vtop_spec_witness :
  vtop_at (env := demo_env 0) 0 0x7123 42 / 2 ^ 12 = 12 ∧ vtop_at (env := demo_env 0) 0 0x7123 42 `mod` 2 ^ 12 = 0x123.
Proof.
  apply (vtop_spec (env := demo_env 0) 12 0 0x7123 42 (2 ^ 63 + 12));
    first [lia | unfold is_u64; lia | by vm_compute].
Defined.

Lemma address_option_witness :
  victim_program (env := demo_env 0) 0 0 [lit "-a"; lit "pid=42,vaddr=0x7123"] victim0
  = (Ok (Returns 0), Vic (lit "physical address of (42,0x7123) = 0xc123" ++ [NL]) 1 []).
Proof.
  rewrite (address_option (env := demo_env 0) 0x7123 42 (lit "pid=42,vaddr=0x7123") 0 0 _ [] [] victim0);
    [by vm_compute | unfold is_u64; lia | lia | by right; vm_compute |].
  apply (cmd_option _ _ [lit "-a"; lit "pid=42,vaddr=0x7123"]); [by constructor|constructor].
Defined.

Lemma trigger_wait_witness :
  fst (wait_trigger (env := demo_env 98) (Flags false true 0 false) victim0) = Ok Reads_page
  ∧ fst (wait_trigger (env := demo_env 99) (Flags false true 0 false) victim0) = Ok (Returns 1)
  ∧ fst (wait_trigger (env := demo_env 200) (Flags false true 0 false) victim0) = Ok Reads_page.
Proof.
  assert (∀ r i, (i < r)%nat → quiet (v_trigger (victim_env := demo_env r) (0 + i))) as Hq.
  { intros r i Hi. left. unfold v_trigger, demo_env. rewrite Nat.add_0_l. by destruct (Nat.ltb_spec i r); [|lia]. }
  assert (∀ r, triggered (v_trigger (victim_env := demo_env r) (0 + r))) as Ht.
  { intros r. exists [], [NL]. unfold v_trigger, demo_env. rewrite Nat.add_0_l. destruct (Nat.ltb_spec r r); [lia|].
    split_and!; [done|set_solver|unfold TRIGGER_BUF; simpl; lia]. }
  split_and!.
  - rewrite (proj1 (trigger_wait (env := demo_env 98) (Flags false true 0 false) victim0 eq_refl eq_refl) 98%nat);
      [done|lia|apply Hq|apply Ht].
  - rewrite (proj1 (trigger_wait (env := demo_env 99) (Flags false true 0 false) victim0 eq_refl eq_refl) 99%nat);
      [done|lia|apply Hq|apply Ht].
  - rewrite (proj2 (trigger_wait (env := demo_env 200) (Flags false true 0 false) victim0 eq_refl eq_refl));
      [done|]. intros i Hi. apply Hq. lia.
Defined.
