(* ===== verification/ShmTest.v ===== *)
(** * ShmTest: the children of the shared memory test of page-poisoning

    [shm_test] of page-poisoning.c (lines 652-686) is run by [shm_child_num]
    processes at once.  They share the segment of [struct ipc] and two
    semaphores: number 0, initially 1, is a lock, and number 1, initially
    [shm_child_num], a barrier.  The model is a step relation: one child takes
    one statement at a time, in any order, and blocks where [semop] does.  The
    theorems say what every interleaving keeps, that all of them end, and where
    the children are then, also when some of them exited on the way.  The
    operations on the semaphores succeed; they are without [SEM_UNDO]. *)
From S2P Require Import Prelude.

(** ** The state *)

(** What makes a child exit before the end of the test: [shmat] of the shared
    structure (line 656), [shmget] (662), [shmat] of the segment (667), the
    [madvise] of [poison], which calls [exit] or [err] (252-300), and the handler
    of SIGBUS, which gives up at the fifth signal of one [poison] or [recover]
    (235-238). *)
Inductive fault := No_ipc | No_segment | No_attach | No_poison | Signal_loop.

(** Where a child is, named after the statement it takes next. *)
Inductive pc :=
| Attach_ipc          (* ipc = shmat(ipc_entry, 0, 0)             line 656 *)
| Request1            (* request_sem(semid_ready, 0)                  660 *)
| Test_ready          (* if (!ipc->shm.ready)                         661 *)
| Create              (* ipc->shm.id = shmget(...)                    662 *)
| Set_ready           (* ipc->shm.ready = 1                           665 *)
| Attach              (* shmptr = shmat(ipc->shm.id, 0, 0)            667 *)
| Store_pid           (* *shmptr = mypid                              670 *)
| Release1            (* release_sem(semid_ready, 0)                  671 *)
| Wait_dec            (* waiton_sem(semid_ready, 1): sem_op = -1      598 *)
| Wait_zero           (* ...                         sem_op = 0       600 *)
| Request2            (* request_sem(semid_ready, 0)                  675 *)
| Test_done           (* if (!ipc->shm.done)                          676 *)
| Set_done            (* ipc->shm.done = 1                            677 *)
| Poison              (* testmem(...): poison(...)                    678 *)
| Recover             (* testmem(...): recover("shm dirty", shmptr, MWRITE) *)
| Access              (* recover("shm dirty", shmptr, MREAD)          680 *)
| Release2            (* release_sem(semid_ready, 0)                  681 *)
| Finished            (* the rest of the function and exit(0)             *)
| Failed (f : fault). (* exit() or err(): the child is gone               *)

#[export] Instance fault_eq_dec : EqDecision fault.
Proof. solve_decision. Defined.
#[export] Instance pc_eq_dec : EqDecision pc.
Proof. solve_decision. Defined.

(** A child: where it is, the segment it attached, and whether it poisoned it
    or accessed the poisoned page. *)
Record child := Child {
  c_pc : pc;
  c_shmptr : option nat;
  c_poisoned : bool;
  c_accessed : bool
}.
Definition child0 : child := Child Attach_ipc None false false.
Definition goto (p : pc) (c : child) : child := Child p (c_shmptr c) (c_poisoned c) (c_accessed c).

(** [struct shm] of [struct ipc], the two semaphores, and the number that the
    next [shmget(IPC_PRIVATE)] gives. *)
Record shared := Shared {
  sem0 : nat;
  sem1 : nat;
  shm_id : option nat;
  shm_ready : bool;
  shm_done : bool;
  next_id : nat
}.
Definition shared0 (shm_child_num : nat) : shared := Shared 1 shm_child_num None false false 0.

Definition set_sem0 (n : nat) (g : shared) : shared :=
  Shared n (sem1 g) (shm_id g) (shm_ready g) (shm_done g) (next_id g).
Definition set_sem1 (n : nat) (g : shared) : shared :=
  Shared (sem0 g) n (shm_id g) (shm_ready g) (shm_done g) (next_id g).

(** ** One statement of one child

    [may_fail] says what may make a child exit. *)
Inductive cstep (may_fail : fault → bool) : shared → child → shared → child → Prop :=
| step_attach_ipc g c : c_pc c = Attach_ipc → cstep may_fail g c g (goto Request1 c)
| step_attach_ipc_fails g c : c_pc c = Attach_ipc → may_fail No_ipc = true →
    cstep may_fail g c g (goto (Failed No_ipc) c)
| step_request1 g c : c_pc c = Request1 → (0 < sem0 g)%nat →
    cstep may_fail g c (set_sem0 (sem0 g - 1) g) (goto Test_ready c)
| step_test_ready g c : c_pc c = Test_ready →
    cstep may_fail g c g (goto (if shm_ready g then Attach else Create) c)
| step_create g c : c_pc c = Create →
    cstep may_fail g c (Shared (sem0 g) (sem1 g) (Some (next_id g)) (shm_ready g) (shm_done g) (S (next_id g)))
      (goto Set_ready c)
| step_create_fails g c : c_pc c = Create → may_fail No_segment = true →
    cstep may_fail g c g (goto (Failed No_segment) c)
| step_set_ready g c : c_pc c = Set_ready →
    cstep may_fail g c (Shared (sem0 g) (sem1 g) (shm_id g) true (shm_done g) (next_id g)) (goto Attach c)
| step_attach g c : c_pc c = Attach →
    cstep may_fail g c g (Child Store_pid (shm_id g) (c_poisoned c) (c_accessed c))
| step_attach_fails g c : c_pc c = Attach → may_fail No_attach = true →
    cstep may_fail g c g (goto (Failed No_attach) c)
| step_store_pid g c : c_pc c = Store_pid → cstep may_fail g c g (goto Release1 c)
| step_release1 g c : c_pc c = Release1 →
    cstep may_fail g c (set_sem0 (S (sem0 g)) g) (goto Wait_dec c)
| step_wait_dec g c : c_pc c = Wait_dec → (0 < sem1 g)%nat →
    cstep may_fail g c (set_sem1 (sem1 g - 1) g) (goto Wait_zero c)
| step_wait_zero g c : c_pc c = Wait_zero → sem1 g = 0%nat →
    cstep may_fail g c g (goto Request2 c)
| step_request2 g c : c_pc c = Request2 → (0 < sem0 g)%nat →
    cstep may_fail g c (set_sem0 (sem0 g - 1) g) (goto Test_done c)
| step_test_done g c : c_pc c = Test_done →
    cstep may_fail g c g (goto (if shm_done g then Access else Set_done) c)
| step_set_done g c : c_pc c = Set_done →
    cstep may_fail g c (Shared (sem0 g) (sem1 g) (shm_id g) (shm_ready g) true (next_id g)) (goto Poison c)
| step_poison g c : c_pc c = Poison →
    cstep may_fail g c g (Child Recover (c_shmptr c) true (c_accessed c))
| step_poison_fails g c : c_pc c = Poison → may_fail No_poison = true →
    cstep may_fail g c g (goto (Failed No_poison) c)
| step_poison_loops g c : c_pc c = Poison → may_fail Signal_loop = true →
    cstep may_fail g c g (Child (Failed Signal_loop) (c_shmptr c) true (c_accessed c))
| step_recover g c : c_pc c = Recover → cstep may_fail g c g (goto Release2 c)
| step_recover_loops g c : c_pc c = Recover → may_fail Signal_loop = true →
    cstep may_fail g c g (goto (Failed Signal_loop) c)
| step_access g c : c_pc c = Access →
    cstep may_fail g c g (Child Release2 (c_shmptr c) (c_poisoned c) true)
| step_access_loops g c : c_pc c = Access → may_fail Signal_loop = true →
    cstep may_fail g c g (Child (Failed Signal_loop) (c_shmptr c) (c_poisoned c) true)
| step_release2 g c : c_pc c = Release2 →
    cstep may_fail g c (set_sem0 (S (sem0 g)) g) (goto Finished c).

(** The children together: one of them takes a step. *)
Definition state : Type := shared * list child.
Inductive step (may_fail : fault → bool) : state → state → Prop :=
| step_child g cs i c g' c' : cs !! i = Some c → cstep may_fail g c g' c' →
    step may_fail (g, cs) (g', <[i := c']> cs).

(** The start: [shm_child_num] is the number of the children. *)
Definition start (n : nat) : state := (shared0 n, replicate n child0).
(** An execution of a given length. *)
Inductive steps (may_fail : fault → bool) : nat → state → state → Prop :=
| steps_O s : steps may_fail O s s
| steps_S k s1 s2 s3 : steps may_fail k s1 s2 → step may_fail s2 s3 → steps may_fail (S k) s1 s3.
Definition reachable (may_fail : fault → bool) (n : nat) (s : state) : Prop := ∃ k, steps may_fail k (start n) s.

Definition no_fault (f : fault) : bool := false.

(** The same executably, without faults: the statement of one child, and the
    execution in which the children of a list take one each. *)
Definition next (g : shared) (c : child) : option (shared * child) :=
  match c_pc c with
  | Attach_ipc => Some (g, goto Request1 c)
  | Request1 => if (0 <? sem0 g)%nat then Some (set_sem0 (sem0 g - 1) g, goto Test_ready c) else None
  | Test_ready => Some (g, goto (if shm_ready g then Attach else Create) c)
  | Create => Some (Shared (sem0 g) (sem1 g) (Some (next_id g)) (shm_ready g) (shm_done g) (S (next_id g)), goto Set_ready c)
  | Set_ready => Some (Shared (sem0 g) (sem1 g) (shm_id g) true (shm_done g) (next_id g), goto Attach c)
  | Attach => Some (g, Child Store_pid (shm_id g) (c_poisoned c) (c_accessed c))
  | Store_pid => Some (g, goto Release1 c)
  | Release1 => Some (set_sem0 (S (sem0 g)) g, goto Wait_dec c)
  | Wait_dec => if (0 <? sem1 g)%nat then Some (set_sem1 (sem1 g - 1) g, goto Wait_zero c) else None
  | Wait_zero => if (sem1 g =? 0)%nat then Some (g, goto Request2 c) else None
  | Request2 => if (0 <? sem0 g)%nat then Some (set_sem0 (sem0 g - 1) g, goto Test_done c) else None
  | Test_done => Some (g, goto (if shm_done g then Access else Set_done) c)
  | Set_done => Some (Shared (sem0 g) (sem1 g) (shm_id g) (shm_ready g) true (next_id g), goto Poison c)
  | Poison => Some (g, Child Recover (c_shmptr c) true (c_accessed c))
  | Recover => Some (g, goto Release2 c)
  | Access => Some (g, Child Release2 (c_shmptr c) (c_poisoned c) true)
  | Release2 => Some (set_sem0 (S (sem0 g)) g, goto Finished c)
  | Finished | Failed _ => None
  end.
Fixpoint exec (schedule : list nat) (s : state) : option state :=
  match schedule with
  | [] => Some s
  | i :: schedule =>
      c ← s.2 !! i; r ← next s.1 c; exec schedule (r.1, <[i := r.2]> s.2)
  end.
(** The execution in which the first child that can move does. *)
Fixpoint greedy (fuel : nat) (s : state) : list nat :=
  match fuel with
  | O => []
  | S fuel =>
      match list_find (λ c, is_Some_b (next s.1 c) = true) s.2 with
      | None => []
      | Some (i, c) =>
          match exec [i] s with Some s' => i :: greedy fuel s' | None => [] end
      end
  end.

(** The cases of a statement, with the place of the child rewritten. *)
Ltac inv_cstep Hs :=
  inversion Hs; subst; repeat match goal with E : c_pc _ = _ |- _ => progress rewrite E in * end.

Lemma next_cstep g c g' c' : next g c = Some (g', c') ↔ cstep no_fault g c g' c'.
Proof.
  split.
  - unfold next. intros H. destruct (c_pc c) eqn:E; simplify_eq/=; try (case_match eqn:Hb; simplify_eq/=; apply Nat.ltb_lt in Hb || apply Nat.eqb_eq in Hb);
      by eauto using cstep.
  - intros Hs. unfold next. inv_cstep Hs; try done;
      match goal with H : (_ < _)%nat |- _ => by rewrite (proj2 (Nat.ltb_lt _ _) H) | H : sem1 _ = _ |- _ => by rewrite H end.
Qed.

Lemma exec_steps schedule s s' k s0 : steps no_fault k s0 s → exec schedule s = Some s' →
  steps no_fault (k + length schedule) s0 s'.
Proof.
  revert k s. induction schedule as [|i l IH]; intros k s Hk; simpl.
  { intros [= <-]. by rewrite Nat.add_0_r. }
  destruct s as [g cs]. cbn [fst snd]. destruct (cs !! i) as [c|] eqn:Hi; [|done]. simpl.
  destruct (next g c) as [[g' c']|] eqn:Hn; [|done]. simpl. intros He.
  rewrite <- Nat.add_succ_comm. eapply IH; [|done].
  econstructor; [done|]. econstructor; [done|]. by apply next_cstep.
Qed.

(** ** Counting children *)

Definition cnt (f : child → bool) (cs : list child) : nat := sum_list_with (λ c, Nat.b2n (f c)) cs.

Lemma cnt_insert f cs i c c' : cs !! i = Some c →
  (cnt f (<[i := c']> cs) + Nat.b2n (f c) = cnt f cs + Nat.b2n (f c'))%nat.
Proof.
  unfold cnt. revert i. induction cs as [|d cs IH]; intros [|i] Hi; simpl in *; try done.
  - injection Hi as ->. lia.
  - specialize (IH i Hi). lia.
Qed.

Lemma cnt_replicate f n c : cnt f (replicate n c) = (n * Nat.b2n (f c))%nat.
Proof. unfold cnt. induction n as [|n IH]; simpl; [done|]. rewrite IH. lia. Qed.

Lemma cnt_le f cs : (cnt f cs ≤ length cs)%nat.
Proof. unfold cnt. induction cs as [|c cs IH]; simpl; [lia|]. destruct (f c); simpl; lia. Qed.

Lemma cnt_pos f cs i c : cs !! i = Some c → f c = true → (0 < cnt f cs)%nat.
Proof.
  unfold cnt. revert i. induction cs as [|d cs IH]; intros [|i] Hi Hf; simpl in *; try done.
  - injection Hi as ->. rewrite Hf. simpl. lia.
  - specialize (IH i Hi Hf). lia.
Qed.

Lemma cnt_zero f cs i c : cnt f cs = 0%nat → cs !! i = Some c → f c = false.
Proof. intros H0 Hi. destruct (f c) eqn:E; [|done]. pose proof (cnt_pos f cs i c Hi E). lia. Qed.

Lemma cnt_all f cs i c : cnt f cs = length cs → cs !! i = Some c → f c = true.
Proof.
  unfold cnt. revert i. induction cs as [|d cs IH]; intros [|i] Hc Hi; simpl in *; try done;
    pose proof (cnt_le f cs) as Hle; unfold cnt in Hle.
  - injection Hi as ->. destruct (f c); [done|]. simpl in Hc. lia.
  - apply (IH i); [|done]. destruct (f d); simpl in Hc; lia.
Qed.

Lemma cnt_forall f cs : (∀ i c, cs !! i = Some c → f c = true) → cnt f cs = length cs.
Proof.
  unfold cnt. induction cs as [|c cs IH]; intros H; simpl; [done|].
  rewrite (H 0%nat c eq_refl), IH; [done|]. intros j d Hj. apply (H (S j) d Hj).
Qed.

(** At most one child satisfies [f]. *)
Lemma cnt_unique f cs i j c d : (cnt f cs ≤ 1)%nat → cs !! i = Some c → cs !! j = Some d →
  f c = true → f d = true → i = j.
Proof.
  revert i j. induction cs as [|e cs IH]; intros [|i] [|j] Hle Hi Hj Hc Hd; simpl in *; try done.
  - injection Hi as ->. unfold cnt in Hle. simpl in Hle. rewrite Hc in Hle.
    pose proof (cnt_pos f cs j d Hj Hd). unfold cnt in *. simpl in Hle. lia.
  - injection Hj as ->. unfold cnt in Hle. simpl in Hle. rewrite Hd in Hle.
    pose proof (cnt_pos f cs i c Hi Hc). unfold cnt in *. simpl in Hle. lia.
  - f_equal. apply IH; try done. unfold cnt in *. simpl in Hle. lia.
Qed.

(** ** The invariant *)

(** The child holds semaphore 0. *)
Definition holds (c : child) : bool :=
  match c_pc c with
  | Attach_ipc | Request1 | Wait_dec | Wait_zero | Request2 | Finished | Failed No_ipc => false
  | _ => true
  end.
(** The child has decremented semaphore 1. *)
Definition arrived (c : child) : bool :=
  match c_pc c with
  | Wait_zero | Request2 | Test_done | Set_done | Poison | Recover | Access | Release2 | Finished
  | Failed (No_poison | Signal_loop) => true
  | _ => false
  end.
(** The child has seen semaphore 1 at zero. *)
Definition passed (c : child) : bool :=
  match c_pc c with
  | Request2 | Test_done | Set_done | Poison | Recover | Access | Release2 | Finished
  | Failed (No_poison | Signal_loop) => true
  | _ => false
  end.
(** The child has attached the segment. *)
Definition attached (c : child) : bool :=
  match c_pc c with
  | Store_pid | Release1 | Wait_dec | Wait_zero | Request2 | Test_done | Set_done | Poison | Recover | Access
  | Release2 | Finished | Failed (No_poison | Signal_loop) => true
  | _ => false
  end.
(** The child is the one to poison the segment: it will, it has, or its
    [madvise] failed. *)
Definition poisoner (c : child) : bool :=
  match c_pc c with Poison | Failed No_poison => true | _ => c_poisoned c end.

Definition pc_ok (g : shared) (c : child) : Prop :=
  match c_pc c with
  | Create => shm_ready g = false ∧ shm_id g = None
  | Set_ready => shm_ready g = false ∧ is_Some (shm_id g)
  | Attach => shm_ready g = true
  | Set_done => shm_done g = false
  | Poison | Recover | Access | Release2 | Finished | Failed (No_poison | Signal_loop) => shm_done g = true
  | _ => True
  end.
Definition role_ok (c : child) : Prop :=
  match c_pc c with
  | Release2 | Finished | Failed Signal_loop => xorb (c_poisoned c) (c_accessed c) = true
  | Recover => c_poisoned c = true ∧ c_accessed c = false
  | _ => c_poisoned c = false ∧ c_accessed c = false
  end.

Record child_ok (g : shared) (c : child) : Prop := {
  ok_pc : pc_ok g c;
  ok_role : role_ok c;
  ok_attached : attached c = true → is_Some (c_shmptr c);
  ok_shmptr k : c_shmptr c = Some k → shm_ready g = true ∧ shm_id g = Some k;
  ok_passed : passed c = true → sem1 g = 0%nat;
  ok_accessed : c_accessed c = true → shm_done g = true
}.

Record inv (n : nat) (g : shared) (cs : list child) : Prop := {
  inv_length : length cs = n;
  inv_lock : (sem0 g + cnt holds cs)%nat = 1%nat;
  inv_barrier : (sem1 g + cnt arrived cs)%nat = n;
  inv_done : cnt poisoner cs = Nat.b2n (shm_done g);
  inv_ready : shm_ready g = true → is_Some (shm_id g);
  inv_creating : shm_ready g = false → is_Some (shm_id g) → ∃ i c, cs !! i = Some c ∧ c_pc c = Set_ready;
  inv_next : next_id g = match shm_id g with Some _ => 1%nat | None => 0%nat end;
  inv_child i c : cs !! i = Some c → child_ok g c;
  inv_accessed i c : cs !! i = Some c → c_accessed c = true → ∃ j d, cs !! j = Some d ∧ c_poisoned d = true
}.

Lemma shm_inv_start n : inv n (shared0 n) (replicate n child0).
Proof.
  split; try done.
  - apply length_replicate.
  - by rewrite cnt_replicate, Nat.mul_0_r.
  - rewrite cnt_replicate. simpl. lia.
  - by rewrite cnt_replicate, Nat.mul_0_r.
  - by intros _ [??].
  - intros i c [-> _]%lookup_replicate. by split.
  - by intros i c [-> _]%lookup_replicate.
Qed.

(** Nobody else holds the lock while one child does. *)
Lemma inv_exclusive n g cs i j c d : inv n g cs → cs !! i = Some c → cs !! j = Some d →
  holds c = true → i ≠ j → holds d = false.
Proof.
  intros Hinv Hi Hj Hc Hne. destruct (holds d) eqn:Hd; [|done].
  destruct Hne. eapply (cnt_unique holds cs); eauto. pose proof (inv_lock _ _ _ Hinv). lia.
Qed.

(** A statement of another child does not break what a child relies on. *)
Lemma child_ok_other may_fail g c g' c' d : cstep may_fail g c g' c' →
  child_ok g c → child_ok g d → (holds c = true → holds d = false) →
  (0 < sem1 g → passed d = false)%nat → child_ok g' d.
Proof.
  intros Hs Hc [Hpc Hrole Hatt Hptr Hpass Hacc] Hlock Hbar.
  pose proof (ok_pc _ _ Hc) as Hcpc. unfold pc_ok, holds in *.
  inv_cstep Hs; split; cbn; try done; intros; try (by eauto).
  all: try (specialize (Hlock eq_refl); unfold pc_ok; destruct d as [p ? ? ?]; destruct p as [ | | | | | | | | | | | | | | | | | |[]]; cbn in *; done).
  - destruct Hcpc as [Hr _]. by destruct (Hptr k) as [Hr' _]; [|rewrite Hr in Hr'].
  - by destruct (Hptr k).
  - assert (passed d = false) by auto. congruence.
Qed.

(** The child that takes the step. *)
Lemma child_ok_self may_fail g c g' c' : cstep may_fail g c g' c' →
  child_ok g c → (shm_ready g = true → is_Some (shm_id g)) →
  (c_pc c = Test_ready → shm_ready g = false → shm_id g = None) → child_ok g' c'.
Proof.
  intros Hs [Hpc Hrole Hatt Hptr Hpass Hacc] Hready Hfresh. unfold pc_ok, role_ok, attached, passed in *.
  inv_cstep Hs; destruct c as [p ptr po ac]; cbn in *; subst;
    split; unfold pc_ok, role_ok, attached, passed; cbn; try done; try (by eauto); try lia.
  all: try (destruct (shm_ready _) eqn:?); try (destruct (shm_done _) eqn:?); cbn; eauto; try done.
  all: try (by destruct Hrole as [-> ->]); try (by destruct Hpc as [? ?]; eauto).
  all: intros k Hk; destruct (Hptr k Hk); try done.
Qed.

(** What a statement does to the semaphores and to the counts. *)
Lemma step_counts may_fail g c g' c' : cstep may_fail g c g' c' → child_ok g c →
  (sem0 g' + Nat.b2n (holds c') = sem0 g + Nat.b2n (holds c))%nat
  ∧ (sem1 g' + Nat.b2n (arrived c') = sem1 g + Nat.b2n (arrived c))%nat
  ∧ (Nat.b2n (shm_done g') + Nat.b2n (poisoner c) = Nat.b2n (shm_done g) + Nat.b2n (poisoner c'))%nat.
Proof.
  intros Hs [Hpc Hrole _ _ _ _]. unfold pc_ok, role_ok, holds, arrived, poisoner in *.
  inv_cstep Hs; destruct c as [p ptr po ac]; cbn in *; subst;
    try (destruct (shm_ready _)); try (destruct (shm_done _) eqn:?); try (destruct Hrole as [-> ->]);
    cbn; try lia; try done.
Qed.

Lemma step_segment may_fail g c g' c' : cstep may_fail g c g' c' → child_ok g c →
  (shm_ready g' = shm_ready g ∧ shm_id g' = shm_id g ∧ next_id g' = next_id g)
  ∨ (c_pc c = Create ∧ c_pc c' = Set_ready ∧ shm_ready g' = false ∧ shm_id g = None
     ∧ shm_id g' = Some (next_id g) ∧ next_id g' = S (next_id g))
  ∨ (c_pc c = Set_ready ∧ shm_ready g' = true ∧ is_Some (shm_id g) ∧ shm_id g' = shm_id g ∧ next_id g' = next_id g).
Proof.
  intros Hs [Hpc _ _ _ _ _]. unfold pc_ok in *.
  inv_cstep Hs; cbn; naive_solver.
Qed.

Lemma cnt_witness f cs : (0 < cnt f cs)%nat → ∃ i c, cs !! i = Some c ∧ f c = true.
Proof.
  unfold cnt. induction cs as [|c cs IH]; simpl; [lia|]. destruct (f c) eqn:E; [by exists 0%nat, c|].
  intros H. destruct IH as (i & d & Hi & Hd); [simpl in H; lia|]. by exists (S i), d.
Qed.

(** Once poisoned a child stays so, and only [step_access] makes one accessed. *)
Lemma step_marks may_fail g c g' c' : cstep may_fail g c g' c' →
  (c_poisoned c = true → c_poisoned c' = true) ∧ (c_accessed c' = true → c_accessed c = true ∨ c_pc c = Access).
Proof. intros Hs. inversion Hs; subst; cbn; auto. Qed.

(** The page is poisoned before any other child accesses it. *)
Lemma poisoned_first may_fail n g cs i c g' c' : inv n g cs → cs !! i = Some c → cstep may_fail g c g' c' →
  ∀ j d, <[i := c']> cs !! j = Some d → c_accessed d = true →
  ∃ k e, <[i := c']> cs !! k = Some e ∧ c_poisoned e = true.
Proof.
  intros Hinv Hi Hs. destruct (step_marks _ _ _ _ _ Hs) as [Hpo Hac].
  assert (∀ k e, cs !! k = Some e → c_poisoned e = true →
    ∃ k e, <[i := c']> cs !! k = Some e ∧ c_poisoned e = true) as Hkeep.
  { intros k e Hk He. destruct (decide (i = k)) as [<-|Hne].
    - exists i, c'. rewrite list_lookup_insert_eq by (by eapply lookup_lt_Some).
      split; [done|]. apply Hpo. congruence.
    - exists k, e. by rewrite list_lookup_insert_ne. }
  intros j d Hj Hd. destruct (decide (i = j)) as [<-|Hne].
  - rewrite list_lookup_insert_eq in Hj by (by eapply lookup_lt_Some). injection Hj as <-.
    destruct (Hac Hd) as [Hc | Epc].
    { destruct (inv_accessed _ _ _ Hinv i c Hi Hc) as (k & e & ? & ?). by eapply Hkeep. }
    pose proof (inv_child _ _ _ Hinv i c Hi) as Hok.
    pose proof (ok_pc _ _ Hok) as Hpc. unfold pc_ok in Hpc. rewrite Epc in Hpc.
    destruct (cnt_witness poisoner cs) as (k & e & Hk & He).
    { rewrite (inv_done _ _ _ Hinv), Hpc. simpl. lia. }
    apply (Hkeep k e Hk). destruct (c_poisoned e) eqn:Ep; [done|].
    assert (holds e = true ∧ c_pc e ≠ Access) as [Hh Hne].
    { unfold poisoner in He. unfold holds. rewrite Ep in He. by destruct (c_pc e) as [ | | | | | | | | | | | | | | | | | |[]]. }
    assert (k = i) as ->; [|congruence].
    apply (cnt_unique holds cs k i e c); [|done..|by unfold holds; rewrite Epc].
    pose proof (inv_lock _ _ _ Hinv). lia.
  - rewrite list_lookup_insert_ne in Hj by done.
    destruct (inv_accessed _ _ _ Hinv j d Hj Hd) as (k & e & ? & ?). by eapply Hkeep.
Qed.

Lemma step_inv may_fail n s s' : inv n s.1 s.2 → step may_fail s s' → inv n s'.1 s'.2.
Proof.
  intros Hinv Hstep. destruct Hstep as [g cs i c g' c' Hi Hs]. cbn [fst snd] in *.
  pose proof (inv_child _ _ _ Hinv i c Hi) as Hc.
  destruct (step_counts _ _ _ _ _ Hs Hc) as (H0 & H1 & H2).
  pose proof (step_segment _ _ _ _ _ Hs Hc) as Hseg.
  assert (c_pc c = Test_ready → shm_ready g = false → shm_id g = None) as Hfresh.
  { intros E Hr. apply eq_None_not_Some. intros His.
    destruct (inv_creating _ _ _ Hinv Hr His) as (j & d & Hj & Hd).
    assert (i ≠ j) as Hne by (intros <-; congruence).
    pose proof (inv_exclusive n g cs i j c d Hinv Hi Hj) as Hex. unfold holds in Hex.
    rewrite E, Hd in Hex. by specialize (Hex eq_refl Hne). }
  pose proof Hinv as [Hlen Hlock Hbar Hdone Hready Hcreat Hnext Hall Hacc].
  pose proof (cnt_insert holds cs i c c' Hi). pose proof (cnt_insert arrived cs i c c' Hi).
  pose proof (cnt_insert poisoner cs i c c' Hi).
  split.
  - by rewrite length_insert.
  - lia.
  - lia.
  - lia.
  - destruct Hseg as [(-> & -> & _) | [(_ & _ & -> & _) | (_ & _ & ? & -> & _)]]; done.
  - intros Hr His.
    destruct Hseg as [(Er & Eid & _) | [(_ & E & _) | (_ & Er & _)]]; [|by exists i, c'; rewrite list_lookup_insert_eq by (by eapply lookup_lt_Some)|congruence].
    rewrite Er in Hr. rewrite Eid in His. destruct (Hcreat Hr His) as (j & d & Hj & Hd).
    destruct (decide (i = j)) as [<-|Hne]; [|exists j, d; by rewrite list_lookup_insert_ne].
    replace d with c in Hd by congruence. exfalso.
    inversion Hs; subst; cbn in *; congruence.
  - destruct Hseg as [(_ & -> & ->) | [(_ & _ & _ & E & -> & ->) | (_ & _ & _ & -> & ->)]]; try done.
    by rewrite E in Hnext; rewrite Hnext.
  - intros j d. destruct (decide (i = j)) as [<-|Hne].
    + rewrite list_lookup_insert_eq by (by eapply lookup_lt_Some). intros [= <-].
      by apply (child_ok_self may_fail g c).
    + rewrite list_lookup_insert_ne by done. intros Hj.
      apply (child_ok_other may_fail g c g' c'); [done|done|by apply (Hall j)| |].
      * intros Hh. by apply (inv_exclusive n g cs i j c d Hinv).
      * intros Hpos. destruct (passed d) eqn:Hp; [|done].
        pose proof (ok_passed _ _ (Hall j d Hj) Hp). lia.
  - intros j d Hj Hd. eapply poisoned_first; eauto.
Qed.

Lemma reachable_inv may_fail n s : reachable may_fail n s → inv n s.1 s.2.
Proof.
  intros [k Hk]. remember (start n) as s0 eqn:E.
  induction Hk as [|k s1 s2 s3 Hk IH Hs]; subst; [apply shm_inv_start|].
  eapply step_inv; [|done]. by apply IH.
Qed.

(** ** Termination *)

(** How many statements a child has before it at most. *)
Definition rank (c : child) : nat :=
  match c_pc c with
  | Attach_ipc => 16 | Request1 => 15 | Test_ready => 14 | Create => 13 | Set_ready => 12 | Attach => 11
  | Store_pid => 10 | Release1 => 9 | Wait_dec => 8 | Wait_zero => 7 | Request2 => 6
  | Test_done => 5 | Set_done => 4 | Poison => 3 | Recover => 2 | Access => 2 | Release2 => 1
  | Finished => 0 | Failed _ => 0
  end.
Definition measure (cs : list child) : nat := sum_list_with rank cs.

Lemma measure_insert cs i c c' : cs !! i = Some c →
  (measure (<[i := c']> cs) + rank c = measure cs + rank c')%nat.
Proof.
  unfold measure. revert i. induction cs as [|d cs IH]; intros [|i] Hi; simpl in *; try done.
  - injection Hi as ->. lia.
  - specialize (IH i Hi). lia.
Qed.

Lemma cstep_rank may_fail g c g' c' : cstep may_fail g c g' c' → (rank c' < rank c)%nat.
Proof.
  intros Hs. unfold rank. inv_cstep Hs; cbn; try (destruct (shm_ready _)); try (destruct (shm_done _)); lia.
Qed.

Lemma steps_measure may_fail k s s' : steps may_fail k s s' → (k + measure s'.2 ≤ measure s.2)%nat.
Proof.
  induction 1 as [s|k s1 s2 s3 Hk IH Hs]; [lia|].
  destruct Hs as [g cs i c g' c' Hi Hs]. cbn [snd] in *.
  pose proof (measure_insert cs i c c' Hi). pose proof (cstep_rank _ _ _ _ _ Hs). lia.
Qed.

Lemma measure_start n : measure (start n).2 = (16 * n)%nat.
Proof. unfold measure. cbn [start snd]. induction n as [|n IH]; [done|]. simpl. rewrite IH. lia. Qed.

(** A child that is gone before the end; there is none without faults. *)
Definition failed (c : child) : Prop := ∃ f, c_pc c = Failed f.
Lemma no_failure may_fail k n s : (∀ f, may_fail f = false) → steps may_fail k (start n) s → ∀ i c, s.2 !! i = Some c → ¬ failed c.
Proof.
  intros Hno Hk. remember (start n) as s0 eqn:E. induction Hk as [|k s1 s2 s3 Hk IH Hs]; subst.
  - by intros i c [-> _]%lookup_replicate [? ?].
  - specialize (IH eq_refl). destruct Hs as [g cs i c g' c' Hi Hs]. cbn [snd] in *. intros j d.
    destruct (decide (i = j)) as [<-|Hne].
    + rewrite list_lookup_insert_eq by (by eapply lookup_lt_Some). intros [= <-] [f Hf].
      inv_cstep Hs; cbn in *; try done; try congruence; [destruct (shm_ready _) | destruct (shm_done _)]; done.
    + rewrite list_lookup_insert_ne by done. apply IH.
Qed.

(** A child that is where it does not wait has a next statement. *)
Definition waits (c : child) : bool :=
  match c_pc c with Request1 | Wait_dec | Wait_zero | Request2 | Finished | Failed _ => true | _ => false end.
Lemma running_steps may_fail g c : waits c = false → ∃ g' c', cstep may_fail g c g' c'.
Proof.
  unfold waits. intros Hw. destruct (c_pc c) eqn:E; try done; eexists _, _.
  - by apply step_attach_ipc.
  - by apply step_test_ready.
  - by apply step_create.
  - by apply step_set_ready.
  - by apply step_attach.
  - by apply step_store_pid.
  - by apply step_release1.
  - by apply step_test_done.
  - by apply step_set_done.
  - by apply step_poison.
  - by apply step_recover.
  - by apply step_access.
  - by apply step_release2.
Qed.

(** Nobody can take a step. *)
Definition blocked (may_fail : fault → bool) (g : shared) (cs : list child) : Prop := ∀ s', ¬ step may_fail (g, cs) s'.

Section Blocked.
Context (may_fail : fault → bool) (n : nat) (g : shared) (cs : list child).
Context (Hinv : inv n g cs) (Hb : blocked may_fail g cs).

Lemma blocked_stuck i c : cs !! i = Some c → ¬ ∃ g' c', cstep may_fail g c g' c'.
Proof. intros Hi (g' & c' & Hs). eapply Hb. by econstructor. Qed.
Lemma blocked_waits i c : cs !! i = Some c → waits c = true.
Proof.
  intros Hi. destruct (waits c) eqn:E; [done|]. destruct (blocked_stuck i c Hi). by apply running_steps.
Qed.
Lemma all_arrived i c : sem1 g = 0%nat → cs !! i = Some c → arrived c = true.
Proof.
  intros Hz. apply cnt_all. rewrite (inv_length _ _ _ Hinv). pose proof (inv_barrier _ _ _ Hinv). lia.
Qed.
Lemma not_all_arrived i c : cs !! i = Some c → arrived c = false → (0 < sem1 g)%nat.
Proof.
  intros Hi Ha. destruct (decide (sem1 g = 0)%nat) as [Hz|]; [|lia]. by rewrite (all_arrived i c Hz Hi) in Ha.
Qed.
(** Nobody waits to come to the barrier. *)
Lemma blocked_not_dec i c : cs !! i = Some c → c_pc c ≠ Wait_dec.
Proof.
  intros Hi E. apply (blocked_stuck i c Hi). eexists _, _. apply step_wait_dec; [done|].
  apply (not_all_arrived i c Hi). unfold arrived. by rewrite E.
Qed.
(** Who waits for the lock waits for a child that failed with it. *)
Lemma blocked_request i c : cs !! i = Some c → c_pc c = Request1 ∨ c_pc c = Request2 →
  ∃ j d f, cs !! j = Some d ∧ c_pc d = Failed f ∧ f ≠ No_ipc.
Proof.
  intros Hi E. destruct (decide (0 < sem0 g)%nat) as [Hpos|Hz].
  { exfalso. apply (blocked_stuck i c Hi). destruct E as [E|E]; eexists _, _; [by apply step_request1|by apply step_request2]. }
  pose proof (inv_lock _ _ _ Hinv) as Hlock. destruct (cnt_witness holds cs) as (j & d & Hj & Hd); [lia|].
  pose proof (blocked_waits j d Hj) as Hw. unfold holds, waits in *.
  destruct (c_pc d) as [ | | | | | | | | | | | | | | | | | |[]] eqn:Ed; try done; by exists j, d; eexists.
Qed.
(** Who waits at the barrier waits for a child that will not come. *)
Lemma blocked_barrier i c : cs !! i = Some c → c_pc c = Wait_zero → ∃ j d, cs !! j = Some d ∧ arrived d = false.
Proof.
  intros Hi E. destruct (decide (sem1 g = 0)%nat) as [Hz|Hz].
  { exfalso. apply (blocked_stuck i c Hi). eexists _, _. by apply step_wait_zero. }
  assert (¬ ∀ j d, cs !! j = Some d → arrived d = true) as Hn.
  { intros Hall. apply Hz. pose proof (inv_barrier _ _ _ Hinv). pose proof (inv_length _ _ _ Hinv).
    assert (cnt arrived cs = length cs); [|lia]. by apply cnt_forall. }
  destruct (decide (Forall (λ d, arrived d = true) cs)) as [Hf|Hf].
  - destruct Hn. intros j d Hj. by eapply (proj1 (Forall_lookup _ _) Hf).
  - apply not_Forall_Exists, Exists_exists in Hf as (d & Hd & Ha); [|typeclasses eauto].
    apply list_elem_of_lookup in Hd as [j Hj]. exists j, d. split; [done|]. by apply not_true_is_false.
Qed.

(** No deadlock: when nobody failed and nobody can move everybody has finished. *)
Lemma blocked_finished : (∀ i c, cs !! i = Some c → ¬ failed c) → ∀ i c, cs !! i = Some c → c_pc c = Finished.
Proof.
  intros Hnf.
  assert (∀ i c, cs !! i = Some c → c_pc c = Wait_zero ∨ c_pc c = Finished) as Hpcs.
  { intros i c Hi. pose proof (blocked_waits i c Hi) as Hw. pose proof (blocked_not_dec i c Hi).
    pose proof (blocked_request i c Hi) as Hr. pose proof (Hnf i c Hi) as Hf. unfold waits in Hw.
    destruct (c_pc c) eqn:E; try done; auto; exfalso; [| |by apply Hf; eexists];
      (destruct Hr as (j & d & f & Hj & Ed & _); [auto|]); apply (Hnf j d Hj); by exists f. }
  intros i c Hi. destruct (Hpcs i c Hi) as [E|]; [exfalso|done].
  destruct (blocked_barrier i c Hi E) as (j & d & Hj & Hd). unfold arrived in Hd. by destruct (Hpcs j d Hj) as [Ed|Ed]; rewrite Ed in Hd.
Qed.

(** Where the other children are for ever when one has failed. *)
Lemma blocked_failed i c f j d : cs !! i = Some c → c_pc c = Failed f → cs !! j = Some d → ¬ failed d →
  match f with
  | No_ipc | No_segment | No_attach => c_pc d = Request1 ∨ c_pc d = Wait_zero
  | No_poison => c_pc d = Request2
  | Signal_loop => c_pc d = Request2 ∨ c_pc d = Finished
  end.
Proof.
  intros Hi Ec Hj Hnf. pose proof (blocked_waits j d Hj) as Hw. pose proof (blocked_not_dec j d Hj) as Hnd.
  destruct (passed d) eqn:Hp.
  - (* everybody has arrived *)
    pose proof (all_arrived i c (ok_passed _ _ (inv_child _ _ _ Hinv j d Hj) Hp) Hi) as Ha.
    unfold arrived, passed, waits in *. rewrite Ec in Ha.
    assert (c_pc d = Request2 ∨ c_pc d = Finished) as Hd by (destruct (c_pc d) eqn:Ed; try done; auto; by destruct Hnf; eexists).
    destruct f; try done. destruct Hd as [?|Ed]; [done|exfalso].
    (* the child that finished poisoned the page or came after the one that did *)
    pose proof (ok_role _ _ (inv_child _ _ _ Hinv j d Hj)) as Hr. unfold role_ok in Hr. rewrite Ed in Hr.
    assert (∃ k e, cs !! k = Some e ∧ c_poisoned e = true) as (k & e & Hk & He).
    { destruct (c_poisoned d) eqn:E; [by exists j, d|]. apply (inv_accessed _ _ _ Hinv j d Hj). by destruct (c_accessed d). }
    pose proof (ok_role _ _ (inv_child _ _ _ Hinv i c Hi)) as Hrc. unfold role_ok in Hrc. rewrite Ec in Hrc.
    assert (i = k) as <-; [|destruct Hrc; congruence].
    apply (cnt_unique poisoner cs i k c e); [|done..| |].
    + rewrite (inv_done _ _ _ Hinv). destruct (shm_done g); simpl; lia.
    + unfold poisoner. by rewrite Ec.
    + unfold poisoner. by destruct (c_pc e) as [ | | | | | | | | | | | | | | | | | |[]].
  - assert (c_pc d = Request1 ∨ c_pc d = Wait_zero) as Hd.
    { unfold passed, waits in *. destruct (c_pc d) eqn:Ed; try done; auto. by destruct Hnf; eexists. }
    destruct f; try done; exfalso.
    all: assert (sem1 g = 0%nat) as Hz by (apply (ok_passed _ _ (inv_child _ _ _ Hinv i c Hi)); unfold passed; by rewrite Ec).
    all: destruct Hd as [Ed|Ed]; [pose proof (all_arrived j d Hz Hj) as Ha; unfold arrived in Ha; by rewrite Ed in Ha|].
    all: apply (blocked_stuck j d Hj); eexists _, _; by apply step_wait_zero.
Qed.
End Blocked.

(** When all are finished exactly one has poisoned the segment. *)
Lemma finished_poisoned n g cs : inv n g cs → (∀ i c, cs !! i = Some c → c_pc c = Finished) →
  cnt c_poisoned cs = if (0 <? n)%nat then 1%nat else 0%nat.
Proof.
  intros Hinv Hfin. assert (cnt c_poisoned cs = cnt poisoner cs) as ->.
  { unfold cnt. clear -Hfin. induction cs as [|c cs IH]; simpl; [done|].
    rewrite IH by (intros i d Hi; apply (Hfin (S i) d Hi)).
    unfold poisoner. by rewrite (Hfin 0%nat c eq_refl). }
  rewrite (inv_done _ _ _ Hinv). pose proof (inv_length _ _ _ Hinv) as Hlen.
  destruct cs as [|c cs]; simpl in Hlen; subst n.
  - pose proof (inv_done _ _ _ Hinv) as Hd. by destruct (shm_done g).
  - pose proof (ok_pc _ _ (inv_child _ _ _ Hinv 0%nat c eq_refl)) as Hpc. unfold pc_ok in Hpc.
    rewrite (Hfin 0%nat c eq_refl) in Hpc. by rewrite Hpc.
Qed.

(** ** The theorems *)

(** C4: what every interleaving of the children keeps, whatever makes some of
    them exit early (a call of [shmat], [shmget] or [madvise] that fails, or a loop
    of signals): at most one child is between [request_sem] and [release_sem], a
    child that exited there included; at
    most one segment is made, and all children that have attached one have
    that one; when a child is past the barrier every child has attached it; at
    most one child poisons it; and no child accesses the page before another
    one has poisoned it. *)
Theorem shm_test_safe may_fail n g cs : reachable may_fail n (g, cs) →
  (∀ i j c d, cs !! i = Some c → cs !! j = Some d → holds c = true → holds d = true → i = j)
  ∧ (next_id g ≤ 1)%nat
  ∧ (∀ i j c d a b, cs !! i = Some c → cs !! j = Some d → c_shmptr c = Some a → c_shmptr d = Some b → a = b)
  ∧ (∀ i j c d, cs !! i = Some c → cs !! j = Some d → passed c = true → is_Some (c_shmptr d))
  ∧ (∀ i j c d, cs !! i = Some c → cs !! j = Some d → poisoner c = true → poisoner d = true → i = j)
  ∧ (∀ i c, cs !! i = Some c → c_accessed c = true → ∃ j d, cs !! j = Some d ∧ c_poisoned d = true).
Proof.
  intros Hinv%reachable_inv. cbn [fst snd] in Hinv. split_and!.
  - intros i j c d Hi Hj Hc Hd. apply (cnt_unique holds cs i j c d); try done.
    pose proof (inv_lock _ _ _ Hinv). lia.
  - rewrite (inv_next _ _ _ Hinv). destruct (shm_id g); lia.
  - intros i j c d a b Hi Hj Ha Hb.
    destruct (ok_shmptr _ _ (inv_child _ _ _ Hinv i c Hi) a Ha) as [_ E1].
    destruct (ok_shmptr _ _ (inv_child _ _ _ Hinv j d Hj) b Hb) as [_ E2]. congruence.
  - intros i j c d Hi Hj Hc.
    pose proof (ok_passed _ _ (inv_child _ _ _ Hinv i c Hi) Hc) as H1.
    assert (arrived d = true) as Hd.
    { apply (cnt_all arrived cs j d); [|done]. rewrite (inv_length _ _ _ Hinv).
      pose proof (inv_barrier _ _ _ Hinv). lia. }
    apply (ok_attached _ _ (inv_child _ _ _ Hinv j d Hj)).
    unfold arrived, attached in *. by destruct (c_pc d).
  - intros i j c d Hi Hj Hc Hd. apply (cnt_unique poisoner cs i j c d); try done.
    rewrite (inv_done _ _ _ Hinv). destruct (shm_done g); simpl; lia.
  - apply (inv_accessed _ _ _ Hinv).
Qed.

(** C8: every execution of [n] children ends, after at most [16 * n] statements,
    whatever makes children exit early, and when nobody can move it is known where
    the children are.  If none exited early, and none does when no call fails and
    no signals loop, there is no deadlock: every child is finished, exactly one has
    poisoned the segment, and every other one has accessed the poisoned page.  If
    one did exit early, all that have not exited wait for ever: when [shmat] or
    [shmget] failed, for the lock or at the barrier; when [madvise] failed, all for
    the lock, which is never released; when signals ended it, for the lock, but
    for those that were through before. *)
Theorem shm_test_terminates may_fail n k g cs : steps may_fail k (start n) (g, cs) →
  (k ≤ 16 * n)%nat
  ∧ ((∀ f, may_fail f = false) → ∀ i c, cs !! i = Some c → ¬ failed c)
  ∧ (blocked may_fail g cs →
     ((∀ i c, cs !! i = Some c → ¬ failed c) →
        (∀ i c, cs !! i = Some c → c_pc c = Finished ∧ xorb (c_poisoned c) (c_accessed c) = true)
        ∧ cnt c_poisoned cs = if (0 <? n)%nat then 1%nat else 0%nat)
     ∧ (∀ i c f j d, cs !! i = Some c → c_pc c = Failed f → cs !! j = Some d → ¬ failed d →
        match f with
        | No_ipc | No_segment | No_attach => c_pc d = Request1 ∨ c_pc d = Wait_zero
        | No_poison => c_pc d = Request2
        | Signal_loop => c_pc d = Request2 ∨ c_pc d = Finished
        end)).
Proof.
  intros Hk. pose proof (steps_measure _ _ _ _ Hk) as Hm. rewrite measure_start in Hm. split; [lia|].
  split; [intros Hno; exact (no_failure _ _ _ _ Hno Hk)|]. intros Hb.
  assert (inv n g cs) as Hinv by (apply (reachable_inv may_fail n (g, cs)); by exists k).
  split; [|intros i c f j d; by apply (blocked_failed may_fail n g cs Hinv Hb)].
  intros Hnf. pose proof (blocked_finished may_fail n g cs Hinv Hb Hnf) as Hfin.
  split; [|by apply (finished_poisoned n g cs Hinv)].
  intros i c Hi. split; [by eauto|]. pose proof (ok_role _ _ (inv_child _ _ _ Hinv i c Hi)) as Hr.
  unfold role_ok in Hr. by rewrite (Hfin i c Hi) in Hr.
Qed.

(** ** Examples *)

(** Three children, taking turns as the lock and the barrier let them. *)
Definition demo_run : option state := exec (greedy 60 (start 3)) (start 3).

Lemma demo_steps g cs : demo_run = Some (g, cs) → steps no_fault (length (greedy 60 (start 3))) (start 3) (g, cs).
Proof. unfold demo_run. generalize (greedy 60 (start 3)). intros l H. exact (exec_steps l _ _ 0 _ (steps_O _ _) H). Qed.

Lemma shm_test_safe_witness : ∃ g cs, demo_run = Some (g, cs) ∧ (next_id g ≤ 1)%nat.
Proof.
  destruct demo_run as [[g cs]|] eqn:E; [|by vm_compute in E]. exists g, cs. split; [done|].
  apply (shm_test_safe no_fault 3 g cs). eexists. by apply demo_steps.
Defined.

(** A kernel without poison: the first of two children past the barrier exits
    with the lock, and the other one waits for it. *)
Definition no_madvise (f : fault) : bool := bool_decide (f = No_poison).
Definition turns : list nat := [0; 0; 0; 0; 0; 0; 0; 0; 0; 1; 1; 1; 1; 1; 1; 1; 0; 0; 0; 0]%nat.
Definition stuck_shared : shared := Shared 0 0 (Some 0%nat) true true 1.
Definition stuck_children : list child := [Child (Failed No_poison) (Some 0%nat) false false; Child Request2 (Some 0%nat) false false].
Lemma steps_weaken may_fail k s s' : steps no_fault k s s' → steps may_fail k s s'.
Proof.
  induction 1 as [|k s1 s2 s3 _ IH Hs]; [constructor|]. econstructor; [done|]. inversion Hs as [g cs i c g' c' Hi Hc]; subst.
  econstructor; [done|]. inversion Hc; subst; try done; by constructor.
Qed.
Lemma stuck_steps : steps no_madvise 22 (start 2) (stuck_shared, stuck_children).
Proof.
  pose (c0 := Child Poison (Some 0%nat) false false). pose (c1 := Child Wait_zero (Some 0%nat) false false).
  pose (c2 := Child Request2 (Some 0%nat) false false).
  assert (steps no_madvise 20 (start 2) (stuck_shared, [c0; c1])) as H1.
  { apply steps_weaken. apply (exec_steps turns (start 2) _ 0 _ (steps_O _ _)). by vm_compute. }
  assert (step no_madvise (stuck_shared, [c0; c1]) (stuck_shared, [c0; c2])) as H2.
  { apply (step_child _ _ [c0; c1] 1 c1 stuck_shared c2); [done|]. by apply (step_wait_zero _ stuck_shared c1). }
  assert (step no_madvise (stuck_shared, [c0; c2]) (stuck_shared, stuck_children)) as H3.
  { apply (step_child _ _ [c0; c2] 0 c0 stuck_shared (goto (Failed No_poison) c0)); [done|].
    by apply (step_poison_fails _ stuck_shared c0). }
  exact (steps_S _ _ _ _ _ (steps_S _ _ _ _ _ H1 H2) H3).
Qed.
Lemma stuck_blocked : blocked no_madvise stuck_shared stuck_children.
Proof.
  intros s' Hs. inversion Hs as [? ? i c g' c' Hi Hc]; subst.
  destruct i as [|[|i]]; simpl in Hi; simplify_eq; inversion Hc; subst; cbn in *; done || lia.
Qed.

Lemma shm_test_terminates_witness :
  (∃ g cs, demo_run = Some (g, cs) ∧ blocked no_fault g cs ∧ cnt c_poisoned cs = 1%nat)
  ∧ c_pc (Child Request2 (Some 0%nat) false false) = Request2.
Proof.
  split.
  - destruct demo_run as [[g cs]|] eqn:E; [|by vm_compute in E]. exists g, cs. split; [done|].
    assert (blocked no_fault g cs) as Hb.
    { intros s' Hs. inversion Hs as [? ? i c g' c' Hi Hc]; subst. apply next_cstep in Hc.
      vm_compute in E. injection E as <- <-.
      destruct i as [|[|[|i]]]; simpl in Hi; simplify_eq; done. }
    split; [done|].
    destruct (shm_test_terminates no_fault 3 (length (greedy 60 (start 3))) g cs (demo_steps _ _ E)) as (_ & Hnf & H).
    exact (proj2 (proj1 (H Hb) (Hnf (λ f, eq_refl)))).
  - destruct (shm_test_terminates no_madvise 2 22 _ _ stuck_steps) as (_ & _ & H).
    assert (¬ failed (Child Request2 (Some 0%nat) false false)) as Hn by (intros [f Hf]; discriminate Hf).
    exact (proj2 (H stuck_blocked) 0%nat _ No_poison 1%nat _ eq_refl eq_refl eq_refl Hn).
Defined.
