(* ===== verification/Hwp.v ===== *)
(** * Hwp: a process that poisons its own memory

    What the hwpoison test programs share: the requests a process makes of the
    kernel, among them the loads and stores that may be answered by SIGBUS, and
    the state of a process.  The kernel is a parameter ([hwp_os]): its answers
    are a function of the requests made before, so that a kernel with memory,
    files and poisoned pages is an instance. *)
From Stdlib Require Import String.
From S2P Require Import Prelude CLib.

Inductive map_flag := MAP_PRIVATE | MAP_SHARED | MAP_ANONYMOUS | MAP_POPULATE | MAP_LOCKED | MAP_HUGETLB | MAP_FIXED.
Inductive prot_flag := PROT_READ | PROT_WRITE | PROT_NONE.
Inductive open_flag := O_CREAT | O_RDWR | O_RDONLY | O_TRUNC.
Inductive advice := MADV_POISON | MADV_HUGEPAGE | MADV_SOFT_OFFLINE | MADV_DONTNEED.
#[export] Instance map_flag_eq_dec : EqDecision map_flag.
Proof. solve_decision. Defined.
#[export] Instance prot_flag_eq_dec : EqDecision prot_flag.
Proof. solve_decision. Defined.
#[export] Instance open_flag_eq_dec : EqDecision open_flag.
Proof. solve_decision. Defined.
#[export] Instance advice_eq_dec : EqDecision advice.
Proof. solve_decision. Defined.

(** The requests. *)
Inductive request :=
| LOAD (a : Z)
| STORE (a v : Z)
| MADVISE (a len : Z) (what : advice)
| SLEEP (seconds : Z)
| MMAP (a len : Z) (prot : list prot_flag) (flags : list map_flag) (fd : Z)
| MUNMAP (a len : Z)
| MSYNC (a len : Z)
| REMAP_FILE_PAGES (a size pgoff : Z)
| OPEN (path : cstr) (flags : list open_flag)
| READ (fd n : Z)
| WRITE (fd : Z) (data : list Z)
| PREAD_PAGEMAP (fd off : Z)      (* the eight bytes, or -1 *)
| PREAD (fd n off : Z)
| CLOSE (fd : Z)
| FSYNC (fd : Z)
| FTRUNCATE (fd len : Z)
| UNLINK (path : cstr)
| MKDIR (path : cstr)
| MALLOC (n : Z)
| LSEEK (fd off : Z)
| SHMGET (key size : Z)
| SHMAT (id : Z)
| SHMDT (a : Z)
| SHMCTL_RMID (id : Z)
| SEMGET (n : Z)
| SEMCTL_SETVAL (id num v : Z)
| SEMCTL_RMID (id : Z)
| SEMOP (id num op : Z)
| PRCTL (policy : Z)
| PRCTL_GET
| PRCTL_CLEAR
| MKSTEMP (template : cstr)
| FORK
| SYSCONF_NPROCESSORS
| PTHREAD_CREATE
| NANOSLEEP (ns : Z)
| WAITID (pid : Z)
| SYSTEM (command : cstr)
| POPEN_MCE_INJECT (text : cstr)
| FOPEN (path : cstr) (append : bool)
| KILL (pid sig : Z)
| SHARED_CLEAR                    (* a structure in shared memory: *)
| SHARED_LOAD (off : Z)           (* its fields, by their offsets *)
| SHARED_STORE (off v : Z).
#[export] Instance request_eq_dec : EqDecision request.
Proof. solve_decision. Defined.

(** SIGBUS as the handler sees it, and the code of an access to a poisoned page. *)
Record signal := Signal { si_code : Z; si_addr : Z; si_addr_lsb : Z }.
Definition BUS_MCEERR_AR : Z := 4.
Definition BUS_MCEERR_AO : Z := 5.
Definition SIGBUS : Z := 7.
Definition EINVAL : Z := 22.
Definition EBUSY : Z := 16.
Definition ENOMEM : Z := 12.
Definition EEXIST : Z := 17.

(** What [waitid] says of a child. *)
Definition CLD_EXITED : Z := 1.
Definition CLD_KILLED : Z := 2.
Definition CLD_DUMPED : Z := 3.
Record wait_info := WaitInfo { wi_code : Z; wi_status : Z }.

(** The kernel: whether a request is answered by SIGBUS, and otherwise the
    value and [errno]; whether a child that SIGBUS kills leaves a core; how a
    child ends that goes on with its parent's program; and which of two
    processes goes first where nothing orders them. *)
Class hwp_os := {
  os_signal : list request → request → option signal;
  os_value : list request → request → Z * Z;
  os_dumps_core : list request → bool;
  os_escaped : list request → wait_info;
  os_child_first : list request → bool;
  os_pagesize : Z
}.

(** The disposition of SIGBUS. *)
Inductive disposition := SIG_DFL | SIG_HANDLER.

(** A process: the requests made so far, the latest first, what it printed, the
    disposition of SIGBUS, whether SIGBUS killed it, and its variables. *)
Record proc (V : Type) := Proc {
  hist : list request; out : cstr; sigbus : disposition; killed : bool; vars : V
}.
Arguments Proc {V} _ _ _ _ _.
Arguments hist {V} _.
Arguments out {V} _.
Arguments sigbus {V} _.
Arguments killed {V} _.
Arguments vars {V} _.

Section Process.
Context {OS : hwp_os} {V : Type}.

(** A request that no signal answers. *)
Definition sys (r : request) : prog (proc V) (Z * Z) := λ s,
  (Ok (os_value (hist s) r), Proc (r :: hist s) (out s) (sigbus s) (killed s) (vars s)).

(** One that a signal may answer: the signal, or the value. With the default
    disposition the signal ends the process. *)
Definition mem (r : request) : prog (proc V) (signal + Z * Z) := λ s,
  let s' := Proc (r :: hist s) (out s) (sigbus s) (killed s) (vars s) in
  match os_signal (hist s) r with
  | None => (Ok (inr (os_value (hist s) r)), s')
  | Some sig =>
      match sigbus s with
      | SIG_DFL => (Exit SIGBUS, Proc (r :: hist s) (out s) (sigbus s) true (vars s))
      | SIG_HANDLER => (Ok (inl sig), s')
      end
  end.

Definition put (text : cstr) : prog (proc V) unit :=
  p_modify (λ s, Proc (hist s) (out s ++ text) (sigbus s) (killed s) (vars s)).
Definition get_vars : prog (proc V) V := λ s, (Ok (vars s), s).
Definition upd (f : V → V) : prog (proc V) unit :=
  p_modify (λ s, Proc (hist s) (out s) (sigbus s) (killed s) (f (vars s))).
Definition set_sigbus (d : disposition) : prog (proc V) unit :=
  p_modify (λ s, Proc (hist s) (out s) d (killed s) (vars s)).
Definition get_hist : prog (proc V) (list request) := λ s, (Ok (hist s), s).

(** The status a parent gets from [waitid] when a child ended this way. *)
Definition wait_of (dumps : bool) (escaped : wait_info) (r : res unit) (was_killed : bool) : res wait_info :=
  match r with
  | Exit c => Ok (if was_killed then WaitInfo (if dumps then CLD_DUMPED else CLD_KILLED) c
                  else WaitInfo CLD_EXITED (c `mod` 256))
  | Ok _ => Ok escaped
  | Undef => Undef
  | NoFuel => NoFuel
  end.

(** A child runs on a copy of the process until it ends; its requests are the
    kernel's to remember, its variables and what it printed are its own. A child
    that returns goes on with the program of its parent, out of sight here. *)
Definition run_child (child : prog (proc V) unit) : prog (proc V) wait_info := λ s,
  let '(r, s') := child (Proc (hist s) (out s) (sigbus s) false (vars s)) in
  (wait_of (os_dumps_core (hist s')) (os_escaped (hist s')) r (killed s'),
   Proc (hist s') (out s) (sigbus s) (killed s) (vars s)).
End Process.

(** [%p] and [%x] of a byte. *)
Definition fmt_p (a : Z) : cstr := if a =? 0 then lit "(nil)" else lit "0x" ++ fmt_x a.
Definition uchar (v : Z) : Z := uwrap 8 v.

(** ** How a program may end

    [behaves R codes p]: when [p] ends with a value SIGBUS has not killed the
    process and its variables are related by [R] to what they were; when it
    ends otherwise, SIGBUS killed it or its status is one of [codes]. *)
Definition behaves `{OS : hwp_os} {V A} (R : V → V → Prop) (codes : list Z) (p : prog (proc V) A) : Prop :=
  ∀ s, match p s with
       | (Ok _, s') => killed s' = killed s ∧ R (vars s) (vars s')
       | (Exit c, s') => (killed s' = true ∧ c = SIGBUS) ∨ (killed s' = killed s ∧ c ∈ codes)
       | _ => True
       end.

Section Behaves.
Context {OS : hwp_os} {V : Type} (R : V → V → Prop) `{!PreOrder R} (codes : list Z).

Lemma behaves_ret {A} (a : A) : behaves R codes (mret a).
Proof. intros s. by simpl. Qed.
Lemma behaves_ext {A} (p q : prog (proc V) A) : (∀ s, p s = q s) → behaves R codes q → behaves R codes p.
Proof. intros E H s. rewrite E. apply H. Qed.
Lemma behaves_nofuel {A} : behaves R codes (p_nofuel : prog (proc V) A).
Proof. by intros s. Qed.

Lemma behaves_bind {A B} (p : prog (proc V) A) (f : A → prog (proc V) B) :
  behaves R codes p → (∀ a, behaves R codes (f a)) → behaves R codes (p ≫= f).
Proof.
  intros Hp Hf s. rewrite p_bind_run. specialize (Hp s).
  destruct (p s) as [[a|c| |] s1]; try done. destruct Hp as [Hk HR]. specialize (Hf a s1).
  destruct (f a s1) as [[b|c| |] s2]; try done.
  - destruct Hf as [-> HR2]. split; [done|]. by etrans.
  - by rewrite <- Hk.
Qed.

Lemma behaves_exit {A} c : c ∈ codes → behaves R codes (p_exit c : prog (proc V) A).
Proof. intros Hc s. by right. Qed.
Lemma behaves_undef {A} : behaves R codes (p_undef : prog (proc V) A).
Proof. done. Qed.
Lemma behaves_lift {A} (r : res A) : (∀ c, r = Exit c → c ∈ codes) → behaves R codes (p_lift r : prog (proc V) A).
Proof. intros Hr s. unfold p_lift. destruct r; try done. right. split; [done|]. by apply Hr. Qed.
Lemma behaves_sys r : behaves R codes (sys r).
Proof. intros s. by simpl. Qed.
Lemma behaves_mem r : behaves R codes (mem r).
Proof. intros s. unfold mem. destruct (os_signal _ _); [|by simpl]. destruct (sigbus s); [by left | by simpl]. Qed.
Lemma behaves_put t : behaves R codes (put t).
Proof. intros s. by simpl. Qed.
Lemma behaves_get : behaves R codes get_vars.
Proof. intros s. by simpl. Qed.
Lemma behaves_hist : behaves R codes get_hist.
Proof. intros s. by simpl. Qed.
Lemma behaves_sigbus d : behaves R codes (set_sigbus d).
Proof. intros s. by simpl. Qed.
Lemma behaves_upd f : (∀ v, R v (f v)) → behaves R codes (upd f).
Proof. intros Hf s. simpl. split; [done|apply Hf]. Qed.
Lemma behaves_when c p : behaves R codes p → behaves R codes (p_when c p).
Proof. destruct c; [done|intros _; apply behaves_ret]. Qed.
Lemma behaves_for {A} (l : list A) f : (∀ a, behaves R codes (f a)) → behaves R codes (p_for l f).
Proof. intros Hf. induction l as [|a l IH]; [apply behaves_ret|]. by apply behaves_bind. Qed.
Lemma behaves_fold {A B} (l : list A) (f : B → A → prog (proc V) B) b :
  (∀ b a, behaves R codes (f b a)) → behaves R codes (p_fold l f b).
Proof. intros Hf. revert b. induction l as [|a l IH]; intros b; [apply behaves_ret|]. apply behaves_bind; [done|apply IH]. Qed.

(** A parent is what it was, however its child ends. *)
Lemma behaves_child child : behaves R codes (run_child child).
Proof. intros s. unfold run_child. destruct (child _) as [r s']. unfold wait_of. by destruct r; simpl. Qed.

(** The child of a program that never ends with a value ended by SIGBUS or by
    [exit]. *)
Lemma run_child_inv child s w s' : run_child child s = (Ok w, s') →
  (∀ s c, (child s).1 ≠ Ok c) → behaves R codes child →
  ∃ c sc, child (Proc (hist s) (out s) (sigbus s) false (vars s)) = (Exit c, sc) ∧
    ((killed sc = true ∧ c = SIGBUS ∧ w = WaitInfo (if os_dumps_core (hist sc) then CLD_DUMPED else CLD_KILLED) SIGBUS) ∨
     (killed sc = false ∧ c ∈ codes ∧ w = WaitInfo CLD_EXITED (c `mod` 256))).
Proof.
  unfold run_child. intros E Hno Hb.
  specialize (Hb (Proc (hist s) (out s) (sigbus s) false (vars s))).
  specialize (Hno (Proc (hist s) (out s) (sigbus s) false (vars s))).
  destruct (child _) as [[u|c| |] sc]; [by destruct (Hno u)| |done|done].
  exists c, sc. split; [done|]. unfold wait_of in E. simplify_eq/=.
  destruct Hb as [[-> ->] | [-> Hc]]; [left | right]; done.
Qed.
End Behaves.

(** [issues Q p]: [p] adds requests to the history, and only such as [Q] allows. *)
Definition issues `{OS : hwp_os} {V A} (Q : request → Prop) (p : prog (proc V) A) : Prop :=
  ∀ s, ∃ rs, hist (p s).2 = rs ++ hist s ∧ Forall Q rs.

Section Issues.
Context {OS : hwp_os} {V : Type} (Q : request → Prop).
Notation ok p := (issues (V:=V) Q p).

Lemma issues_none {A} (p : prog (proc V) A) : (∀ s, hist (p s).2 = hist s) → ok p.
Proof. intros H s. exists []. by rewrite H. Qed.
Lemma issues_ret {A} (a : A) : ok (mret a).
Proof. by apply issues_none. Qed.
Lemma issues_exit {A} c : ok (p_exit c : prog (proc V) A).
Proof. by apply issues_none. Qed.
Lemma issues_undef {A} : ok (p_undef : prog (proc V) A).
Proof. by apply issues_none. Qed.
Lemma issues_put t : ok (put t).
Proof. by apply issues_none. Qed.
Lemma issues_get : ok get_vars.
Proof. by apply issues_none. Qed.
Lemma issues_ext {A} (p q : prog (proc V) A) : (∀ s, p s = q s) → ok q → ok p.
Proof. intros E H s. rewrite E. apply H. Qed.
Lemma issues_hist : ok get_hist.
Proof. by apply issues_none. Qed.
Lemma issues_nofuel {A} : ok (p_nofuel : prog (proc V) A).
Proof. by apply issues_none. Qed.
Lemma issues_upd f : ok (upd f).
Proof. by apply issues_none. Qed.
Lemma issues_sigbus d : ok (set_sigbus d).
Proof. by apply issues_none. Qed.
Lemma issues_bind {A B} (p : prog (proc V) A) (f : A → prog (proc V) B) :
  ok p → (∀ a, ok (f a)) → ok (p ≫= f).
Proof.
  intros Hp Hf s. destruct (Hp s) as (r1 & E1 & H1). rewrite p_bind_run.
  destruct (p s) as [[a|c| |] s1]; [|by exists r1..].
  destruct (Hf a s1) as (r2 & E2 & H2). exists (r2 ++ r1). cbn [snd] in *.
  rewrite E2, E1, app_assoc. split; [done|]. by apply Forall_app.
Qed.
Lemma issues_sys r : Q r → ok (sys r).
Proof. intros H s. exists [r]. split; [done|]. by constructor. Qed.
Lemma issues_mem r : Q r → ok (mem r).
Proof.
  intros H s. exists [r]. split; [|by constructor].
  unfold mem. destruct (os_signal _ _); [|done]. by destruct (sigbus s).
Qed.
Lemma issues_when c p : ok p → ok (p_when c p).
Proof. destruct c; [done|intros _; apply issues_ret]. Qed.
Lemma issues_for {A} (l : list A) f : (∀ a, ok (f a)) → ok (p_for l f).
Proof. intros Hf. induction l as [|a l IH]; [apply issues_ret|]. by apply issues_bind. Qed.
Lemma issues_child child : ok child → ok (run_child child).
Proof.
  intros Hc s. destruct (Hc (Proc (hist s) (out s) (sigbus s) false (vars s))) as (rs & E & H).
  exists rs. unfold run_child. destruct (child _) as [r s']. done.
Qed.
End Issues.

(** The structure of a program; what is left are its updates of the variables
    and its calls. *)
Create HintDb behaves.
#[export] Hint Resolve behaves_ret behaves_undef behaves_nofuel behaves_sys behaves_mem behaves_put behaves_get behaves_hist
  behaves_sigbus behaves_child : behaves.
Ltac behaves_step :=
  match goal with
  | |- PreOrder _ => typeclasses eauto
  | |- behaves _ _ (mbind _ _) => apply behaves_bind; [typeclasses eauto| |intros ?]
  | |- behaves _ _ (p_when _ _) => apply behaves_when
  | |- behaves _ _ (p_for _ _) => apply behaves_for; [typeclasses eauto|intros ?]
  | |- behaves _ _ (p_fold _ _ _) => apply behaves_fold; [typeclasses eauto|intros ? ?]
  | |- behaves _ _ (p_exit _) => apply behaves_exit; set_solver
  | |- behaves _ _ (match ?x with _ => _ end) => destruct x
  | |- behaves _ _ _ => solve [eauto 2 with behaves typeclass_instances]
  end.
Ltac behaves := repeat behaves_step.
Create HintDb issues.
#[export] Hint Resolve issues_ret issues_exit issues_undef issues_nofuel issues_put issues_get issues_hist issues_upd
  issues_sigbus : issues.
Ltac issues_step :=
  match goal with
  | |- issues _ (mbind _ _) => apply issues_bind; [|intros ?]
  | |- issues _ (p_when _ _) => apply issues_when
  | |- issues _ (p_for _ _) => apply issues_for; intros ?
  | |- issues _ (sys _) => apply issues_sys; done
  | |- issues _ (mem _) => apply issues_mem; done
  | |- issues _ (match ?x with _ => _ end) => destruct x
  | |- issues _ _ => solve [eauto 2 with issues]
  end.
Ltac issues := repeat issues_step.

(** Run the requests and the updates at the head of a program. *)
Ltac hsteps :=
  repeat first
    [ rewrite p_bind_run
    | progress cbn [get_vars put upd p_modify set_sigbus get_hist sys mret prog_ret p_when p_exit p_undef p_lift
                    hist out sigbus killed vars fst snd] ].
