(* ===== verification/Hugepage.v ===== *)
(** * Hugepage: huge pages, and thugetlb

    cases/function/hwpoison/hugepage.h, which thugetlb and tinjpage include,
    and thugetlb.c: the pattern written to and read from huge pages, the
    allocations and their errors, the search for hugetlbfs and for the size of
    a huge page, and [main] with the semaphore that orders it and its child. *)
From Stdlib Require Import String.
From S2P Require Import Prelude CLib Getopt Hwp.

Section Hugepage.
Context {OS : hwp_os} {V : Type}.

(** A load or a store outside [sigsetjmp]: a signal that is caught there jumps
    to a frame that is gone. *)
Definition load (a : Z) : prog (proc V) Z :=
  r ← mem (LOAD a); match r with inl _ => p_undef | inr (v, _) => mret (uchar v) end.
Definition store (a v : Z) : prog (proc V) unit :=
  r ← mem (STORE a v); match r with inl _ => p_undef | inr _ => mret () end.

(** The character at byte [j] of huge page [i]. *)
Definition pattern (i j : Z) : Z := 97 + (i + j) `mod` 26.
Definition INT_MAX : Z := 2 ^ 31 - 1.
(** [addr + i * HPS], where the product is an [int]. *)
Definition page_addr (HPS addr i : Z) : prog (proc V) Z :=
  if INT_MAX <? i * HPS then p_undef else mret (addr + i * HPS).

Definition write_page (HPS addr avoid_addr i : Z) : prog (proc V) unit :=
  p ← page_addr HPS addr i;
  if p =? avoid_addr then mret ()
  else p_for (seqZ 0 HPS) (λ j, store (p + j) (pattern i j)).
Definition write_hugepage (HPS addr nr_hugepage avoid_addr : Z) : prog (proc V) unit :=
  p_for (seqZ 0 nr_hugepage) (write_page HPS addr avoid_addr).

(** The inner loop, which ends at the first byte that differs. *)
Fixpoint read_bytes (p i : Z) (js : list Z) : prog (proc V) bool :=
  match js with
  | [] => mret true
  | j :: js =>
      v ← load (p + j);
      if v =? pattern i j then read_bytes p i js
      else put (lit "Mismatch at " ++ fmt_d (i + j) ++ [NL]);; mret false
  end.
Definition read_page (HPS addr avoid_addr ret i : Z) : prog (proc V) Z :=
  p ← page_addr HPS addr i;
  if p =? avoid_addr then mret ret
  else ok ← read_bytes p i (seqZ 0 HPS); mret (if (ok : bool) then ret else -1).
Definition read_hugepage (HPS addr nr_hugepage avoid_addr : Z) : prog (proc V) Z :=
  p_fold (seqZ 0 nr_hugepage) (read_page HPS addr avoid_addr) 0.

(** *** /proc/mounts and /proc/meminfo *)

(** The lines [getline] gives, with their newlines. *)
Fixpoint getlines (s : cstr) : list cstr :=
  match s with
  | [] => []
  | c :: s' =>
      if decide (c = NL) then [c] :: getlines s'
      else match getlines s' with
           | [] => [[c]]
           | l :: ls => (c :: l) :: ls
           end
  end.
(** [%s]: a word after white space. *)
Fixpoint word (s : cstr) : cstr * cstr :=
  match s with
  | c :: s' => if isspace c then ([], s) else let '(w, r) := word s' in (c :: w, r)
  | [] => ([], [])
  end.
Definition scan_word (s : cstr) : option (cstr * cstr) :=
  match word (skip_spaces s) with ([], _) => None | (w, r) => Some (w, r) end.
(** A literal of the format that starts with a blank. *)
Definition scan_lit (t s : cstr) : option cstr :=
  let s := skip_spaces s in if decide (t `prefix_of` s) then Some (drop (length t) s) else None.
(** [sscanf(line, "%s %s hugetlbfs %[^ ]", type, dir, dummy) >= 3]: [dir]. The
    arrays [type] and [dummy] have 100 bytes and [hugetlbfsdir] 256. *)
Definition scan_mount (line : cstr) : res (option cstr) :=
  match scan_word line with
  | None => Ok None
  | Some (type, r) =>
      if (100 <=? length type)%nat then Undef else
      match scan_word r with
      | None => Ok None
      | Some (dir, r) =>
          if (256 <=? length dir)%nat then Undef else
          match scan_lit (lit "hugetlbfs") r with
          | None => Ok None
          | Some r =>
              match (skip_spaces r : cstr) with
              | [] => Ok None
              | c :: r' =>
                  let dummy := c :: fst (strcspn_split [" "%char] r') in
                  if (100 <=? length dummy)%nat then Undef else Ok (Some dir)
              end
          end
      end
  end.
Fixpoint mount_loop (ls : list cstr) : res (option cstr) :=
  match ls with
  | [] => Ok None
  | l :: ls => r ← scan_mount l; match r with Some dir => Ok (Some dir) | None => mount_loop ls end
  end.
(** The directory, from the contents of /proc/mounts if it can be opened. *)
Definition hugetlbfs_root (mounts : option cstr) : prog (proc V) (option cstr) :=
  match mounts with
  | None => p_exit 1
  | Some text =>
      found ← p_lift (mount_loop (getlines text));
      p_when (negb (is_Some_b found)) (put (lit "cannot find hugetlbfs directory in /proc/mounts" ++ [NL]));;
      mret found
  end.

(** [sscanf(line, "Hugepagesize: %d kB", &hpagesize) >= 1] *)
Definition scan_meminfo (line : cstr) : option Z :=
  let key := lit "Hugepagesize:" in
  if decide (key `prefix_of` line) then
    let '(neg, s) := read_sign (skip_spaces (drop (length key) line)) in
    if is_digit 10 (chr0 s) then Some (i32 (let m := read_digits 10 0 s in if neg then - m else m)) else None
  else None.
Definition gethugepagesize (meminfo : option cstr) : prog (proc V) Z :=
  match meminfo with
  | None => p_exit 1
  | Some text => mret (i32 (default 0 (head (omap scan_meminfo (getlines text))) * 1024))
  end.

(** *** Allocation: the address, or NULL *)

Definition alloc_shm_hugepage (key size : Z) : prog (proc V) (Z * Z) :=
  '(shmid, _) ← sys (SHMGET key size);
  if shmid <? 0 then mret (0, key) else
  '(addr, _) ← sys (SHMAT shmid);
  if addr =? -1 then sys (SHMCTL_RMID shmid);; mret (0, key) else mret (addr, shmid).

Definition alloc_anonymous_hugepage (size : Z) (private : bool) : prog (proc V) Z :=
  let mapflag := [MAP_ANONYMOUS; MAP_HUGETLB; if private then MAP_PRIVATE else MAP_SHARED] in
  '(addr, _) ← sys (MMAP 0 size [PROT_READ; PROT_WRITE] mapflag (-1));
  mret (if addr =? -1 then 0 else addr).

(** The address and the descriptor. *)
Definition alloc_filebacked_hugepage (filepath : cstr) (size : Z) (private : bool) : prog (proc V) (Z * Z) :=
  '(fd, _) ← sys (OPEN filepath [O_CREAT; O_RDWR]);
  if fd <? 0 then mret (0, fd) else
  '(addr, _) ← sys (MMAP 0 size [PROT_READ; PROT_WRITE] [if private then MAP_PRIVATE else MAP_SHARED] fd);
  if addr =? -1 then sys (UNLINK filepath);; mret (0, fd) else mret (addr, fd).

Definition free_shm_hugepage (key addr : Z) : prog (proc V) Z :=
  '(r, _) ← sys (SHMDT addr);
  sys (SHMCTL_RMID key);;
  mret (if nz r then -1 else 0).

Definition free_anonymous_hugepage (addr size : Z) : prog (proc V) Z :=
  '(r, _) ← sys (MUNMAP addr size); mret (if nz r then -1 else 0).

Definition free_filebacked_hugepage (addr size fd : Z) (filepath : option cstr) : prog (proc V) Z :=
  '(r1, _) ← sys (MUNMAP addr size);
  '(r2, _) ← sys (CLOSE fd);
  r3 ← match filepath with
       | Some path => '(r, _) ← sys (UNLINK path); mret r
       | None => mret 1
       end;
  mret (if nz r1 || nz r2 || nz r3 then -1 else 0).
End Hugepage.

(** ** thugetlb *)

Definition HPAGE_SIZE : Z := 2 * 1024 * 1024.
Definition BUF_SIZE : Z := 256.

(** The flags of the command line. *)
Record targs := TArgs {
  file_size : Z; corrupt_page : Z; a_inject : bool; a_soft_offline : bool; a_early_kill : bool;
  avoid_touch : bool; shmflag : bool; anonflag : bool; forkflag : bool; privateflag : bool;
  cowflag : bool; shmkey : Z; filename : cstr
}.
Definition targs0 : targs := TArgs 1 (-1) false false false false false false false false false 0 (lit "/test").

(** What [getopt_long] returns. *)
Inductive t_opt := t_m (optarg : cstr) | t_o (optarg : cstr) | t_x | t_O | t_e | t_S | t_A | t_a | t_F | t_p | t_c
| t_f (optarg : cstr) | t_h | t_other.

Definition thugetlb_table : opt_table :=
  OptTable (lit "m:o:xOeSAaFpcf:h") (Some (long_table
    [("memory", true, "m"%char); ("offset", true, "o"%char); ("inject", false, "x"%char); ("offline", false, "O"%char);
     ("early_kill", false, "e"%char); ("shm", false, "S"%char); ("anonymous", false, "A"%char); ("avoid-touch", false, "a"%char);
     ("fork", false, "F"%char); ("private", false, "p"%char); ("cow", false, "c"%char); ("filename", true, "f"%char);
     ("help", false, "h"%char)]%string, true)).
Definition t_opt_of (r : opt_ret) : t_opt :=
  match r with
  | Got "m" (Some s) => t_m s | Got "o" (Some s) => t_o s | Got "x" _ => t_x | Got "O" _ => t_O | Got "e" _ => t_e
  | Got "S" _ => t_S | Got "A" _ => t_A | Got "a" _ => t_a | Got "F" _ => t_F | Got "p" _ => t_p | Got "c" _ => t_c
  | Got "f" (Some s) => t_f s | Got "h" _ => t_h | _ => t_other
  end%char.
Definition thugetlb_usage : cstr := text [
    "./thugetlb [-m memory] [-o offset] [-f file] [-xOeSAaFpch] hugetlbfs_directory";
    "            -m|--memory size(hugepage unit)    Size of hugetlbfs file";
    "            -o|--offset offset(page unit)      Position of error injection";
    "            -x|--inject                        Error injection switch";
    "            -O|--offline                       Soft offline switch";
    "            -e|--early-kill                    Set PR_MCE_KILL_EARLY";
    "            -S|--shm                           Use shmem with SHM_HUGETLB";
    "            -A|--anonymous                     Use MAP_ANONYMOUS";
    "            -a|--avoid-touch                   Avoid touching error page";
    "            -F|--fork";
    "            -p|--private";
    "            -c|--cow";
    "            -f|--filename string";
    "            -h|--help";
    ""]%string.

Definition strtol_int (s : cstr) : Z := i32 (fst (strtoll s 10)).
(** The loop over the options: the flags, or the status [usage] exits with. *)
Fixpoint thugetlb_opts (options : list t_opt) (a : targs) : res targs :=
  match options with
  | [] => Ok a
  | o :: l =>
      let '(TArgs fs cp inj so ek av sh an fk pr cw key fn) := a in
      match o with
      | t_m s => thugetlb_opts l (TArgs (strtol_int s) cp inj so ek av sh an fk pr cw key fn)
      | t_o s => thugetlb_opts l (TArgs fs (strtol_int s) inj so ek av sh an fk pr cw key fn)
      | t_x => thugetlb_opts l (TArgs fs cp true so ek av sh an fk pr cw key fn)
      | t_O => thugetlb_opts l (TArgs fs cp inj true ek av sh an fk pr cw key fn)
      | t_e => thugetlb_opts l (TArgs fs cp inj so true av sh an fk pr cw key fn)
      | t_S => thugetlb_opts l (TArgs fs cp inj so ek av true an fk pr cw key fn)
      | t_A => thugetlb_opts l (TArgs fs cp inj so ek av sh true fk pr cw key fn)
      | t_a => thugetlb_opts l (TArgs fs cp inj so ek true sh an fk pr cw key fn)
      | t_F => thugetlb_opts l (TArgs fs cp inj so ek av sh an true pr cw key fn)
      | t_p => thugetlb_opts l (TArgs fs cp inj so ek av sh an fk true cw key fn)
      | t_c => thugetlb_opts l (TArgs fs cp inj so ek av sh an fk pr true key fn)
      | t_f s =>
          (* [strcat] to an array of 256 bytes *)
          if BUF_SIZE <=? Z.of_nat (length (fn ++ s)) then Undef
          else thugetlb_opts l (TArgs fs cp inj so ek av sh an fk pr cw (strtol_int s) (fn ++ s))
      | t_h => Exit 0
      | t_other => Exit 1
      end
  end.

Section Thugetlb.
Context {OS : hwp_os}.

(** [get_semaphore] and [put_semaphore]. *)
Definition get_semaphore (sem_id : Z) : prog (proc unit) Z := r ← sys (SEMOP sem_id 0 (-1)); mret (fst r).
Definition put_semaphore (sem_id : Z) : prog (proc unit) Z := r ← sys (SEMOP sem_id 0 1); mret (fst r).
Definition err_unless (ok : bool) : prog (proc unit) unit := if ok then mret () else p_exit 1.

(** [corrupt_page * PS > file_size * HPAGE_SIZE]: the product on the left is an
    [int], that on the right and the comparison are [unsigned long]. *)
Definition out_of_range (PS : Z) (a : targs) : bool :=
  u64 (file_size a * HPAGE_SIZE) <? u64 (i32 (corrupt_page a * PS)).

(** The child: it copies the pages, lets the parent go on, and waits for it. *)
Definition child_main (a : targs) (addr semid : Z) : prog (proc unit) unit :=
  p_when (cowflag a)
    (write_hugepage HPAGE_SIZE addr (file_size a) 0;; read_hugepage HPAGE_SIZE addr (file_size a) 0;; mret ());;
  r ← put_semaphore semid; err_unless (r =? 0);;
  r ← get_semaphore semid; err_unless (r =? 0);;
  r ← put_semaphore semid; err_unless (r =? 0).

(** What [cleanout] does, and the status [main] returns. *)
Definition cleanout (a : targs) (addr fd key : Z) (filepath : cstr) : prog (proc unit) Z :=
  r ← (if shmflag a then free_shm_hugepage key addr
       else if anonflag a then free_anonymous_hugepage addr (file_size a * HPAGE_SIZE)
       else free_filebacked_hugepage addr (file_size a * HPAGE_SIZE) fd (Some filepath));
  if r =? -1 then p_exit 2 else mret 0.

(** [if (cond) goto cleanout;] in front of the rest. *)
Definition goto_if (cond : bool) (target rest : prog (proc unit) Z) : prog (proc unit) Z :=
  if cond then target else rest.

Definition thugetlb_main (argc : Z) (options : list t_opt) (dir : option cstr) : prog (proc unit) Z :=
  if argc =? 1 then put thugetlb_usage;; p_exit 1 else
  a ← (match thugetlb_opts options targs0 with
       | Exit status => put thugetlb_usage;; p_exit status
       | a => p_lift a
       end);
  let PS := os_pagesize in
  if a_inject a && out_of_range PS a then p_exit 1 else
  if avoid_touch a && (corrupt_page a =? -1) then p_exit 1 else
  match dir with
  | None => put thugetlb_usage;; p_exit 1
  | Some d =>
      let filepath := d ++ filename a in
      let size := file_size a * HPAGE_SIZE in
      '(addr, fd, key) ← (if shmflag a then '(p, k) ← alloc_shm_hugepage (shmkey a) size; mret (p, 0, k)
                          else if anonflag a then p ← alloc_anonymous_hugepage size (privateflag a); mret (p, 0, shmkey a)
                          else '(p, fd) ← alloc_filebacked_hugepage filepath size (privateflag a); mret (p, fd, shmkey a));
      if addr =? 0 then p_exit 1 else
      let expected_addr := if negb (corrupt_page a =? -1) && avoid_touch a
                           then addr + Z.quot (corrupt_page a) 512 * HPAGE_SIZE else 0 in
      let out := cleanout a addr fd key filepath in
      '(semid, bad) ← (if forkflag a then
                         '(semid, _) ← sys (SEMGET 1);
                         if semid =? -1 then mret (semid, true) else
                         '(r, _) ← sys (SEMCTL_SETVAL semid 0 1);
                         if r =? -1 then mret (semid, true) else
                         r ← get_semaphore semid; mret (semid, nz r)
                       else mret (0, false));
      goto_if bad out (
      write_hugepage HPAGE_SIZE addr (file_size a) 0;;
      read_hugepage HPAGE_SIZE addr (file_size a) 0;;
      p_when (a_early_kill a) (sys (PRCTL 1);; mret ());;
      p_when (forkflag a)
        (pid ← sys FORK; if fst pid =? 0 then child_main a addr semid;; p_exit 0 else mret ());;
      bad ← (if forkflag a then r ← get_semaphore semid; mret (nz r) else mret false);
      goto_if bad out (
      bad ← (if a_inject a && negb (corrupt_page a =? -1) then
               r ← mem (MADVISE (addr + i32 (corrupt_page a * PS)) PS (if a_soft_offline a then MADV_SOFT_OFFLINE else MADV_POISON));
               match r with
               | inl _ => p_undef
               | inr (ret, _) => p_when (nz ret) (put (lit "madivise return " ++ fmt_d ret ++ lit " :"));; mret (nz ret)
               end
             else mret false);
      goto_if bad out (
      bad ← (if forkflag a then r ← put_semaphore semid; mret (nz r) else mret false);
      goto_if bad out (
      (* the test of [madvise_code] is an empty statement *)
      write_hugepage HPAGE_SIZE addr (file_size a) expected_addr;;
      read_hugepage HPAGE_SIZE addr (file_size a) expected_addr;;
      p_when (forkflag a)
        (r ← sys (WAITID 0); err_unless (negb (fst r =? -1));;
         r ← sys (SEMCTL_RMID semid); err_unless (negb (fst r =? -1)));;
      out))))
  end.
(** The program from its name and its arguments: the directory is the last word
    of [argv] as [getopt_long] leaves it, when it can be accessed. *)
Definition thugetlb (accessible : cstr → bool) (name : cstr) (args : list cstr) : prog (proc unit) Z :=
  let p := getopt thugetlb_table args in
  let dir := default [] (last (name :: permuted p)) in
  thugetlb_main (Z.of_nat (S (length args))) (t_opt_of <$> calls p) (if accessible dir then Some dir else None).
End Thugetlb.

(** ** Memory with poisoned pages *)

(** The value an address was last given, since something was mapped. *)
Fixpoint last_store (h : list request) (a : Z) : option Z :=
  match h with
  | [] => None
  | STORE b v :: h => if a =? b then Some v else last_store h a
  | MMAP _ _ _ _ _ :: _ | MUNMAP _ _ :: _ | REMAP_FILE_PAGES _ _ _ :: _ => None
  | _ :: h => last_store h a
  end.
(** A page of [g] bytes is poisoned when [madvise] poisoned an address of it. *)
Definition poisons (g a : Z) (r : request) : bool :=
  match r with MADVISE p _ MADV_POISON => p / g =? a / g | _ => false end.
Definition poisoned (g : Z) (h : list request) (a : Z) : bool := existsb (poisons g a) h.

(** Memory keeps what is stored, and only an access to a poisoned page is
    answered by a signal. *)
Class memory_laws {OS : hwp_os} (g : Z) := {
  law_load h a v : last_store h a = Some v → poisoned g h a = false → uchar (fst (os_value h (LOAD a))) = uchar v;
  law_signal_load h a : poisoned g h a = false → os_signal h (LOAD a) = None;
  law_signal_store h a v : poisoned g h a = false → os_signal h (STORE a v) = None
}.

Lemma poisoned_cons g r h a : poisoned g (r :: h) a = poisons g a r || poisoned g h a.
Proof. done. Qed.
Lemma poisoned_app g h1 h2 a : poisoned g (h1 ++ h2) a = poisoned g h1 a || poisoned g h2 a.
Proof. apply existsb_app. Qed.

(** Requests that are loads and stores. *)
Definition touches (r : request) : bool := match r with LOAD _ | STORE _ _ => true | _ => false end.
Lemma poisoned_touches g l h a : forallb touches l = true → poisoned g (l ++ h) a = poisoned g h a.
Proof.
  intros Hl. rewrite poisoned_app. assert (poisoned g l a = false) as ->; [|done].
  unfold poisoned. induction l as [|r l IH]; [done|]. simpl in Hl. apply andb_true_iff in Hl as [Hr Hl].
  simpl. rewrite IH by done. by destruct r.
Qed.

Section Memory.
Context {OS : hwp_os} {V : Type} {g : Z} {Laws : memory_laws g}.

Definition push (l : list request) (s : proc V) : proc V := Proc (l ++ hist s) (out s) (sigbus s) (killed s) (vars s).

Lemma push_nil s : push [] s = s.
Proof. by destruct s. Qed.
Lemma push_push l1 l2 s : push l1 (push l2 s) = push (l1 ++ l2) s.
Proof. unfold push. simpl. by rewrite app_assoc. Qed.

Lemma store_run a v s : poisoned g (hist s) a = false → store a v s = (Ok (), push [STORE a v] s).
Proof. intros Hp. unfold store, mem. rewrite p_bind_run. by rewrite law_signal_store. Qed.

Lemma load_run a v s : poisoned g (hist s) a = false → last_store (hist s) a = Some v →
  load a s = (Ok (uchar v), push [LOAD a] s).
Proof.
  intros Hp Hv. unfold load, mem. rewrite p_bind_run. rewrite law_signal_load by done.
  pose proof (law_load (hist s) a v Hv Hp) as Hl. destruct (os_value (hist s) (LOAD a)) as [w e].
  simpl in *. by rewrite Hl.
Qed.

Lemma mem_run r s : os_signal (hist s) r = None → mem r s = (Ok (inr (os_value (hist s) r)), push [r] s).
Proof. unfold mem. by intros ->. Qed.
Lemma sys_run r s : sys r s = (Ok (os_value (hist s) r), push [r] s).
Proof. done. Qed.

Definition stores (l : list (Z * Z)) : list request := rev ((λ av, STORE av.1 av.2) <$> l).

Lemma stores_touch l : forallb touches (stores l) = true.
Proof.
  unfold stores. apply forallb_forall. intros r Hr. apply in_rev in Hr.
  apply list_elem_of_In, list_elem_of_fmap in Hr as (? & -> & _). done.
Qed.

Lemma stores_app l k : stores (l ++ k) = stores k ++ stores l.
Proof. unfold stores. by rewrite fmap_app, rev_app_distr. Qed.

Lemma p_for_stores {A} (js : list A) (f : A → Z * Z) s :
  (∀ j, j ∈ js → poisoned g (hist s) (f j).1 = false) →
  p_for js (λ j, store (f j).1 (f j).2) s = (Ok (), push (stores (f <$> js)) s).
Proof.
  revert s. induction js as [|j js IH]; intros s Hp; [cbn; by rewrite push_nil|]. cbn [p_for].
  rewrite (p_bind_ok _ _ _ _ _ (store_run _ _ s (Hp j ltac:(left)))).
  rewrite IH.
  - rewrite push_push. by change (j :: js) with ([j] ++ js); rewrite fmap_app, stores_app.
  - intros k Hk. cbn [push hist]. rewrite (poisoned_touches g [_]) by done. apply Hp. by right.
Qed.

(** The bytes [write_hugepage] writes. *)
Definition page_bytes (HPS addr avoid i : Z) : list (Z * Z) :=
  if addr + i * HPS =? avoid then [] else (λ j, (addr + i * HPS + j, pattern i j)) <$> seqZ 0 HPS.
Definition all_bytes (HPS addr n avoid : Z) : list (Z * Z) := concat (page_bytes HPS addr avoid <$> seqZ 0 n).

Definition pages_clean (HPS addr n avoid : Z) (h : list request) : Prop :=
  ∀ i j, 0 ≤ i < n → 0 ≤ j < HPS → addr + i * HPS ≠ avoid → poisoned g h (addr + i * HPS + j) = false.

Lemma write_page_run HPS addr avoid i s : i * HPS ≤ INT_MAX →
  (∀ j, 0 ≤ j < HPS → addr + i * HPS ≠ avoid → poisoned g (hist s) (addr + i * HPS + j) = false) →
  write_page HPS addr avoid i s = (Ok (), push (stores (page_bytes HPS addr avoid i)) s).
Proof.
  intros Hm Hp. unfold write_page, page_addr. destruct (Z.ltb_spec INT_MAX (i * HPS)); [lia|].
  rewrite p_bind_run. unfold mret at 1, prog_ret at 1. unfold page_bytes.
  destruct (Z.eqb_spec (addr + i * HPS) avoid) as [|Hne]; [cbn; by rewrite push_nil|].
  apply (p_for_stores (seqZ 0 HPS) (λ j, (addr + i * HPS + j, pattern i j)) s).
  intros j ?%elem_of_seqZ. apply Hp; [lia|done].
Qed.

Lemma write_pages_run HPS addr avoid idx s : (∀ i, i ∈ idx → i * HPS ≤ INT_MAX) →
  (∀ i j, i ∈ idx → 0 ≤ j < HPS → addr + i * HPS ≠ avoid → poisoned g (hist s) (addr + i * HPS + j) = false) →
  p_for idx (write_page HPS addr avoid) s = (Ok (), push (stores (concat (page_bytes HPS addr avoid <$> idx))) s).
Proof.
  revert s. induction idx as [|i idx IH]; intros s Hm Hp; [cbn; by rewrite push_nil|].
  cbn [p_for fmap list_fmap concat]. rewrite stores_app, <- push_push.
  rewrite (p_bind_ok _ _ _ _ _ (write_page_run HPS addr avoid i s (Hm i ltac:(left)) (λ j, Hp i j ltac:(left)))).
  apply IH.
  - intros k Hk. apply Hm. by right.
  - intros k j Hk Hj Hne. cbn [push hist]. rewrite poisoned_touches by apply stores_touch.
    apply Hp; [by right|done|done].
Qed.

Lemma write_run HPS addr n avoid s : n * HPS ≤ INT_MAX → 0 ≤ HPS → pages_clean HPS addr n avoid (hist s) →
  write_hugepage HPS addr n avoid s = (Ok (), push (stores (all_bytes HPS addr n avoid)) s).
Proof.
  intros Hn HHPS Hc. apply write_pages_run.
  - intros i ?%elem_of_seqZ. nia.
  - intros i j ?%elem_of_seqZ. apply Hc. lia.
Qed.

(** The first byte of a poisoned page ends a process that does not catch SIGBUS. *)
Lemma write_hugepage_killed HPS addr n k (s : proc V) : n * HPS ≤ INT_MAX → 0 < HPS → 0 ≤ k < n → addr + k * HPS ≠ 0 →
  sigbus s = SIG_DFL →
  (∀ i j, 0 ≤ i < k → 0 ≤ j < HPS → poisoned g (hist s) (addr + i * HPS + j) = false) →
  (∀ h v, poisoned g h (addr + k * HPS) = true → is_Some (os_signal h (STORE (addr + k * HPS) v))) →
  poisoned g (hist s) (addr + k * HPS) = true →
  ∃ s', write_hugepage HPS addr n 0 s = (Exit SIGBUS, s') ∧ killed s' = true.
Proof.
  intros Hn HHPS Hk Hne Hdfl Hclean Hsig Hpois.
  set (s1 := push (stores (concat (page_bytes HPS addr 0 <$> seqZ 0 k))) s).
  assert (p_for (seqZ 0 k) (write_page HPS addr 0) s = (Ok (), s1)) as H1.
  { apply write_pages_run; [intros i ?%elem_of_seqZ; nia|].
    intros i j ?%elem_of_seqZ ??. apply Hclean; lia. }
  destruct (Hsig (hist s1) (pattern k 0)) as [sig Es].
  { cbn [s1 push hist]. by rewrite poisoned_touches by apply stores_touch. }
  eexists. split.
  - unfold write_hugepage. replace n with (k + (n - k)) by lia. rewrite (seqZ_app 0 k (n - k)) by lia.
    rewrite Z.add_0_l, (seqZ_cons k (n - k)) by lia. apply (p_for_exit _ _ _ _ _ _ _ _ H1).
    unfold write_page, page_addr. destruct (Z.ltb_spec INT_MAX (k * HPS)); [nia|].
    rewrite p_bind_run. unfold mret at 1, prog_ret at 1.
    destruct (Z.eqb_spec (addr + k * HPS) 0); [done|].
    rewrite (seqZ_cons 0 HPS) by lia. cbn [p_for]. rewrite Z.add_0_r. unfold store, mem.
    rewrite !p_bind_run. rewrite Es. cbn [s1 push sigbus]. by rewrite Hdfl.
  - done.
Qed.

(** What was stored last is read. *)
Lemma last_store_stores l h a v : (a, v) ∈ l → (∀ w, (a, w) ∈ l → w = v) → last_store (stores l ++ h) a = Some v.
Proof.
  induction l as [|[b w] l IH] using rev_ind; intros Hin Huniq; [by apply elem_of_nil in Hin|].
  rewrite stores_app. simpl. destruct (Z.eqb_spec a b) as [->|Hne].
  - f_equal. apply Huniq. set_solver.
  - apply IH; set_solver.
Qed.

Lemma last_store_loads js h a : last_store ((LOAD <$> js) ++ h) a = last_store h a.
Proof. induction js as [|j js IH]; [done|]. apply IH. Qed.

Lemma pattern_range i j : 97 ≤ pattern i j < 123.
Proof. unfold pattern. pose proof (Z.mod_pos_bound (i + j) 26). lia. Qed.

Lemma loads_touch (js : list Z) : forallb touches (LOAD <$> js) = true.
Proof. by induction js. Qed.

Lemma read_bytes_run p i js s :
  (∀ j, j ∈ js → poisoned g (hist s) (p + j) = false ∧ last_store (hist s) (p + j) = Some (pattern i j)) →
  read_bytes p i js s = (Ok true, push (LOAD <$> rev ((λ j, p + j) <$> js)) s).
Proof.
  revert s. induction js as [|j js IH]; intros s H; [cbn; by rewrite push_nil|]. cbn [read_bytes].
  destruct (H j ltac:(left)) as [Hp Hv]. rewrite (p_bind_ok _ _ _ _ _ (load_run _ _ s Hp Hv)).
  pose proof (pattern_range i j). unfold uchar. rewrite uwrap_small by lia. rewrite Z.eqb_refl.
  rewrite IH.
  - rewrite push_push. f_equal. f_equal. cbn [fmap list_fmap rev]. by rewrite fmap_app.
  - intros k Hk. cbn [push hist].
    destruct (H k ltac:(by right)) as [Hpk Hvk].
    change ([LOAD (p + j)] ++ hist s) with ((LOAD <$> [p + j]) ++ hist s).
    by rewrite poisoned_touches, last_store_loads by done.
Qed.

Lemma elem_of_concat {A} (x : A) ls : x ∈ concat ls ↔ ∃ l, x ∈ l ∧ l ∈ ls.
Proof. rewrite list_elem_of_In, in_concat. setoid_rewrite list_elem_of_In. naive_solver. Qed.

Lemma elem_of_all_bytes HPS addr n avoid a v : (a, v) ∈ all_bytes HPS addr n avoid ↔
  ∃ i j, 0 ≤ i < n ∧ 0 ≤ j < HPS ∧ addr + i * HPS ≠ avoid ∧ a = addr + i * HPS + j ∧ v = pattern i j.
Proof.
  unfold all_bytes. rewrite elem_of_concat. split.
  - intros (l & Hl & (i & -> & Hi%elem_of_seqZ)%list_elem_of_fmap). unfold page_bytes in Hl.
    destruct (Z.eqb_spec (addr + i * HPS) avoid) as [|Hne]; [by apply elem_of_nil in Hl|].
    apply list_elem_of_fmap in Hl as (j & [= -> ->] & Hj%elem_of_seqZ). exists i, j. repeat split; try lia.
  - intros (i & j & Hi & Hj & Hne & -> & ->). exists (page_bytes HPS addr avoid i). split.
    + unfold page_bytes. destruct (Z.eqb_spec (addr + i * HPS) avoid); [done|].
      apply list_elem_of_fmap. exists j. split; [done|]. apply elem_of_seqZ. lia.
    + apply list_elem_of_fmap. exists i. split; [done|]. apply elem_of_seqZ. lia.
Qed.

(** After the pages were written each byte holds its character. *)
Lemma all_bytes_stored HPS addr n avoid h i j : 0 ≤ i < n → 0 ≤ j < HPS → addr + i * HPS ≠ avoid →
  last_store (stores (all_bytes HPS addr n avoid) ++ h) (addr + i * HPS + j) = Some (pattern i j).
Proof.
  intros Hi Hj Hne. apply last_store_stores.
  - apply elem_of_all_bytes. by exists i, j.
  - intros w (i' & j' & Hi' & Hj' & _ & Ea & ->)%elem_of_all_bytes.
    assert (i' = i) as ->; [|by replace j' with j by lia].
    assert (i * HPS + j = i' * HPS + j') as E by lia.
    transitivity ((i * HPS + j) / HPS); [|symmetry]; [apply (Z.div_unique_pos _ HPS i' j') | apply (Z.div_unique_pos _ HPS i j)]; lia.
Qed.

Definition holds_pattern (HPS addr n avoid : Z) (h : list request) : Prop :=
  ∀ i j, 0 ≤ i < n → 0 ≤ j < HPS → addr + i * HPS ≠ avoid → last_store h (addr + i * HPS + j) = Some (pattern i j).

Lemma read_run HPS addr n avoid s : n * HPS ≤ INT_MAX → 0 ≤ HPS →
  pages_clean HPS addr n avoid (hist s) → holds_pattern HPS addr n avoid (hist s) →
  ∃ as_, read_hugepage HPS addr n avoid s = (Ok 0, push (LOAD <$> as_) s)
         ∧ ∀ a, a ∈ as_ → ∃ i j, 0 ≤ i < n ∧ 0 ≤ j < HPS ∧ addr + i * HPS ≠ avoid ∧ a = addr + i * HPS + j.
Proof.
  intros Hn HHPS Hc Hh. unfold read_hugepage.
  assert (∀ idx s, (∀ i, i ∈ idx → 0 ≤ i < n) → pages_clean HPS addr n avoid (hist s) →
    holds_pattern HPS addr n avoid (hist s) →
    ∃ as_, p_fold idx (read_page HPS addr avoid) 0 s = (Ok 0, push (LOAD <$> as_) s)
      ∧ ∀ a, a ∈ as_ → ∃ i j, 0 ≤ i < n ∧ 0 ≤ j < HPS ∧ addr + i * HPS ≠ avoid ∧ a = addr + i * HPS + j) as Hloop.
  { clear s Hc Hh. induction idx as [|i idx IH]; intros s Hin Hc Hh.
    { exists []. split; [cbn; by rewrite push_nil | by intros a ?%elem_of_nil]. }
    assert (0 ≤ i < n) as Hi by (apply Hin; left).
    assert (∃ as1, read_page HPS addr avoid 0 i s = (Ok 0, push (LOAD <$> as1) s)
      ∧ ∀ a, a ∈ as1 → ∃ i j, 0 ≤ i < n ∧ 0 ≤ j < HPS ∧ addr + i * HPS ≠ avoid ∧ a = addr + i * HPS + j)
      as (as1 & H1 & Has1).
    { unfold read_page, page_addr. destruct (Z.ltb_spec INT_MAX (i * HPS)); [nia|].
      rewrite p_bind_run. unfold mret at 1, prog_ret at 1.
      destruct (Z.eqb_spec (addr + i * HPS) avoid) as [|Hne].
      { exists []. split; [cbn; by rewrite push_nil | by intros a ?%elem_of_nil]. }
      eexists. split.
      - rewrite (p_bind_ok _ _ _ _ _ (read_bytes_run (addr + i * HPS) i (seqZ 0 HPS) s
          ltac:(intros j ?%elem_of_seqZ; split; [apply Hc | apply Hh]; done || lia))). done.
      - intros a Ha. rewrite <- elem_of_reverse in Ha. unfold reverse in Ha.
        rewrite rev_append_rev, app_nil_r, rev_involutive in Ha.
        apply list_elem_of_fmap in Ha as (j & -> & Hj%elem_of_seqZ). exists i, j. repeat split; try lia. }
    cbn [p_fold]. rewrite (p_bind_ok _ _ _ _ _ H1).
    destruct (IH (push (LOAD <$> as1) s)) as (as2 & H2 & Has2).
    - intros k Hk. apply Hin. by right.
    - intros k j Hk Hj Hne. cbn [push hist]. rewrite poisoned_touches by apply loads_touch. by apply Hc.
    - intros k j Hk Hj Hne. cbn [push hist]. rewrite last_store_loads. by apply Hh.
    - exists (as2 ++ as1). rewrite H2, push_push, fmap_app. split; [done|].
      intros a [?|?]%elem_of_app; eauto. }
  apply Hloop; [|done..]. intros i ?%elem_of_seqZ. lia.
Qed.
End Memory.

(** ** The runs of thugetlb *)

(** A kernel on which thugetlb may map, poison and unmap anonymous huge pages:
    the poison is that of the huge page, and the process is not killed early. *)
Class huge_laws {OS : hwp_os} := {
  huge_memory :: memory_laws HPAGE_SIZE;
  huge_pagesize : os_pagesize = 4096;
  huge_mmap h a len prot flags fd : let p := fst (os_value h (MMAP a len prot flags fd)) in
    0 < p ∧ p `mod` HPAGE_SIZE = 0;
  huge_munmap h a len : fst (os_value h (MUNMAP a len)) = 0;
  huge_madvise h a len what : os_signal h (MADVISE a len what) = None ∧ fst (os_value h (MADVISE a len what)) = 0;
  huge_kill h a v : poisoned HPAGE_SIZE h a = true → is_Some (os_signal h (STORE a v))
}.

Definition thugetlb_proc0 : proc unit := Proc [] [] SIG_DFL false ().

(** The flags of [thugetlb -A -m n -x -o k], and with -a. *)
Definition inject_flags (n k : Z) (avoid : bool) : targs :=
  TArgs n k true false false avoid false true false false false 0 (lit "/test").

Section Runs.
Context {OS : hwp_os} {Laws : huge_laws}.

Lemma in_hugepage addr k : addr `mod` HPAGE_SIZE = 0 → 0 ≤ k →
  (addr + k * 4096) / HPAGE_SIZE = (addr + k / 512 * HPAGE_SIZE) / HPAGE_SIZE.
Proof.
  intros Ha Hk. unfold HPAGE_SIZE in *. change (2 * 1024 * 1024) with (512 * 4096) in *.
  assert (addr = addr / (512 * 4096) * (512 * 4096)) as E.
  { pose proof (Z.div_mod addr (512 * 4096)). lia. }
  rewrite E, !Z.div_add_l by lia. by rewrite Z.div_mul_cancel_r, Z.div_mul by lia.
Qed.

Lemma same_hugepage addr i j : addr `mod` HPAGE_SIZE = 0 → 0 ≤ j < HPAGE_SIZE →
  (addr + i * HPAGE_SIZE + j) / HPAGE_SIZE = addr / HPAGE_SIZE + i.
Proof.
  intros Ha Hj. replace (addr + i * HPAGE_SIZE + j) with ((addr / HPAGE_SIZE + i) * HPAGE_SIZE + j).
  - rewrite Z.div_add_l by (unfold HPAGE_SIZE; lia). rewrite (Z.div_small j) by done. lia.
  - rewrite (Z.div_mod addr HPAGE_SIZE) at 2 by (unfold HPAGE_SIZE; lia). lia.
Qed.

Lemma in_range n k avoid : 0 < n < 1024 → 0 ≤ k < 512 * n →
  out_of_range 4096 (inject_flags n k avoid) = false.
Proof.
  intros Hn Hk. unfold out_of_range. cbn [inject_flags file_size corrupt_page]. unfold HPAGE_SIZE.
  rewrite i32_small by lia.
  rewrite !u64_small by (unfold is_u64; lia). apply Z.ltb_ge. lia.
Qed.

Lemma pages_clean_nil addr n avoid : pages_clean (g := HPAGE_SIZE) HPAGE_SIZE addr n avoid [].
Proof. by intros i j. Qed.

(** Options that ask for such a run. *)
Definition asks_inject (options : list t_opt) (n k : Z) (avoid : bool) : Prop :=
  thugetlb_opts options targs0 = Ok (inject_flags n k avoid).

(** Everything up to the second touch: the pages are written and read, and the
    4096 bytes at page [k] are poisoned. *)
Lemma thugetlb_to_touch argc options n k avoid dir :
  argc ≠ 1 → asks_inject options n k avoid → 0 < n < 1024 → 0 ≤ k < 512 * n →
  ∃ addr s, 0 < addr ∧ addr `mod` HPAGE_SIZE = 0 ∧ sigbus s = SIG_DFL ∧ killed s = false ∧ out s = []
  ∧ (∀ a, poisoned HPAGE_SIZE (hist s) a = ((addr + k / 512 * HPAGE_SIZE) / HPAGE_SIZE =? a / HPAGE_SIZE))
  ∧ thugetlb_main argc options (Some dir) thugetlb_proc0 =
    (write_hugepage HPAGE_SIZE addr n (if avoid then addr + k / 512 * HPAGE_SIZE else 0);;
     read_hugepage HPAGE_SIZE addr n (if avoid then addr + k / 512 * HPAGE_SIZE else 0);;
     p_when false (r ← sys (WAITID 0); err_unless (negb (fst r =? -1));;
                   r ← sys (SEMCTL_RMID 0); err_unless (negb (fst r =? -1)));;
     cleanout (inject_flags n k avoid) addr 0 0 (dir ++ lit "/test")) s.
Proof.
  intros Hargc Hopts Hn Hk. unfold thugetlb_main. rewrite (proj2 (Z.eqb_neq argc 1) Hargc).
  rewrite Hopts. unfold p_lift at 1. rewrite p_bind_run.
  cbn [inject_flags a_inject avoid_touch corrupt_page file_size filename shmflag anonflag
    forkflag a_early_kill a_soft_offline privateflag shmkey].
  rewrite huge_pagesize, in_range by done.
  destruct (Z.eqb_spec k (-1)); [lia|]. rewrite !andb_false_r. cbn [andb negb].
  set (mm := MMAP 0 (n * HPAGE_SIZE) [PROT_READ; PROT_WRITE] [MAP_ANONYMOUS; MAP_HUGETLB; MAP_SHARED] (-1)).
  set (addr := fst (os_value [] mm)).
  assert (0 < addr ∧ addr `mod` HPAGE_SIZE = 0) as [Hpos Hmod] by apply huge_mmap.
  set (s1 := Proc (V := unit) [mm] [] SIG_DFL false ()).
  assert ((p ← alloc_anonymous_hugepage (n * HPAGE_SIZE) false; mret (p, 0, 0)) thugetlb_proc0
    = (Ok (addr, 0, 0), s1)) as Ha.
  { unfold alloc_anonymous_hugepage, sys. rewrite !p_bind_run. cbn [thugetlb_proc0 hist out sigbus killed vars].
    fold mm. subst addr. destruct (os_value [] mm) as [p e]. cbn [fst] in *.
    unfold mret, prog_ret. destruct (Z.eqb_spec p (-1)); [lia|done]. }
  rewrite (p_bind_ok _ _ _ _ _ Ha). destruct (Z.eqb_spec addr 0); [lia|].
  assert ((if avoid then addr + Z.quot k 512 * HPAGE_SIZE else 0) = (if avoid then addr + k / 512 * HPAGE_SIZE else 0))
    as -> by (by rewrite Z.quot_div_nonneg by lia).
  assert (n * HPAGE_SIZE ≤ INT_MAX) as Hmax by (unfold HPAGE_SIZE, INT_MAX; lia).
  assert (0 ≤ HPAGE_SIZE) as H0 by (unfold HPAGE_SIZE; lia).
  unfold goto_if. rewrite p_bind_run. unfold mret at 1, prog_ret at 1.
  assert (pages_clean (g := HPAGE_SIZE) HPAGE_SIZE addr n 0 (hist s1)) as Hc1 by done.
  rewrite (p_bind_ok _ _ _ _ _ (write_run _ _ _ _ s1 Hmax H0 Hc1)).
  set (s2 := push (stores (all_bytes HPAGE_SIZE addr n 0)) s1).
  assert (∀ a, poisoned HPAGE_SIZE (hist s2) a = false) as Hp2.
  { intros a. cbn [s2 push hist]. by rewrite poisoned_touches by apply stores_touch. }
  assert (holds_pattern HPAGE_SIZE addr n 0 (hist s2)) as Hh2.
  { intros i j ???. cbn [s2 push hist]. by apply all_bytes_stored. }
  destruct (read_run _ _ _ _ s2 Hmax H0 (λ i j _ _ _, Hp2 _) Hh2) as (l2 & Hr2 & _).
  rewrite (p_bind_ok _ _ _ _ _ Hr2). cbn [p_when]. rewrite !p_bind_run. unfold mret, prog_ret. cbn match.
  set (s3 := push (LOAD <$> l2) s2).
  assert (i32 (k * 4096) = k * 4096) as Ek by (apply i32_small; lia).
  rewrite Ek. psteps.
  set (r := MADVISE (addr + k * 4096) 4096 MADV_POISON).
  destruct (huge_madvise (hist s3) (addr + k * 4096) 4096 MADV_POISON) as [Hsig Hval].
  fold r in Hsig, Hval |- *. rewrite (mem_run r s3 Hsig). cbn match.
  destruct (os_value (hist s3) r) as [ret e]. cbn [fst] in Hval. subst ret.
  cbn [nz Z.eqb negb p_when]. unfold mret, prog_ret.
  exists addr, (push [r] s3). split_and!; try done.
  intros a. cbn [push hist app].
  change (poisons HPAGE_SIZE a r || poisoned HPAGE_SIZE (hist s3) a = ((addr + k / 512 * HPAGE_SIZE) / HPAGE_SIZE =? a / HPAGE_SIZE)).
  cbn [s3 push hist]. rewrite poisoned_touches by apply loads_touch. rewrite Hp2, orb_false_r.
  cbn [r poisons]. by rewrite in_hugepage by (done || lia).
Qed.

(** The huge page of page [k] and the others. *)
Lemma poisoned_page addr i j q : addr `mod` HPAGE_SIZE = 0 → 0 ≤ j < HPAGE_SIZE →
  ((addr + q * HPAGE_SIZE) / HPAGE_SIZE =? (addr + i * HPAGE_SIZE + j) / HPAGE_SIZE) = (q =? i).
Proof.
  intros Hmod Hj. rewrite same_hugepage by done.
  pose proof (same_hugepage addr q 0 Hmod ltac:(unfold HPAGE_SIZE; lia)) as E. rewrite Z.add_0_r in E.
  rewrite E. bool_cases; lia.
Qed.

Lemma thugetlb_avoid_run argc options n k dir :
  argc ≠ 1 → asks_inject options n k true → 0 < n < 1024 → 0 ≤ k < 512 * n →
  ∃ s', thugetlb_main argc options (Some dir) thugetlb_proc0 = (Ok 0, s') ∧ killed s' = false ∧ out s' = [].
Proof.
  intros Hargc Ho Hn Hk. destruct (thugetlb_to_touch argc options n k true dir Hargc Ho Hn Hk) as (addr & s & Hpos & Hmod & _ & Hk0 & Ho0 & Hpois & ->).
  assert (n * HPAGE_SIZE ≤ INT_MAX) as Hmax by (unfold HPAGE_SIZE, INT_MAX; lia).
  assert (0 ≤ HPAGE_SIZE) as H0 by (unfold HPAGE_SIZE; lia).
  set (avoid := addr + k / 512 * HPAGE_SIZE) in *.
  assert (pages_clean (g := HPAGE_SIZE) HPAGE_SIZE addr n avoid (hist s)) as Hc.
  { intros i j Hi Hj Hne. rewrite Hpois. unfold avoid. rewrite poisoned_page by done.
    apply Z.eqb_neq. intros <-. by apply Hne. }
  rewrite (p_bind_ok _ _ _ _ _ (write_run _ _ _ _ s Hmax H0 Hc)).
  set (s5 := push (stores (all_bytes HPAGE_SIZE addr n avoid)) s).
  assert (pages_clean (g := HPAGE_SIZE) HPAGE_SIZE addr n avoid (hist s5)) as Hc5.
  { intros i j ???. cbn [s5 push hist]. rewrite poisoned_touches by apply stores_touch. by apply Hc. }
  assert (holds_pattern HPAGE_SIZE addr n avoid (hist s5)) as Hh5.
  { intros i j ???. cbn [s5 push hist]. by apply all_bytes_stored. }
  destruct (read_run _ _ _ _ s5 Hmax H0 Hc5 Hh5) as (l5 & Hr5 & _).
  rewrite (p_bind_ok _ _ _ _ _ Hr5). cbn [p_when]. psteps. unfold mret, prog_ret. cbn match.
  unfold cleanout. cbn [inject_flags shmflag anonflag file_size]. unfold free_anonymous_hugepage.
  psteps. rewrite sys_run.
  pose proof (huge_munmap (hist (push (LOAD <$> l5) s5)) addr (n * HPAGE_SIZE)) as Hun.
  destruct (os_value _ (MUNMAP _ _)) as [u e2]. cbn [fst] in Hun. subst u.
  eexists. split_and!; done.
Qed.

Lemma thugetlb_touch_run argc options n k dir :
  argc ≠ 1 → asks_inject options n k false → 0 < n < 1024 → 0 ≤ k < 512 * n →
  ∃ s', thugetlb_main argc options (Some dir) thugetlb_proc0 = (Exit SIGBUS, s') ∧ killed s' = true.
Proof.
  intros Hargc Ho Hn Hk. destruct (thugetlb_to_touch argc options n k false dir Hargc Ho Hn Hk) as (addr & s & Hpos & Hmod & Hdfl & _ & _ & Hpois & ->).
  assert (0 ≤ k / 512 < n) as Hq by (split; [apply Z.div_pos | apply Z.div_lt_upper_bound]; lia).
  destruct (write_hugepage_killed (g := HPAGE_SIZE) HPAGE_SIZE addr n (k / 512) s) as (s' & Hw & Hkill).
  - unfold HPAGE_SIZE, INT_MAX; lia.
  - unfold HPAGE_SIZE; lia.
  - done.
  - unfold HPAGE_SIZE; lia.
  - done.
  - intros i j Hi Hj. rewrite Hpois, poisoned_page by done. apply Z.eqb_neq. lia.
  - intros h v. apply huge_kill.
  - rewrite Hpois. apply Z.eqb_refl.
  - exists s'. split; [|done]. by rewrite p_bind_run, Hw.
Qed.

Lemma thugetlb_table_ok : table_ok thugetlb_table.
Proof. apply (bool_decide_unpack _). by vm_compute. Qed.
(** The program is [thugetlb_main] on the options and the last operand. *)
Lemma thugetlb_command accessible name args evs rest dir :
  command thugetlb_table args evs rest → last rest = Some dir → accessible dir = true →
  thugetlb accessible name args = thugetlb_main (Z.of_nat (S (length args))) (t_opt_of <$> evs) (Some dir)
  ∧ args ≠ [].
Proof.
  intros Hcmd Hlast Hacc. destruct (getopt_command _ thugetlb_table_ok _ _ _ Hcmd) as [He Hr]. split.
  - unfold thugetlb, permuted. rewrite He, Hr. change (name :: ?l ++ rest) with ((name :: l) ++ rest).
    rewrite last_app, Hlast. cbn [from_option]. unfold id. by rewrite Hacc.
  - intros ->. cbn in Hr. by subst rest.
Qed.

(** C16: thugetlb with an error injected into page [k] (of 4096 bytes) of [n] huge
    pages of anonymous memory, for arguments that ask for this in whatever
    spelling and order. With -a every other huge page is written and
    read again without a mismatch and the program ends with 0: the page it
    spares is the one the poison is in. Without -a the second touch runs into the poison and SIGBUS
    ends the program. *)
Theorem thugetlb_inject accessible name args evs rest n k avoid dir :
  command thugetlb_table args evs rest → last rest = Some dir → accessible dir = true →
  asks_inject (t_opt_of <$> evs) n k avoid → 0 < n < 1024 → 0 ≤ k < 512 * n →
  ∃ s', thugetlb accessible name args thugetlb_proc0 = (if avoid then Ok 0 else Exit SIGBUS, s')
        ∧ killed s' = negb avoid ∧ (avoid = true → out s' = []).
Proof.
  intros Hcmd Hlast Hacc Ho Hn Hk. destruct (thugetlb_command _ name _ _ _ _ Hcmd Hlast Hacc) as [-> Hargs].
  assert (Z.of_nat (S (length args)) ≠ 1) as Hargc by (destruct args; [done|cbn [length]; lia]).
  destruct avoid.
  - destruct (thugetlb_avoid_run _ _ n k dir Hargc Ho Hn Hk) as (s' & E & ? & ?). by exists s'.
  - destruct (thugetlb_touch_run _ _ n k dir Hargc Ho Hn Hk) as (s' & E & ?). by exists s'.
Qed.

(** -x without -o is always refused: -1 * 4096 is a huge unsigned number. The
    page just behind the memory is accepted. *)
Lemma inject_without_offset a : corrupt_page a = -1 → 0 ≤ file_size a < 1024 → out_of_range 4096 a = true.
Proof.
  intros Hc Hf. unfold out_of_range. rewrite Hc. change (u64 (i32 (-1 * 4096))) with (2 ^ 64 - 4096).
  unfold HPAGE_SIZE. rewrite u64_small by (unfold is_u64; lia). apply Z.ltb_lt. lia.
Qed.
Lemma offset_behind a : corrupt_page a = 512 * file_size a → 0 ≤ file_size a < 1024 → out_of_range 4096 a = false.
Proof.
  intros Hc Hf. unfold out_of_range. rewrite Hc. unfold HPAGE_SIZE. rewrite i32_small by lia.
  rewrite !u64_small by (unfold is_u64; lia). apply Z.ltb_ge. lia.
Qed.
End Runs.

(** ** A kernel with memory and huge pages *)

#[export] Instance ram : hwp_os := {|
  os_signal h r :=
    match r with
    | LOAD a | STORE a _ => if poisoned HPAGE_SIZE h a then Some (Signal BUS_MCEERR_AR a 21) else None
    | _ => None
    end;
  os_value h r :=
    match r with
    | LOAD a => (default 0 (last_store h a), 0)
    | MMAP _ _ _ _ _ => (4 * HPAGE_SIZE, 0)
    | _ => (0, 0)
    end;
  os_dumps_core _ := false;
  os_escaped _ := WaitInfo CLD_EXITED 0;
  os_child_first _ := true;
  os_pagesize := 4096
|}.
#[export] Instance ram_laws : huge_laws (OS := ram).
Proof.
  split; try done.
  - split.
    + intros h a v Hv Hp. cbn. by rewrite Hv.
    + intros h a Hp. cbn. by rewrite Hp.
    + intros h a v Hp. cbn. by rewrite Hp.
  - intros h a v Hp. cbn. rewrite Hp. eauto.
Qed.

Lemma thugetlb_inject_witness :
  ∃ s', thugetlb (OS := ram) (λ _, true) (lit "thugetlb")
          (lit <$> ["-A"; "/huge"; "-m2"; "--inject"; "--offset=513"]%string) thugetlb_proc0 = (Exit SIGBUS, s')
        ∧ killed s' = true.
Proof.
  assert (command thugetlb_table (lit <$> ["-A"; "/huge"; "-m2"; "--inject"; "--offset=513"]%string)
    [Got "A" None; Got "m" (Some (lit "2")); Got "x" None; Got "o" (Some (lit "513"))]%char [lit "/huge"]) as Hcmd.
  { apply (cmd_option _ _ [lit "-A"]); [by constructor|].
    apply cmd_plain; [right; right; by exists "/"%char, (lit "huge")|].
    apply (cmd_option _ _ [lit "-m2"]); [by apply (spell_arg_joined _ "m"%char (lit "2"))|].
    apply (cmd_option _ _ [lit "--inject"]).
    { apply (spell_long_flag _ (LongOption (lit "inject") false "x")); [|done]. split; [done|].
      do 2 eexists. split; [reflexivity|]. by apply (bool_decide_unpack _); vm_compute. }
    apply (cmd_option _ _ [lit "--offset=513"]); [|constructor].
    apply (spell_long_joined _ (LongOption (lit "offset") true "o") (lit "513")); [|done]. split; [done|].
    do 2 eexists. split; [reflexivity|]. by apply (bool_decide_unpack _); vm_compute. }
  assert (0 < 2 < 1024) as Hn by lia. assert (0 ≤ 513 < 512 * 2) as Hk by lia.
  destruct (thugetlb_inject (OS := ram) (λ _, true) (lit "thugetlb") _ _ _ 2 513 false (lit "/huge") Hcmd eq_refl eq_refl
    eq_refl Hn Hk) as (s' & E & Hkill & _).
  exists s'. split; [exact E|exact Hkill].
Defined.

(** ** The parent, the child and the semaphore *)

(** What [thugetlb -F -c] does with the semaphore after [fork], the parent
    holding it.  [SEM_UNDO] keeps an adjustment for each process, which is added
    to the semaphore when the process exits. *)
Module Order.
(** What the parent does next: [get_semaphore], [madvise], [put_semaphore],
    [wait]; and the child: the copy of the pages, [put_semaphore],
    [get_semaphore], [put_semaphore], [exit]. *)
Inductive parent := P_get | P_madvise | P_put | P_wait | P_end.
Inductive child := C_cow | C_put | C_get | C_put2 | C_exit | C_gone.
Record sync := Sync { p_pc : parent; c_pc : child; sem : Z; c_adj : Z }.
#[export] Instance parent_eq_dec : EqDecision parent.
Proof. solve_decision. Defined.
#[export] Instance child_eq_dec : EqDecision child.
Proof. solve_decision. Defined.
#[export] Instance sync_eq_dec : EqDecision sync.
Proof. solve_decision. Defined.

(** The parent holds the semaphore, whose value was 1. *)
Definition start : sync := Sync P_get C_cow 0 0.

Definition parent_steps (s : sync) : list sync :=
  let '(Sync p c n adj) := s in
  match p with
  | P_get => if 0 <? n then [Sync P_madvise c (n - 1) adj] else []
  | P_madvise => [Sync P_put c n adj]
  | P_put => [Sync P_wait c (n + 1) adj]
  | P_wait => if decide (c = C_gone) then [Sync P_end c n adj] else []
  | P_end => []
  end.
(** A value that would be negative after [SEM_UNDO] is 0. *)
Definition child_steps (s : sync) : list sync :=
  let '(Sync p c n adj) := s in
  match c with
  | C_cow => [Sync p C_put n adj]
  | C_put => [Sync p C_get (n + 1) (adj - 1)]
  | C_get => if 0 <? n then [Sync p C_put2 (n - 1) (adj + 1)] else []
  | C_put2 => [Sync p C_exit (n + 1) (adj - 1)]
  | C_exit => [Sync p C_gone (Z.max 0 (n + adj)) 0]
  | C_gone => []
  end.
Definition succs (s : sync) : list sync := parent_steps s ++ child_steps s.
Inductive reachable : sync → Prop :=
| reach_start : reachable start
| reach_step s s' : reachable s → s' ∈ succs s → reachable s'.

(** All states that can be reached: a set that holds the start and is closed. *)
Fixpoint explore (fuel : nat) (seen todo : list sync) : list sync :=
  match fuel, todo with
  | S fuel, s :: todo =>
      if decide (s ∈ seen) then explore fuel seen todo else explore fuel (s :: seen) (succs s ++ todo)
  | _, _ => seen
  end.
Definition states : list sync := explore 100 [] [start].

Lemma states_closed : start ∈ states ∧ Forall (λ s, Forall (λ s', s' ∈ states) (succs s)) states.
Proof. apply (bool_decide_unpack _). by vm_compute. Qed.

Lemma reachable_states s : reachable s → s ∈ states.
Proof.
  destruct states_closed as [H0 H]. induction 1 as [|s s' _ IH Hs]; [done|].
  rewrite Forall_forall in H. specialize (H s IH). rewrite Forall_forall in H. by apply H.
Qed.

(** What holds in the states holds in every execution. *)
Lemma reachable_check (P : sync → Prop) `{∀ s, Decision (P s)} :
  bool_decide (Forall P states) = true → ∀ s, reachable s → P s.
Proof.
  intros HP%bool_decide_eq_true s Hs%reachable_states. rewrite Forall_forall in HP. by apply HP.
Qed.

Definition copied (c : child) : bool := match c with C_cow => false | _ => true end.
Definition injected (p : parent) : bool := match p with P_get | P_madvise => false | _ => true end.
Definition early_get (c : child) : bool := match c with C_put2 | C_exit | C_gone => true | _ => false end.

(** C18: the order that main intends, "1. Child COWs, 2. Parent madvise()s, 3.
    Child exit()s". The first part holds in every execution: the parent is at
    [madvise] only when the child has copied the pages, and the child does not
    hold the semaphore meanwhile. The second holds as long as the child has not
    taken the semaphore back before the parent had it; if it has, it may exit
    first, and if the parent is then still waiting it waits for ever. Every
    other execution ends with both processes at their end. *)
Theorem fork_order s : reachable s →
  (p_pc s = P_madvise ∨ p_pc s = P_put → copied (c_pc s) = true ∧ c_pc s ≠ C_put2)
  ∧ (c_pc s = C_gone → injected (p_pc s) = false →
     sem s = 0 ∧ (p_pc s = P_madvise ∨ (p_pc s = P_get ∧ succs s = [])))
  ∧ (succs s = [] → c_pc s = C_gone ∧ (p_pc s = P_end ∨ p_pc s = P_get)).
Proof. revert s. apply (reachable_check _ (H := _)). by vm_compute. Qed.

(** The execution in which the parent is late: the child's [usleep] is not long
    enough, and the parent never gets the semaphore. *)
Lemma late_parent_blocks : reachable (Sync P_get C_gone 0 0) ∧ succs (Sync P_get C_gone 0 0) = [].
Proof.
  split; [|done].
  assert (∀ s s', reachable s → bool_decide (s' ∈ succs s) = true → reachable s') as Hgo.
  { intros s s' Hs Hin%bool_decide_eq_true. by eapply reach_step. }
  apply (Hgo (Sync P_get C_exit 1 (-1))); [|by vm_compute].
  apply (Hgo (Sync P_get C_put2 0 0)); [|by vm_compute].
  apply (Hgo (Sync P_get C_get 1 (-1))); [|by vm_compute].
  apply (Hgo (Sync P_get C_put 0 0)); [|by vm_compute].
  apply (Hgo start); [constructor|by vm_compute].
Qed.

Lemma fork_order_witness : copied (c_pc (Sync P_madvise C_get 0 (-1))) = true.
Proof.
  assert (∀ s s', reachable s → bool_decide (s' ∈ succs s) = true → reachable s') as Hgo.
  { intros s s' Hs Hin%bool_decide_eq_true. by eapply reach_step. }
  assert (reachable (Sync P_madvise C_get 0 (-1))) as H.
  { apply (Hgo (Sync P_get C_get 1 (-1))); [|by vm_compute].
    apply (Hgo (Sync P_get C_put 0 0)); [|by vm_compute].
    apply (Hgo start); [constructor|by vm_compute]. }
  apply (fork_order _ H). by left.
Defined.
End Order.
