(* ===== verification/Tinj.v ===== *)
(** * Tinj: tinjpage

    cases/function/hwpoison/tinjpage.c: the signal handler, [poison], [recover]
    and [testmem], the test cases and the three rounds of [main].  A signal
    handler leaves by [siglongjmp]: to [recover_ctx] for an access to a poisoned
    page, to [early_recover_ctx] otherwise; where the frame of that context is
    gone the behaviour is undefined.  The two racy cases of --sniper, whose
    poison comes from another thread, are a parameter here and the subject of
    Sniper.  A child whose parent fails to attach its memory is not followed,
    and of what is printed the standard output is kept. *)
From Stdlib Require Import String.
From S2P Require Import Prelude CLib Hwp Hugepage.

(** The variables of the program that change. *)
Record tv := TV {
  failure : Z; unexpected : Z; early_kill : bool; test_hugepage : bool;
  recovercount : Z; expected_addr : Z; tmpcount : Z; pagemap_fd : Z
}.
Definition tv0 : tv := TV 0 0 false false 0 0 0 (-1).
Definition failed (v : tv) : tv :=
  TV (failure v + 1) (unexpected v) (early_kill v) (test_hugepage v) (recovercount v) (expected_addr v) (tmpcount v) (pagemap_fd v).
Definition no_failure (v : tv) : tv :=
  TV 0 (unexpected v) (early_kill v) (test_hugepage v) (recovercount v) (expected_addr v) (tmpcount v) (pagemap_fd v).
Definition surprised (v : tv) : tv :=
  TV (failure v) (unexpected v + 1) (early_kill v) (test_hugepage v) (recovercount v) (expected_addr v) (tmpcount v) (pagemap_fd v).
Definition set_early (b : bool) (v : tv) : tv :=
  TV (failure v) (unexpected v) b (test_hugepage v) (recovercount v) (expected_addr v) (tmpcount v) (pagemap_fd v).
Definition set_hugepage (b : bool) (v : tv) : tv :=
  TV (failure v) (unexpected v) (early_kill v) b (recovercount v) (expected_addr v) (tmpcount v) (pagemap_fd v).
Definition set_count (n : Z) (v : tv) : tv :=
  TV (failure v) (unexpected v) (early_kill v) (test_hugepage v) n (expected_addr v) (tmpcount v) (pagemap_fd v).
Definition set_expected (a : Z) (v : tv) : tv :=
  TV (failure v) (unexpected v) (early_kill v) (test_hugepage v) (recovercount v) a (tmpcount v) (pagemap_fd v).
Definition set_tmpcount (n : Z) (v : tv) : tv :=
  TV (failure v) (unexpected v) (early_kill v) (test_hugepage v) (recovercount v) (expected_addr v) n (pagemap_fd v).
Definition set_pagemap (fd : Z) (v : tv) : tv :=
  TV (failure v) (unexpected v) (early_kill v) (test_hugepage v) (recovercount v) (expected_addr v) (tmpcount v) fd.

Inductive rmode := MREAD | MWRITE | MREAD_OK | MWRITE_OK | MNOTHING.
#[export] Instance rmode_eq_dec : EqDecision rmode.
Proof. solve_decision. Defined.
(** The page should be there, or it should be gone. *)
Definition expect_alive (mode : rmode) : bool := match mode with MREAD_OK | MWRITE_OK => true | _ => false end.
Definition expect_dead (mode : rmode) : bool := match mode with MREAD | MWRITE => true | _ => false end.
Inductive ctx := recover_ctx | early_recover_ctx.
Inductive inject_mode := inject_madvise_mode | inject_mce_mode.

(** [ilog2], whose loop does not end for [n <= 0]. *)
Fixpoint ilog2_loop (fuel : nat) (n r : Z) : res Z :=
  match fuel with
  | O => NoFuel
  | S fuel => if n =? 0 then Ok r else ilog2_loop fuel (n .>> 1) (r + 1)
  end.
Definition ilog2 (n : Z) : res Z := ilog2_loop 32 (n - 1) 0.

(** The test cases. *)
Inductive sniper := under_io_dirty | under_io_clean.
Inductive shared_mode := MMAP_SHARED | IPV_SHARED.
Inductive case_f :=
| dirty_anonymous | dirty_anonymous_unmap | mlocked_anonymous | file_clean | file_dirty | file_hole
| file_clean_mlocked | file_dirty_mlocked | nonlinear | mmap_shared | ipv_shared
| anonymous_hugepage | file_backed_hugepage | shm_hugepage | sniper_case (c : sniper).
Record testcase := Case { tc_f : case_f; tc_name : cstr; tc_survivable : bool }.
(** The array, with its two dummies and the end: [None] has a null [f]. *)
Definition cases : list (option testcase) :=
  Some <$> [Case dirty_anonymous (lit "dirty anonymous") false;
   Case dirty_anonymous_unmap (lit "dirty anonymous unmap") false;
   Case mlocked_anonymous (lit "mlocked anonymous") false;
   Case file_clean (lit "file clean") true;
   Case file_dirty (lit "file dirty") false;
   Case file_hole (lit "file hole") false;
   Case file_clean_mlocked (lit "file clean mlocked") true;
   Case file_dirty_mlocked (lit "file dirty mlocked") false;
   Case nonlinear (lit "nonlinear") false;
   Case mmap_shared (lit "mmap shared") false;
   Case ipv_shared (lit "ipv shared") false;
   Case anonymous_hugepage (lit "anonymous hugepage") false;
   Case file_backed_hugepage (lit "file backed hugepage") false;
   Case shm_hugepage (lit "shared memory hugepage") false].
Definition cases_array : list (option testcase) := cases ++ [None; None; None].
Definition snipercases : list testcase :=
  [Case (sniper_case under_io_dirty) (lit "under io dirty") false;
   Case (sniper_case under_io_clean) (lit "under io clean") false].

(** [for (t = cases; t->f; t++)]: the entries up to the first null [f], and the
    index where the loop stops. *)
Fixpoint used (l : list (option testcase)) : list testcase :=
  match l with Some t :: l => t :: used l | _ => [] end.
Definition array_store (l : list (option testcase)) (i : nat) (t : testcase) : res (list (option testcase)) :=
  if (i <? length l)%nat then Ok (<[i := Some t]> l) else Undef.
Fixpoint handle_opts (av : list cstr) (l : list (option testcase)) (m : inject_mode)
  : res (list (option testcase) * inject_mode) :=
  match av with
  | [] => Ok (l, m)
  | a :: av =>
      if strcmp_eq a (lit "--sniper") then
        let t := length (used l) in
        l ← array_store l t (Case (sniper_case under_io_dirty) (lit "under io dirty") false);
        l ← array_store l (S t) (Case (sniper_case under_io_clean) (lit "under io clean") false);
        handle_opts av l m
      else if strcmp_eq a (lit "--mce-inject") then handle_opts av l inject_mce_mode
      else Exit 1
  end.

Section Tinjpage.
Context {OS : hwp_os} (HPS : Z) (hugetlbfsdir : cstr) (inject_with : inject_mode).
Context (run_sniper : sniper → prog (proc tv) unit).

Definition PS : Z := os_pagesize.
Definition err {A} : prog (proc tv) A := p_exit 1.
Definition tick : prog (proc tv) Z := v ← get_vars; upd (set_tmpcount (tmpcount v + 1));; mret (tmpcount v).

Definition checked_mmap (length : Z) (prot : list prot_flag) (flags : list map_flag) (fd : Z) : prog (proc tv) Z :=
  '(map, _) ← sys (MMAP 0 length prot flags fd);
  if map =? -1 then err else mret map.

(** [mmap(...) < 0] is never true of a pointer. *)
Definition munmap_reserve (page size : Z) : prog (proc tv) unit :=
  '(r, _) ← sys (MUNMAP page size);
  if r <? 0 then err else sys (MMAP page size [PROT_NONE] [MAP_PRIVATE; MAP_FIXED] 0);; mret ().

Definition xmalloc (s : Z) : prog (proc tv) unit :=
  '(p, _) ← sys (MALLOC s); if p =? 0 then p_exit ENOMEM else mret ().

Definition later_lsb (lsb : Z) : prog (proc tv) unit :=
  put (lit "LATER: Unexpected addr lsb in siginfo " ++ fmt_d lsb ++ [NL]).
(** [sighandler]: the context it jumps to. *)
Definition sighandler (si : signal) : prog (proc tv) ctx :=
  v ← get_vars;
  p_when (negb (si_addr si =? expected_addr v))
    (put (lit "XXX: Unexpected address in signal " ++ fmt_p (si_addr si) ++ lit " (expected " ++ fmt_p (expected_addr v)
          ++ lit ")" ++ [NL]);; upd failed);;
  lsb ← p_lift (ilog2 (if test_hugepage v then HPS else PS));
  p_when (negb (si_addr_lsb si =? lsb)) (later_lsb (si_addr_lsb si));;
  put (TAB :: lit "signal " ++ fmt_d SIGBUS ++ lit " code " ++ fmt_d (si_code si) ++ lit " addr " ++ fmt_p (si_addr si) ++ [NL]);;
  upd (set_count (recovercount v - 1));;
  if recovercount v - 1 =? 0 then put (lit "I seem to be in a signal loop. bailing out." ++ [NL]);; p_exit 1
  else mret (if si_code si =? 4 then recover_ctx else early_recover_ctx).

(** *** Injection *)

Definition inject_madvise (page : Z) : prog (proc tv) (signal + unit) :=
  r ← mem (MADVISE page PS MADV_POISON);
  match r with
  | inl si => mret (inl si)
  | inr (v, errno) =>
      if nz v then
        if errno =? EINVAL then put (lit "Kernel doesn't support poison injection" ++ [NL]);; p_exit 0
        else upd failed;; mret (inr ())
      else mret (inr ())
  end.

Definition page_to_pfn (page : Z) : prog (proc tv) Z :=
  v ← get_vars;
  p_when (pagemap_fd v <? 0)
    ('(fd, _) ← sys (OPEN (lit "/proc/self/pagemap") [O_RDONLY]);
     upd (set_pagemap fd);; if fd <? 0 then err else mret ());;
  v ← get_vars;
  '(entry, _) ← sys (PREAD_PAGEMAP (pagemap_fd v) (page / PS * 8));
  if entry =? -1 then err else mret (entry .& (2 ^ 56 - 1)).

Definition mce_text (pfn : Z) : cstr :=
  lit "CPU 0 BANK 3 STATUS UNCORRECTED SRAO 0xc0" ++ NL :: lit "MCGSTATUS RIPV MCIP" ++ NL ::
  lit "ADDR " ++ (if pfn =? 0 then lit "0" else lit "0x" ++ fmt_x pfn) ++ NL ::
  lit "MISC 0x8c" ++ NL :: lit "RIP 0x73:0x1eadbabe" ++ [NL].
Definition inject_mce_inject (page : Z) : prog (proc tv) (signal + unit) :=
  pfn ← page_to_pfn page;
  r ← mem (POPEN_MCE_INJECT (mce_text pfn));
  match r with
  | inl si => mret (inl si)
  | inr (v, _) => if v <? 0 then p_exit 1 else mret (inr ())
  end.
Definition inject (page : Z) : prog (proc tv) (signal + unit) :=
  match inject_with with inject_madvise_mode => inject_madvise page | inject_mce_mode => inject_mce_inject page end.

(** *** poison, recover, testmem *)

Definition enter (page : Z) : prog (proc tv) unit := upd (set_expected page);; upd (set_count 5).
Definition poison (msg : cstr) (page : Z) (mode : rmode) : prog (proc tv) unit :=
  enter page;;
  r ← inject page;
  v ← get_vars;
  match r with
  | inr _ =>
      p_when (early_kill v && expect_dead mode)
        (put (lit "XXX: " ++ msg ++ lit ": process is not early killed" ++ [NL]);; upd failed)
  | inl si =>
      c ← sighandler si;
      match c with
      | recover_ctx => p_undef
      | early_recover_ctx =>
          p_when (early_kill v)
            (if expect_alive mode then put (lit "XXX: " ++ msg ++ lit ": killed" ++ [NL]);; upd failed
             else put (TAB :: lit "recovered" ++ [NL]))
      end
  end.

(** The access [recover] makes: a signal, or what it prints afterwards. *)
Definition access (page : Z) (mode : rmode) : prog (proc tv) (signal + unit) :=
  match mode with
  | MWRITE => put (TAB :: lit "writing 2" ++ [NL]);; r ← mem (STORE page 2); mret (match r with inl si => inl si | inr _ => inr () end)
  | MWRITE_OK => put (TAB :: lit "writing 4" ++ [NL]);; r ← mem (STORE page 4); mret (match r with inl si => inl si | inr _ => inr () end)
  | MREAD | MREAD_OK =>
      r ← mem (LOAD page);
      match r with
      | inl si => mret (inl si)
      | inr (x, _) => put (TAB :: lit "reading " ++ fmt_x (uchar x) ++ [NL]);; mret (inr ())
      end
  | MNOTHING => mret (inr ())
  end.
Definition recover (msg : cstr) (page : Z) (mode : rmode) : prog (proc tv) unit :=
  enter page;;
  r ← access page mode;
  match r with
  | inr _ =>
      p_when (expect_dead mode)
        (put (lit "XXX: " ++ msg ++ lit ": page not poisoned after injection" ++ [NL]);; upd failed)
  | inl si =>
      c ← sighandler si;
      match c with
      | early_recover_ctx => p_undef
      | recover_ctx =>
          if expect_alive mode then put (lit "XXX: " ++ msg ++ lit ": killed" ++ [NL]);; upd failed
          else put (TAB :: lit "recovered" ++ [NL])
      end
  end.

Definition testmem (msg : cstr) (page : Z) (mode : rmode) : prog (proc tv) unit :=
  put (TAB :: msg ++ lit " poisoning page " ++ fmt_p page ++ [NL]);;
  poison msg page mode;; recover msg page mode.

(** The value of a call that failed is its [errno]. *)
Definition expecterr (msg : cstr) (r : Z * Z) : prog (proc tv) unit :=
  if fst r <? 0 then put (TAB :: lit "expected error " ++ fmt_d (snd r) ++ lit " on " ++ msg ++ [NL])
  else upd failed;; put (lit "XXX: unexpected no error on " ++ msg ++ [NL]).
Definition optionalerr (msg : cstr) (r : Z * Z) : prog (proc tv) unit :=
  if fst r <? 0 then put (TAB :: lit "expected optional error " ++ fmt_d (snd r) ++ lit " on " ++ msg ++ [NL])
  else upd surprised;; put (lit "LATER: expected likely incorrect no error on " ++ msg ++ [NL]).

(** *** Files *)

Definition PATHBUFLEN : nat := 100.
Definition poison_path (n : Z) : cstr := snprintf PATHBUFLEN (lit "./~poison" ++ fmt_d n).
Definition open_or_err (path : cstr) (flags : list open_flag) : prog (proc tv) Z :=
  '(fd, _) ← sys (OPEN path flags); if fd <? 0 then err else mret fd.
Definition tempfd : prog (proc tv) Z :=
  n ← tick;
  '(fd, _) ← sys (OPEN (poison_path n) [O_CREAT; O_RDWR]);
  p_when (0 <=? fd) (sys (UNLINK (poison_path n));; mret ());;
  if fd <? 0 then err else mret fd.
(** The descriptor, and the name that is left in [buf]: a new one when it was
    empty. *)
Definition playfile (buf : cstr) : prog (proc tv) (Z * cstr) :=
  buf ← (if bool_decide (buf = []) then n ← tick; mret (poison_path n) else mret buf);
  fd ← open_or_err buf [O_CREAT; O_RDWR; O_TRUNC];
  xmalloc (PS * 5);;
  sys (WRITE fd (uchar <$> seqZ 0 (PS * 5)));;
  sys (LSEEK fd 0);;
  mret (fd, buf).

Definition f_dirty_anonymous : prog (proc tv) unit :=
  page ← checked_mmap PS [PROT_READ; PROT_WRITE] [MAP_PRIVATE; MAP_ANONYMOUS; MAP_POPULATE] 0;
  testmem (lit "dirty") page MWRITE.
Definition f_dirty_anonymous_unmap : prog (proc tv) unit :=
  page ← checked_mmap PS [PROT_READ; PROT_WRITE] [MAP_PRIVATE; MAP_ANONYMOUS; MAP_POPULATE] 0;
  testmem (lit "dirty") page MWRITE;;
  munmap_reserve page PS.
Definition f_mlocked_anonymous : prog (proc tv) unit :=
  page ← checked_mmap PS [PROT_READ; PROT_WRITE] [MAP_PRIVATE; MAP_ANONYMOUS; MAP_LOCKED] 0;
  testmem (lit "mlocked") page MWRITE.

Definition codes (s : cstr) : list Z := (λ c, Z.of_N (N_of_ascii c)) <$> s.
Definition do_file_clean (flags : list map_flag) (name : cstr) : prog (proc tv) unit :=
  n ← tick;
  let fn := snprintf 30 (lit "./~test" ++ fmt_d n) in
  fd ← open_or_err fn [O_RDWR; O_TRUNC; O_CREAT];
  sys (WRITE fd (codes (take 4 fn)));;
  page ← checked_mmap PS [PROT_READ; PROT_WRITE] (MAP_SHARED :: flags) fd;
  sys (FSYNC fd);; sys (CLOSE fd);;
  testmem name page MREAD_OK;;
  x ← load page;
  put (TAB :: lit " reading " ++ fmt_x x ++ [NL]);;
  testmem name page MWRITE_OK.

Definition ndesc (name add : cstr) : cstr := snprintf 100 (name ++ " "%char :: add).
Definition do_file_dirty (flags : list map_flag) (name : cstr) : prog (proc tv) unit :=
  '(fd, fn) ← playfile [];
  page ← checked_mmap PS [PROT_READ] (MAP_SHARED :: MAP_POPULATE :: flags) fd;
  testmem (ndesc name (lit "initial")) page MREAD;;
  r ← sys (MSYNC page PS); expecterr (lit "msync expect error") r;;
  sys (CLOSE fd);;
  munmap_reserve page PS;;
  fd ← open_or_err fn [O_RDONLY];
  page ← checked_mmap PS [PROT_READ] (MAP_SHARED :: MAP_POPULATE :: flags) fd;
  recover (ndesc name (lit "populated")) page MREAD_OK;;
  sys (CLOSE fd);;
  munmap_reserve page PS;;
  fd ← open_or_err fn [O_RDONLY];
  page ← checked_mmap PS [PROT_READ] (MAP_SHARED :: flags) fd;
  recover (ndesc name (lit "fault")) page MREAD_OK;;
  sys (CLOSE fd);;
  munmap_reserve page PS;;
  '(fd, _) ← sys (OPEN fn [O_RDWR]);
  r ← sys (READ fd 128); optionalerr (lit "explicit read after poison") r;;
  r ← sys (WRITE fd (codes (lit "foobar"))); optionalerr (lit "explicit write after poison") r;;
  r ← sys (FSYNC fd); optionalerr (lit "fsync expect error") r;;
  sys (CLOSE fd);;
  sys (UNLINK fn);; mret ().

Definition f_file_hole : prog (proc tv) unit :=
  fd ← tempfd;
  sys (FTRUNCATE fd PS);;
  page ← checked_mmap PS [PROT_READ; PROT_WRITE] [MAP_SHARED] fd;
  store page 1;;
  testmem (lit "hole file dirty") page MREAD;;
  r ← sys (FSYNC fd); optionalerr (lit "hole fsync expect error") r;;
  r ← sys (MSYNC page PS); optionalerr (lit "hole msync expect error") r;;
  sys (CLOSE fd);; mret ().

Definition f_nonlinear : prog (proc tv) unit :=
  fd ← tempfd;
  xmalloc PS;;
  p_for (seqZ 0 10) (λ i, sys (WRITE fd (replicate (Z.to_nat PS) (uchar i)));; mret ());;
  page ← checked_mmap (PS * 10) [PROT_READ; PROT_WRITE] [MAP_SHARED] fd;
  p_for (seqZ 0 10) (λ i, sys (REMAP_FILE_PAGES (page + i * PS) PS (9 - i));; mret ());;
  store page 1;;
  testmem (lit "rfp file dirty") page MREAD;;
  r ← sys (FSYNC fd); expecterr (lit "rfp fsync expect error") r;;
  r ← sys (MSYNC page PS); optionalerr (lit "rfp msync expect error") r;;
  sys (CLOSE fd);; mret ().

(** *** Shared pages *)

Definition sem_op (sem_id op : Z) : prog (proc tv) Z := r ← sys (SEMOP sem_id 0 op); mret (fst r).
Definition ipv (mode : shared_mode) : bool := match mode with IPV_SHARED => true | MMAP_SHARED => false end.

(** The label [cleanup]; a page of 0 is none. *)
Definition cleanup (mode : shared_mode) (page shm_id sem_id : Z) : prog (proc tv) unit :=
  p_when (nz page) (if ipv mode then sys (SHMDT page);; mret () else munmap_reserve page PS);;
  p_when (0 <=? shm_id) (r ← sys (SHMCTL_RMID shm_id); if fst r <? 0 then err else mret ());;
  p_when (0 <=? sem_id) (r ← sys (SEMCTL_RMID sem_id); if fst r <? 0 then err else mret ()).

(** What parent and child do after [fork] and before they part: the page, or
    nothing when [shmat] fails. *)
Definition attach (mode : shared_mode) (page shm_id : Z) : prog (proc tv) (option Z) :=
  page ← (if ipv mode then '(p, _) ← sys (SHMAT shm_id); mret (if p =? -1 then None else Some p) else mret (Some page));
  match page with
  | None => mret None
  | Some p =>
      store p 97;; store (p + 1) 97;; store (p + 2) 97;;
      v ← get_vars;
      p_when (early_kill v) (set_sigbus SIG_HANDLER;; upd (set_expected p));;
      mret (Some p)
  end.

Definition shared_child (mode : shared_mode) (page shm_id sem_id : Z) : prog (proc tv) unit :=
  p ← attach mode page shm_id;
  match p with
  | None => cleanup mode (-1) shm_id sem_id
  | Some p =>
      upd no_failure;;
      v ← get_vars;
      p_when (early_kill v) (r ← sem_op sem_id (-1); if nz r then err else mret ());;
      testmem (lit "ipv shared page") p MWRITE;;
      p_when (ipv mode) (r ← sys (SHMDT p); if fst r =? -1 then err else mret ());;
      v ← get_vars;
      p_exit (failure v)
  end.

Definition child_error : prog (proc tv) unit :=
  put (lit "XXX child process was terminated unexpectedly" ++ [NL]);; upd failed.
(** What the parent says of the child that has ended. *)
Definition child_ok (early : bool) (d : disposition) (code : Z) : bool :=
  if early then code =? CLD_EXITED
  else match d with
       | SIG_DFL => nz (code .& (CLD_KILLED .| CLD_DUMPED))
       | SIG_HANDLER => code =? CLD_EXITED
       end.
(** The parent once the child has ended. *)
Definition shared_verdict (mode : shared_mode) (pid p shm_id sem_id : Z) (w : wait_info) : prog (proc tv) unit :=
  sys (WAITID pid);;
  v ← get_vars;
  d ← (λ s, (Ok (sigbus s), s));
  if negb (child_ok (early_kill v) d (wi_code w)) then child_error;; cleanup mode p shm_id sem_id
  else
    p_when (negb (early_kill v)) (recover (lit "ipv shared page (parent)") p MWRITE);;
    p_when (ipv mode) (sys (SHMDT p);; mret ());;
    cleanup mode p shm_id sem_id.

(** The page and the segment, and the semaphore of the early version, which the
    parent takes; the flag says that [cleanup] is next. *)
Definition shared_alloc (mode : shared_mode) : prog (proc tv) (Z * Z) :=
  if ipv mode then '(id, _) ← sys (SHMGET 0 PS); if id =? -1 then err else mret (0, id)
  else p ← checked_mmap PS [PROT_READ; PROT_WRITE] [MAP_SHARED; MAP_ANONYMOUS; MAP_POPULATE] 0; mret (p, -1).
Definition shared_sem (early : bool) : prog (proc tv) (Z * bool) :=
  if early then
    '(id, _) ← sys (SEMGET 1);
    if id =? -1 then mret (id, true) else
    '(r, _) ← sys (SEMCTL_SETVAL id 0 1);
    if r =? -1 then mret (id, true) else
    r ← sem_op id (-1); mret (id, nz r)
  else mret (-1, false).

Definition do_shared (mode : shared_mode) : prog (proc tv) unit :=
  '(page, shm_id) ← shared_alloc mode;
  v ← get_vars;
  '(sem_id, bad) ← shared_sem (early_kill v);
  if (bad : bool) then cleanup mode page shm_id sem_id else
  '(pid, _) ← sys FORK;
  if pid <? 0 then cleanup mode page shm_id sem_id else
  if early_kill v then
    (* the child waits for the semaphore that the parent puts *)
    p ← attach mode page shm_id;
    match p with
    | None => cleanup mode (-1) shm_id sem_id
    | Some p =>
        r ← sem_op sem_id 1;
        if nz r then err else
        w ← run_child (shared_child mode page shm_id sem_id);
        r ← mem (SLEEP 10);
        match r with
        | inr _ =>
            put (lit "XXX timeout: child process does not send signal" ++ [NL]);; upd failed;;
            cleanup mode p shm_id sem_id
        | inl si =>
            c ← sighandler si;
            match c with
            | recover_ctx => p_undef
            | early_recover_ctx => shared_verdict mode pid p shm_id sem_id w
            end
        end
    end
  else
    (* nothing orders the parent's stores and the child's poison *)
    h ← get_hist;
    if os_child_first h then
      w ← run_child (shared_child mode page shm_id sem_id);
      p ← attach mode page shm_id;
      match p with
      | None => cleanup mode (-1) shm_id sem_id
      | Some p => shared_verdict mode pid p shm_id sem_id w
      end
    else
      p ← attach mode page shm_id;
      match p with
      | None => cleanup mode (-1) shm_id sem_id
      | Some p => w ← run_child (shared_child mode page shm_id sem_id); shared_verdict mode pid p shm_id sem_id w
      end.

(** *** Huge pages *)

(** [page[0] = 'a'] and the test; the address may be a null pointer. *)
Definition test_huge (msg : cstr) (page : Z) : prog (proc tv) unit :=
  (if page =? 0 then p_undef else store page 97);; testmem msg page MWRITE.
Definition f_anonymous_hugepage : prog (proc tv) unit :=
  if HPS =? 0 then mret () else
  upd (set_hugepage true);;
  page ← alloc_anonymous_hugepage HPS true;
  test_huge (lit "anonymous hugepage") page;;
  free_anonymous_hugepage page HPS;;
  upd (set_hugepage false).
Definition f_file_backed_hugepage : prog (proc tv) unit :=
  if HPS =? 0 then mret () else
  upd (set_hugepage true);;
  n ← tick;
  let buf := snprintf PATHBUFLEN (hugetlbfsdir ++ lit "/test" ++ fmt_d n) in
  '(page, fd) ← alloc_filebacked_hugepage buf HPS false;
  test_huge (lit "file backed hugepage") page;;
  free_filebacked_hugepage page HPS fd (Some buf);;
  upd (set_hugepage false).
Definition f_shm_hugepage : prog (proc tv) unit :=
  if HPS =? 0 then mret () else
  upd (set_hugepage true);;
  v ← get_vars;
  '(page, key) ← alloc_shm_hugepage (tmpcount v) HPS;
  upd (set_tmpcount key);;
  test_huge (lit "shared memory hugepage") page;;
  v ← get_vars;
  free_shm_hugepage (tmpcount v) page;;
  upd (set_tmpcount (tmpcount v + 1));;
  upd (set_hugepage false).

Definition f_file_clean : prog (proc tv) unit := do_file_clean [] (lit "file clean").
Definition f_file_clean_mlocked : prog (proc tv) unit := do_file_clean [MAP_LOCKED] (lit "file clean mlocked").
Definition f_file_dirty : prog (proc tv) unit := do_file_dirty [] (lit "file dirty").
Definition f_file_dirty_mlocked : prog (proc tv) unit := do_file_dirty [MAP_LOCKED] (lit "file dirty mlocked").
Definition f_mmap_shared : prog (proc tv) unit := do_shared MMAP_SHARED.
Definition f_ipv_shared : prog (proc tv) unit := do_shared IPV_SHARED.

Definition run_case (f : case_f) : prog (proc tv) unit :=
  match f with
  | dirty_anonymous => f_dirty_anonymous
  | dirty_anonymous_unmap => f_dirty_anonymous_unmap
  | mlocked_anonymous => f_mlocked_anonymous
  | file_clean => f_file_clean
  | file_dirty => f_file_dirty
  | file_hole => f_file_hole
  | file_clean_mlocked => f_file_clean_mlocked
  | file_dirty_mlocked => f_file_dirty_mlocked
  | nonlinear => f_nonlinear
  | mmap_shared => f_mmap_shared
  | ipv_shared => f_ipv_shared
  | anonymous_hugepage => f_anonymous_hugepage
  | file_backed_hugepage => f_file_backed_hugepage
  | shm_hugepage => f_shm_hugepage
  | sniper_case c => run_sniper c
  end.

(** *** main *)

Definition CLD_KILLDUMP : Z := CLD_KILLED .| CLD_DUMPED.
(** The child of the second round. *)
Definition suicide_child (t : testcase) : prog (proc tv) unit :=
  set_sigbus SIG_DFL;;
  run_case (tc_f t);;
  if tc_survivable t then p_exit 2
  else put (tc_name t ++ lit " didn't kill itself?" ++ [NL]);; p_exit 1.
(** What [main] says of the child's end. *)
Definition suicide_ok (t : testcase) (w : wait_info) : bool :=
  if tc_survivable t then wi_code w =? CLD_EXITED
  else nz (wi_code w .& CLD_KILLDUMP) && (wi_status w =? SIGBUS).
Definition suicide_case (t : testcase) : prog (proc tv) unit :=
  put (lit "---- testing " ++ tc_name t ++ lit " in child" ++ [NL]);;
  '(pid, _) ← sys FORK;
  if pid <? 0 then sys (WAITID pid);; mret ()   (* perror *)
  else
    w ← run_child (suicide_child t);
    '(r, _) ← sys (WAITID pid);
    if r <? 0 then mret ()
    else if suicide_ok t w then mret ()
    else
      put (lit "XXX: " ++ tc_name t ++
           (if tc_survivable t then lit ": child not survived" else lit ": child not killed by SIGBUS") ++ [NL]);;
      upd failed.

Definition run_in_process (suffix : cstr) (t : testcase) : prog (proc tv) unit :=
  put (lit "---- testing " ++ tc_name t ++ suffix ++ [NL]);; run_case (tc_f t).

(** The rounds over the cases in the process, with poison that kills at the
    access and with poison that kills at once. *)
Definition late_round (l : list testcase) : prog (proc tv) unit :=
  upd (set_early false);;
  sys (SYSTEM (lit "sysctl -w vm.memory_failure_early_kill=0"));;
  set_sigbus SIG_HANDLER;;
  p_for l (run_in_process []).
Definition early_round (l : list testcase) : prog (proc tv) unit :=
  upd (set_early true);;
  sys (SYSTEM (lit "sysctl -w vm.memory_failure_early_kill=1"));;
  set_sigbus SIG_HANDLER;;
  p_for l (run_in_process (lit " (early kill)")).

(** The three rounds, and the status [main] returns. *)
Definition rounds (l : list testcase) : prog (proc tv) Z :=
  late_round l;;
  p_for l suicide_case;;
  early_round l;;
  v ← get_vars;
  if 0 <? failure v then
    put (lit "FAILURE -- " ++ fmt_d (failure v) ++ lit " cases broken!" ++ [NL]);; mret 1
  else put (lit "SUCCESS" ++ [NL]);; mret 0.
End Tinjpage.

(** [main]: the options, the huge pages and the rounds. *)
Definition tinjpage_main `{OS : hwp_os} (run_sniper : Z → inject_mode → sniper → prog (proc tv) unit)
    (av : list cstr) (mounts meminfo : option cstr) : prog (proc tv) Z :=
  '(l, m) ← p_lift (handle_opts av cases_array inject_madvise_mode);
  dir ← hugetlbfs_root mounts;
  HPS ← (if is_Some_b dir then gethugepagesize meminfo else mret 0);
  rounds HPS (default [] dir) m (run_sniper HPS m) (used l).

(** ** The statuses the test cases end with, and the failures they count *)

Definition fewer (v v' : tv) : Prop := failure v ≤ failure v'.
#[export] Instance fewer_preorder : PreOrder fewer.
Proof. split; [intros v; unfold fewer; lia | intros u v w; unfold fewer; lia]. Qed.
(** What the program and its helpers call [exit] with. *)
Definition statuses : list Z := [0; 1; 2; ENOMEM].
Notation counts p := (behaves fewer statuses p).

Section Counting.
Context {OS : hwp_os} (HPS : Z) (hugetlbfsdir : cstr) (inject_with : inject_mode).

Lemma counts_upd f : (∀ v, failure v ≤ failure (f v)) → counts (upd f).
Proof. intros Hf. apply behaves_upd. exact Hf. Qed.
Lemma ilog2_statuses n c : ilog2 n = Exit c → c ∈ statuses.
Proof.
  unfold ilog2. generalize (n - 1) as m. generalize 0 as r. generalize 32%nat as f. induction f as [|f IH]; intros r m; [done|].
  simpl. destruct (m =? 0); [done|apply IH].
Qed.
End Counting.

Ltac count_step :=
  match goal with
  | |- behaves _ _ (upd _) => apply counts_upd; intros []; simpl; lia
  | |- behaves _ _ (p_lift (ilog2 _)) => apply behaves_lift, ilog2_statuses
  | _ => behaves_step
  end.
Ltac count := repeat count_step.

Section Cases.
Context {OS : hwp_os} (HPS : Z) (hugetlbfsdir : cstr) (inject_with : inject_mode).

Lemma counts_err {A} : counts (err : prog (proc tv) A).
Proof. apply behaves_exit. set_solver. Qed.
Lemma counts_load a : counts (load a).
Proof. unfold load. count. Qed.
Lemma counts_store a v : counts (store a v).
Proof. unfold store. count. Qed.
Hint Resolve counts_err counts_load counts_store : behaves.
Lemma counts_mmap length prot flags fd : counts (checked_mmap length prot flags fd).
Proof. unfold checked_mmap. count. Qed.
Lemma counts_munmap page size : counts (munmap_reserve page size).
Proof. unfold munmap_reserve. count. Qed.
Lemma counts_sighandler si : counts (sighandler HPS si).
Proof. unfold sighandler, later_lsb. count. Qed.
Hint Resolve counts_mmap counts_munmap counts_sighandler : behaves.
Lemma counts_inject page : counts (inject inject_with page).
Proof. unfold inject, inject_madvise, inject_mce_inject, page_to_pfn. count. Qed.
Lemma counts_access page mode : counts (access page mode).
Proof. unfold access. count. Qed.
Hint Resolve counts_inject counts_access : behaves.
Lemma counts_poison msg page mode : counts (poison HPS inject_with msg page mode).
Proof. unfold poison, enter. count. Qed.
Lemma counts_recover msg page mode : counts (recover HPS msg page mode).
Proof. unfold recover, enter. count. Qed.
Hint Resolve counts_poison counts_recover : behaves.
Lemma counts_testmem msg page mode : counts (testmem HPS inject_with msg page mode).
Proof. unfold testmem. count. Qed.
Lemma counts_expecterr msg r : counts (expecterr msg r).
Proof. unfold expecterr. count. Qed.
Lemma counts_optionalerr msg r : counts (optionalerr msg r).
Proof. unfold optionalerr. count. Qed.
Lemma counts_open path flags : counts (open_or_err path flags).
Proof. unfold open_or_err. count. Qed.
Lemma counts_xmalloc n : counts (xmalloc n).
Proof. unfold xmalloc. count. Qed.
Hint Resolve counts_testmem counts_expecterr counts_optionalerr counts_open counts_xmalloc : behaves.
Lemma counts_tempfd : counts tempfd.
Proof. unfold tempfd, tick. count. Qed.
Lemma counts_playfile buf : counts (playfile buf).
Proof. unfold playfile, tick. count. Qed.
Hint Resolve counts_tempfd counts_playfile : behaves.
Lemma counts_cleanup mode page shm_id sem_id : counts (cleanup mode page shm_id sem_id).
Proof. unfold cleanup. count. Qed.
Lemma counts_attach mode page shm_id : counts (attach mode page shm_id).
Proof. unfold attach. count. Qed.
Lemma counts_shared_alloc mode : counts (shared_alloc mode).
Proof. unfold shared_alloc. count. Qed.
Lemma counts_shared_sem early : counts (shared_sem early).
Proof. unfold shared_sem, sem_op. count. Qed.
Hint Resolve counts_cleanup counts_attach counts_shared_alloc counts_shared_sem : behaves.
Lemma counts_disposition : counts (λ s : proc tv, (Ok (sigbus s), s)).
Proof. intros s. by simpl. Qed.
Hint Resolve counts_disposition : behaves.
Lemma counts_verdict mode pid p shm_id sem_id w : counts (shared_verdict HPS mode pid p shm_id sem_id w).
Proof. unfold shared_verdict, child_error. count. Qed.
Hint Resolve counts_verdict : behaves.
Lemma counts_shared mode : counts (do_shared HPS inject_with mode).
Proof. unfold do_shared, sem_op. count. Qed.
Hint Resolve counts_shared : behaves.
Lemma counts_huge msg page : counts (test_huge HPS inject_with msg page).
Proof. unfold test_huge. count. Qed.
Hint Resolve counts_huge : behaves.

(** Every test case of the table. *)
Context (run_sniper : sniper → prog (proc tv) unit) (Hsniper : ∀ c, counts (run_sniper c)).
Lemma counts_case f : counts (run_case HPS hugetlbfsdir inject_with run_sniper f).
Proof.
  destruct f; simpl; [..|apply Hsniper];
    unfold f_dirty_anonymous, f_dirty_anonymous_unmap, f_mlocked_anonymous, f_file_clean, f_file_clean_mlocked, f_file_dirty,
      f_file_dirty_mlocked, f_mmap_shared, f_ipv_shared, do_file_clean, do_file_dirty, f_file_hole,
      f_nonlinear, f_anonymous_hugepage, f_file_backed_hugepage, f_shm_hugepage, tick, alloc_shm_hugepage,
      alloc_anonymous_hugepage, alloc_filebacked_hugepage, free_shm_hugepage, free_anonymous_hugepage,
      free_filebacked_hugepage; count.
Qed.
End Cases.

(** ** What testmem counts

    What the modes promise: a page that should be there is never hit, one that
    should be gone is hit at the access, and under early kill at the injection
    already; the injection works, and each signal names the page. *)
Definition access_request (page : Z) (mode : rmode) : option request :=
  match mode with
  | MWRITE => Some (STORE page 2)
  | MWRITE_OK => Some (STORE page 4)
  | MREAD | MREAD_OK => Some (LOAD page)
  | MNOTHING => None
  end.
Definition names (page : Z) (o : option signal) : Prop := ∀ si, o = Some si → si_addr si = page.
Definition as_promised (early : bool) (mode : rmode) (page : Z) (inj acc : option signal) (errors : bool) : Prop :=
  names page inj ∧ names page acc ∧ (inj = None → errors = false) ∧
  (expect_dead mode → acc ≠ None ∧ (early → inj ≠ None)) ∧
  (expect_alive mode → acc = None ∧ (early → inj = None)).

(** The failures counted at the injection and at the access. *)
Definition b2z (b : bool) : Z := if b then 1 else 0.
Definition wrong_addr (page : Z) (si : signal) : Z := b2z (negb (si_addr si =? page)).
Definition poison_misses (early : bool) (mode : rmode) (page : Z) (inj : option signal) (errors : bool) : Z :=
  match inj with
  | None => b2z errors + b2z (early && expect_dead mode)
  | Some si => wrong_addr page si + b2z (early && expect_alive mode)
  end.
Definition recover_misses (mode : rmode) (page : Z) (acc : option signal) : Z :=
  match acc with
  | None => b2z (expect_dead mode)
  | Some si => wrong_addr page si + b2z (expect_alive mode)
  end.

Lemma b2z_nonneg b : 0 ≤ b2z b.
Proof. by destruct b. Qed.
Lemma poison_misses_nonneg early mode page inj errors : 0 ≤ poison_misses early mode page inj errors.
Proof. unfold poison_misses, wrong_addr. destruct inj; by apply Z.add_nonneg_nonneg; apply b2z_nonneg. Qed.
Lemma recover_misses_nonneg mode page acc : 0 ≤ recover_misses mode page acc.
Proof. unfold recover_misses, wrong_addr. destruct acc; [apply Z.add_nonneg_nonneg|]; apply b2z_nonneg. Qed.

Lemma misses_promised early mode page inj acc errors : (mode = MNOTHING → acc = None) →
  poison_misses early mode page inj errors + recover_misses mode page acc = 0 ↔
  as_promised early mode page inj acc errors.
Proof.
  intros Hacc.
  assert (∀ o si, o = Some si → names page o ↔ si_addr si = page) as Hn.
  { intros o si ->. unfold names. naive_solver. }
  assert (names page None) by done.
  unfold poison_misses, recover_misses, as_promised, wrong_addr.
  destruct inj as [si|], acc as [sa|]; rewrite ?(Hn _ _ eq_refl);
    destruct mode, early, errors; cbn [expect_dead expect_alive andb b2z Is_true]; bool_cases; cbn [negb b2z]; naive_solver lia.
Qed.

Lemma ilog2_loop_ok f m r : 0 ≤ m < 2 ^ Z.of_nat f → is_Some_b (match ilog2_loop (S f) m r with Ok x => Some x | _ => None end) = true.
Proof.
  revert m r. induction f as [|f IH]; intros m r Hm.
  { assert (m = 0) as -> by (cbn in Hm; lia). done. }
  change (ilog2_loop (S (S f)) m r) with (if m =? 0 then Ok r else ilog2_loop (S f) (m .>> 1) (r + 1)).
  destruct (Z.eqb_spec m 0); [done|]. apply IH.
  rewrite Z.shiftr_div_pow2 by done. change (2 ^ 1) with 2.
  rewrite Nat2Z.inj_succ, Z.pow_succ_r in Hm by lia. split; [apply Z.div_pos; lia|].
  apply Z.div_lt_upper_bound; lia.
Qed.
Lemma ilog2_ok n : 0 < n ≤ 2 ^ 31 → ∃ r, ilog2 n = Ok r.
Proof.
  intros Hn. pose proof (ilog2_loop_ok 31 (n - 1) 0) as H. unfold ilog2.
  destruct (ilog2_loop 32 (n - 1) 0) as [r| | |]; [by exists r|..]; (assert (false = true) by (apply H; lia); done).
Qed.

(** The sizes [sighandler] takes the logarithm of. *)
Definition sizes_ok `{OS : hwp_os} (HPS : Z) (v : tv) : Prop := 0 < (if test_hugepage v then HPS else PS) ≤ 2 ^ 31.

Section Verdicts.
Context {OS : hwp_os} (HPS : Z) (hugetlbfsdir : cstr).

Lemma sighandler_run si s : sizes_ok HPS (vars s) → recovercount (vars s) ≠ 1 →
  ∃ t v, sighandler HPS si s = (Ok (if si_code si =? 4 then recover_ctx else early_recover_ctx),
                                Proc (hist s) t (sigbus s) (killed s) v) ∧
    failure v = failure (vars s) + wrong_addr (expected_addr (vars s)) si ∧
    early_kill v = early_kill (vars s) ∧ test_hugepage v = test_hugepage (vars s).
Proof.
  intros Hs Hc. unfold sighandler, wrong_addr, later_lsb. destruct s as [h o d k v]. cbn [hist out sigbus killed vars] in *.
  destruct (ilog2_ok _ Hs) as [r Hr]. unfold sizes_ok in *.
  hsteps. destruct (Z.eqb_spec (si_addr si) (expected_addr v)); cbn [negb b2z];
    hsteps; cbn [failed test_hugepage]; rewrite Hr; cbn match; hsteps;
    (destruct (negb (si_addr_lsb si =? r)); hsteps; cbn [recovercount failed];
     (destruct (Z.eqb_spec (recovercount v - 1) 0); [lia|]); hsteps;
     eexists _, _; (split; [reflexivity|]); simpl; (split; [lia|done])).
Qed.

Definition madvise_request (page : Z) : request := MADVISE page PS MADV_POISON.
(** An injection that the kernel supports, after which the program goes on. *)
Definition injectable (page : Z) (h : list request) : Prop :=
  match os_signal h (madvise_request page) with
  | Some si => si_code si ≠ 4
  | None => fst (os_value h (madvise_request page)) ≠ 0 → snd (os_value h (madvise_request page)) ≠ EINVAL
  end.
Definition inject_errors (page : Z) (h : list request) : bool := nz (fst (os_value h (madvise_request page))).

(** The state [s'] a part of [testmem] reaches from [s] after the requests [rs]. *)
Definition reaches (rs : list request) (misses : Z) (s s' : proc tv) : Prop :=
  hist s' = rs ++ hist s ∧ sigbus s' = sigbus s ∧ killed s' = killed s ∧
  failure (vars s') = failure (vars s) + misses ∧
  early_kill (vars s') = early_kill (vars s) ∧ test_hugepage (vars s') = test_hugepage (vars s).

Lemma poison_run msg page mode s : sigbus s = SIG_HANDLER → sizes_ok HPS (vars s) → injectable page (hist s) →
  ∃ s', poison HPS inject_madvise_mode msg page mode s = (Ok (), s') ∧
    reaches [madvise_request page]
      (poison_misses (early_kill (vars s)) mode page (os_signal (hist s) (madvise_request page)) (inject_errors page (hist s))) s s'.
Proof.
  destruct s as [h o d k v]. cbn [hist sigbus vars]. intros -> Hs Hi.
  unfold poison, enter, inject, inject_madvise, injectable, inject_errors, madvise_request in *. hsteps.
  unfold mem. hsteps. destruct (os_signal h (MADVISE page PS MADV_POISON)) as [si|] eqn:Hsi; hsteps.
  - edestruct (sighandler_run si) as (t & v' & E & Hf & He & Hh); [..|rewrite E]; [exact Hs|done|].
    destruct (Z.eqb_spec (si_code si) 4); [done|]. cbn match. cbn in Hf, He, Hh.
    unfold poison_misses, reaches.
    destruct (early_kill v) eqn:Hek, (expect_alive mode); cbn [early_kill set_count set_expected];
      rewrite ?Hek; hsteps; eexists; (split; [reflexivity|]); cbn; rewrite ?Hf, ?He, ?Hh, ?Hek; repeat split; lia.
  - destruct (os_value h (MADVISE page PS MADV_POISON)) as [r e]. cbn [fst snd] in *. unfold nz. cbn [fst].
    destruct (Z.eqb_spec r 0) as [->|Hr]; cbn [negb]; hsteps.
    + unfold poison_misses, reaches. destruct (early_kill v && expect_dead mode) eqn:Hek; cbn [early_kill set_count set_expected];
        rewrite Hek; hsteps; eexists; (split; [reflexivity|]); cbn; repeat split; lia.
    + destruct (Z.eqb_spec e EINVAL) as [->|]; [by destruct Hi|]. hsteps.
      unfold poison_misses, reaches. destruct (early_kill v && expect_dead mode) eqn:Hek;
        cbn [early_kill set_count set_expected failed];
        rewrite Hek; hsteps; eexists; (split; [reflexivity|]); cbn; repeat split; lia.
Qed.

(** What answers the access, if the mode makes one. *)
Definition access_signal (page : Z) (mode : rmode) (h : list request) : option signal :=
  match access_request page mode with Some r => os_signal h r | None => None end.

Lemma access_run page mode s : sigbus s = SIG_HANDLER →
  ∃ t, access page mode s = (Ok (match access_signal page mode (hist s) with Some si => inl si | None => inr () end),
                             Proc (option_list (access_request page mode) ++ hist s) t SIG_HANDLER (killed s) (vars s)).
Proof.
  destruct s as [h o d k v]. cbn [hist sigbus vars]. intros ->. unfold access, access_signal.
  destruct mode; cbn [access_request option_list app]; hsteps; try (by eexists);
    unfold mem; hsteps; destruct (os_signal h _); hsteps; try (by eexists);
    destruct (os_value h _); hsteps; by eexists.
Qed.

Lemma recover_run msg page mode s : sigbus s = SIG_HANDLER → sizes_ok HPS (vars s) →
  (∀ si, access_signal page mode (hist s) = Some si → si_code si = 4) →
  ∃ s', recover HPS msg page mode s = (Ok (), s') ∧
    reaches (option_list (access_request page mode)) (recover_misses mode page (access_signal page mode (hist s))) s s'.
Proof.
  destruct s as [h o d k v]. cbn [hist sigbus vars]. intros -> Hs Ha. unfold recover, enter. hsteps.
  edestruct (access_run page mode) as [t E]; [|rewrite E]; [done|]. cbn [hist vars killed]. unfold recover_misses.
  destruct (access_signal page mode h) as [si|] eqn:Hsi; hsteps.
  - edestruct (sighandler_run si) as (t' & v' & E' & Hf & He & Hh); [..|rewrite E']; [exact Hs|done|].
    rewrite (Ha _ eq_refl). cbn match. cbn in Hf, He, Hh. unfold reaches.
    destruct (expect_alive mode); hsteps; eexists; (split; [reflexivity|]); cbn; rewrite ?Hf; repeat split; lia || done.
  - unfold reaches. destruct (expect_dead mode); hsteps; eexists; (split; [reflexivity|]); cbn; repeat split; lia.
Qed.

(** C13: [testmem], with madvise as the injector and SIGBUS caught, ends
    whatever the kernel answers, makes exactly the injection and the access of
    its mode, and counts no failure exactly when the kernel kept what the mode
    promises: a page to be lost is hit at the access, and already at the
    injection under early kill; a page to stay is never hit; every signal names
    the page; and the injection worked. *)
Theorem testmem_verdict msg page mode s :
  sigbus s = SIG_HANDLER → sizes_ok HPS (vars s) → injectable page (hist s) →
  (∀ si, access_signal page mode (madvise_request page :: hist s) = Some si → si_code si = 4) →
  ∃ s', testmem HPS inject_madvise_mode msg page mode s = (Ok (), s') ∧
    hist s' = option_list (access_request page mode) ++ madvise_request page :: hist s ∧
    failure (vars s) ≤ failure (vars s') ∧
    (failure (vars s') = failure (vars s) ↔
     as_promised (early_kill (vars s)) mode page (os_signal (hist s) (madvise_request page))
       (access_signal page mode (madvise_request page :: hist s)) (inject_errors page (hist s))).
Proof.
  intros Hb Hs Hi Ha. unfold testmem. hsteps.
  edestruct (poison_run msg page mode) as (s1 & E1 & Hh1 & Hb1 & Hk1 & Hf1 & He1 & Ht1); [..|rewrite E1]; [exact Hb|exact Hs|exact Hi|].
  cbn [hist sigbus vars killed] in *.
  destruct (recover_run msg page mode s1) as (s2 & E2 & Hh2 & _ & _ & Hf2 & _ & _).
  { by rewrite Hb1. }
  { unfold sizes_ok in *. by rewrite Ht1. }
  { rewrite Hh1. exact Ha. }
  exists s2. split; [exact E2|]. split; [by rewrite Hh2, Hh1|]. rewrite Hh1 in Hf2. cbn [app] in Hf2.
  rewrite <- misses_promised.
  2:{ intros ->. done. }
  pose proof (poison_misses_nonneg (early_kill (vars s)) mode page (os_signal (hist s) (madvise_request page)) (inject_errors page (hist s))).
  pose proof (recover_misses_nonneg mode page (access_signal page mode (madvise_request page :: hist s))).
  rewrite Hf2, Hf1. split; [lia|]. split; lia.
Qed.
End Verdicts.

(** ** What the rounds conclude *)

Section Rounds.
Context {OS : hwp_os} (HPS : Z) (hugetlbfsdir : cstr) (inject_with : inject_mode).
Context (run_sniper : sniper → prog (proc tv) unit) (Hsniper : ∀ c, counts (run_sniper c)).
Notation suicide_child := (suicide_child HPS hugetlbfsdir inject_with run_sniper).
Notation suicide_case := (suicide_case HPS hugetlbfsdir inject_with run_sniper).
Notation late_round := (late_round HPS hugetlbfsdir inject_with run_sniper).
Notation rounds := (rounds HPS hugetlbfsdir inject_with run_sniper).
Hint Resolve counts_case : behaves.

Lemma counts_suicide_child t : counts (suicide_child t).
Proof. unfold Tinj.suicide_child. count. Qed.
Lemma suicide_child_ends t s u : (suicide_child t s).1 ≠ Ok u.
Proof.
  unfold Tinj.suicide_child. hsteps. destruct (run_case _ _ _ _ _ _) as [[a|c| |] s1]; [|done..].
  by destruct (tc_survivable t).
Qed.
Lemma counts_suicide_case t : counts (suicide_case t).
Proof. unfold Tinj.suicide_case. count. Qed.
Lemma counts_in_process suffix t : counts (run_in_process HPS hugetlbfsdir inject_with run_sniper suffix t).
Proof. unfold run_in_process. count. Qed.
Hint Resolve counts_suicide_case counts_in_process : behaves.

(** What [suicide_case] in [s] starts the child with. *)
Definition child_start (t : testcase) (s : proc tv) : proc tv :=
  Proc (FORK :: hist s) (out s ++ lit "---- testing " ++ tc_name t ++ lit " in child" ++ [NL]) (sigbus s) false (vars s).

(** [suicide_case] in [s] lets the child pass: it ended by SIGBUS, or without it
    when it should survive; or there was no child to judge. *)
Definition passed (t : testcase) (s : proc tv) : Prop :=
  fst (os_value (hist s) FORK) < 0 ∨
  ∃ c sc, suicide_child t (child_start t s) = (Exit c, sc) ∧
    (fst (os_value (hist sc) (WAITID (fst (os_value (hist s) FORK)))) < 0 ∨ killed sc = negb (tc_survivable t)).

(** No status of a test case is taken for SIGBUS, although the bit test accepts
    a child that exits. *)
Lemma suicide_ok_killed t c (sc : proc tv) w :
  (killed sc = true ∧ c = SIGBUS ∧ w = WaitInfo (if os_dumps_core (hist sc) then CLD_DUMPED else CLD_KILLED) SIGBUS) ∨
  (killed sc = false ∧ c ∈ statuses ∧ w = WaitInfo CLD_EXITED (c `mod` 256)) →
  suicide_ok t w = true ↔ killed sc = negb (tc_survivable t).
Proof.
  intros [(-> & -> & ->) | (-> & Hc & ->)]; unfold suicide_ok; cbn [wi_code wi_status].
  - destruct (os_dumps_core (hist sc)), (tc_survivable t); by vm_compute.
  - destruct (tc_survivable t); [done|]. split; [|done].
    assert (c = 0 ∨ c = 1 ∨ c = 2 ∨ c = ENOMEM) as [->| [->| [->| ->]]] by (unfold statuses in Hc; set_solver); by vm_compute.
Qed.

Lemma suicide_case_passed t s s' : suicide_case t s = (Ok (), s') →
  failure (vars s') = failure (vars s) → passed t s.
Proof.
  unfold Tinj.suicide_case, passed. hsteps. destruct (os_value (hist s) FORK) as [pid e] eqn:Ef. hsteps.
  destruct (Z.ltb_spec pid 0); [by left|]. intros E Hf. right. fold (child_start t s) in E.
  apply p_bind_inv in E as (w & s1 & Ew & E).
  pose proof Ew as Hw. apply (run_child_inv fewer statuses) in Hw as (c & sc & Ec & Hend);
    [|intros s0 c0 H0; by apply (suicide_child_ends t s0 c0)|apply counts_suicide_child].
  exists c, sc. split; [exact Ec|].
  unfold run_child in Ew. cbn [hist out sigbus vars] in Ew, Ec. rewrite Ec in Ew. injection Ew as Ew <-.
  revert E. hsteps. destruct (os_value (hist sc) (WAITID pid)) as [r e'] eqn:Er. hsteps.
  destruct (Z.ltb_spec r 0); [by left|]. intros E. right. apply (suicide_ok_killed t c sc w Hend).
  destruct (suicide_ok t w); [done|]. injection E as <-. cbn in Hf. lia.
Qed.

Lemma loop_passed l s s' : p_for l suicide_case s = (Ok (), s') → failure (vars s') ≤ failure (vars s) →
  ∀ l1 t l2, l = l1 ++ t :: l2 → ∃ s1, p_for l1 suicide_case s = (Ok (), s1) ∧ passed t s1.
Proof.
  intros E Hf l1 t l2 ->. rewrite (p_for_app l1 (t :: l2) suicide_case s) in E.
  apply p_bind_inv in E as ([] & s1 & E1 & E). exists s1. split; [done|].
  cbn [p_for] in E. apply p_bind_inv in E as ([] & s2 & E2 & E3).
  assert (∀ p a b, counts p → p a = (Ok (), b) → failure (vars a) ≤ failure (vars b)) as Hmono.
  { intros p a b Hp Hab. specialize (Hp a). rewrite Hab in Hp. apply Hp. }
  apply (suicide_case_passed t s1 s2 E2).
  assert (∀ k, counts (p_for k suicide_case)) as Hloop by (intros k; count).
  pose proof (Hmono _ _ _ (Hloop l1) E1). pose proof (Hmono _ _ _ (Hloop l2) E3).
  pose proof (Hmono _ _ _ (counts_suicide_case t) E2). lia.
Qed.

(** C9: when [main] of tinjpage returns it returns 0 or 1, and 0 exactly when
    no failure was counted; then each test case passed its round in a child: a
    case that should not survive was killed by SIGBUS, one that should was not
    (or the system could not start or wait for the child).  A child that exits
    is never taken for one that was killed, although [CLD_KILLDUMP] shares a bit
    with [CLD_EXITED]. *)
Theorem tinjpage_success l s s' c : rounds l s = (Ok c, s') → failure (vars s) = 0 →
  (c = 0 ∨ c = 1) ∧ (c = 0 ↔ failure (vars s') = 0) ∧
  (c = 0 → ∃ s0, late_round l s = (Ok (), s0) ∧
    ∀ l1 t l2, l = l1 ++ t :: l2 → ∃ s1, p_for l1 suicide_case s0 = (Ok (), s1) ∧ passed t s1).
Proof.
  intros E H0. unfold Tinj.rounds in E.
  apply p_bind_inv in E as ([] & s1 & E1 & E). apply p_bind_inv in E as ([] & s2 & E2 & E).
  apply p_bind_inv in E as ([] & s3 & E3 & E).
  assert (counts (late_round l)) as H1 by (unfold Tinj.late_round; count).
  assert (counts (p_for l suicide_case)) as H2 by count.
  assert (counts (early_round HPS hugetlbfsdir inject_with run_sniper l)) as H3 by (unfold early_round; count).
  specialize (H1 s). specialize (H2 s1). specialize (H3 s2). rewrite E1 in H1. rewrite E2 in H2. rewrite E3 in H3.
  destruct H1 as [_ H1], H2 as [_ H2], H3 as [_ H3]. unfold fewer in *.
  assert (vars s' = vars s3 ∧ c = if 0 <? failure (vars s3) then 1 else 0) as [-> ->].
  { revert E. hsteps. destruct (0 <? failure (vars s3)); hsteps; by intros [= <- <-]. }
  destruct (Z.ltb_spec 0 (failure (vars s3))); (split; [tauto|]); (split; [lia|]); [lia|].
  intros _. exists s1. split; [done|]. apply (loop_passed l s1 s2 E2). lia.
Qed.
End Rounds.

(** ** The options *)

Definition is_sniper (a : cstr) : bool := strcmp_eq a (lit "--sniper").
Definition is_mce (a : cstr) : bool := strcmp_eq a (lit "--mce-inject").
Definition known_opts (av : list cstr) : Prop := Forall (λ a, is_sniper a || is_mce a = true) av.
Definition snipers (av : list cstr) : nat := length (filter (λ a, Is_true (is_sniper a)) av).
Definition chosen (av : list cstr) (m : inject_mode) : inject_mode := if existsb is_mce av then inject_mce_mode else m.
(** The array once --sniper has used its dummies. *)
Definition with_snipers : list (option testcase) := cases ++ (Some <$> snipercases) ++ [None].

Lemma handle_mce av l m : handle_opts (lit "--mce-inject" :: av) l m = handle_opts av l inject_mce_mode.
Proof. done. Qed.
Lemma handle_first_sniper av m : handle_opts (lit "--sniper" :: av) cases_array m = handle_opts av with_snipers m.
Proof. done. Qed.
Lemma handle_next_sniper av m : handle_opts (lit "--sniper" :: av) with_snipers m = Undef.
Proof. done. Qed.

Lemma known_cons a av : known_opts (a :: av) → (a = lit "--sniper" ∨ a = lit "--mce-inject") ∧ known_opts av.
Proof.
  intros [H Hav]%Forall_cons. split; [|done]. unfold is_sniper, is_mce, strcmp_eq in H.
  apply orb_true_iff in H as [H|H]; apply bool_decide_eq_true in H; auto.
Qed.

Lemma handle_after_sniper av m : known_opts av →
  handle_opts av with_snipers m = match snipers av with O => Ok (with_snipers, chosen av m) | _ => Undef end.
Proof.
  revert m. induction av as [|a av IH]; intros m Hav; [done|].
  apply known_cons in Hav as [[->| ->] Hav]; [by rewrite handle_next_sniper|].
  rewrite handle_mce, IH by done. unfold chosen. simpl. by destruct (existsb is_mce av).
Qed.

(** C34: [handle_opts] gives the two racy cases the two dummies of the array for
    one --sniper, whatever the other options, and leaves the array alone
    without it; a second --sniper writes past the end of the array. *)
Theorem handle_opts_sniper av m : known_opts av →
  handle_opts av cases_array m =
    match snipers av with
    | O => Ok (cases_array, chosen av m)
    | 1%nat => Ok (with_snipers, chosen av m)
    | _ => Undef
    end.
Proof.
  revert m. induction av as [|a av IH]; intros m Hav; [done|].
  apply known_cons in Hav as [[->| ->] Hav].
  - rewrite handle_first_sniper, handle_after_sniper by done.
    change (snipers (lit "--sniper" :: av)) with (S (snipers av)).
    change (chosen (lit "--sniper" :: av) m) with (chosen av m). by destruct (snipers av).
  - rewrite handle_mce, IH by done. change (snipers (lit "--mce-inject" :: av)) with (snipers av).
    change (chosen (lit "--mce-inject" :: av) m) with inject_mce_mode.
    unfold chosen. by destruct (existsb is_mce av).
Qed.

(** [ilog2] of 0, for a huge page of size 0, does not end. *)
Lemma ilog2_0 f r : ilog2_loop f (-1) r = NoFuel.
Proof. revert r. induction f as [|f IH]; intros r; [done|]. simpl. apply IH. Qed.

(** ** A kernel with poison: an instance *)

(** Anonymous mappings from 2^20 on, mappings of files below; a page that was
    poisoned hits an access, and under early kill the injection, when it is
    anonymous: the clean page of a file is read again. *)
Definition is_mmap (r : request) : bool := match r with MMAP _ _ _ _ _ => true | _ => false end.
Definition lab_value (h : list request) (r : request) : Z * Z :=
  match r with
  | MMAP _ _ _ flags _ =>
      ((if bool_decide (MAP_ANONYMOUS ∈ flags) then 2 ^ 20 else 0)
       + 4096 * (1 + Z.of_nat (length (filter (λ r, Is_true (is_mmap r)) h))), 0)
  | OPEN _ _ => (3, 0)
  | FORK => (100, 0)
  | _ => (0, 0)
  end.
Definition early_set (r : request) : bool :=
  match r with SYSTEM c => strcmp_eq c (lit "sysctl -w vm.memory_failure_early_kill=1") | _ => false end.
Definition lab_signal (h : list request) (r : request) : option signal :=
  match r with
  | LOAD a | STORE a _ => if (2 ^ 20 <=? a) && poisoned 4096 h a then Some (Signal BUS_MCEERR_AR a 12) else None
  | MADVISE a _ MADV_POISON => if (2 ^ 20 <=? a) && existsb early_set h then Some (Signal BUS_MCEERR_AO a 12) else None
  | _ => None
  end.
#[local] Instance lab : hwp_os := {|
  os_signal := lab_signal; os_value := lab_value; os_dumps_core := λ _, true;
  os_escaped := λ _, WaitInfo CLD_EXITED 0; os_child_first := λ _, true; os_pagesize := 4096
|}.
Definition lab_proc : proc tv := Proc [] [] SIG_HANDLER false tv0.
Definition no_sniper (c : sniper) : prog (proc tv) unit := mret ().
Definition lab_cases : list testcase := [Case dirty_anonymous (lit "dirty") false; Case file_clean (lit "clean") true].

Lemma testmem_verdict_witness :
  ∃ s', testmem 0 inject_madvise_mode (lit "dirty") (2 ^ 20 + 4096) MWRITE lab_proc = (Ok (), s') ∧ failure (vars s') = 0.
Proof.
  destruct (testmem_verdict 0 (lit "dirty") (2 ^ 20 + 4096) MWRITE lab_proc) as (s' & E & _ & _ & Hf).
  - reflexivity.
  - unfold sizes_ok, PS. cbn [test_hugepage vars lab_proc tv0 os_pagesize lab]. lia.
  - vm_compute. intros H _. by apply H.
  - intros si. vm_compute. by intros [= <-].
  - exists s'. split; [exact E|]. apply Hf. unfold as_promised, names. split_and!.
    + by vm_compute.
    + intros si. vm_compute. by intros [= <-].
    + by vm_compute.
    + intros _. split; [by vm_compute|done].
    + done.
Defined.

Lemma tinjpage_success_witness : ∃ s',
  rounds 0 [] inject_madvise_mode no_sniper lab_cases lab_proc = (Ok 0, s') ∧ failure (vars s') = 0.
Proof.
  destruct (rounds 0 [] inject_madvise_mode no_sniper lab_cases lab_proc) as [r s'] eqn:E.
  assert (r = Ok 0) as ->.
  { assert ((rounds 0 [] inject_madvise_mode no_sniper lab_cases lab_proc).1 = Ok 0) as H by (vm_compute; reflexivity).
    by rewrite E in H. }
  exists s'. split; [done|].
  destruct (tinjpage_success 0 [] inject_madvise_mode no_sniper (λ c, behaves_ret fewer statuses ())
              lab_cases lab_proc s' 0 E eq_refl) as (_ & [H _] & _).
  exact (H eq_refl).
Defined.

Lemma handle_opts_sniper_witness :
  handle_opts [lit "--sniper"; lit "--mce-inject"; lit "--sniper"] cases_array inject_madvise_mode = Undef.
Proof.
  rewrite (handle_opts_sniper [lit "--sniper"; lit "--mce-inject"; lit "--sniper"] inject_madvise_mode).
  - vm_compute. reflexivity.
  - repeat constructor.
Defined.
