(* ===== verification/Sniper.v ===== *)
(** * Sniper: the racy cases of tinjpage --sniper

    [under_io_dirty] and [under_io_clean] of tinjpage.c, which poison a page from
    a second thread while the first reads or writes the file behind it.  The two
    meet at [waitfor] and the variable [sstate], which all cases share: a sniper
    that missed its case is still there in the next one.  A step is one statement
    of one thread; a schedule says which thread takes each step. *)
From Stdlib Require Import String.
From S2P Require Import Prelude CLib Hwp Hugepage Tinj.

(** ** The threads *)

Inductive sstate_t := START | WAITING | SNIPE.
(** The thread of the case, after [setup_sniper]: its access to the file, the
    store and the loop of [waitfor(WAITING, WAITING)], the rest, its return. *)
Inductive main_pc := M_io | M_set | M_wait | M_rest | M_returned.
(** A sniper: the store and the loop of [waitfor(START, WAITING)],
    [nanosleep], [poison], its end. *)
Inductive sniper_pc := S_set | S_wait | S_sleep | S_poison | S_end.
(** The case, its sniper, the variable, and the snipers of the cases before, the
    last one first. *)
Record race := Race { m_pc : main_pc; s_pc : sniper_pc; sstate : sstate_t; old : list sniper_pc }.
#[export] Instance sstate_eq_dec : EqDecision sstate_t.
Proof. solve_decision. Defined.
#[export] Instance main_pc_eq_dec : EqDecision main_pc.
Proof. solve_decision. Defined.
#[export] Instance sniper_pc_eq_dec : EqDecision sniper_pc.
Proof. solve_decision. Defined.
#[export] Instance race_eq_dec : EqDecision race.
Proof. solve_decision. Defined.

(** One statement of each; a loop of [waitfor] that goes on stays. *)
Definition main_next (m : main_pc) (x : sstate_t) : main_pc * sstate_t :=
  match m with
  | M_io => (M_set, x)
  | M_set => (M_wait, WAITING)
  | M_wait => (if decide (x = WAITING) then M_rest else M_wait, x)
  | M_rest => (M_returned, x)
  | M_returned => (M_returned, x)
  end.
Definition sniper_next (t : sniper_pc) (x : sstate_t) : sniper_pc * sstate_t :=
  match t with
  | S_set => (S_wait, START)
  | S_wait => (if decide (x = WAITING) then S_sleep else S_wait, x)
  | S_sleep => (S_poison, x)
  | S_poison => (S_end, x)
  | S_end => (S_end, x)
  end.

(** Who takes a step: the thread of the case, its sniper, or an older one. *)
Inductive thread := Main | Cur | Old (i : nat).
Definition race_next (r : race) (th : thread) : race :=
  let '(Race m t x l) := r in
  match th with
  | Main => let '(m, x) := main_next m x in Race m t x l
  | Cur => let '(t, x) := sniper_next t x in Race m t x l
  | Old i => match l !! i with Some u => let '(u, x) := sniper_next u x in Race m t x (<[i := u]> l) | None => r end
  end.
(** A sniper poisons through an argument whose frame is gone: undefined. *)
Definition dangles (r : race) (th : thread) : bool :=
  match th with
  | Main => false
  | Cur => bool_decide (m_pc r = M_returned ∧ s_pc r = S_poison)
  | Old i => bool_decide (old r !! i = Some S_poison)
  end.

(** The cases one after another: [setup_sniper] stores [START] and starts a
    sniper. *)
Definition race_start : race := Race M_io S_set START [].
Inductive race_step : race → race → Prop :=
| thread_step r th : dangles r th = false → race_step r (race_next r th)
| next_case r : m_pc r = M_returned → race_step r (Race M_io S_set START (s_pc r :: old r)).

(** ** The steps on the process *)

Definition DELAY_NS : Z := 30.
(** [struct poison_arg], on the stack of the case. *)
Record poison_arg := PoisonArg { arg_msg : cstr; arg_page : Z; arg_mode : rmode }.
(** What a case finds: the string in [fn], which under_io_clean does not set, or
    none when the array has no end of a string; the snipers of the cases before;
    and the order of the steps. *)
Record conditions := Conditions { stale_fn : option cstr; snipers_before : list sniper_pc; schedule : list thread }.

Section Sniper.
Context {OS : hwp_os} (HPS : Z) (inject_with : inject_mode).

(** Where the sniper starts, if there are two processors.  An error of
    [pthread_create] is a positive number: then there is no sniper. *)
Definition setup_sniper (arg : poison_arg) : prog (proc tv) (option sniper_pc) :=
  '(n, _) ← sys SYSCONF_NPROCESSORS;
  if n <? 2 then put (arg_msg arg ++ lit ": Need at least two CPUs. Not tested" ++ [NL]);; mret None
  else '(r, _) ← sys PTHREAD_CREATE; if r <? 0 then err else mret (Some (if r =? 0 then S_set else S_end)).

(** Up to [setup_sniper]: the file and the argument of the sniper. *)
Definition prologue (fn : option cstr) (c : sniper) : prog (proc tv) (Z * poison_arg) :=
  match c with
  | under_io_dirty =>
      fd ← tempfd;
      page ← checked_mmap PS [PROT_READ; PROT_WRITE] [MAP_SHARED; MAP_POPULATE] fd;
      mret (fd, PoisonArg (lit "under io dirty") page MWRITE)
  | under_io_clean =>
      '(fd, _) ← match fn with Some buf => playfile buf | None => p_undef end;
      page ← checked_mmap PS [PROT_READ; PROT_WRITE] [MAP_SHARED; MAP_POPULATE] fd;
      sys (MADVISE page PS MADV_DONTNEED);;
      mret (fd, PoisonArg (lit "under io clean") page MREAD_OK)
  end.

(** What a thread does in a step, besides moving on. *)
Definition main_work (c : sniper) (fd : Z) (m : main_pc) : prog (proc tv) unit :=
  match m, c with
  | M_io, under_io_dirty => sys (WRITE fd (codes (lit "xyz")));; mret ()
  | M_rest, under_io_dirty => r ← sys (FSYNC fd); expecterr (lit "write under io") r;; sys (CLOSE fd);; mret ()
  | M_rest, under_io_clean => sys (PREAD fd 10 0);; sys (CLOSE fd);; mret ()     (* perror only *)
  | _, _ => mret ()
  end.
Definition sniper_work (arg : poison_arg) (t : sniper_pc) : prog (proc tv) unit :=
  match t with
  | S_sleep => sys (NANOSLEEP DELAY_NS);; mret ()
  | S_poison => poison HPS inject_with (arg_msg arg) (arg_page arg) (arg_mode arg)
  | _ => mret ()
  end.
Definition thread_work (c : sniper) (fd : Z) (arg : poison_arg) (r : race) (th : thread) : prog (proc tv) unit :=
  if dangles r th then p_undef else
  match th with
  | Main => main_work c fd (m_pc r)
  | Cur => sniper_work arg (s_pc r)
  | Old i => match old r !! i with Some t => sniper_work arg t | None => mret () end      (* [dangles] when it poisons *)
  end.
Definition work_step (c : sniper) (fd : Z) (arg : poison_arg) (r : race) (th : thread) : prog (proc tv) race :=
  thread_work c fd arg r th;; mret (race_next r th).
(** The threads under their schedule, which must bring the case to its return;
    what the snipers do after it is not followed. *)
Definition run_threads (w : conditions) (c : sniper) (fd : Z) (arg : poison_arg) (t : sniper_pc) : prog (proc tv) unit :=
  r ← p_fold (schedule w) (work_step c fd arg) (Race M_io t START (snipers_before w));
  if decide (m_pc r = M_returned) then mret () else p_nofuel.
Definition run_under (w : conditions) (c : sniper) : prog (proc tv) unit :=
  '(fd, arg) ← prologue (stale_fn w) c;
  started ← setup_sniper arg;
  match started with None => mret () | Some t => run_threads w c fd arg t end.
Definition run_sniper (found : list request → conditions) (c : sniper) : prog (proc tv) unit :=
  h ← get_hist; run_under (found h) c.
End Sniper.
(** tinjpage with --sniper. *)
Definition tinjpage_sniper `{OS : hwp_os} (found : list request → conditions) :
    list cstr → option cstr → option cstr → prog (proc tv) Z :=
  tinjpage_main (λ HPS m, run_sniper HPS m found).

(** ** The races *)

(** The variable was set to WAITING by the case; its sniper is past its wait. *)
Definition main_set (r : race) : bool := match m_pc r with M_io | M_set => false | _ => true end.
Definition past_wait (r : race) : bool := match s_pc r with S_set | S_wait => false | _ => true end.
(** No thread leads on. *)
Definition halted (r : race) : Prop := ∀ th, dangles r th = false → race_next r th = r.

Lemma sniper_next_state t x : snd (sniper_next t x) = x ∨ (t = S_set ∧ snd (sniper_next t x) = START).
Proof. destruct t; simpl; auto. Qed.
Lemma sniper_next_pc t x : fst (sniper_next t x) ≠ S_set.
Proof. destruct t; simpl; try done. by destruct (decide _). Qed.

(** A step of an older sniper leaves the case and its sniper where they are. *)
Lemma old_step r i : m_pc (race_next r (Old i)) = m_pc r ∧ s_pc (race_next r (Old i)) = s_pc r
  ∧ length (old (race_next r (Old i))) = length (old r)
  ∧ (sstate (race_next r (Old i)) = sstate r ∨ (S_set ∈ old r ∧ sstate (race_next r (Old i)) = START))
  ∧ (S_set ∉ old r → S_set ∉ old (race_next r (Old i))).
Proof.
  destruct r as [m t x l]. unfold race_next. cbn; destruct (l !! i) as [u|] eqn:Hu; [|split_and!; by auto].
  pose proof (sniper_next_state u x) as Hs. pose proof (sniper_next_pc u x) as Hp.
  destruct (sniper_next u x) as [u' x']. cbn in *. split_and!; [done|done|by rewrite length_insert| |].
  - destruct Hs as [->|[-> ->]]; [by left|right; split; [by eapply list_elem_of_lookup_2|done]].
  - intros Hn (j & Hj)%list_elem_of_lookup. destruct (decide (i = j)) as [<-|Hne].
    + rewrite list_lookup_insert_eq in Hj by (by eapply lookup_lt_Some). congruence.
    + rewrite list_lookup_insert_ne in Hj by done. apply Hn. by eapply list_elem_of_lookup_2.
Qed.
Lemma old_length r th : length (old (race_next r th)) = length (old r).
Proof.
  destruct th; [..|apply old_step]; destruct r as [m t x l]; simpl; [by destruct (main_next m x)|by destruct (sniper_next t x)].
Qed.

(** A thread takes a step: which part of the state changes and how. *)
Ltac race_cases r th :=
  destruct th as [| |i];
  [ destruct r as [[] t x l]; cbn in *; repeat case_decide; cbn in *
  | destruct r as [m [] x l]; cbn in *; repeat case_decide; cbn in *
  | destruct (old_step r i) as (? & ? & ? & ? & ?) ].

(** What steps keep, and what they keep as long as no case follows. *)
Lemma race_ind (P : race → Prop) :
  (∀ r th, P r → P (race_next r th)) → (∀ r, m_pc r = M_returned → P r → P (Race M_io S_set START (s_pc r :: old r))) →
  ∀ r r', rtc race_step r r' → P r → P r'.
Proof. intros H1 H2 r r'. induction 1 as [r|r r1 r' Hs _ IH]; [done|]. intros Hr. apply IH. destruct Hs; auto. Qed.
Lemma old_grows r r' : rtc race_step r r' → (length (old r) ≤ length (old r'))%nat.
Proof.
  intros Hl. apply (race_ind (λ r', length (old r) ≤ length (old r'))%nat) with (r := r); [..|done|lia].
  - intros ? th. by rewrite old_length.
  - intros ? _ ?. simpl. lia.
Qed.
Lemma same_case_ind (P : race → Prop) : (∀ r th, P r → P (race_next r th)) →
  ∀ r r', rtc race_step r r' → length (old r') = length (old r) → P r → P r'.
Proof.
  intros H1 r r'. induction 1 as [r|r r1 r' Hs Hl IH]; [done|]. intros Hlen Hr. apply old_grows in Hl.
  destruct Hs as [r th _|r _]; [|simpl in *; lia]. apply IH; [|auto]. by rewrite old_length.
Qed.

(** Before the case has set the variable nobody has. *)
Definition not_set (r : race) : Prop := main_set r = false → sstate r = START ∧ past_wait r = false.
Lemma not_set_next r th : not_set r → not_set (race_next r th).
Proof.
  unfold not_set, main_set, past_wait. intros H. race_cases r th; try done; try (naive_solver).
  intros Hm. rewrite H0, H1 in *. destruct (H Hm) as [Hx Hp]. split; [|done]. destruct H3 as [->|[_ ->]]; done.
Qed.
Lemma not_set_always r : rtc race_step race_start r → not_set r.
Proof. intros Hr. apply (race_ind not_set) with (r := race_start); [auto using not_set_next|by split|done|by split]. Qed.

(** The case waits and the variable is not set: it is never set again. *)
Definition spins (r : race) : Prop := m_pc r = M_wait ∧ sstate r = START.
Lemma spins_next r th : spins r → spins (race_next r th).
Proof.
  unfold spins. intros [Hm Hx]. race_cases r th; simplify_eq/=; try done.
  split; [congruence|]. destruct H2 as [->|[_ ->]]; done.
Qed.

(** The sniper has come too late for the case. *)
Definition missed (r : race) : Prop := main_set r = true ∧ (s_pc r = S_set ∨ (s_pc r = S_wait ∧ sstate r = START)).
Lemma missed_next r th : missed r → missed (race_next r th).
Proof.
  unfold missed, main_set. intros [Hm Ht]. race_cases r th; simplify_eq/=; try naive_solver.
  rewrite H, H0. split; [done|]. destruct Ht as [?|[? ?]]; [by left|right]. split; [done|]. destruct H2 as [->|[_ ->]]; done.
Qed.

(** The sniper was first to the variable, and no older one will store to it. *)
Definition in_time (r : race) : Prop := s_pc r ≠ S_set ∧ S_set ∉ old r ∧ (m_pc r = M_wait → sstate r = WAITING).
Lemma in_time_next r th : in_time r → in_time (race_next r th).
Proof.
  unfold in_time. intros (Ht & Ho & Hm). race_cases r th; simplify_eq/=; try naive_solver.
  rewrite H, H0. split_and!; [done|auto|]. destruct H2 as [->|[? _]]; done.
Qed.

(** Without older snipers only the case's own unsets the variable. *)
Definition alone (r : race) : Prop :=
  sstate r ≠ SNIPE ∧ (old r = [] → main_set r = true → sstate r = START → s_pc r = S_wait).
Lemma alone_next r th : alone r → alone (race_next r th).
Proof.
  unfold alone, main_set. intros [Hx H]. race_cases r th; simplify_eq/=; try naive_solver.
  split; [destruct H3 as [->|[_ ->]]; done|].
  intros Hl. destruct (old r) as [|u l] eqn:E; [|by rewrite Hl in H2]. rewrite H0, H1.
  destruct H3 as [->|[Hin _]]; [auto|by apply elem_of_nil in Hin].
Qed.

Definition both_spin : race := Race M_wait S_wait START [].
Definition never_poisons : race := Race M_returned S_wait START [].
Lemma halted_ends r : not_set r → alone r → halted r → old r = [] →
  r ∈ [both_spin; never_poisons; Race M_returned S_poison WAITING []; Race M_returned S_end WAITING []].
Proof.
  unfold not_set, alone, halted. destruct r as [m t x l]. cbn. intros Hn [Hx Ha] Hh ->.
  pose proof (Hh Main eq_refl) as Hm. pose proof (Hh Cur) as Hc. clear Hh.
  destruct m; cbn in Hm; try done; destruct t, x; cbn in Hc; try done; try (by specialize (Hc eq_refl));
    try (by specialize (Ha eq_refl eq_refl eq_refl)); try set_solver.
Qed.


(** The state a schedule leads to, when nothing in it is undefined. *)
Fixpoint play (schedule : list thread) (r : race) : option race :=
  match schedule with
  | [] => Some r
  | th :: l => if dangles r th then None else play l (race_next r th)
  end.
Lemma play_steps schedule r r' : play schedule r = Some r' → rtc race_step r r'.
Proof.
  revert r. induction schedule as [|th l IH]; intros r; simpl; [intros [= <-]; constructor|].
  destruct (dangles r th) eqn:E; [done|]. intros H. econstructor; [by apply thread_step|]. by apply IH.
Qed.
(** Each of the four ends is reached. *)
Lemma race_ends :
  play [Main; Main; Cur; Main; Cur] race_start = Some both_spin
  ∧ play [Main; Main; Main; Main; Cur] race_start = Some never_poisons
  ∧ play [Cur; Main; Main; Main; Cur; Cur; Main] race_start = Some (Race M_returned S_poison WAITING [])
  ∧ play [Cur; Main; Main; Main; Cur; Cur; Cur; Main] race_start = Some (Race M_returned S_end WAITING []).
Proof. by vm_compute. Qed.
(** The sniper that missed its case goes on in the next one, and comes to poison
    through the argument of the first. *)
Lemma released_later : ∃ r, rtc race_step never_poisons r ∧ old r = [S_poison] ∧ dangles r (Old 0) = true.
Proof.
  exists (Race M_wait S_set WAITING [S_poison]). split; [|done].
  eapply rtc_l; [by apply (next_case never_poisons)|]. apply (play_steps [Main; Main; Old 0; Old 0]). by vm_compute.
Qed.

(** ** What the races mean for the test *)

(** The thread of the case takes its next [n] steps before its sniper takes one. *)
Fixpoint case_first (n : nat) (schedule : list thread) : bool :=
  match n, schedule with
  | S n, Main :: l => case_first n l
  | S _, Old _ :: l => case_first n l
  | S _, Cur :: _ => false
  | _, _ => true
  end.
(** The steps up to and with the store of the case. *)
Definition to_store (m : main_pc) : nat := match m with M_io => 2 | M_set => 1 | _ => 0 end.

Section Untested.
Context {OS : hwp_os} (HPS : Z) (inject_with : inject_mode).

#[local] Hint Resolve counts_poison counts_expecterr counts_tempfd counts_playfile counts_mmap counts_err : behaves.
(** The cases count failures like the others, whatever they find. *)
Lemma counts_run_sniper found c : counts (run_sniper HPS inject_with found c).
Proof. unfold run_sniper, run_under, run_threads, prologue, setup_sniper, work_step, thread_work, main_work, sniper_work. count. Qed.

(** A request that injects poison. *)
Definition injects (q : request) : bool :=
  match q with MADVISE _ _ MADV_POISON | POPEN_MCE_INJECT _ => true | _ => false end.
Notation quiet p := (issues (λ q, injects q = false) p).
Definition same_failures (v v' : tv) : Prop := failure v' = failure v.
#[export] Instance same_failures_preorder : PreOrder same_failures.
Proof. split; [done|]. intros u v w. unfold same_failures. congruence. Qed.
Notation uncounted p := (behaves same_failures statuses p).

Lemma uncounted_upd f : (∀ v, failure (f v) = failure v) → uncounted (upd f).
Proof. intros Hf. apply behaves_upd. exact Hf. Qed.
#[local] Hint Extern 2 (behaves same_failures _ (upd _)) => (apply uncounted_upd; by intros []) : behaves.
Lemma uncounted_err {A} : uncounted (err : prog (proc tv) A).
Proof. apply behaves_exit. set_solver. Qed.
#[local] Hint Resolve uncounted_err : behaves.

(** The sniper does not poison in what is left of the schedule: it is not there,
    it has not stored and the case will first, or it has and waits in vain. *)
Definition harmless (r : race) (l : list thread) : Prop :=
  s_pc r = S_end ∨ (s_pc r = S_set ∧ case_first (to_store (m_pc r)) l = true) ∨ missed r.
Lemma harmless_next r th l : harmless r (th :: l) → harmless (race_next r th) l.
Proof.
  intros [H|[[H1 H2]|H]]; [left|right|by do 2 right; apply missed_next].
  - destruct th; [..|by rewrite (proj1 (proj2 (old_step r i)))]; destruct r as [m t x o]; cbn in *; subst; [by destruct m|done].
  - destruct (main_set r) eqn:Em; [right; apply missed_next; split; auto|]. unfold main_set in Em.
    destruct th as [| |i].
    + destruct r as [[] t x o]; cbn in *; subst; try done; [by left|right; split; auto].
    + by destruct (m_pc r).
    + left. destruct (old_step r i) as (-> & -> & _). split; [done|]. by destruct (m_pc r).
Qed.
Lemma harmless_work fd arg r th l : harmless r (th :: l) →
  quiet (thread_work HPS inject_with under_io_clean fd arg r th) ∧ uncounted (thread_work HPS inject_with under_io_clean fd arg r th).
Proof.
  intros H. unfold thread_work. destruct (dangles r th) eqn:E; [split; [issues|behaves]|].
  destruct th as [| |i]; [unfold main_work; split; [issues|behaves]|..].
  - assert (s_pc r = S_end ∨ s_pc r = S_set ∨ s_pc r = S_wait) as Ht.
    { unfold harmless, missed in H. naive_solver. }
    destruct Ht as [->|[->| ->]]; split; unfold sniper_work; [issues|behaves|issues|behaves|issues|behaves].
  - unfold dangles in E. destruct (old r !! i) as [t|]; [|split; [issues|behaves]].
    destruct t; [..|by rewrite bool_decide_true in E|]; unfold sniper_work; split; [issues|behaves|issues|behaves|issues|behaves|issues|behaves].
Qed.
Lemma harmless_fold l fd arg r : harmless r l →
  quiet (p_fold l (work_step HPS inject_with under_io_clean fd arg) r)
  ∧ uncounted (p_fold l (work_step HPS inject_with under_io_clean fd arg) r).
Proof.
  revert r. induction l as [|th l IH]; intros r H; cbn [p_fold]; [split; [issues|behaves]|].
  destruct (harmless_work fd arg r th l H) as [W1 W2]. destruct (IH _ (harmless_next r th l H)) as [I1 I2].
  assert (∀ s, (work_step HPS inject_with under_io_clean fd arg r th ≫= p_fold l (work_step HPS inject_with under_io_clean fd arg)) s
    = (thread_work HPS inject_with under_io_clean fd arg r th;; p_fold l (work_step HPS inject_with under_io_clean fd arg) (race_next r th)) s) as E.
  { intros s. unfold work_step. by rewrite p_bind_assoc. }
  split; [eapply issues_ext|eapply behaves_ext]; [exact E|by apply issues_bind|exact E|by apply behaves_bind; [typeclasses eauto|..]].
Qed.

Lemma clean_prologue fn : quiet (prologue fn under_io_clean) ∧ uncounted (prologue fn under_io_clean).
Proof. split; unfold prologue, playfile, open_or_err, checked_mmap, xmalloc, tick, err; [issues|behaves]. Qed.
(** What [setup_sniper] gives; the rest is only needed for that. *)
Lemma setup_starts arg (f : option sniper_pc → prog (proc tv) unit) :
  quiet (f None) → quiet (f (Some S_set)) → quiet (f (Some S_end)) →
  uncounted (f None) → uncounted (f (Some S_set)) → uncounted (f (Some S_end)) →
  quiet (setup_sniper arg ≫= f) ∧ uncounted (setup_sniper arg ≫= f).
Proof.
  intros Q1 Q2 Q3 U1 U2 U3.
  assert (∀ s, (setup_sniper arg ≫= f) s = (r ← sys SYSCONF_NPROCESSORS;
    if r.1 <? 2 then put (arg_msg arg ++ lit ": Need at least two CPUs. Not tested" ++ [NL]);; f None
    else r ← sys PTHREAD_CREATE; if r.1 <? 0 then err else if r.1 =? 0 then f (Some S_set) else f (Some S_end)) s) as E.
  { intros s. unfold setup_sniper, err. rewrite !p_bind_run. cbn [sys]. destruct (os_value _ _) as [n e]. cbn [fst].
    destruct (n <? 2); [done|]. rewrite !p_bind_run. cbn [sys]. destruct (os_value _ _) as [r e']. cbn [fst].
    destruct (r <? 0); [done|]. by destruct (r =? 0). }
  unfold err in E. split; [eapply issues_ext|eapply behaves_ext]; [exact E| |exact E|]; [issues|behaves].
Qed.

Lemma untested_threads w fd arg t : case_first 2 (schedule w) = true → t = S_set ∨ t = S_end →
  quiet (run_threads HPS inject_with w under_io_clean fd arg t)
  ∧ uncounted (run_threads HPS inject_with w under_io_clean fd arg t).
Proof.
  intros Hf Ht. destruct (harmless_fold (schedule w) fd arg (Race M_io t START (snipers_before w))) as [F1 F2].
  { destruct Ht as [->| ->]; [by right; left|by left]. }
  unfold run_threads. split; [apply issues_bind; [exact F1|]|apply behaves_bind; [typeclasses eauto|exact F2|]];
    intros r; [issues|behaves].
Qed.

End Untested.


(** A machine with two processors; the sniper comes to the variable after the
    case, and one of an earlier case is still asleep. *)
#[local] Instance two_cpus : hwp_os := {|
  os_signal _ _ := None;
  os_value _ r := match r with SYSCONF_NPROCESSORS => (2, 0) | OPEN _ _ => (3, 0) | MMAP _ _ _ _ _ | MALLOC _ => (4096, 0) | _ => (0, 0) end;
  os_dumps_core _ := false; os_escaped _ := WaitInfo CLD_EXITED 0; os_child_first _ := true; os_pagesize := 4096
|}.
Definition late_sniper : conditions := Conditions (Some (lit "x")) [S_sleep] [Old 0; Main; Main; Main; Cur; Main].
(** The case ends well. *)
Lemma late_sniper_run :
  (run_sniper 0 inject_madvise_mode (λ _, late_sniper) under_io_clean (Proc [] [] SIG_HANDLER false tv0)).1 = Ok ().
Proof. by vm_compute. Qed.
