(* ===== verification/PagePoison.v ===== *)
(** * PagePoison: page-poisoning

    cases/stress/hwpoison/tools/page-poisoning/page-poisoning.c: the logs and
    their buffers, the signal handler, [poison] and [recover], the test cases of
    the children, the structure they share with their parent ([struct ipc], by
    offset, as requests [SHARED_LOAD] and [SHARED_STORE]), and [run_test] and
    [main].  The children run one after another here: what a child asks the
    kernel is answered by a function of the requests before, and other orders of
    the requests are other such functions.  The one case in which children wait
    for each other is the subject of ShmTest. *)
From Stdlib Require Import String.
From S2P Require Import Prelude CLib Getopt Hwp Hugepage.

Definition INSTANCE_NUM : Z := 10000.
Definition SHM_SIZE : Z := 1.
Definition LOG_BUFLEN : Z := 100.
Definition PATH_MAX : nat := 4096.
Definition TEST_PASS : Z := 1.
(** A static variable that nothing sets. *)
Definition early_kill : bool := false.

(** [struct ipc]: the offsets of [test[i].id], [test[i].result] and of [shm]. *)
Definition off_id (i : Z) : Z := 8 * i.
Definition off_result (i : Z) : Z := 8 * i + 4.
Definition off_shm_id : Z := 8 * INSTANCE_NUM.
Definition off_ready : Z := 8 * INSTANCE_NUM + 4.
Definition off_done : Z := 8 * INSTANCE_NUM + 8.
Definition sizeof_ipc : Z := 8 * INSTANCE_NUM + 12.

(** The static variables that change during the test; a stream that is not open is 0. *)
Record pv := PV {
  failure : Z; unexpected : Z; recovercount : Z; expected_addr : Z;
  log_fd : Z; result_fd : Z; mypid : Z; instance : Z; testid : Z; shmptr : Z; g_pid : list Z
}.
Definition pv0 : pv := PV 0 0 0 0 0 0 0 0 0 0 [].
Definition failed (v : pv) : pv :=
  let '(PV f u r e l rf p i t m g) := v in PV (f + 1) u r e l rf p i t m g.
Definition surprised (v : pv) : pv :=
  let '(PV f u r e l rf p i t m g) := v in PV f (u + 1) r e l rf p i t m g.
Definition set_count (n : Z) (v : pv) : pv :=
  let '(PV f u r e l rf p i t m g) := v in PV f u n e l rf p i t m g.
Definition set_expected (a : Z) (v : pv) : pv :=
  let '(PV f u r e l rf p i t m g) := v in PV f u r a l rf p i t m g.
Definition set_log (fd : Z) (v : pv) : pv :=
  let '(PV f u r e l rf p i t m g) := v in PV f u r e fd rf p i t m g.
Definition set_result (fd : Z) (v : pv) : pv :=
  let '(PV f u r e l rf p i t m g) := v in PV f u r e l fd p i t m g.
Definition set_pid (pid : Z) (v : pv) : pv :=
  let '(PV f u r e l rf p i t m g) := v in PV f u r e l rf pid i t m g.
Definition set_testid (n : Z) (v : pv) : pv :=
  let '(PV f u r e l rf p i t m g) := v in PV f u r e l rf p i n m g.
Definition set_shmptr (a : Z) (v : pv) : pv :=
  let '(PV f u r e l rf p i t m g) := v in PV f u r e l rf p i t a g.
(** [g_pid[i] = pid] for the next [i], and [++instance]. *)
Definition spawned (pid : Z) (v : pv) : pv :=
  let '(PV f u r e l rf p i t m g) := v in PV f u r e l rf p (i + 1) t m (g ++ [pid]).

Inductive rmode := MREAD | MWRITE | MREAD_OK | MWRITE_OK | MNOTHING.
#[export] Instance rmode_eq_dec : EqDecision rmode.
Proof. solve_decision. Defined.
Definition expect_alive (mode : rmode) : bool := match mode with MREAD_OK | MWRITE_OK => true | _ => false end.
Definition expect_dead (mode : rmode) : bool := match mode with MREAD | MWRITE => true | _ => false end.
Inductive test_case :=
| SHARED_MEM | ANON_CLEAN | ANON_DIRTY | ANON_DIRTY_UNMAP | ANON_DIRTY_MLOCKED
| FILE_CLEAN | FILE_CLEAN_MLOCKED | FILE_DIRTY | FILE_DIRTY_MLOCKED.
#[export] Instance test_case_eq_dec : EqDecision test_case.
Proof. solve_decision. Defined.
Inductive ctx := recover_ctx | early_recover_ctx.

(** The array of the cases, without its end. *)
Inductive case_f :=
| shm_test | anon_clean | dirty_anonymous | dirty_anonymous_unmap | mlocked_anonymous
| file_clean | file_dirty | file_clean_mlocked | file_dirty_mlocked.
#[export] Instance case_f_eq_dec : EqDecision case_f.
Proof. solve_decision. Defined.
Definition cases : list (case_f * cstr) :=
  [(shm_test, lit "shared memory test"); (anon_clean, lit "anonymous clean"); (dirty_anonymous, lit "anonymous dirty");
   (dirty_anonymous_unmap, lit "anonymous dirty unmap"); (mlocked_anonymous, lit "anonymous dirty mlocked");
   (file_clean, lit "file clean"); (file_dirty, lit "file dirty"); (file_clean_mlocked, lit "file clean mlocked");
   (file_dirty_mlocked, lit "file dirty mlocked")].
(** [setup_test]: the number of the cases, and the last index of [shm_test]. *)
Definition test_types : Z := Z.of_nat (length cases).
Fixpoint find_shm (l : list (case_f * cstr)) (i r : Z) : Z :=
  match l with
  | [] => r
  | (f, _) :: l => find_shm l (i + 1) (if decide (f = shm_test) then i else r)
  end.
Definition t_shm : Z := find_shm cases 0 (-1).
(** The case of child [i]. *)
Definition case_of (i : Z) : option case_f := fst <$> cases !! Z.to_nat (Z.rem i test_types).
(** The number of the children that run [shm_test], as [setup_ipc] computes it. *)
Definition shm_children (child_num types t : Z) : Z :=
  if t =? -1 then 0
  else if t <=? Z.rem (child_num - 1) types then Z.quot (child_num - 1) types + 1
  else Z.quot (child_num - 1) types.

Section PagePoisoning.
Context {OS : hwp_os} (strerror : Z → cstr).
(** The page size, [tmp_dir], [shm_size], the shared structure and the semaphores. *)
Context (PS : Z) (tmp_dir : cstr) (shm_size ipc_entry semid_ready : Z).

Definition codes (s : cstr) : list Z := (λ c, Z.of_N (N_of_ascii c)) <$> s.
(** [vsprintf] to a buffer of [LOG_BUFLEN] bytes. *)
Definition to_buf (text : cstr) : prog (proc pv) cstr :=
  if LOG_BUFLEN <=? Z.of_nat (length text) then p_undef else mret text.
Definition pid_prefix (v : pv) : cstr := lit "[pid " ++ fmt_d (mypid v) ++ lit "] ".
(** [mylog] and [result] once the streams are open. *)
Definition mylog_open (text : cstr) : prog (proc pv) unit :=
  buf ← to_buf text;
  v ← get_vars;
  put (pid_prefix v ++ buf);;
  sys (WRITE (log_fd v) (codes (pid_prefix v ++ buf)));; mret ().
Definition result_open (text : cstr) : prog (proc pv) unit :=
  buf ← to_buf text;
  v ← get_vars;
  sys (WRITE (result_fd v) (codes (pid_prefix v ++ buf)));;
  p_when (nz (log_fd v)) (mylog_open buf).
(** [err] with the [errno] it finds. *)
Definition err {A} (text : cstr) (errno : Z) : prog (proc pv) A :=
  buf ← to_buf text;
  v ← get_vars;
  p_when (nz (result_fd v)) (result_open (lit "error: " ++ buf ++ lit " :" ++ strerror errno ++ [NL]));;
  p_exit 1.
Definition mylog (text : cstr) : prog (proc pv) unit :=
  v ← get_vars; if log_fd v =? 0 then err (lit "no log file there" ++ [NL]) 0 else mylog_open text.
Definition result (text : cstr) : prog (proc pv) unit :=
  v ← get_vars; if result_fd v =? 0 then err (lit "no result file there" ++ [NL]) 0 else result_open text.

Definition checked_mmap (length : Z) (prot : list prot_flag) (flags : list map_flag) (fd : Z) : prog (proc pv) Z :=
  '(map, e) ← sys (MMAP 0 length prot flags fd);
  if map =? -1 then err (lit "mmap") e else mret map.
Definition munmap_reserve (page size : Z) : prog (proc pv) unit :=
  sys (MUNMAP page size);; sys (MMAP page size [PROT_NONE] [MAP_PRIVATE; MAP_FIXED] 0);; mret ().
Definition xmalloc (s : Z) : prog (proc pv) unit :=
  '(p, _) ← sys (MALLOC s); if p =? 0 then p_exit ENOMEM else mret ().

(** [sighandler]: the context it jumps to. *)
Definition sighandler (si : signal) : prog (proc pv) ctx :=
  mylog (lit "signal " ++ fmt_d SIGBUS ++ lit " code " ++ fmt_d (si_code si) ++ lit " addr " ++ fmt_p (si_addr si) ++ [NL]);;
  v ← get_vars;
  p_when (negb (si_addr si =? expected_addr v))
    (result (lit "failed: Unexpected address in signal " ++ fmt_p (si_addr si) ++ lit " (expected " ++ fmt_p (expected_addr v)
             ++ lit ")" ++ [NL]);; upd failed);;
  upd (set_count (recovercount v - 1));;
  if recovercount v - 1 =? 0 then
    result (lit "failed: I seem to be in a signal loop. bailing out." ++ [NL]);; p_exit 1
  else mret (if si_code si =? 4 then recover_ctx else early_recover_ctx).

(** *** poison, recover, testmem *)

Definition killed_msg (msg : cstr) : prog (proc pv) unit := result (lit "failed: " ++ msg ++ lit ": killed" ++ [NL]);; upd failed.
Definition recovered : prog (proc pv) unit := mylog (lit "pass: recovered" ++ [NL]).
Definition busy_text : cstr :=
  lit "Kernel can't recover a reserved kernel zeroed page for " ++
  lit "the anonymous clean test case(expected failure)" ++ [NL].

Definition enter (page : Z) : prog (proc pv) unit := upd (set_expected page);; upd (set_count 5).
Definition poison (msg : cstr) (page : Z) (mode : rmode) (tc : test_case) : prog (proc pv) unit :=
  enter page;;
  r ← mem (MADVISE page PS MADV_POISON);
  match r with
  | inr (ret, errno) =>
      if nz ret then
        if errno =? EINVAL then
          result (lit "failed: Kernel doesn't support poison injection" ++ [NL]);; p_exit 0
        else if (errno =? EBUSY) && bool_decide (tc = ANON_CLEAN) then mylog busy_text
        else err (lit "error: madvise: " ++ strerror errno) errno
      else
        p_when (early_kill && expect_dead mode)
          (result (lit "failed: " ++ msg ++ lit ": process is not early killed" ++ [NL]);; upd failed)
  | inl si =>
      c ← sighandler si;
      match c with
      | recover_ctx => p_undef
      | early_recover_ctx => p_when early_kill (if expect_alive mode then killed_msg msg else recovered)
      end
  end.

(** The access [recover] makes: a signal, or what it logs afterwards. *)
Definition access (page : Z) (mode : rmode) : prog (proc pv) (option signal) :=
  match mode with
  | MWRITE => mylog (lit "writing 2" ++ [NL]);; r ← mem (STORE page 2); mret (match r with inl si => Some si | inr _ => None end)
  | MWRITE_OK => mylog (lit "writing 4" ++ [NL]);; r ← mem (STORE page 4); mret (match r with inl si => Some si | inr _ => None end)
  | MREAD | MREAD_OK =>
      r ← mem (LOAD page);
      match r with
      | inl si => mret (Some si)
      | inr (x, _) => mylog (lit "reading " ++ fmt_x (uchar x) ++ [NL]);; mret None
      end
  | MNOTHING => mret None
  end.
Definition recover (msg : cstr) (page : Z) (mode : rmode) : prog (proc pv) unit :=
  enter page;;
  r ← access page mode;
  match r with
  | None =>
      p_when (expect_dead mode)
        (result (lit "failed: " ++ msg ++ lit ": page is not poisoned after injection" ++ [NL]);; upd failed)
  | Some si =>
      c ← sighandler si;
      match c with
      | early_recover_ctx => p_undef
      | recover_ctx => if expect_alive mode then killed_msg msg else recovered
      end
  end.
Definition testmem (msg : cstr) (page : Z) (mode : rmode) (tc : test_case) : prog (proc pv) unit :=
  mylog (msg ++ lit " poisoning page " ++ fmt_p page ++ [NL]);;
  poison msg page mode tc;; recover msg page mode.

(** The value of a call that failed is -1, with its [errno]. *)
Definition pass_err (msg : cstr) (errno : Z) : prog (proc pv) unit :=
  mylog (lit "pass: expected error " ++ fmt_d errno ++ lit " on " ++ msg ++ [NL]).
Definition expecterr (msg : cstr) (r : Z * Z) : prog (proc pv) unit :=
  if fst r <? 0 then pass_err msg (snd r)
  else result (lit "failed: unexpected no error on " ++ msg ++ [NL]);; upd failed.
Definition optionalerr (msg : cstr) (r : Z * Z) : prog (proc pv) unit :=
  if fst r <? 0 then pass_err msg (snd r)
  else mylog (lit "LATER: expected likely incorrect no error on " ++ msg ++ [NL]);; upd surprised.

(** *** The cases *)

(** [playfile] with an empty name: the descriptor and the name. *)
Definition playfile : prog (proc pv) (Z * cstr) :=
  v ← get_vars;
  let buf := snprintf PATH_MAX (tmp_dir ++ lit "/dirty" ++ fmt_d (mypid v)) in
  '(fd, e) ← sys (OPEN buf [O_CREAT; O_RDWR; O_TRUNC]);
  p_when (fd <? 0) (err (lit "opening temporary file: " ++ buf) e);;
  xmalloc (PS * 5);;
  sys (WRITE fd (uchar <$> seqZ 0 (PS * 5)));;
  sys (LSEEK fd 0);;
  mret (fd, buf).

(** A load outside [sigsetjmp] is [load]. *)
Definition do_file_clean (flags : list map_flag) (name : cstr) : prog (proc pv) unit :=
  v ← get_vars;
  let fn := snprintf PATH_MAX (tmp_dir ++ lit "/clean" ++ fmt_d (mypid v)) in
  '(fd, e) ← sys (OPEN fn [O_RDWR; O_TRUNC; O_CREAT]);
  p_when (fd <? 0) (err (lit "opening temporary file: " ++ fn) e);;
  sys (WRITE fd (codes (take 4 fn)));;
  page ← checked_mmap PS [PROT_READ; PROT_WRITE] (MAP_SHARED :: flags) fd;
  sys (FSYNC fd);; sys (CLOSE fd);;
  testmem name page MREAD_OK FILE_CLEAN;;
  x ← load page;
  mylog (lit "reading " ++ fmt_x x ++ [NL]);;
  testmem name page MWRITE_OK FILE_CLEAN.

Definition ndesc (name add : cstr) : cstr := snprintf 100 (name ++ " "%char :: add).
Definition reopen (fn : cstr) : prog (proc pv) Z :=
  '(fd, e) ← sys (OPEN fn [O_RDONLY]);
  if fd <? 0 then err (lit "reopening temp file") e else mret fd.
Definition do_file_dirty (flags : list map_flag) (name : cstr) : prog (proc pv) unit :=
  '(fd, fn) ← playfile;
  page ← checked_mmap PS [PROT_READ] (MAP_SHARED :: MAP_POPULATE :: flags) fd;
  testmem (ndesc name (lit "initial")) page MREAD FILE_DIRTY;;
  r ← sys (MSYNC page PS); expecterr (lit "msync expect error") r;;
  sys (CLOSE fd);;
  munmap_reserve page PS;;
  fd ← reopen fn;
  page ← checked_mmap PS [PROT_READ] (MAP_SHARED :: MAP_POPULATE :: flags) fd;
  recover (ndesc name (lit "populated")) page MREAD_OK;;
  sys (CLOSE fd);;
  munmap_reserve page PS;;
  fd ← reopen fn;
  page ← checked_mmap PS [PROT_READ] (MAP_SHARED :: flags) fd;
  recover (ndesc name (lit "fault")) page MREAD_OK;;
  sys (CLOSE fd);;
  munmap_reserve page PS;;
  '(fd, _) ← sys (OPEN fn [O_RDWR]);
  r ← sys (READ fd 128); optionalerr (lit "explicit read after poison") r;;
  r ← sys (WRITE fd (codes (lit "foobar"))); optionalerr (lit "explicit write after poison") r;;
  r ← sys (FSYNC fd); optionalerr (lit "fsync expect error") r;;
  sys (CLOSE fd);;
  sys (UNLINK fn);; mret ().

Definition anonymous (flags : list map_flag) (msg : cstr) (mode : rmode) (tc : test_case) : prog (proc pv) Z :=
  page ← checked_mmap PS [PROT_READ; PROT_WRITE] (MAP_PRIVATE :: MAP_ANONYMOUS :: flags) 0;
  testmem msg page mode tc;; mret page.
Definition clean_anonymous : prog (proc pv) unit := anonymous [] (lit "clean") MWRITE_OK ANON_CLEAN;; mret ().

(** *** The shared memory test *)

Definition request_sem (num : Z) : prog (proc pv) unit := sys (SEMOP semid_ready num (-1));; mret ().
Definition waiton_sem (num : Z) : prog (proc pv) unit :=
  sys (SEMOP semid_ready num (-1));; sys (SEMOP semid_ready num 0);; mret ().
Definition release_sem (num : Z) : prog (proc pv) unit := sys (SEMOP semid_ready num 1);; mret ().
Definition shared_load (off : Z) : prog (proc pv) Z := r ← sys (SHARED_LOAD off); mret (fst r).
Definition shared_store (off v : Z) : prog (proc pv) unit := sys (SHARED_STORE off v);; mret ().

Definition shm_body : prog (proc pv) unit :=
  request_sem 0;;
  ready ← shared_load off_ready;
  p_when (ready =? 0)
    ('(id, e) ← sys (SHMGET 0 (shm_size * PS));
     shared_store off_shm_id id;;
     p_when (id <? 0) (err (lit "shmget error" ++ [NL]) e);;
     shared_store off_ready 1);;
  id ← shared_load off_shm_id;
  '(p, e) ← sys (SHMAT id);
  upd (set_shmptr p);;
  (if p =? -1 then err (lit "shmat error" ++ [NL]) e
   else v ← get_vars; store p (mypid v));;
  release_sem 0;;
  waiton_sem 1;;
  request_sem 0;;
  is_done ← shared_load off_done;
  (if is_done =? 0 then shared_store off_done 1;; testmem (lit "shm dirty") p MWRITE SHARED_MEM
   else recover (lit "shm dirty") p MREAD);;
  release_sem 0.

(** *** The children *)

Definition file_dirty_body : prog (proc pv) unit := do_file_dirty [] (lit "file dirty").
Definition file_dirty_mlocked_body : prog (proc pv) unit := do_file_dirty [MAP_LOCKED] (lit "file dirty mlocked").
(** What a case does between [shmat] and the test of [failure]. *)
Definition body (f : case_f) : prog (proc pv) unit :=
  match f with
  | shm_test => shm_body
  | anon_clean => clean_anonymous
  | dirty_anonymous => anonymous [MAP_POPULATE] (lit "dirty") MWRITE ANON_DIRTY;; mret ()
  | dirty_anonymous_unmap =>
      page ← anonymous [MAP_POPULATE] (lit "dirty") MWRITE ANON_DIRTY_UNMAP; munmap_reserve page PS
  | mlocked_anonymous => anonymous [MAP_LOCKED] (lit "mlocked") MWRITE ANON_DIRTY_MLOCKED;; mret ()
  | file_clean => do_file_clean [] (lit "file clean")
  | file_dirty => file_dirty_body
  | file_clean_mlocked => do_file_clean [MAP_LOCKED] (lit "file clean mlocked")
  | file_dirty_mlocked => file_dirty_mlocked_body
  end.
Definition shmat_ipc : prog (proc pv) Z :=
  '(ipc, e) ← sys (SHMAT ipc_entry);
  if ipc =? -1 then err (lit "shmat error" ++ [NL]) e else mret ipc.
(** A case up to the test of [failure]: the address of the structure. *)
Definition case_test (f : case_f) : prog (proc pv) Z :=
  ipc ← shmat_ipc;
  v ← get_vars;
  shared_store (off_id (instance v)) (testid v);;
  body f;;
  mret ipc.
(** A case: its result is stored if no failure was counted. *)
Definition run_case (f : case_f) : prog (proc pv) unit :=
  ipc ← case_test f;
  v ← get_vars;
  p_when (failure v =? 0) (shared_store (off_result (instance v)) TEST_PASS);;
  p_when (bool_decide (f = shm_test)) (sys (SHMDT (shmptr v));; mret ());;
  sys (SHMDT ipc);; mret ().
(** What a child does first: its number says which case it runs. *)
Definition child_setup (pid : Z) : prog (proc pv) case_f :=
  v ← get_vars;
  let j := Z.rem (instance v) test_types in
  upd (set_pid pid);;
  upd (set_testid j);;
  match case_of (instance v) with Some f => mret f | None => p_undef end.
Definition child_main (pid : Z) : prog (proc pv) unit := f ← child_setup pid; run_case f;; p_exit 0.

(** One turn of the loop that starts the children. *)
Definition spawn (i : Z) : prog (proc pv) unit :=
  '(pid, e) ← sys FORK;
  if pid <? 0 then err (lit "fork " ++ fmt_d i ++ [NL]) e
  else run_child (child_main pid);; upd (spawned pid).
(** One turn of the loop that waits for them. *)
Definition collect (i : Z) : prog (proc pv) unit :=
  t ← shared_load (off_id i);
  v ← get_vars;
  let pid := nth (Z.to_nat i) (g_pid v) 0 in
  mylog (lit "wait for Pid " ++ fmt_d pid ++ [NL]);;
  sys (WAITID pid);;
  r ← shared_load (off_result i);
  match cases !! Z.to_nat t with
  | None => p_undef
  | Some (_, name) =>
      if r =? TEST_PASS then
        result (lit "Ins " ++ fmt_d i ++ lit ": Pid " ++ fmt_d pid ++ lit ": pass - " ++ name ++ [NL])
      else
        result (lit "Ins " ++ fmt_d i ++ lit ": Pid " ++ fmt_d pid ++ lit ": failed - " ++ name ++ [NL]);;
        upd failed
  end.
Definition run_test (children : Z) : prog (proc pv) Z :=
  p_for (seqZ 0 children) spawn;;
  v ← get_vars;
  mylog (lit "have spawned " ++ fmt_d (instance v) ++ lit " processes" ++ [NL]);;
  p_when (nz (instance v))
    (ipc ← shmat_ipc;
     p_for (seqZ 0 (instance v)) collect;;
     sys (SHMDT ipc);; mret ());;
  v ← get_vars;
  if failure v =? 0 then
    result (TAB :: lit "!!! Page Poisoning Test got PASS. !!!" ++ [NL; NL]);; mret 0
  else
    result (TAB :: lit "!!! Page Poisoning Test is FAILED (" ++ fmt_d (failure v) ++ lit " failures found). !!!" ++ [NL; NL]);;
    mret 1.

(** *** The shared structure *)

Definition free_ipc : prog (proc pv) unit :=
  sys (SEMCTL_RMID semid_ready);;
  ipc ← shmat_ipc;
  id ← shared_load off_shm_id;
  p_when (negb (id =? -1)) (sys (SHMCTL_RMID id);; mret ());;
  sys (SHMDT ipc);;
  sys (SHMCTL_RMID ipc_entry);; mret ().
(** On SIGINT or SIGTERM. *)
Definition cleanup : prog (proc pv) unit :=
  v ← get_vars;
  p_for (g_pid v) (λ pid, sys (KILL pid 9);; mret ());;
  free_ipc.
Definition main_sighandler : prog (proc pv) unit :=
  mylog (lit "receive signal to get terminated" ++ [NL]);; cleanup;; p_exit 1.
End PagePoisoning.

(** The segment and the semaphores, which [main] creates for its children. *)
Definition setup_ipc `{OS : hwp_os} (strerror : Z → cstr) (child_num : Z) : prog (proc pv) (Z * Z) :=
  '(ipc_entry, e) ← sys (SHMGET 0 sizeof_ipc);
  p_when (ipc_entry <? 0) (err strerror (lit "shmget error" ++ [NL]) e);;
  ipc ← shmat_ipc strerror ipc_entry;
  sys SHARED_CLEAR;;
  shared_store off_shm_id (-1);;
  sys (SHMDT ipc);;
  '(semid, _) ← sys (SEMGET 2);
  sys (SEMCTL_SETVAL semid 0 1);;
  let n := shm_children child_num test_types t_shm in
  p_when (nz n)
    (sys (SEMCTL_SETVAL semid 1 n);;
     mylog strerror (lit "there are " ++ fmt_d n ++ lit " shm_child" ++ [NL]));;
  mret (ipc_entry, semid).

(** *** The options *)

Record conf := Conf {
  clean_env : bool; child_num : Z; log_file : cstr; result_file : cstr; conf_shm_size : Z; conf_tmp_dir : cstr
}.
Definition conf0 : conf :=
  Conf false INSTANCE_NUM (lit "page-poisoning.log") (lit "page-poisoning.result") SHM_SIZE (lit "./tmp").
(** What [getopt_long] returns: a long option comes without an argument. *)
Inductive p_opt := p_C | p_h | p_i (optarg : option cstr) | p_l (optarg : option cstr) | p_r (optarg : option cstr)
| p_s (optarg : option cstr) | p_t (optarg : option cstr) | p_other | p_wild.
(** The table ends with an empty name, which does not end it. *)
Definition poison_table : opt_table :=
  OptTable (lit "Chi:l:r:s:t:") (Some (long_table
    [("clean", false, "C"%char); ("help", false, "h"%char); ("instance", false, "i"%char); ("log", false, "l"%char); ("result", false, "r"%char);
     ("shmsize", false, "s"%char); ("tmpdir", false, "t"%char); (String.EmptyString, false, NUL)]%string, false)).
Definition p_opt_of (r : opt_ret) : p_opt :=
  match r with
  | Got "C" _ => p_C | Got "h" _ => p_h | Got "i" a => p_i a | Got "l" a => p_l a | Got "r" a => p_r a
  | Got "s" a => p_s a | Got "t" a => p_t a | Wild => p_wild | _ => p_other
  end%char.
Definition help : cstr :=
  text [
    "Usage: page-poisoning [OPTION]...";
    "Stress test for Linux HWPOISON Page Recovery with multiple processes.";
    "";
    "Mandatory arguments to long options are mandatory for short options too.";
    "  -C, --clean                record log and result in clean files.";
    "  -h                         print this page"]%string ++
  lit "  -i, --child_num=NUM        spawn NUM processes to do test (default NUM = " ++ fmt_d INSTANCE_NUM ++ lit ")" ++ NL ::
  text [
    "  -l, --log=LOG              record logs to file LOG.";
    "  -r, --result=RESULT        record test result to file RESULT.";
    "  -s, --shmsize=SIZE         each shared memory segment is SIZE-page based.";
    "  -t, --tmpdir=DIR           create temporary files in DIR.";
    ""]%string.
(** [strtol(optarg, NULL, 0)] to an [int]. *)
Definition strtol_int (s : cstr) : Z := i32 (fst (strtoll s 0)).
Definition to_path (s : cstr) : cstr := snprintf PATH_MAX s.
(** The loop of [main]: the settings, or nothing when [help] ends it. *)
Fixpoint main_opts (options : list p_opt) (c : conf) : res (option conf) :=
  match options with
  | [] => Ok (Some c)
  | o :: l =>
      let '(Conf clean n log result shm dir) := c in
      match o with
      | p_C => main_opts l (Conf true n log result shm dir)
      | p_h | p_other => Ok None
      | p_i (Some s) =>
          main_opts l (Conf clean (if INSTANCE_NUM <? strtol_int s then INSTANCE_NUM else strtol_int s) log result shm dir)
      | p_l (Some s) => main_opts l (Conf clean n (to_path s) result shm dir)
      | p_r (Some s) => main_opts l (Conf clean n log (to_path s) shm dir)
      | p_s (Some s) =>
          main_opts l (Conf clean n log result (if strtol_int s <? SHM_SIZE then SHM_SIZE else strtol_int s) dir)
      | p_t (Some s) => main_opts l (Conf clean n log result shm (to_path s))
      | p_wild | p_i None | p_l None | p_r None | p_s None | p_t None => Undef
      end
  end.

Definition setup_log `{OS : hwp_os} (strerror : Z → cstr) (c : conf) : prog (proc pv) unit :=
  '(fd, e) ← sys (FOPEN (log_file c) (negb (clean_env c)));
  upd (set_log fd);;
  p_when (fd =? 0) (err strerror (lit "cannot open log file: " ++ log_file c ++ [NL]) e);;
  '(fd, e) ← sys (FOPEN (result_file c) (negb (clean_env c)));
  upd (set_result fd);;
  p_when (fd =? 0) (err strerror (lit "cannot open log file: " ++ result_file c ++ [NL]) e);;
  match conf_tmp_dir c with
  | [] => mret ()
  | dir =>
      '(rc, e) ← sys (MKDIR dir);
      p_when (nz rc && negb (e =? EEXIST))
        (err strerror (lit "cannot create tmp dir: " ++ dir ++ lit ": " ++ strerror e ++ [NL]) e)
  end.
Definition free_log `{OS : hwp_os} : prog (proc pv) unit :=
  v ← get_vars; sys (CLOSE (log_fd v));; sys (CLOSE (result_fd v));; mret ().

(** The handlers; that of SIGINT and SIGTERM is [main_sighandler], and SIGKILL has
    none. *)
Definition setup_sig `{OS : hwp_os} : prog (proc pv) unit := set_sigbus SIG_HANDLER.
(** [main]; its process is [pid]. *)
Definition page_poisoning_main `{OS : hwp_os} (strerror : Z → cstr) (pid : Z) (options : list p_opt) : prog (proc pv) Z :=
  o ← p_lift (main_opts options conf0);
  match o with
  | None => put help;; mret 0
  | Some c =>
      p_when (negb early_kill) (sys (SYSTEM (lit "sysctl -w vm.memory_failure_early_kill=0"));; mret ());;
      upd (set_pid pid);;
      setup_log strerror c;;
      if child_num c =? 0 then
        mylog strerror (lit "end without test executed since child_num = 0" ++ [NL]);; mret 0
      else
        mylog strerror (lit "start page-poisoning test" ++ [NL]);;
        let PS := os_pagesize in
        '(ipc_entry, semid) ← setup_ipc strerror (child_num c);
        setup_sig;;
        rc ← run_test strerror PS (conf_tmp_dir c) (conf_shm_size c) ipc_entry semid (child_num c);
        free_ipc strerror ipc_entry semid;;
        mylog strerror (lit "page-poisoning test done!" ++ [NL]);;
        free_log;;
        mret rc
  end.

Definition page_poisoning `{OS : hwp_os} (strerror : Z → cstr) (pid : Z) (args : list cstr) : prog (proc pv) Z :=
  page_poisoning_main strerror pid (p_opt_of <$> calls (getopt poison_table args)).

(** ** What the programs keep *)

Definition statuses : list Z := [0; 1; ENOMEM].
Definition same_child (v v' : pv) : Prop := instance v = instance v' ∧ failure v ≤ failure v'.
#[export] Instance same_child_preorder : PreOrder same_child.
Proof. split; [done|]. intros u v w [H1 H2] [H3 H4]. split; [congruence|lia]. Qed.
(** A request that leaves [test[]] of the shared structure alone. *)
Definition slot_free (r : request) : Prop :=
  match r with SHARED_STORE off _ => off_shm_id ≤ off | SHARED_CLEAR => False | _ => True end.
Notation same_child_of p := (behaves same_child statuses p).
Notation same_vars p := (behaves (@eq pv) statuses p).
Notation no_slot p := (issues slot_free p).

Ltac same_step :=
  match goal with
  | |- behaves same_child _ (upd _) => apply behaves_upd; intros []; split; simpl; [done|lia]
  | |- issues _ (sys (SHARED_STORE _ _)) => apply issues_sys; unfold slot_free, off_shm_id, off_ready, off_done; lia
  | |- behaves _ _ _ => behaves_step
  | |- issues _ _ => issues_step
  | |- PreOrder _ => typeclasses eauto
  end.
Ltac same := repeat same_step.

(** The logs do not change the variables. *)
Section Logs.
Context {OS : hwp_os} (strerror : Z → cstr).

Lemma vars_log_open text : same_vars (mylog_open text) ∧ no_slot (mylog_open text).
Proof. unfold mylog_open, to_buf. split; same. Qed.
Lemma vars_result_open text : same_vars (result_open text) ∧ no_slot (result_open text).
Proof. pose proof (λ t, proj1 (vars_log_open t)). pose proof (λ t, proj2 (vars_log_open t)). unfold result_open, to_buf. split; same. Qed.
Lemma vars_err {A} text errno : same_vars (err (A := A) strerror text errno) ∧ no_slot (err (A := A) strerror text errno).
Proof. pose proof (λ t, proj1 (vars_result_open t)). pose proof (λ t, proj2 (vars_result_open t)). unfold err, to_buf. split; same. Qed.
Lemma vars_mylog text : same_vars (mylog strerror text) ∧ no_slot (mylog strerror text).
Proof.
  pose proof (λ t, proj1 (vars_log_open t)). pose proof (λ t, proj2 (vars_log_open t)).
  pose proof (λ t e, proj1 (vars_err (A := unit) t e)). pose proof (λ t e, proj2 (vars_err (A := unit) t e)).
  unfold mylog. split; same.
Qed.
Lemma vars_result text : same_vars (result strerror text) ∧ no_slot (result strerror text).
Proof.
  pose proof (λ t, proj1 (vars_result_open t)). pose proof (λ t, proj2 (vars_result_open t)).
  pose proof (λ t e, proj1 (vars_err (A := unit) t e)). pose proof (λ t e, proj2 (vars_err (A := unit) t e)).
  unfold result. split; same.
Qed.
Lemma vars_child {A} (p : prog (proc pv) A) : same_vars p → same_child_of p.
Proof.
  intros Hp s. specialize (Hp s). destruct (p s) as [[a|c| |] s']; try done.
  destruct Hp as [Hk <-]. by split.
Qed.
End Logs.

(** Both at once. *)
Definition tame `{OS : hwp_os} {A} (p : prog (proc pv) A) : Prop := same_child_of p ∧ no_slot p.

Section Tame.
Context {OS : hwp_os}.
Lemma tame_bind {A B} (p : prog (proc pv) A) (f : A → prog (proc pv) B) : tame p → (∀ a, tame (f a)) → tame (p ≫= f).
Proof.
  intros [H1 H2] Hf. split; [apply behaves_bind; [apply _|done|apply Hf]|apply issues_bind; [done|apply Hf]].
Qed.
Lemma tame_ret {A} (a : A) : tame (mret a).
Proof. split; same. Qed.
Lemma tame_exit {A} c : c ∈ statuses → tame (p_exit c : prog (proc pv) A).
Proof. intros. split; [by apply behaves_exit|same]. Qed.
Lemma tame_undef {A} : tame (p_undef : prog (proc pv) A).
Proof. split; same. Qed.
Lemma tame_get : tame get_vars.
Proof. split; same. Qed.
Lemma tame_upd f : (∀ v, same_child v (f v)) → tame (upd f).
Proof. intros. split; [by apply behaves_upd|same]. Qed.
Lemma tame_sys r : slot_free r → tame (sys r).
Proof. intros. split; [same|by apply issues_sys]. Qed.
Lemma tame_mem r : slot_free r → tame (mem r).
Proof. intros. split; [same|by apply issues_mem]. Qed.
Lemma tame_when c p : tame p → tame (p_when c p).
Proof. intros []. split; [apply behaves_when; [apply _|done]|by apply issues_when]. Qed.
Lemma tame_for {A} (l : list A) f : (∀ a, tame (f a)) → tame (p_for l f).
Proof. intros H. split; [apply behaves_for; [apply _|apply H]|apply issues_for; apply H]. Qed.
Context (strerror : Z → cstr).
Lemma tame_err {A} text errno : tame (err (A := A) strerror text errno).
Proof. destruct (vars_err (A := A) strerror text errno). split; [by apply vars_child|done]. Qed.
Lemma tame_mylog text : tame (mylog strerror text).
Proof. destruct (vars_mylog strerror text). split; [by apply vars_child|done]. Qed.
Lemma tame_result text : tame (result strerror text).
Proof. destruct (vars_result strerror text). split; [by apply vars_child|done]. Qed.
Lemma tame_load a : tame (load a).
Proof. unfold load. apply tame_bind; [by apply tame_mem|]. intros [|[]]; [apply tame_undef|apply tame_ret]. Qed.
Lemma tame_store a v : tame (store a v).
Proof. unfold store. apply tame_bind; [by apply tame_mem|]. intros [|]; [apply tame_undef|apply tame_ret]. Qed.
End Tame.

Create HintDb tame.
#[export] Hint Resolve tame_ret tame_undef tame_get tame_err tame_mylog tame_result tame_load tame_store : tame.
Ltac tame_step :=
  match goal with
  | |- tame (mbind _ _) => apply tame_bind; [|intros ?]
  | |- tame (p_when _ _) => apply tame_when
  | |- tame (p_for _ _) => apply tame_for; intros ?
  | |- tame (sys _) => apply tame_sys; first [done | unfold slot_free, off_shm_id, off_ready, off_done; lia]
  | |- tame (mem _) => apply tame_mem; done
  | |- tame (p_exit _) => apply tame_exit; set_solver
  | |- tame (upd _) => apply tame_upd; intros []; split; simpl; [done|lia]
  | |- tame (match ?x with _ => _ end) => destruct x
  | |- tame _ => solve [eauto 2 with tame]
  end.
Ltac tame := repeat tame_step.

Section Bodies.
Context {OS : hwp_os} (strerror : Z → cstr) (PS : Z) (tmp_dir : cstr) (shm_size ipc_entry semid_ready : Z).

Lemma tame_mmap length prot flags fd : tame (checked_mmap strerror length prot flags fd).
Proof. unfold checked_mmap. tame. Qed.
Lemma tame_munmap page size : tame (munmap_reserve page size).
Proof. unfold munmap_reserve. tame. Qed.
Lemma tame_sighandler si : tame (sighandler strerror si).
Proof. unfold sighandler. tame. Qed.
Lemma tame_access page mode : tame (access strerror page mode).
Proof. unfold access. tame. Qed.
Hint Resolve tame_mmap tame_munmap tame_sighandler tame_access : tame.
Lemma tame_poison msg page mode tc : tame (poison strerror PS msg page mode tc).
Proof. unfold poison, enter, killed_msg, recovered. tame. Qed.
Lemma tame_recover msg page mode : tame (recover strerror msg page mode).
Proof. unfold recover, enter, killed_msg, recovered. tame. Qed.
Hint Resolve tame_poison tame_recover : tame.
Lemma tame_testmem msg page mode tc : tame (testmem strerror PS msg page mode tc).
Proof. unfold testmem. tame. Qed.
Lemma tame_expecterr msg r : tame (expecterr strerror msg r).
Proof. unfold expecterr, pass_err. tame. Qed.
Lemma tame_optionalerr msg r : tame (optionalerr strerror msg r).
Proof. unfold optionalerr, pass_err. tame. Qed.
Lemma tame_playfile : tame (playfile strerror PS tmp_dir).
Proof. unfold playfile, xmalloc. tame. Qed.
Hint Resolve tame_testmem tame_expecterr tame_optionalerr tame_playfile : tame.
Lemma tame_anonymous flags msg mode tc : tame (anonymous strerror PS flags msg mode tc).
Proof. unfold anonymous. tame. Qed.
Hint Resolve tame_anonymous : tame.
Lemma tame_shm : tame (shm_body strerror PS shm_size semid_ready).
Proof. unfold shm_body, request_sem, release_sem, waiton_sem, shared_load, shared_store. tame. Qed.
Hint Resolve tame_shm : tame.

(** No case writes to the results of the children but through its end. *)
Lemma tame_body f : tame (body strerror PS tmp_dir shm_size semid_ready f).
Proof. destruct f; simpl; unfold clean_anonymous, file_dirty_body, file_dirty_mlocked_body, do_file_clean, do_file_dirty, reopen; tame. Qed.
Lemma tame_shmat : tame (shmat_ipc strerror ipc_entry).
Proof. unfold shmat_ipc. tame. Qed.
End Bodies.

(** ** The shared structure and the verdict *)

(** What a field of the shared structure holds after these requests. *)
Fixpoint last_shared (h : list request) (off : Z) : option Z :=
  match h with
  | [] => None
  | SHARED_STORE o v :: h => if o =? off then Some v else last_shared h off
  | SHARED_CLEAR :: _ => Some 0
  | _ :: h => last_shared h off
  end.
(** Memory that is shared: after a wait for a child its stores are seen. *)
Class shared_laws {OS : hwp_os} := {
  law_shared h pid off v : last_shared h off = Some v → fst (os_value (WAITID pid :: h) (SHARED_LOAD off)) = v
}.

(** Stores to [test[]] that tell a case only. *)
Definition tells (r : request) : Prop := slot_free r ∨ ∃ i v, r = SHARED_STORE (off_id i) v.
Lemma last_shared_tells rs h j : Forall tells rs → 0 ≤ j < INSTANCE_NUM →
  last_shared (rs ++ h) (off_result j) = last_shared h (off_result j).
Proof.
  intros Hrs Hj. induction Hrs as [|r rs Hr _ IH]; [done|]. simpl.
  destruct Hr as [Hr|(i & v & ->)].
  - destruct r; try done; simpl in Hr; unfold off_result, off_shm_id in *.
    destruct (Z.eqb_spec off (8 * j + 4)); [lia|done].
  - unfold off_id, off_result in *. destruct (Z.eqb_spec (8 * i) (8 * j + 4)); [lia|done].
Qed.
Lemma issues_tells `{OS : hwp_os} {A} (p : prog (proc pv) A) : no_slot p → issues tells p.
Proof.
  intros Hp s. destruct (Hp s) as (rs & E & H). exists rs. split; [done|].
  eapply Forall_impl; [done|]. intros r Hr. by left.
Qed.

Section Verdict.
Context {OS : hwp_os} {Laws : shared_laws} (strerror : Z → cstr) (PS : Z) (tmp_dir : cstr)
  (shm_size ipc_entry semid_ready : Z).
Notation case_test := (case_test strerror PS tmp_dir shm_size ipc_entry semid_ready).
Notation child_main := (child_main strerror PS tmp_dir shm_size ipc_entry semid_ready).
Notation spawn := (spawn strerror PS tmp_dir shm_size ipc_entry semid_ready).
Notation run_test := (run_test strerror PS tmp_dir shm_size ipc_entry semid_ready).

(** The child [pid] that starts in [s] runs its case to the end and counts no
    failure. *)
Definition passes (pid : Z) (s : proc pv) : bool :=
  match (f ← child_setup pid; case_test f) s with
  | (Ok _, s1) => failure (vars s1) =? 0
  | _ => false
  end.

Lemma case_test_tells f : issues tells (case_test f) ∧ same_child_of (case_test f).
Proof.
  unfold PagePoison.case_test.
  destruct (tame_shmat strerror ipc_entry) as [S1 S2]. destruct (tame_body strerror PS tmp_dir shm_size semid_ready f) as [B1 B2].
  split; [|unfold shared_store; same].
  apply issues_bind; [by apply issues_tells|intros ipc]. apply issues_bind; [same|intros v].
  apply issues_bind; [unfold shared_store; apply issues_bind; [apply issues_sys; right; by eexists _, _|intros ?; same]|intros _].
  apply issues_bind; [by apply issues_tells|intros ?; same].
Qed.

Lemma child_setup_run pid s : ∃ f, child_setup pid s = (f, Proc (hist s) (out s) (sigbus s) (killed s)
  (set_testid (Z.rem (instance (vars s)) test_types) (set_pid pid (vars s)))) ∧ (f = Undef ∨ ∃ g, f = Ok g).
Proof.
  unfold child_setup. hsteps. destruct (case_of _) as [f|]; hsteps; eexists; (split; [done|]); eauto.
Qed.

(** A child writes its own result only, and only when it passes. *)
Lemma child_slots pid s : 0 ≤ instance (vars s) < INSTANCE_NUM →
  ∀ j, 0 ≤ j < INSTANCE_NUM → last_shared (hist (child_main pid s).2) (off_result j) =
    if (j =? instance (vars s)) && passes pid s then Some TEST_PASS else last_shared (hist s) (off_result j).
Proof.
  intros Hi j Hj. unfold PagePoison.child_main, passes.
  destruct (child_setup_run pid s) as (f & E & Hf). rewrite !p_bind_run, E.
  destruct Hf as [->|[g ->]]; [by rewrite andb_false_r|].
  set (s0 := Proc _ _ _ _ _). destruct (case_test_tells g) as [Ht Hs].
  destruct (Ht s0) as (rs & Eh & Hrs). specialize (Hs s0). rewrite p_bind_run. unfold run_case. rewrite p_bind_run.
  destruct (case_test g s0) as [[ipc|c| |] s1]; cbn [snd] in *;
    try (rewrite andb_false_r, Eh; by rewrite last_shared_tells).
  destruct Hs as [_ [Hinst _]].
  assert (instance (vars s1) = instance (vars s)) as Hinst'.
  { rewrite <- Hinst. unfold s0. cbn [vars]. by destruct (vars s). }
  assert (last_shared (hist s1) (off_result j) = last_shared (hist s) (off_result j)) as Hl
    by (rewrite Eh; by apply last_shared_tells).
  clear Ht Eh Hrs Hinst. hsteps. unfold shared_store.
  destruct (failure (vars s1) =? 0); hsteps; cbn [os_value];
    destruct (bool_decide (g = shm_test)); hsteps;
    cbn [last_shared]; rewrite ?Hinst'; unfold off_result in *;
    rewrite ?andb_true_r, ?andb_false_r; try done.
  all: destruct (Z.eqb_spec j (instance (vars s))), (Z.eqb_spec (8 * instance (vars s) + 4) (8 * j + 4)); (done || lia).
Qed.

(** What a child started in [s] starts with. *)
Definition child_start (s : proc pv) : proc pv := Proc (FORK :: hist s) (out s) (sigbus s) false (vars s).
Definition fork_pid (s : proc pv) : Z := fst (os_value (hist s) FORK).
(** The state in which child [i] is started, when [run_test] starts in [s]. *)
Definition before (i : Z) (s : proc pv) : proc pv := (p_for (seqZ 0 i) spawn s).2.
Definition passed (i : Z) (s : proc pv) : bool := passes (fork_pid (before i s)) (child_start (before i s)).

Lemma spawn_run i s s' : spawn i s = (Ok (), s') →
  vars s' = spawned (fork_pid s) (vars s) ∧ hist s' = hist (child_main (fork_pid s) (child_start s)).2.
Proof.
  unfold PagePoison.spawn, fork_pid, child_start. hsteps. destruct (os_value (hist s) FORK) as [pid e]. hsteps.
  destruct (pid <? 0).
  { intros E. destruct (vars_err (A := unit) strerror (lit "fork " ++ fmt_d i ++ [NL]) e) as [He _].
    assert (∀ q, (err (A := unit) strerror (lit "fork " ++ fmt_d i ++ [NL]) e q).1 ≠ Ok ()) as Hno.
    { intros q. unfold err. rewrite p_bind_run. destruct (to_buf _ _) as [[a|c| |] q1]; try done. hsteps.
      destruct (p_when _ _ _) as [[u|c| |] q2]; by cbn. }
    exfalso. eapply Hno. by rewrite E. }
  unfold run_child. hsteps. destruct (child_main pid _) as [r sc]. cbn [snd].
  unfold wait_of. destruct r; hsteps; try done; intros [= <-]; by split.
Qed.

(** Nothing has been tested yet, and all results are clear. *)
Definition fresh (s : proc pv) : Prop :=
  instance (vars s) = 0 ∧ failure (vars s) = 0 ∧
  ∀ j, 0 ≤ j < INSTANCE_NUM → last_shared (hist s) (off_result j) = Some 0.

Lemma spawned_fields pid v : instance (spawned pid v) = instance v + 1 ∧ failure (spawned pid v) = failure v.
Proof. by destruct v. Qed.

Lemma spawn_loop n s sn : fresh s → (Z.of_nat n ≤ INSTANCE_NUM) →
  p_for (seqZ 0 (Z.of_nat n)) spawn s = (Ok (), sn) →
  instance (vars sn) = Z.of_nat n ∧ failure (vars sn) = 0 ∧
  ∀ j, 0 ≤ j < INSTANCE_NUM →
    last_shared (hist sn) (off_result j) = Some (if (j <? Z.of_nat n) && passed j s then TEST_PASS else 0).
Proof.
  intros (Hi & Hf & Hs). revert sn. induction n as [|n IH]; intros sn Hn E.
  { injection E as <-. split_and!; [done|done|]. intros j Hj. change (Z.of_nat 0) with 0. destruct (Z.ltb_spec j 0); [lia|]. by apply Hs. }
  rewrite Nat2Z.inj_succ in *. unfold Z.succ in *. rewrite seqZ_snoc in E by lia.
  rewrite (p_for_app (seqZ 0 (Z.of_nat n)) [Z.of_nat n] spawn s) in E.
  apply p_bind_inv in E as ([] & s1 & E1 & E). destruct (IH s1 ltac:(lia) E1) as (Hi1 & Hf1 & Hs1).
  cbn [p_for] in E.
  apply p_bind_inv in E as ([] & s2 & E2 & E). injection E as <-.
  apply spawn_run in E2 as [Hv Hh]. destruct (spawned_fields (fork_pid s1) (vars s1)) as [Hi2 Hf2].
  rewrite Hv, Hi2, Hf2, Hh. split_and!; [lia|lia|]. intros j Hj.
  rewrite child_slots by (cbn; lia || done). cbn [vars child_start]. rewrite Hi1.
  assert (before (Z.of_nat n) s = s1) as Hb by (unfold before; by rewrite E1).
  cbn [hist child_start last_shared]. rewrite Hs1 by done.
  destruct (Z.eqb_spec j (Z.of_nat n)) as [->|]; cbn [andb].
  - unfold passed. rewrite Hb. destruct (Z.ltb_spec (Z.of_nat n) (Z.of_nat n + 1)), (Z.ltb_spec (Z.of_nat n) (Z.of_nat n)); try lia.
    cbn [andb]. by destruct (passes _ _).
  - destruct (Z.ltb_spec j (Z.of_nat n)), (Z.ltb_spec j (Z.of_nat n + 1)); (done || lia).
Qed.

(** Requests that leave the results alone. *)
Lemma tame_keeps {A} (p : prog (proc pv) A) s j : tame p → 0 ≤ j < INSTANCE_NUM →
  last_shared (hist (p s).2) (off_result j) = last_shared (hist s) (off_result j).
Proof.
  intros [_ Hp] Hj. destruct (issues_tells p Hp s) as (rs & -> & H). by apply last_shared_tells.
Qed.
Lemma log_run text s s' (p := mylog strerror text) : p s = (Ok (), s') → vars s' = vars s.
Proof. intros E. destruct (vars_mylog strerror text) as [H _]. specialize (H s). fold p in H. rewrite E in H. by destruct H. Qed.
Lemma result_run text s s' (p := result strerror text) : p s = (Ok (), s') → vars s' = vars s.
Proof. intros E. destruct (vars_result strerror text) as [H _]. specialize (H s). fold p in H. rewrite E in H. by destruct H. Qed.

Lemma tame_collect i : tame (collect strerror i).
Proof. unfold collect, shared_load. tame. Qed.

Lemma failed_failure v : failure (failed v) = failure v + 1.
Proof. by destruct v. Qed.

Lemma collect_run i s s' r : collect strerror i s = (Ok (), s') → 0 ≤ i < INSTANCE_NUM →
  last_shared (hist s) (off_result i) = Some r →
  failure (vars s') = failure (vars s) + (if r =? TEST_PASS then 0 else 1).
Proof.
  unfold collect, shared_load. intros E Hi Hr. revert E. hsteps.
  destruct (os_value (hist s) (SHARED_LOAD (off_id i))) as [t e]. hsteps.
  match goal with |- context [mylog strerror ?txt ?st] => set (s1 := st); destruct (mylog strerror txt s1) as [[[]|c| |] s2] eqn:E2; try done;
    pose proof (tame_keeps _ s1 i (tame_mylog strerror txt) Hi) as Hk end.
  apply log_run in E2 as Hv. rewrite E2 in Hk. cbn [snd] in Hk.
  assert (last_shared (hist s2) (off_result i) = Some r) as Hr2 by (rewrite Hk; exact Hr).
  hsteps. pose proof (law_shared (hist s2) (nth (Z.to_nat i) (g_pid (vars s)) 0) _ _ Hr2) as Hl.
  destruct (os_value (WAITID _ :: hist s2) (SHARED_LOAD (off_result i))) as [x e2]. cbn [fst] in Hl. subst x. hsteps.
  destruct (cases !! Z.to_nat t) as [[f name]|]; [|done].
  destruct (r =? TEST_PASS).
  - intros E. apply result_run in E. rewrite E. cbn [vars]. rewrite Hv. cbn. lia.
  - intros E. apply p_bind_inv in E as ([] & s3 & E & E3). apply result_run in E. injection E3 as <-. cbn [vars].
    rewrite failed_failure, E. cbn [vars]. by rewrite Hv.
Qed.

Lemma collect_loop l s s' (res : Z → Z) : p_for l (collect strerror) s = (Ok (), s') →
  (∀ i, i ∈ l → 0 ≤ i < INSTANCE_NUM ∧ last_shared (hist s) (off_result i) = Some (res i)) →
  failure (vars s) ≤ failure (vars s') ∧
  (failure (vars s') = failure (vars s) ↔ ∀ i, i ∈ l → res i = TEST_PASS).
Proof.
  revert s. induction l as [|i l IH]; intros s E Hl.
  { injection E as <-. split; [done|]. split; [|done]. intros _ i ?%elem_of_nil. done. }
  cbn [p_for] in E. apply p_bind_inv in E as ([] & s1 & E1 & E).
  destruct (Hl i ltac:(left)) as [Hi Hr]. pose proof (collect_run _ _ _ _ E1 Hi Hr) as Hf.
  destruct (IH s1 E) as [H1 H2].
  { intros j Hj. destruct (Hl j ltac:(by right)) as [? <-]. split; [done|].
    rewrite <- (tame_keeps _ s j (tame_collect i)) by done. by rewrite E1. }
  destruct (Z.eqb_spec (res i) TEST_PASS) as [Hp|Hp].
  - split; [lia|]. rewrite Hf, Z.add_0_r in H2. rewrite H2. split; [|intros H j Hj; apply H; by right].
    intros H j [->|Hj]%elem_of_cons; [done|by apply H].
  - split; [lia|]. split; [lia|]. intros H. destruct Hp. apply H. left.
Qed.

(** C3: [run_test] returns 0 or 1, and it returns 0 exactly when every child it
    started ran its case to the end without counting a failure: a child that
    SIGBUS kills, that [err] ends, or that leaves early because the kernel
    cannot inject poison, has not stored its result and counts as a failure. *)
Theorem run_test_verdict n s s' rc : fresh s → 0 ≤ n ≤ INSTANCE_NUM → run_test n s = (Ok rc, s') →
  (rc = 0 ∨ rc = 1) ∧ (rc = 0 ↔ ∀ i, 0 ≤ i < n → passed i s = true).
Proof.
  intros Hfresh Hn E. unfold PagePoison.run_test in E.
  apply p_bind_inv in E as ([] & s1 & E1 & E).
  assert (n = Z.of_nat (Z.to_nat n)) as Hnn by lia. rewrite Hnn in E1.
  destruct (spawn_loop (Z.to_nat n) s s1 Hfresh ltac:(lia) E1) as (Hi & Hf & Hs). rewrite <- Hnn in *. clear Hnn E1.
  apply p_bind_inv in E as (v & s1' & Ev & E). injection Ev as <- <-.
  apply p_bind_inv in E as ([] & s2 & E2 & E).
  pose proof (λ j, tame_keeps (mylog strerror (lit "have spawned " ++ fmt_d (instance (vars s1)) ++ lit " processes" ++ [NL]))
    s1 j (tame_mylog strerror _)) as Hk. rewrite E2 in Hk. apply log_run in E2.
  apply p_bind_inv in E as ([] & s3 & E3 & E).
  assert (0 ≤ failure (vars s3) ∧ (failure (vars s3) = 0 ↔ ∀ i, 0 ≤ i < n → passed i s = true)) as [Hpos Hiff].
  { rewrite Hi in E3. unfold p_when, nz in E3. destruct (Z.eqb_spec n 0) as [->|Hne]; cbn [negb] in E3.
    { injection E3 as <-. rewrite E2, Hf. split; [done|]. split; [|done]. intros _ i ?. lia. }
    apply p_bind_inv in E3 as (ipc & s4 & E4 & E3). apply p_bind_inv in E3 as ([] & s5 & E5 & E3).
    assert (vars s3 = vars s5) as -> by (injection E3 as <-; done).
    pose proof (tame_shmat strerror ipc_entry) as Ht.
    assert (vars s4 = vars s2) as Hv4.
    { revert E4. unfold shmat_ipc. hsteps. destruct (os_value (hist s2) (SHMAT ipc_entry)) as [a e].
      destruct (a =? -1); [|by intros [= _ <-]].
      intros E4. destruct (vars_err (A := Z) strerror (lit "shmat error" ++ [NL]) e) as [H _].
      specialize (H (Proc (SHMAT ipc_entry :: hist s2) (out s2) (sigbus s2) (killed s2) (vars s2))).
      rewrite E4 in H. by destruct H. }
    destruct (collect_loop _ _ _ (λ j, if (j <? n) && passed j s then TEST_PASS else 0) E5) as [H1 H2].
    { intros i Hin%elem_of_seqZ. split; [lia|]. pose proof (tame_keeps _ s2 i Ht ltac:(lia)) as Hk4. rewrite E4 in Hk4.
      cbn [snd] in Hk4, Hk. rewrite Hk4, (Hk i) by lia. apply Hs. lia. }
    rewrite Hv4, E2, Hf in *. split; [done|]. rewrite H2. setoid_rewrite elem_of_seqZ. split.
    - intros H i Hin. specialize (H i ltac:(lia)). destruct (Z.ltb_spec i n); [|lia]. by destruct (passed i s).
    - intros H i Hin. rewrite H by lia. destruct (Z.ltb_spec i n); [done|lia]. }
  revert E. hsteps. destruct (Z.eqb_spec (failure (vars s3)) 0) as [H0|H0].
  - intros E. apply p_bind_inv in E as ([] & s4 & _ & E). injection E as <- _. tauto.
  - intros E. apply p_bind_inv in E as ([] & s4 & _ & E). injection E as <- _. split; [tauto|]. split; [done|]. tauto.
Qed.
End Verdict.

(** ** The barrier *)

(** The children that run the shared memory test. *)
Definition shm_instances (n : Z) : list Z := filter (λ i, case_of i = Some shm_test) (seqZ 0 n).

Lemma shm_children_step T t n : 0 ≤ t < T → 0 ≤ n →
  shm_children (n + 1 + 1) T t = shm_children (n + 1) T t + (if decide (Z.rem (n + 1) T = t) then 1 else 0).
Proof.
  intros Ht Hn. unfold shm_children. replace (n + 1 + 1 - 1) with (n + 1) by lia. replace (n + 1 - 1) with n by lia.
  destruct (Z.eqb_spec t (-1)); [lia|].
  rewrite !Z.rem_mod_nonneg, !Z.quot_div_nonneg by lia.
  pose proof (Z.mod_pos_bound n T ltac:(lia)). pose proof (Z.div_mod n T ltac:(lia)) as Hd.
  set (q := n / T) in *. set (r := n mod T) in *.
  destruct (Z.eq_dec (r + 1) T) as [Hr|Hr].
  - assert (n + 1 = T * (q + 1) + 0) as Hn1 by lia.
    rewrite <- (Z.div_unique_pos (n + 1) T (q + 1) 0), <- (Z.mod_unique_pos (n + 1) T (q + 1) 0) by lia.
    bool_cases; case_decide; lia.
  - assert (n + 1 = T * q + (r + 1)) as Hn1 by lia.
    rewrite <- (Z.div_unique_pos (n + 1) T q (r + 1)), <- (Z.mod_unique_pos (n + 1) T q (r + 1)) by lia.
    bool_cases; case_decide; lia.
Qed.

Lemma case_of_shm i : 0 ≤ i → case_of i = Some shm_test ↔ Z.rem i test_types = t_shm.
Proof.
  intros Hi. unfold case_of. change t_shm with 0. change test_types with 9.
  rewrite Z.rem_mod_nonneg by lia. pose proof (Z.mod_pos_bound i 9 ltac:(lia)).
  assert (i mod 9 = 0 ∨ i mod 9 = 1 ∨ i mod 9 = 2 ∨ i mod 9 = 3 ∨ i mod 9 = 4 ∨ i mod 9 = 5 ∨ i mod 9 = 6 ∨ i mod 9 = 7 ∨ i mod 9 = 8)
    as Hc by lia.
  by repeat destruct Hc as [->|Hc]; [..|rewrite Hc].
Qed.

Lemma shm_children_count n : shm_children (Z.of_nat n + 1) test_types t_shm = Z.of_nat (length (shm_instances (Z.of_nat n + 1))).
Proof.
  induction n as [|n IH]; [done|].
  rewrite Nat2Z.inj_succ. unfold Z.succ. rewrite shm_children_step by first [lia | by split; vm_compute]. rewrite IH.
  unfold shm_instances. rewrite (seqZ_snoc (Z.of_nat n + 1)), filter_app, length_app, Nat2Z.inj_add by lia. f_equal.
  rewrite filter_cons, filter_nil. pose proof (case_of_shm (Z.of_nat n + 1) ltac:(lia)).
  repeat case_decide; done || tauto.
Qed.

(** C33: the barrier of the shared memory test is set to the number of the
    children that run it: before it starts them, [main] stores in semaphore 1
    how many of the instances will be handed [shm_test]. *)
Theorem setup_ipc_barrier `{OS : hwp_os} strerror n s s' ipc_entry semid :
  setup_ipc strerror n s = (Ok (ipc_entry, semid), s') → 1 ≤ n →
  SEMCTL_SETVAL semid 1 (Z.of_nat (length (shm_instances n))) ∈ hist s'.
Proof.
  intros E Hn. unfold setup_ipc in E.
  apply p_bind_inv in E as ([id e] & s1 & _ & E). apply p_bind_inv in E as ([] & s2 & _ & E).
  apply p_bind_inv in E as (ipc & s3 & _ & E). apply p_bind_inv in E as (x & s4 & _ & E).
  apply p_bind_inv in E as ([] & s5 & _ & E). apply p_bind_inv in E as (y & s6 & _ & E).
  apply p_bind_inv in E as ([sem e'] & s7 & _ & E). apply p_bind_inv in E as (z & s8 & _ & E).
  replace n with (Z.of_nat (Z.to_nat (n - 1)) + 1) in E |- * by lia. rewrite shm_children_count in E.
  set (k := Z.to_nat (n - 1)) in *. set (count := length (shm_instances (Z.of_nat k + 1))) in *.
  assert (0 < Z.of_nat count) as Hc.
  { unfold count. rewrite <- shm_children_count. unfold shm_children. change (t_shm =? -1) with false. cbn match.
    change t_shm with 0. change test_types with 9. rewrite Z.rem_mod_nonneg, Z.quot_div_nonneg by lia.
    pose proof (Z.mod_pos_bound (Z.of_nat k + 1 - 1) 9). pose proof (Z.div_pos (Z.of_nat k + 1 - 1) 9). bool_cases; lia. }
  assert (nz (Z.of_nat count) = true) as Hnz by (apply nz_spec; lia). rewrite Hnz in E. unfold p_when in E.
  apply p_bind_inv in E as ([] & s9 & Ew & E). injection E as -> -> <-.
  apply p_bind_inv in Ew as (w & s10 & Es & Em). apply (f_equal snd) in Es. cbn in Es. subst s10.
  set (text := lit "there are " ++ _) in Em. pose proof (tame_mylog strerror text) as [_ Ht].
  match type of Em with mylog _ _ ?st = _ => destruct (Ht st) as (rs & Eh & _) end.
  rewrite Em in Eh. cbn [snd hist] in Eh. rewrite Eh. apply elem_of_app. right. left.
Qed.

(** ** Findings *)

(** The text about a page that the kernel cannot recover does not fit into the
    buffer: 103 characters and the end for [LOG_BUFLEN] of 100. *)
Lemma busy_text_overflow `{OS : hwp_os} s : mylog_open busy_text s = (Undef, s).
Proof. done. Qed.
(** A negative number of instances tests nothing and passes. *)
Lemma no_children_pass `{OS : hwp_os} strerror PS dir shm ipc sem n s rc s' : n < 0 →
  instance (vars s) = 0 → failure (vars s) = 0 → run_test strerror PS dir shm ipc sem n s = (Ok rc, s') → rc = 0.
Proof.
  intros Hn Hi Hf. unfold run_test. assert (seqZ 0 n = []) as -> by (unfold seqZ; by rewrite Z2Nat.nonpos by lia).
  cbn [p_for]. hsteps. rewrite Hi. change (nz 0) with false. hsteps. intros E.
  apply p_bind_inv in E as ([] & s1 & E1 & E).
  destruct (vars_mylog strerror (lit "have spawned " ++ fmt_d 0 ++ lit " processes" ++ [NL])) as [H _].
  specialize (H s). rewrite E1 in H. destruct H as [_ H].
  revert E. hsteps. rewrite <- H, Hf. intros E. apply p_bind_inv in E as ([] & s2 & _ & E). by injection E as <-.
Qed.

(** ** A kernel for the nine cases: an instance *)

(** Pages that are dirty or locked, and the shared segment, are mapped from 2^20
    on, and hit an access once they are poisoned; others are read again.
    [msync] of a dirty page that was lost fails. *)
Definition hit_mapping (flags : list map_flag) : bool :=
  bool_decide (MAP_POPULATE ∈ flags) || (bool_decide (MAP_ANONYMOUS ∈ flags) && bool_decide (MAP_LOCKED ∈ flags)).
Definition is_mmap (r : request) : bool := match r with MMAP _ _ _ _ _ => true | _ => false end.
Definition lab_value (h : list request) (r : request) : Z * Z :=
  match r with
  | MMAP _ _ _ flags _ =>
      ((if hit_mapping flags then 2 ^ 20 else 0) + 4096 * (1 + Z.of_nat (length (filter (λ r, Is_true (is_mmap r)) h))), 0)
  | SHMGET _ _ => (2, 0)
  | SHMAT id => (if id =? 2 then 2 ^ 30 else 4096, 0)
  | FORK => (100, 0)
  | FOPEN _ _ | OPEN _ _ => (3, 0)
  | MALLOC _ => (4096, 0)
  | MSYNC _ _ => (-1, 5)
  | SHARED_LOAD off => (default 0 (last_shared h off), 0)
  | _ => (0, 0)
  end.
Definition lab_signal (h : list request) (r : request) : option signal :=
  match r with
  | LOAD a | STORE a _ => if (2 ^ 20 <=? a) && poisoned 4096 h a then Some (Signal BUS_MCEERR_AR a 12) else None
  | _ => None
  end.
#[local] Instance lab : hwp_os := {|
  os_signal := lab_signal; os_value := lab_value; os_dumps_core := λ _, true;
  os_escaped := λ _, WaitInfo CLD_EXITED 0; os_child_first := λ _, true; os_pagesize := 4096
|}.
#[local] Instance lab_laws : shared_laws.
Proof.
  constructor. intros h pid off v Hv. cbn [os_value lab lab_value fst].
  change (last_shared (WAITID pid :: h) off) with (last_shared h off). by rewrite Hv.
Qed.
Definition lab_strerror (e : Z) : cstr := lit "errno " ++ fmt_d e.
Definition lab_proc : proc pv := Proc [SHARED_CLEAR] [] SIG_HANDLER false (set_log 3 (set_result 4 pv0)).
Notation lab_run n := (run_test lab_strerror 64 (lit "./tmp") 1 1 5 n).

Lemma lab_run_9 : ∃ s', lab_run 9 lab_proc = (Ok 0, s').
Proof. apply p_run_ok. by vm_compute. Qed.
Lemma lab_setup_20 : ∃ s', setup_ipc lab_strerror 20 lab_proc = (Ok (2, 0), s').
Proof. apply p_run_ok. by vm_compute. Qed.

(** The nine cases, one each, pass. *)
Lemma run_test_verdict_witness : ∃ s', lab_run 9 lab_proc = (Ok 0, s') ∧
  ∀ i, 0 ≤ i < 9 → passed lab_strerror 64 (lit "./tmp") 1 1 5 i lab_proc = true.
Proof.
  destruct lab_run_9 as (s' & E). exists s'. split; [exact E|].
  assert (fresh lab_proc) as Hfresh.
  { split; [reflexivity|]. split; [reflexivity|]. intros j _. reflexivity. }
  assert (0 ≤ 9 ≤ INSTANCE_NUM) as Hn by (unfold INSTANCE_NUM; lia).
  destruct (run_test_verdict lab_strerror 64 (lit "./tmp") 1 1 5 9 lab_proc s' 0 Hfresh Hn E) as [_ [H _]].
  exact (H eq_refl).
Defined.

Lemma setup_ipc_barrier_witness : ∃ s', setup_ipc lab_strerror 20 lab_proc = (Ok (2, 0), s') ∧
  SEMCTL_SETVAL 0 1 3 ∈ hist s'.
Proof.
  destruct lab_setup_20 as (s' & E). exists s'. split; [exact E|].
  assert (1 ≤ 20) as Hn by lia.
  exact (setup_ipc_barrier lab_strerror 20 lab_proc s' 2 0 E Hn).
Defined.
