(* ===== verification/Thp.v ===== *)
(** * Thp: ttranshuge

    cases/function/hwpoison/ttranshuge.c: memory mapped for transparent huge
    pages, the first huge page in it, poison in one of its pages, and what the
    parent makes of the end of the child that touches the page or goes round it. *)
From Stdlib Require Import String.
From S2P Require Import Prelude CLib Getopt Hwp Hugepage.

Definition DEFAULT_PS : Z := 4096.
Definition DEFAULT_THP_SIZE : Z := 0x200000.
Definition REQ_MEM_SIZE : Z := 8 * 1024 * 1024.
Definition THP_SUCCESS : Z := 0.
Definition THP_FAILURE : Z := -1.
Definition PR_MCE_KILL_EARLY : Z := 1.
Definition PR_MCE_KILL_LATE : Z := 0.
(** [x & ~(size - 1)] of unsigned longs. *)
Definition align_down (x size : Z) : Z := x .& ~. (size - 1).

(** The options. *)
Record thp_args := ThpArgs { early_kill : bool; avoid_touch : bool; corrupt_page : Z }.
Definition thp_args0 : thp_args := ThpArgs false false (-1).
Inductive thp_opt := thp_o (optarg : cstr) | thp_a | thp_e | thp_h | thp_other.
Definition thp_table : opt_table :=
  OptTable (lit "o:aeh") (Some (long_table
    [("offset", true, "o"%char); ("avoid-touch", false, "a"%char); ("early-kill", false, "e"%char); ("help", false, "h"%char)]%string, true)).
Definition thp_opt_of (r : opt_ret) : thp_opt :=
  match r with
  | Got "o" (Some s) => thp_o s | Got "a" _ => thp_a | Got "e" _ => thp_e | Got "h" _ => thp_h | _ => thp_other
  end%char.
Definition thp_usage (program : cstr) : cstr :=
  program ++ lit " [-o offset] [-ea]" ++ NL ::
  text [" Usage:";
    "	-o|--offset offset(page unit)	Position of error injection from the first THP.";
    "	-e|--early-kill			Set PR_MCE_KILL_EARLY(default NOT early-kill).";
    "	-a|--avoid-touch		Avoid touching error page(page unit) and";
    "					only used when early-kill is not set.";
    "	-h|--help";
    "";
    " Examples:";
    "	1. Inject the 2nd page(4k) of THP and early killed."]%string ++
  TAB :: program ++ lit " -o 1 -e" ++ NL ::
  text ["";
    "	2. Inject the 4th page(4k) of THP, late killed and untouched."]%string ++
  TAB :: program ++ lit " --offset 3 --avoid-touch" ++ NL ::
  text ["";
    " Note:";
    "	Options				Default set";
    "	early-kill			no";
    "	offset				0(head page)";
    "	avoid-touch			no";
    ""]%string.
(** The loop over the options, or what ends the program: the message and the
    status. *)
Fixpoint options_loop (options : list thp_opt) (a : thp_args) : thp_args + (cstr * Z) :=
  match options with
  | [] => inl a
  | o :: l =>
      match o with
      | thp_o s => options_loop l (ThpArgs (early_kill a) (avoid_touch a) (i32 (fst (strtoll s 10))))
      | thp_a => options_loop l (ThpArgs (early_kill a) true (corrupt_page a))
      | thp_e => options_loop l (ThpArgs true (avoid_touch a) (corrupt_page a))
      | thp_h => inr ([], 0)
      | thp_other => inr (lit "[ERROR] Wrong options, please check options!" ++ [NL], 1)
      end
  end.
Definition check_options (options : list thp_opt) : thp_args + (cstr * Z) :=
  match options_loop options thp_args0 with
  | inl a =>
      if avoid_touch a && (corrupt_page a =? -1) then inr (lit "[ERROR] Avoid which page?" ++ [NL], 1) else inl a
  | r => r
  end.

(** [find_thp_addr], on unsigned longs; 0 is none. *)
Definition find_thp_addr (start size : Z) : Z :=
  let thp_align_addr := align_down (u64 (start + (DEFAULT_THP_SIZE - 1))) DEFAULT_THP_SIZE in
  if (start <=? thp_align_addr) && (u64 (thp_align_addr + DEFAULT_THP_SIZE) <? u64 (start + size))
  then thp_align_addr else 0.

Section Ttranshuge.
Context {OS : hwp_os}.
Notation program := (prog (proc unit)).

(** The character at byte [i] of the memory. *)
Definition mem_char (i : Z) : Z := 97 + i `mod` 26.
Definition avoided (corrupt_page_addr a : Z) : bool :=
  (corrupt_page_addr <=? a) && (a <? corrupt_page_addr + DEFAULT_PS).
(** The loop of [read_mem], which ends at the first byte that differs. *)
Fixpoint read_loop (addr corrupt_page_addr : Z) (avoid_flag : bool) (idx : list Z) : program Z :=
  match idx with
  | [] => mret 0
  | i :: idx =>
      if avoid_flag && avoided corrupt_page_addr (addr + i) then read_loop addr corrupt_page_addr avoid_flag idx
      else
        v ← load (addr + i);
        if v =? mem_char i then read_loop addr corrupt_page_addr avoid_flag idx
        else put (lit "[ERROR] Mismatch at 0x" ++ fmt_x (addr + i) ++ lit "." ++ [NL]);; mret (-1)
  end.
Definition read_mem (addr size corrupt_page_addr : Z) (avoid_flag : bool) : program Z :=
  read_loop addr corrupt_page_addr avoid_flag (seqZ 0 size).
Definition write_mem (addr size : Z) : program unit := p_for (seqZ 0 size) (λ i, store (addr + i) (mem_char i)).

Definition request_thp_with_madvise (start : Z) : program Z :=
  let madvise_addr := align_down start DEFAULT_PS in
  let madvise_size := REQ_MEM_SIZE - start `mod` DEFAULT_PS in
  '(r, _) ← sys (MADVISE madvise_addr madvise_size MADV_HUGEPAGE); mret r.

Definition print_err (text : cstr) : program unit := put (lit "[ERROR] " ++ text).

(** The address, or nothing for [THP_FAILURE]; a failing [mmap] gives -1, not a
    null pointer. *)
Definition prep_memory_map : program (option Z) :=
  '(mem_addr, _) ← sys (MMAP 0 REQ_MEM_SIZE [PROT_WRITE; PROT_READ] [MAP_PRIVATE; MAP_ANONYMOUS] (-1));
  if mem_addr =? 0 then
    print_err (lit "Failed to mmap requested memory: size 0x" ++ fmt_x REQ_MEM_SIZE ++ lit "." ++ [NL]);; mret None
  else mret (Some mem_addr).

(** The address of the huge page and of the page to be poisoned. *)
Definition prep_injection (a : thp_args) (mem_addr : Z) : program (option (Z * Z)) :=
  r ← request_thp_with_madvise mem_addr;
  if r <? 0 then
    print_err (lit "Failed to request THP for [madvise] in enabled." ++ [NL]);; mret None
  else
    write_mem mem_addr REQ_MEM_SIZE;;
    r ← read_mem mem_addr REQ_MEM_SIZE 0 false;
    if r <? 0 then print_err (lit "Data is Mismatched(prep_injection)." ++ [NL]);; mret None
    else
      let thp_addr := find_thp_addr mem_addr REQ_MEM_SIZE in
      if thp_addr =? 0 then print_err (lit "No THP mapped." ++ [NL]);; mret None
      else
        let page := if corrupt_page a <? 0 then 0 else corrupt_page a in
        sys (PRCTL (if early_kill a then PR_MCE_KILL_EARLY else PR_MCE_KILL_LATE));;
        mret (Some (thp_addr, u64 (thp_addr + page * DEFAULT_PS))).

Definition print_prep_info (a : thp_args) (pid mem_addr thp_addr corrupt_page_addr : Z) : program unit :=
  put (NL :: (if early_kill a then lit "Early Kill" else lit "Late Kill") ++ lit " Poison Test of THP." ++ [NL; NL] ++
       lit "Information:" ++ [NL] ++
       lit "    PID " ++ fmt_d pid ++ [NL] ++
       lit "    PS(page size) 0x" ++ fmt_x DEFAULT_PS ++ [NL] ++
       lit "    mmap()'ed Memory Address " ++ fmt_p mem_addr ++ lit "; size 0x" ++ fmt_x REQ_MEM_SIZE ++ [NL] ++
       lit "    THP(Transparent Huge Page) Address 0x" ++ fmt_x thp_addr ++ lit "; size 0x" ++ fmt_x DEFAULT_THP_SIZE ++ [NL] ++
       lit "    " ++ (if corrupt_page a <=? 0 then lit "Head" else lit "Tail") ++ lit " Page Poison Test At " ++
       fmt_p corrupt_page_addr ++ [NL; NL]).

(** Whether it succeeded. A signal that is not caught ends the process in [mem]. *)
Definition do_injection (corrupt_page_addr : Z) : program bool :=
  r ← mem (MADVISE corrupt_page_addr DEFAULT_PS MADV_POISON);
  match r with
  | inl _ => p_undef
  | inr (v, _) =>
      if nz v then
        print_err (lit "Failed to poison at 0x" ++ fmt_p corrupt_page_addr ++ lit "." ++ [NL]);;
        put (lit "[INFO] Please check the authority of current user." ++ [NL]);; mret false
      else mret true
  end.
Definition post_injection (a : thp_args) (mem_addr corrupt_page_addr : Z) : program bool :=
  if early_kill a then print_err (lit "Failed to be killed by SIGBUS(Action Optional)." ++ [NL]);; mret false
  else
    r ← read_mem mem_addr REQ_MEM_SIZE corrupt_page_addr (avoid_touch a);
    if r <? 0 then print_err (lit "Data is Mismatched(do_injection)." ++ [NL]);; mret false
    else if negb (avoid_touch a) then
      print_err (lit "Failed to be killed by SIGBUS(Action Required)." ++ [NL]);; mret false
    else mret true.
Definition post_memory_map (mem_addr : Z) : program unit := sys (MUNMAP mem_addr REQ_MEM_SIZE);; mret ().

(** The child; its process is [pid]. *)
Definition thp_child (a : thp_args) (pid : Z) : program unit :=
  set_sigbus SIG_DFL;;
  m ← prep_memory_map;
  match m with
  | None => p_exit 1
  | Some mem_addr =>
      p ← prep_injection a mem_addr;
      ok ← match p with
           | None => mret false
           | Some (thp_addr, corrupt_page_addr) =>
               print_prep_info a pid mem_addr thp_addr corrupt_page_addr;;
               ok ← do_injection corrupt_page_addr;
               if (ok : bool) then post_injection a mem_addr corrupt_page_addr else mret false
           end;
      post_memory_map mem_addr;;
      if (ok : bool) then p_exit 0 else p_exit 1
  end.

(** What the parent makes of the child's end. *)
Definition check_child (a : thp_args) (w : wait_info) : program Z :=
  if avoid_touch a then
    if (wi_code w =? CLD_EXITED) && (wi_status w =? 0) then
      put (lit "[SUCCESS] Child process survived." ++ [NL]);; mret THP_SUCCESS
    else put (lit "[FAILURE] Child process could not survive." ++ [NL]);; mret THP_FAILURE
  else
    if nz (wi_code w .& (CLD_KILLED .| CLD_DUMPED)) && (wi_status w =? SIGBUS) then
      put (lit "[SUCCESS] Child process was killed by SIGBUS." ++ [NL]);; mret THP_SUCCESS
    else put (lit "[FAILURE] Child process could not be killed by SIGBUS." ++ [NL]);; mret THP_FAILURE.
Definition get_options_or_die (name : cstr) (options : list thp_opt) : program thp_args :=
  match check_options options with
  | inl a => mret a
  | inr (message, status) => put message;; put (thp_usage name);; p_exit status
  end.
Definition ttranshuge_main (name : cstr) (options : list thp_opt) : program Z :=
  a ← get_options_or_die name options;
  '(pid, _) ← sys FORK;
  if pid <? 0 then print_err (lit "Failed to fork child process." ++ [NL]);; mret THP_FAILURE
  else
    w ← run_child (thp_child a pid);
    '(r, _) ← sys (WAITID pid);
    if r <? 0 then print_err (lit "Failed to wait child process." ++ [NL]);; mret THP_FAILURE
    else check_child a w.
(** The program from its name and its arguments. *)
Definition ttranshuge (name : cstr) (args : list cstr) : program Z :=
  ttranshuge_main name (thp_opt_of <$> calls (getopt thp_table args)).
End Ttranshuge.

(** ** The first huge page *)

Lemma align_down_spec x k : is_u64 x → 0 ≤ k < 64 → align_down x (2 ^ k) = x / 2 ^ k * 2 ^ k.
Proof.
  intros Hx Hk. unfold align_down. replace (2 ^ k - 1) with (Z.ones k) by (rewrite Z.ones_equiv; lia).
  rewrite <- Z.shiftr_div_pow2, <- Z.shiftl_mul_pow2, <- Z.ldiff_ones_r by lia.
  apply Z.bits_inj'. intros n Hn. by rewrite testbit_clear, Z.ldiff_spec by done.
Qed.

Lemma thp_size : DEFAULT_THP_SIZE = 2 ^ 21.
Proof. done. Qed.

(** The first address of a huge page at [start] or behind. *)
Definition first_huge (start : Z) : Z := (start + (DEFAULT_THP_SIZE - 1)) / DEFAULT_THP_SIZE * DEFAULT_THP_SIZE.
Lemma first_huge_spec start : 0 ≤ start →
  first_huge start `mod` DEFAULT_THP_SIZE = 0 ∧ start ≤ first_huge start < start + DEFAULT_THP_SIZE.
Proof.
  intros Hs. unfold first_huge. rewrite thp_size in *.
  pose proof (Z.div_mod (start + (2 ^ 21 - 1)) (2 ^ 21) ltac:(lia)).
  pose proof (Z.mod_pos_bound (start + (2 ^ 21 - 1)) (2 ^ 21) ltac:(lia)).
  split; [by apply Z.mod_mul|lia].
Qed.

Lemma find_thp_addr_run start size : 0 ≤ start → 0 ≤ size → start + size + DEFAULT_THP_SIZE < 2 ^ 64 → 
  DEFAULT_THP_SIZE ≤ size →
  find_thp_addr start size = if first_huge start + DEFAULT_THP_SIZE <? start + size then first_huge start else 0.
Proof.
  intros H0 Hsize Hmax Hmin. unfold find_thp_addr. destruct (first_huge_spec start H0) as [Hm Hb].
  rewrite !(u64_small (start + _)) by (unfold is_u64; rewrite thp_size in *; lia).
  rewrite thp_size in *. rewrite align_down_spec by (unfold is_u64; lia). fold (first_huge start).
  change ((start + (2 ^ 21 - 1)) / 2 ^ 21 * 2 ^ 21) with (first_huge start).
  rewrite u64_small by (unfold is_u64; lia). destruct (Z.leb_spec start (first_huge start)); [done|lia].
Qed.

(** C35: [find_thp_addr] gives the first address of a huge page inside the
    memory: it is aligned, the whole huge page lies inside, and no huge page of
    the memory starts before it.  It gives 0 only when no huge page ends before
    the end of the memory, one that ends exactly there included. *)
Theorem find_thp_addr_spec start size : 0 < start → DEFAULT_THP_SIZE ≤ size → start + size + DEFAULT_THP_SIZE < 2 ^ 64 →
  let r := find_thp_addr start size in
  (r ≠ 0 → r `mod` DEFAULT_THP_SIZE = 0 ∧ start ≤ r ∧ r + DEFAULT_THP_SIZE < start + size ∧
           ∀ b, b `mod` DEFAULT_THP_SIZE = 0 → start ≤ b → r ≤ b)
  ∧ (r = 0 ↔ ∀ b, b `mod` DEFAULT_THP_SIZE = 0 → start ≤ b → start + size ≤ b + DEFAULT_THP_SIZE).
Proof.
  intros H0 Hsize Hmax r. unfold r. rewrite find_thp_addr_run by (rewrite thp_size in *; lia).
  destruct (first_huge_spec start ltac:(lia)) as [Hm Hb].
  assert (∀ b, b `mod` DEFAULT_THP_SIZE = 0 → start ≤ b → first_huge start ≤ b) as Hleast.
  { intros b Hbm Hbs. rewrite thp_size in *.
    pose proof (Z.div_mod b (2 ^ 21) ltac:(lia)). pose proof (Z.div_mod (first_huge start) (2 ^ 21) ltac:(lia)). nia. }
  destruct (Z.ltb_spec (first_huge start + DEFAULT_THP_SIZE) (start + size)) as [H|H].
  - split; [by intros _; split_and!; [done|lia|done|done]|]. split; [rewrite thp_size in *; lia|].
    intros Hall. specialize (Hall (first_huge start) Hm ltac:(lia)). lia.
  - split; [done|]. split; [|done]. intros _ b Hbm Hbs. specialize (Hleast b Hbm Hbs). lia.
Qed.

(** In the memory that is requested there always is one. *)
Lemma find_thp_addr_requested start : 0 < start → start + REQ_MEM_SIZE + DEFAULT_THP_SIZE < 2 ^ 64 →
  find_thp_addr start REQ_MEM_SIZE = first_huge start ∧ start ≤ first_huge start < start + DEFAULT_THP_SIZE ∧
  first_huge start `mod` DEFAULT_THP_SIZE = 0.
Proof.
  intros H0 Hmax. destruct (first_huge_spec start ltac:(lia)) as [Hm Hb].
  rewrite find_thp_addr_run by (unfold REQ_MEM_SIZE in *; rewrite thp_size in *; lia).
  destruct (Z.ltb_spec (first_huge start + DEFAULT_THP_SIZE) (start + REQ_MEM_SIZE)); [done|].
  unfold REQ_MEM_SIZE in *. rewrite thp_size in *. lia.
Qed.

(** ** The runs *)

(** The policy of the last [prctl]: killed as soon as the page is poisoned. *)
Fixpoint early_policy (h : list request) : bool :=
  match h with
  | [] => false
  | PRCTL p :: _ => p =? PR_MCE_KILL_EARLY
  | _ :: h => early_policy h
  end.
(** A kernel on which ttranshuge may map memory and poison it. *)
Class thp_laws {OS : hwp_os} := {
  thp_memory :: memory_laws DEFAULT_PS;
  thp_mmap h len prot flags fd : let p := fst (os_value h (MMAP 0 len prot flags fd)) in
    0 < p ∧ p + REQ_MEM_SIZE + DEFAULT_THP_SIZE < 2 ^ 64;
  thp_advise h a len : 0 ≤ fst (os_value h (MADVISE a len MADV_HUGEPAGE));
  thp_poison h a len : fst (os_value h (MADVISE a len MADV_POISON)) = 0;
  thp_early h a len : early_policy h = true → is_Some (os_signal h (MADVISE a len MADV_POISON));
  thp_late h a len : early_policy h = false → os_signal h (MADVISE a len MADV_POISON) = None;
  thp_kill h a : poisoned DEFAULT_PS h a = true → is_Some (os_signal h (LOAD a));
  thp_fork h : 0 ≤ fst (os_value h FORK);
  thp_waitid h pid : 0 ≤ fst (os_value h (WAITID pid))
}.

Section Runs.
Context {OS : hwp_os} {Laws : thp_laws}.
#[local] Notation pushes := (push (V := unit)).

Lemma mem_char_range i : 97 ≤ mem_char i < 123.
Proof. unfold mem_char. pose proof (Z.mod_pos_bound i 26). lia. Qed.

Lemma read_loop_run addr c flag idx s :
  (∀ i, i ∈ idx → flag && avoided c (addr + i) = true ∨
     poisoned DEFAULT_PS (hist s) (addr + i) = false ∧ last_store (hist s) (addr + i) = Some (mem_char i)) →
  ∃ l, read_loop addr c flag idx s = (Ok 0, pushes (LOAD <$> l) s).
Proof.
  revert s. induction idx as [|i idx IH]; intros s H; [exists []; cbn; by rewrite push_nil|]. cbn [read_loop].
  destruct (flag && avoided c (addr + i)) eqn:Ha.
  { apply IH. intros j Hj. apply H. by right. }
  destruct (H i ltac:(left)) as [?|[Hp Hv]]; [congruence|].
  rewrite (p_bind_ok _ _ _ _ _ (load_run _ _ s Hp Hv)).
  pose proof (mem_char_range i). unfold uchar. rewrite uwrap_small by lia. rewrite Z.eqb_refl.
  destruct (IH (pushes [LOAD (addr + i)] s)) as [l Hl].
  - intros j Hj. destruct (H j ltac:(by right)) as [?|[Hpj Hvj]]; [by left|right]. done.
  - exists (l ++ [addr + i]). by rewrite Hl, push_push, fmap_app.
Qed.

(** A load of a poisoned byte kills. *)
Lemma read_loop_killed addr c idx1 i idx2 s : sigbus s = SIG_DFL →
  (∀ j, j ∈ idx1 → poisoned DEFAULT_PS (hist s) (addr + j) = false ∧ last_store (hist s) (addr + j) = Some (mem_char j)) →
  poisoned DEFAULT_PS (hist s) (addr + i) = true →
  ∃ s', read_loop addr c false (idx1 ++ i :: idx2) s = (Exit SIGBUS, s') ∧ killed s' = true.
Proof.
  revert s. induction idx1 as [|j idx1 IH]; intros s Hdfl H Hp; cbn [read_loop app andb].
  - destruct (thp_kill (hist s) (addr + i) Hp) as [sig Es]. unfold load, mem. rewrite !p_bind_run, Es, Hdfl. by eexists.
  - destruct (H j ltac:(left)) as [Hpj Hvj]. rewrite (p_bind_ok _ _ _ _ _ (load_run _ _ s Hpj Hvj)).
    pose proof (mem_char_range j). unfold uchar. rewrite uwrap_small by lia. rewrite Z.eqb_refl.
    apply IH; [done| |done]. intros k Hk. apply (H k). by right.
Qed.

(** The bytes [write_mem] writes. *)
Definition mem_bytes (addr size : Z) : list (Z * Z) := (λ i, (addr + i, mem_char i)) <$> seqZ 0 size.
Lemma write_mem_run addr size s : (∀ i, 0 ≤ i < size → poisoned DEFAULT_PS (hist s) (addr + i) = false) →
  write_mem addr size s = (Ok (), pushes (stores (mem_bytes addr size)) s).
Proof.
  intros H. apply (p_for_stores (seqZ 0 size) (λ i, (addr + i, mem_char i)) s).
  intros i ?%elem_of_seqZ. apply H. lia.
Qed.
Lemma mem_bytes_stored addr size h i : 0 ≤ i < size →
  last_store (stores (mem_bytes addr size) ++ h) (addr + i) = Some (mem_char i).
Proof.
  intros Hi. apply last_store_stores.
  - apply list_elem_of_fmap. exists i. split; [done|]. apply elem_of_seqZ. lia.
  - intros w (j & [= E ->] & _)%list_elem_of_fmap. by replace j with i by lia.
Qed.

(** What [write_mem] leaves: no signal, and its bytes in the memory. *)
Lemma write_mem_clean addr size s : (∀ x, poisoned DEFAULT_PS (hist s) x = false) →
  ∃ s', write_mem addr size s = (Ok (), s') ∧ sigbus s' = sigbus s ∧ killed s' = killed s
    ∧ (∀ x, poisoned DEFAULT_PS (hist s') x = false)
    ∧ ∀ i, 0 ≤ i < size → last_store (hist s') (addr + i) = Some (mem_char i).
Proof.
  intros Hc. exists (pushes (stores (mem_bytes addr size)) s). split; [by apply write_mem_run|].
  split_and!; [done|done| |].
  - intros y. cbn [push hist]. rewrite poisoned_touches by apply stores_touch. apply Hc.
  - intros i Hi. by apply mem_bytes_stored.
Qed.

(** The child up to the injection. *)
Lemma prep_run a h o : 
  let p := fst (os_value h (MMAP 0 REQ_MEM_SIZE [PROT_WRITE; PROT_READ] [MAP_PRIVATE; MAP_ANONYMOUS] (-1))) in
  let c := u64 (first_huge p + (if corrupt_page a <? 0 then 0 else corrupt_page a) * DEFAULT_PS) in
  (∀ a, poisoned DEFAULT_PS h a = false) →
  ∃ s1, (m ← prep_memory_map; match m with None => mret None | Some m => prep_injection a m end)
          (Proc h o SIG_DFL false ()) = (Ok (Some (first_huge p, c)), s1)
    ∧ sigbus s1 = SIG_DFL ∧ killed s1 = false ∧ early_policy (hist s1) = early_kill a
    ∧ (∀ x, poisoned DEFAULT_PS (hist s1) x = false)
    ∧ ∀ i, 0 ≤ i < REQ_MEM_SIZE → last_store (hist s1) (p + i) = Some (mem_char i).
Proof.
  intros p c Hclean. unfold prep_memory_map. hsteps.
  pose proof (thp_mmap h REQ_MEM_SIZE [PROT_WRITE; PROT_READ] [MAP_PRIVATE; MAP_ANONYMOUS] (-1)) as [Hp1 Hp2]. fold p in Hp1, Hp2.
  set (r := MMAP 0 REQ_MEM_SIZE [PROT_WRITE; PROT_READ] [MAP_PRIVATE; MAP_ANONYMOUS] (-1)) in *.
  destruct (os_value h r) as [p' e] eqn:Ep. cbn [fst] in p. subst p. hsteps.
  destruct (Z.eqb_spec p' 0); [lia|]. hsteps. unfold prep_injection, request_thp_with_madvise. hsteps.
  set (adv := MADVISE _ _ MADV_HUGEPAGE).
  pose proof (thp_advise (r :: h) (align_down p' DEFAULT_PS) (REQ_MEM_SIZE - p' `mod` DEFAULT_PS)) as Hadv. fold adv in Hadv.
  destruct (os_value (r :: h) adv) as [x e2]. cbn [fst] in Hadv. hsteps. destruct (Z.ltb_spec x 0); [lia|].
  set (s0 := Proc (adv :: r :: h) o SIG_DFL false ()).
  assert (∀ y, poisoned DEFAULT_PS (hist s0) y = false) as Hc0 by (intros y; apply Hclean).
  destruct (write_mem_clean p' REQ_MEM_SIZE s0 Hc0) as (s1 & Hw1 & Hb1 & Hk1 & Hc1 & Hst1).
  rewrite (p_bind_ok _ _ _ _ _ Hw1). cbn [sigbus killed] in Hb1, Hk1.
  destruct (read_loop_run p' 0 false (seqZ 0 REQ_MEM_SIZE) s1) as [l Hl].
  { intros i Hi%elem_of_seqZ. right. split; [apply Hc1|]. apply Hst1. lia. }
  unfold read_mem. rewrite (p_bind_ok _ _ _ _ _ Hl). change (0 <? 0) with false. cbn match.
  destruct (find_thp_addr_requested p' Hp1 Hp2) as (-> & Hb & Hm).
  destruct (Z.eqb_spec (first_huge p') 0); [lia|]. hsteps.
  eexists. split; [reflexivity|]. cbn [sigbus killed hist push]. split_and!; [done|done| | |].
  - cbn [early_policy]. by destruct (early_kill a).
  - intros y. rewrite poisoned_cons. cbn [poisons orb]. rewrite poisoned_touches by apply loads_touch. apply Hc1.
  - intros i Hi. cbn [last_store]. rewrite last_store_loads. by apply Hst1.
Qed.

(** How the child ends: by SIGBUS under early kill, and otherwise when it touches
    the page. *)
Lemma thp_child_run a pid h o : 0 ≤ corrupt_page a < 512 → (∀ a, poisoned DEFAULT_PS h a = false) →
  ∃ s', thp_child a pid (Proc h o SIG_DFL false ()) = (Exit (if early_kill a || negb (avoid_touch a) then SIGBUS else 0), s')
    ∧ killed s' = early_kill a || negb (avoid_touch a).
Proof.
  intros Hk Hclean. destruct (prep_run a h o Hclean) as (s1 & E & Hdfl & Hkill & Hearly & Hc & Hstored).
  set (p := fst _) in *. revert E. unfold thp_child. hsteps.
  destruct (prep_memory_map (Proc h o SIG_DFL false ())) as [[[m|]|x| |] s0] eqn:Em; hsteps; try done.
  assert (m = p) as ->.
  { revert Em. unfold prep_memory_map. hsteps. fold p. unfold p.
    destruct (os_value h _) as [m' e]. cbn [fst]. hsteps. destruct (m' =? 0); hsteps; [by intros [= ]|by intros [= ->]]. }
  destruct (prep_injection a p s0) as [r s0'] eqn:Ei. intros [= -> ->]. hsteps. unfold print_prep_info. hsteps.
  pose proof (thp_mmap h REQ_MEM_SIZE [PROT_WRITE; PROT_READ] [MAP_PRIVATE; MAP_ANONYMOUS] (-1)) as [Hp1 Hp2]. fold p in Hp1, Hp2.
  destruct (find_thp_addr_requested p Hp1 Hp2) as (_ & Hb & Hm).
  destruct (Z.ltb_spec (corrupt_page a) 0); [lia|].
  assert (u64 (first_huge p + corrupt_page a * DEFAULT_PS) = first_huge p + corrupt_page a * DEFAULT_PS) as Hu.
  { apply u64_small. unfold is_u64, REQ_MEM_SIZE, DEFAULT_PS in *. rewrite thp_size in *. lia. }
  rewrite Hu. set (c := first_huge p + corrupt_page a * DEFAULT_PS).
  unfold do_injection. hsteps. unfold mem. cbn [hist]. 
  destruct (early_kill a) eqn:He; cbn [orb].
  { destruct (thp_early (hist s1) c DEFAULT_PS Hearly) as [sig ->]. cbn [sigbus]. rewrite Hdfl. by eexists. }
  rewrite thp_late by done. hsteps.
  pose proof (thp_poison (hist s1) c DEFAULT_PS) as Hv. destruct (os_value (hist s1) (MADVISE c DEFAULT_PS MADV_POISON)) as [v e].
  cbn [fst] in Hv. subst v. change (nz 0) with false. hsteps.
  unfold post_injection. rewrite He. unfold read_mem.
  match goal with |- context [Proc (MADVISE ?x ?y ?z :: hist s1) ?o ?d ?k ?v] => set (s2 := Proc (MADVISE x y z :: hist s1) o d k v) end.
  assert (c `mod` DEFAULT_PS = 0) as Hcm.
  { unfold c. rewrite Z.mod_add by done. unfold DEFAULT_PS in *. rewrite thp_size in *.
    pose proof (Z.div_mod (first_huge p) (2 ^ 21) ltac:(lia)) as Hd. rewrite Hd, Hm, Z.add_0_r.
    change (2 ^ 21) with (4096 * 512). rewrite <- Z.mul_assoc, Z.mul_comm. apply Z.mod_mul. lia. }
  assert (∀ x, poisoned DEFAULT_PS (hist s2) x = (c <=? x) && (x <? c + DEFAULT_PS)) as Hpois.
  { intros x. transitivity ((c / DEFAULT_PS =? x / DEFAULT_PS) || poisoned DEFAULT_PS (hist s1) x); [done|].
    rewrite Hc, orb_false_r. unfold DEFAULT_PS in *.
    pose proof (Z.div_mod c 4096 ltac:(lia)). pose proof (Z.div_mod x 4096 ltac:(lia)). pose proof (Z.mod_pos_bound x 4096 ltac:(lia)).
    bool_cases; simpl; lia. }
  assert (∀ i, 0 ≤ i < REQ_MEM_SIZE → last_store (hist s2) (p + i) = Some (mem_char i)) as Hst2 by exact Hstored.
  destruct (avoid_touch a); cbn [negb].
  - destruct (read_loop_run p c true (seqZ 0 REQ_MEM_SIZE) s2) as [l Hl].
    { intros i Hi%elem_of_seqZ. unfold avoided. rewrite Hpois. cbn [andb].
      destruct ((c <=? p + i) && (p + i <? c + DEFAULT_PS)); [by left|right]. split; [done|]. apply Hst2. lia. }
    rewrite !p_bind_run, Hl. change (0 <? 0) with false. hsteps. unfold post_memory_map. hsteps. eexists. split; [reflexivity|]. exact Hkill.
  - assert (0 ≤ c - p < REQ_MEM_SIZE) as Hcp.
    { unfold c, REQ_MEM_SIZE, DEFAULT_PS in *. rewrite thp_size in *. lia. }
    replace REQ_MEM_SIZE with ((c - p) + (REQ_MEM_SIZE - (c - p))) by lia. rewrite (seqZ_app 0) by lia.
    rewrite Z.add_0_l, (seqZ_cons (c - p)) by lia.
    destruct (read_loop_killed p c (seqZ 0 (c - p)) (c - p) (seqZ (Z.succ (c - p)) (Z.pred (REQ_MEM_SIZE - (c - p)))) s2) as (s' & Hl & Hk').
    + exact Hdfl.
    + intros j Hj%elem_of_seqZ. split; [|apply Hst2; lia]. rewrite Hpois. bool_cases; simpl; lia.
    + rewrite Hpois. unfold DEFAULT_PS. bool_cases; simpl; lia.
    + rewrite !p_bind_run, Hl. by eexists.
Qed.

Lemma thp_table_ok : table_ok thp_table.
Proof. apply (bool_decide_unpack _). by vm_compute. Qed.

(** C19: ttranshuge tells the right end of its child from a wrong one on a kernel
    that poisons pages of 4096 bytes.  For every page [k] of the first huge page,
    asked for in whatever spelling of the options:
    a child that touches the page, or that asked for early kill, is killed by
    SIGBUS, and one that goes round it reads all other bytes back and exits; and
    [main] reports success, but for -a with -e, where it takes the end of the
    child, which is killed, for a failure. *)
Theorem ttranshuge_verdict name args evs rest early avoid k :
  command thp_table args evs rest → check_options (thp_opt_of <$> evs) = inl (ThpArgs early avoid k) → 0 ≤ k < 512 →
  ∃ s', ttranshuge name args (Proc [] [] SIG_DFL false ()) =
      (Ok (if early && avoid then THP_FAILURE else THP_SUCCESS), s')
    ∧ (thp_child (ThpArgs early avoid k) (fst (os_value [] FORK)) (Proc [FORK] [] SIG_DFL false ())).1
      = Exit (if early || negb avoid then SIGBUS else 0)
    ∧ out s' = lit (if early && avoid then "[FAILURE] Child process could not survive."
                         else if avoid then "[SUCCESS] Child process survived."
                         else "[SUCCESS] Child process was killed by SIGBUS.") ++ [NL].
Proof.
  intros Hcmd Ho Hk. unfold ttranshuge. destruct (getopt_command _ thp_table_ok _ _ _ Hcmd) as [-> _].
  unfold ttranshuge_main, get_options_or_die. rewrite Ho. hsteps.
  pose proof (thp_fork []) as Hpid. destruct (os_value [] FORK) as [pid e]. cbn [fst] in *. hsteps.
  destruct (Z.ltb_spec pid 0); [lia|].
  destruct (thp_child_run (ThpArgs early avoid k) pid [FORK] [] Hk ltac:(done)) as (sc & Ec & Hkill).
  cbn [Thp.early_kill Thp.avoid_touch] in *. rewrite p_bind_run. unfold run_child. cbn [hist out sigbus vars killed].
  rewrite Ec. cbn [wait_of]. rewrite Hkill. 
  pose proof (thp_waitid (hist sc) pid) as Hw. hsteps.
  destruct early, avoid; cbn [orb negb andb]; hsteps;
    destruct (os_value (hist sc) (WAITID pid)) as [r e']; cbn [fst] in Hw; hsteps; (destruct (Z.ltb_spec r 0); [lia|]);
    unfold check_child; cbn [Thp.avoid_touch wi_code wi_status];
    destruct (os_dumps_core (hist sc)); eexists; (split; [reflexivity|]); done.
Qed.
End Runs.

(** ** A kernel: an instance *)

#[local] Instance lab : hwp_os := {|
  os_signal h r :=
    match r with
    | LOAD a | STORE a _ => if poisoned DEFAULT_PS h a then Some (Signal BUS_MCEERR_AR a 12) else None
    | MADVISE a _ MADV_POISON => if early_policy h then Some (Signal BUS_MCEERR_AO a 12) else None
    | _ => None
    end;
  os_value h r :=
    match r with
    | LOAD a => (default 0 (last_store h a), 0)
    | MMAP _ _ _ _ _ => (0x7f0000001000, 0)
    | _ => (0, 0)
    end;
  os_dumps_core _ := true;
  os_escaped _ := WaitInfo CLD_EXITED 0;
  os_child_first _ := true;
  os_pagesize := 4096
|}.
#[local] Instance lab_thp_laws : thp_laws.
Proof.
  split; try done.
  - split.
    + intros h a v Hv Hp. cbn. by rewrite Hv.
    + intros h a Hp. cbn. by rewrite Hp.
    + intros h a v Hp. cbn. by rewrite Hp.
  - intros h a len H. cbn. rewrite H. eauto.
  - intros h a len H. cbn. by rewrite H.
  - intros h a Hp. cbn. rewrite Hp. eauto.
Qed.
Lemma ttranshuge_verdict_witness : ∃ s',
  ttranshuge (lit "ttranshuge") [lit "--avoid-touch"; lit "-o"; lit "3"] (Proc [] [] SIG_DFL false ()) = (Ok THP_SUCCESS, s').
Proof.
  assert (command thp_table [lit "--avoid-touch"; lit "-o"; lit "3"] [Got "a" None; Got "o" (Some (lit "3"))]%char []) as Hcmd.
  { apply (cmd_option _ _ [lit "--avoid-touch"]).
    { apply (spell_long_flag _ (LongOption (lit "avoid-touch") false "a")); [|done]. split; [done|].
      do 2 eexists. split; [reflexivity|]. by apply (bool_decide_unpack _); vm_compute. }
    apply (cmd_option _ _ [lit "-o"; lit "3"]); [by constructor|constructor]. }
  assert (0 ≤ 3 < 512) as Hk by lia.
  destruct (ttranshuge_verdict (lit "ttranshuge") _ _ [] false true 3 Hcmd eq_refl Hk) as (s' & E & _). exists s'. exact E.
Defined.
Lemma find_thp_addr_spec_witness : find_thp_addr 0x1000 0x800000 ≠ 0.
Proof.
  assert (0 < 0x1000) as H1 by lia. assert (DEFAULT_THP_SIZE ≤ 0x800000) as H2 by (unfold DEFAULT_THP_SIZE; lia).
  assert (0x1000 + 0x800000 + DEFAULT_THP_SIZE < 2 ^ 64) as H3 by (unfold DEFAULT_THP_SIZE; lia).
  destruct (find_thp_addr_spec 0x1000 0x800000 H1 H2 H3) as [_ Hz]. intros H.
  assert (0x1000 ≤ 0x200000) as H4 by lia. pose proof (proj1 Hz H 0x200000 eq_refl H4) as Hc.
  unfold DEFAULT_THP_SIZE in Hc. lia.
Defined.
