(* ===== verification/Injectors.v ===== *)
(** * Injectors: the small programs of the hwpoison tests

    cases/function/hwpoison/tsoftinj.c, tsimpleinj.c, tprctl.c, tsoft.c,
    thugetlb_overcommit.c and tkillpoison.c: a Module for each. *)
From Stdlib Require Import String.
From S2P Require Import Prelude CLib Hwp Hugepage.

(** ** tsoftinj: soft offlining, counted by HardwareCorrupted *)
Module Tsoftinj.
(** [exitcode] and [corrupted]. *)
Record sv := SV { exitcode : Z; corrupted : Z }.
Definition sv0 : sv := SV 0 0.
Definition fail_exit (v : sv) : sv := SV 1 (corrupted v).
Definition count_page (v : sv) : sv := SV (exitcode v) (corrupted v + 1).
Definition no_pages (v : sv) : sv := SV (exitcode v) 0.

Section Tsoftinj.
(** /proc/meminfo after these requests, if it can be opened; the process. *)
Context {OS : hwp_os} (meminfo_text : list request → option cstr) (pid : Z) (hugetlbfsdir : cstr) (HPS : Z).
Notation program := (prog (proc sv)).

Notation PS := os_pagesize.
Notation err := (p_exit 1).
Definition checked_mmap (length : Z) (prot : list prot_flag) (flags : list map_flag) (fd : Z) : program Z :=
  '(p, _) ← sys (MMAP 0 length prot flags fd); if p =? -1 then err else mret p.

(** [sscanf(line, "HardwareCorrupted: %u", &val) == 1] *)
Definition scan_corrupted (line : cstr) : option Z :=
  let key := lit "HardwareCorrupted:" in
  if decide (key `prefix_of` line) then
    let '(neg, s) := read_sign (skip_spaces (drop (length key) line)) in
    if is_digit 10 (chr0 s) then Some (u32 (let m := read_digits 10 0 s in if neg then - m else m)) else None
  else None.
Definition meminfo : program Z :=
  h ← get_hist;
  match meminfo_text h with
  | None => err
  | Some text =>
      match head (omap scan_corrupted (getlines text)) with
      | Some val => mret val
      | None =>
          put (lit "cannot read HardwareCorruptedPages in meminfo" ++ [NL]);; upd fail_exit;; mret 0
      end
  end.
Definition hardware_corrupted : program Z := val ← meminfo; mret (u32 (val * 1024) / PS).

Definition ndesc (a b : cstr) : cstr := snprintf 100 (a ++ " "%char :: b).
(** The text of [err] goes to standard error. A signal is not caught. *)
Definition offline (p : Z) : program unit :=
  r ← mem (MADVISE p PS MADV_SOFT_OFFLINE);
  match r with
  | inl _ => p_undef
  | inr (v, _) => if v <? 0 then err else upd count_page
  end.
Definition store1 (p : Z) : program unit := if p =? 0 then p_undef else store p 1.

Definition disk_backed (flags : list map_flag) : program unit :=
  let fn := snprintf 100 (lit "./~test" ++ fmt_u pid) in
  put (lit "private, diskbacked" ++ [NL]);;
  '(fd, _) ← sys (OPEN fn [O_RDWR; O_CREAT; O_TRUNC]);
  p_when (fd <? 0) err;;
  sys (WRITE fd (replicate 4096 0));;
  p ← checked_mmap PS [PROT_READ; PROT_WRITE] (MAP_PRIVATE :: flags) fd;
  store1 p;; offline p;;
  sys (MUNMAP p PS);; mret ().
Definition anonymous (flags : list map_flag) : program unit :=
  p ← checked_mmap PS [PROT_READ; PROT_WRITE] (MAP_PRIVATE :: MAP_ANONYMOUS :: flags) 0;
  put (lit "anonymous" ++ [NL]);;
  store1 p;; offline p;; store1 p;;
  sys (MUNMAP p PS);; mret ().
Definition shm_hugepage : program unit :=
  '(p, shmid) ← alloc_shm_hugepage 0 HPS;
  if p =? 0 then p_exit 1
  else
    put (lit "shm hugepage" ++ [NL]);;
    store1 p;; offline p;; store1 p;;
    free_shm_hugepage shmid p;; mret ().
Definition anonymous_hugepage : program unit :=
  p ← alloc_anonymous_hugepage HPS true;
  put (lit "anonymous hugepage" ++ [NL]);;
  store1 p;; offline p;; store1 p;;
  free_anonymous_hugepage p HPS;; mret ().
Definition filebacked_hugepage : program unit :=
  let path := snprintf 100 (hugetlbfsdir ++ lit "/~test-hugepage" ++ fmt_u pid) in
  '(p, fd) ← alloc_filebacked_hugepage path HPS false;
  put (lit "file backed hugepage" ++ [NL]);;
  store1 p;; offline p;; store1 p;;
  free_filebacked_hugepage p HPS fd (Some path);; mret ().

(** The new count. *)
Definition check (count : Z) (name : cstr) (expected : Z) : program Z :=
  count2 ← hardware_corrupted;
  let diff := u32 (count2 - count) in
  p_when (negb (diff =? expected))
    (put (name ++ lit ": expected " ++ fmt_d expected ++ lit " corrupted pages, got " ++ fmt_u diff ++ [NL]);;
     p_when (diff <? expected) (upd fail_exit));;
  upd no_pages;;
  mret count2.

Definition soft_cases : list (program unit * cstr) :=
  [(anonymous [], lit "anonymous"); (anonymous [MAP_LOCKED], lit "anonymous mlock");
   (disk_backed [], lit "disk backed"); (disk_backed [MAP_LOCKED], lit "disk backed mlock");
   (shm_hugepage, lit "shm hugepage"); (anonymous_hugepage, lit "anonymous hugepage");
   (filebacked_hugepage, lit "file backed hugepage")].
(** A case of [main] and the count after it. *)
Definition soft_case (count : Z) (c : program unit * cstr) : program Z := c.1;; check count c.2 1.
End Tsoftinj.

(** What comes before the cases: the size of a huge page, the first count and
    the directory. *)
Definition tsoftinj_setup `{OS : hwp_os} (meminfo_text : list request → option cstr) (mounts : option cstr)
    : prog (proc sv) (Z * Z * cstr) :=
  h ← get_hist;
  HPS ← gethugepagesize (meminfo_text h);
  count ← hardware_corrupted meminfo_text;
  dir ← hugetlbfs_root mounts;
  match dir with None => p_exit 1 | Some dir => mret (HPS, count, dir) end.
Definition tsoftinj_main `{OS : hwp_os} (meminfo_text : list request → option cstr) (mounts : option cstr) (pid : Z)
    : prog (proc sv) Z :=
  '(HPS, count, dir) ← tsoftinj_setup meminfo_text mounts;
  p_fold (soft_cases pid dir HPS) (soft_case meminfo_text) count;;
  v ← get_vars;
  mret (exitcode v).

(** *** What the exit status says *)

(** A case leaves the exit code to the check. *)
Definition same_code (v v' : sv) : Prop := exitcode v = exitcode v'.
#[export] Instance same_code_preorder : PreOrder same_code.
Proof. split; [done|]. intros u v w. unfold same_code. congruence. Qed.
Notation keeps p := (behaves same_code [0; 1] p).

Ltac keep_step :=
  match goal with
  | |- behaves same_code _ (upd _) => apply behaves_upd; done
  | _ => behaves_step
  end.
Ltac keep := repeat keep_step.

Section Verdict.
Context {OS : hwp_os} (meminfo_text : list request → option cstr) (pid : Z) (dir : cstr) (HPS : Z).

Lemma keeps_offline p : keeps (offline p).
Proof. unfold offline. keep. Qed.
Lemma keeps_store1 p : keeps (store1 p).
Proof. unfold store1, store. keep. Qed.
Hint Resolve keeps_offline keeps_store1 : behaves.
Lemma keeps_case c : c ∈ soft_cases pid dir HPS → keeps c.1.
Proof.
  intros Hc. unfold soft_cases in Hc. rewrite !elem_of_cons, elem_of_nil in Hc.
  repeat destruct Hc as [->|Hc]; [..|done]; cbn [fst];
    unfold anonymous, disk_backed, shm_hugepage, anonymous_hugepage, filebacked_hugepage, checked_mmap,
      alloc_shm_hugepage, alloc_anonymous_hugepage, alloc_filebacked_hugepage, free_shm_hugepage,
      free_anonymous_hugepage, free_filebacked_hugepage; keep.
Qed.

(** The pages the kernel counts in a state, if /proc/meminfo says so. *)
Definition counted (s : proc sv) : option Z :=
  text ← meminfo_text (hist s);
  val ← head (omap scan_corrupted (getlines text));
  Some (u32 (val * 1024) / os_pagesize).

Lemma hardware_corrupted_run s c s' : hardware_corrupted meminfo_text s = (Ok c, s') →
  (counted s = Some c ∧ s' = s) ∨ (counted s = None ∧ c = 0 ∧ vars s' = fail_exit (vars s)).
Proof.
  unfold hardware_corrupted, meminfo, counted. hsteps. destruct (meminfo_text (hist s)) as [text|]; [|done].
  simpl. destruct (head _) as [val|]; hsteps.
  - intros [= <- <-]. by left.
  - intros [= <- <-]. right. by rewrite Zdiv_0_l.
Qed.

(** One check: the exit code stays as it was exactly when the count is there and
    is another one, modulo 2^32: a count that fell is taken for one that rose. *)
Definition changed (count : Z) (s : proc sv) : Prop := ∃ c, counted s = Some c ∧ u32 (c - count) ≠ 0.
Lemma check_run count name s c s' : check meminfo_text count name 1 s = (Ok c, s') →
  (changed count s ∧ exitcode (vars s') = exitcode (vars s)) ∨ (¬ changed count s ∧ exitcode (vars s') = 1).
Proof.
  unfold check. intros E. apply p_bind_inv in E as (c2 & s1 & E1 & E).
  apply hardware_corrupted_run in E1 as [[Hc ->] | (Hc & -> & Hv)].
  - assert (changed count s ↔ u32 (c2 - count) ≠ 0) as Hr.
    { unfold changed. rewrite Hc. naive_solver. }
    revert E. pose proof (uwrap_range 32 (c2 - count) ltac:(lia)) as Hu. fold (u32 (c2 - count)) in Hu.
    destruct (Z.eqb_spec (u32 (c2 - count)) 1) as [E1|E1]; cbn [negb]; hsteps.
    + intros [= <- <-]. left. split; [apply Hr; lia|done].
    + destruct (Z.ltb_spec (u32 (c2 - count)) 1); hsteps; intros [= <- <-]; [right|left]; (split; [rewrite Hr; lia|done]).
  - assert (¬ changed count s) as Hr by (unfold changed; rewrite Hc; naive_solver).
    revert E. destruct (negb _); hsteps; [destruct (_ <? _); hsteps|]; intros [= <- <-]; right; (split; [done|]); cbn; rewrite ?Hv; done.
Qed.

(** Pages that come back in use during a case pass for pages taken out. *)
Lemma check_accepts_fall count name s c : counted s = Some c → 0 ≤ c < count → count < 2 ^ 32 →
  ∃ s', check meminfo_text count name 1 s = (Ok c, s') ∧ exitcode (vars s') = exitcode (vars s).
Proof.
  intros Hc Hlt Hmax. assert (hardware_corrupted meminfo_text s = (Ok c, s)) as E.
  { revert Hc. unfold counted, hardware_corrupted, meminfo. hsteps. destruct (meminfo_text (hist s)) as [text|]; [|done].
    simpl. destruct (head _) as [val|]; [|done]. hsteps. by intros [= <-]. }
  unfold check. rewrite (p_bind_ok _ _ _ _ _ E).
  assert (u32 (c - count) = 2 ^ 32 + (c - count)) as ->.
  { unfold u32, uwrap. symmetry. apply (Z.mod_unique_pos _ _ (-1)); lia. }
  destruct (Z.eqb_spec (2 ^ 32 + (c - count)) 1) as [Heq|]; cbn [negb]; hsteps; [by eexists|].
  destruct (Z.ltb_spec (2 ^ 32 + (c - count)) 1); [lia|]. hsteps. by eexists.
Qed.

Lemma soft_case_run x count s c s' : soft_case meminfo_text count x s = (Ok c, s') → keeps x.1 →
  ∃ s0, x.1 s = (Ok (), s0) ∧
    ((changed count s0 ∧ exitcode (vars s') = exitcode (vars s)) ∨ (¬ changed count s0 ∧ exitcode (vars s') = 1)).
Proof.
  intros E Hk. apply p_bind_inv in E as ([] & s0 & Ex & Ec). exists s0. split; [done|].
  specialize (Hk s). rewrite Ex in Hk. destruct Hk as [_ ->]. by apply check_run in Ec.
Qed.
(** Once it is 1 the exit code stays 1. *)
Lemma failed_loop l count s c s' : (∀ x, x ∈ l → keeps x.1) → exitcode (vars s) = 1 →
  p_fold l (soft_case meminfo_text) count s = (Ok c, s') → exitcode (vars s') = 1.
Proof.
  revert count s. induction l as [|x l IH]; intros count s Hk H1; [by intros [= _ <-]|]. cbn [p_fold]. intros E.
  apply p_bind_inv in E as (c1 & s1 & E1 & E). eapply IH; [|clear E|exact E]; [intros y Hy; apply Hk; by right|].
  apply soft_case_run in E1 as (s0 & _ & [[_ E1]|[_ E1]]); [congruence|done|by apply Hk; left].
Qed.

Lemma cases_loop l count s c s' : (∀ x, x ∈ l → keeps x.1) → exitcode (vars s) = 0 →
  p_fold l (soft_case meminfo_text) count s = (Ok c, s') →
  (exitcode (vars s') = 0 ∨ exitcode (vars s') = 1) ∧
  (exitcode (vars s') = 0 ↔ ∀ l1 x l2, l = l1 ++ x :: l2 →
     ∃ c1 s1 s2, p_fold l1 (soft_case meminfo_text) count s = (Ok c1, s1) ∧ x.1 s1 = (Ok (), s2) ∧ changed c1 s2).
Proof.
  intros Hk H0 E.
  revert count s c s' H0 E. induction l as [|x l IH]; intros count s c s' H0 E.
  { injection E as _ <-. split; [by left|]. split; [|done]. intros _ l1 x l2 Habs. by destruct l1. }
  cbn [p_fold] in E. apply p_bind_inv in E as (c1 & s1 & Ebody & E).
  assert (∀ y, y ∈ l → keeps y.1) as Hkl by (intros y Hy; apply Hk; by right).
  pose proof Ebody as Hcase. apply soft_case_run in Hcase as (s0 & Ex & [[Hr Ec]|[Hr Ec]]);
    [..|by apply Hk; left].
  - rewrite H0 in Ec. destruct (IH Hkl _ _ _ _ Ec E) as [H1 H2]. split; [done|]. rewrite H2. split.
    + intros Hall [|x1 l1] y l2 [= -> ->]; [by exists count, s, s0|].
      destruct (Hall l1 y l2 eq_refl) as (c3 & s3 & s4 & E3 & E4 & H4). exists c3, s3, s4. split; [|done].
      cbn [p_fold]. by rewrite (p_bind_ok _ _ _ _ _ Ebody).
    + intros Hall l1 y l2 ->. destruct (Hall (x :: l1) y l2 eq_refl) as (c3 & s3 & s4 & E3 & E4 & H4).
      exists c3, s3, s4. split; [|done]. cbn [p_fold] in E3. by rewrite (p_bind_ok _ _ _ _ _ Ebody) in E3.
  - pose proof (failed_loop _ _ _ _ _ Hkl Ec E) as H1. split; [by right|]. split; [lia|].
    intros Hall. destruct (Hall [] x l eq_refl) as (c3 & s3 & s4 & [= <- <-] & E4 & H4).
    rewrite Ex in E4. injection E4 as <-. by destruct Hr.
Qed.
End Verdict.

(** C36: tsoftinj returns 0 or 1, and 0 exactly when after each of its seven cases
    /proc/meminfo could be read and its count of corrupted pages was not what it
    was before, modulo 2^32; the cases then were all run, in order.  The difference
    is unsigned, so that a count that fell passes as one that rose. *)
Theorem tsoftinj_verdict `{OS : hwp_os} meminfo_text mounts pid s s' rc :
  tsoftinj_main meminfo_text mounts pid s = (Ok rc, s') → exitcode (vars s) = 0 → counted meminfo_text s ≠ None →
  ∃ HPS count dir s0, tsoftinj_setup meminfo_text mounts s = (Ok (HPS, count, dir), s0) ∧
  (rc = 0 ∨ rc = 1) ∧
  (rc = 0 ↔ ∀ l1 x l2, soft_cases pid dir HPS = l1 ++ x :: l2 →
     ∃ c1 s1 s2, p_fold l1 (soft_case meminfo_text) count s0 = (Ok c1, s1) ∧ x.1 s1 = (Ok (), s2) ∧ changed meminfo_text c1 s2).
Proof.
  intros E H0 Hc. unfold tsoftinj_main in E. apply p_bind_inv in E as ([[HPS count] dir] & s0 & E0 & E).
  exists HPS, count, dir, s0. split; [done|].
  assert (exitcode (vars s0) = 0) as Hs0.
  { revert E0. unfold tsoftinj_setup, gethugepagesize. hsteps. destruct (meminfo_text (hist s)); [|done]. hsteps.
    destruct (hardware_corrupted meminfo_text s) as [[c| | |] s1] eqn:Eh; try done.
    apply hardware_corrupted_run in Eh as [[_ ->]|[? _]]; [|done].
    unfold hugetlbfs_root. destruct mounts as [text'|]; hsteps; [|done].
    destruct (mount_loop _) as [[d|]| | |]; hsteps; try done. by intros [= _ _ _ <-]. }
  apply p_bind_inv in E as (c & s1 & E1 & E). injection E as <- <-.
  apply (cases_loop meminfo_text _ _ _ _ _ (keeps_case pid dir HPS) Hs0 E1).
Qed.

(** A kernel that counts what it takes out of use: an instance. *)
Definition is_offline (r : request) : bool := match r with MADVISE _ _ MADV_SOFT_OFFLINE => true | _ => false end.
Definition lab_meminfo (h : list request) : option cstr :=
  Some (lit "Hugepagesize: 2048 kB" ++ NL :: lit "HardwareCorrupted: "
        ++ fmt_u (4 * Z.of_nat (length (filter (λ r, Is_true (is_offline r)) h))) ++ lit " kB" ++ [NL]).
#[local] Instance lab : hwp_os := {|
  os_signal _ _ := None;
  os_value h r := match r with MMAP _ _ _ _ _ | SHMAT _ => (4096, 0) | OPEN _ _ => (3, 0) | _ => (0, 0) end;
  os_dumps_core _ := false; os_escaped _ := WaitInfo CLD_EXITED 0; os_child_first _ := true; os_pagesize := 4096
|}.
Definition lab_proc : proc sv := Proc [] [] SIG_DFL false sv0.
Notation lab_main := (tsoftinj_main lab_meminfo (Some (lit "none /huge hugetlbfs rw 0 0" ++ [NL])) 77).
Lemma lab_main_0 : ∃ s', lab_main lab_proc = (Ok 0, s').
Proof. apply p_run_ok. by vm_compute. Qed.
Lemma tsoftinj_verdict_witness : ∃ HPS count dir s0,
  tsoftinj_setup lab_meminfo (Some (lit "none /huge hugetlbfs rw 0 0" ++ [NL])) lab_proc = (Ok (HPS, count, dir), s0) ∧
  ∃ c1 s1 s2, p_fold [] (soft_case lab_meminfo) count s0 = (Ok c1, s1) ∧
    (anonymous [] s1 : res unit * proc sv) = (Ok (), s2) ∧ changed lab_meminfo c1 s2.
Proof.
  destruct lab_main_0 as (s' & E).
  assert (counted lab_meminfo lab_proc ≠ None) as Hc by (vm_compute; intros H; discriminate H).
  destruct (tsoftinj_verdict _ _ _ _ _ _ E eq_refl Hc) as (HPS & count & dir & s0 & E0 & _ & [H _]).
  exists HPS, count, dir, s0. split; [exact E0|].
  destruct (H eq_refl [] (anonymous [], lit "anonymous") (tl (soft_cases 77 dir HPS)) eq_refl) as (c1 & s1 & s2 & E1 & E2 & H2).
  exists c1, s1, s2. split; [exact E1|]. split; [exact E2|exact H2].
Defined.
End Tsoftinj.

(** ** tsimpleinj *)
Module Tsimpleinj.
Record simple := Simple { count : Z; failure : Z; total_cases : Z; tmpcount : Z }.
Definition simple0 : simple := Simple 20 0 0 0.
Definition set_count (n : Z) (v : simple) : simple := Simple n (failure v) (total_cases v) (tmpcount v).
Definition failed (v : simple) : simple := Simple (count v) (failure v + 1) (total_cases v) (tmpcount v).
Definition one_case (v : simple) : simple := Simple (count v) (failure v) (total_cases v + 1) (tmpcount v).
Definition one_file (v : simple) : simple := Simple (count v) (failure v) (total_cases v) (tmpcount v + 1).

Section Tsimpleinj.
Context {OS : hwp_os}.
Notation program := (prog (proc simple)).
Notation PS := os_pagesize.
Notation err := (p_exit 1).

(** [sighandler], before it jumps. *)
Definition sighandler (si : signal) : program unit :=
  put (lit "signal " ++ fmt_d SIGBUS ++ lit " code " ++ fmt_d (si_code si) ++ lit " addr " ++ fmt_p (si_addr si) ++ [NL]);;
  v ← get_vars;
  upd (set_count (count v - 1));;
  if count v - 1 =? 0 then p_exit 1 else mret ().
(** The access of [testmem], unless the injection was answered by a signal. *)
Definition touch (page : Z) (write : bool) : program unit :=
  if write then r ← mem (STORE page 2); match r with inl si => sighandler si | inr _ => mret () end
  else
    r ← mem (LOAD page);
    match r with inl si => sighandler si | inr (x, _) => put (fmt_x (uchar x) ++ [NL]) end.
Definition testmem (msg : cstr) (page : Z) (write : bool) : program unit :=
  put (msg ++ lit " page " ++ fmt_p page ++ [NL]);;
  upd one_case;;
  r ← mem (MADVISE page PS MADV_POISON);
  match r with
  | inl si => sighandler si
  | inr (v, _) => p_when (nz v) (upd failed);; touch page write
  end;;
  put (lit "recovered" ++ [NL]).
Definition expecterr (msg : cstr) (r : Z * Z) : program unit :=
  if fst r =? 0 then put (lit "no error on " ++ msg ++ [NL]) else mret ().   (* perror *)
(** The name that [mkstemp] makes of the template is not modelled. *)
Definition tempfd : program Z :=
  v ← get_vars;
  let buf := snprintf 30 (lit "./test" ++ fmt_d (tmpcount v) ++ lit ".XXXXXXXX") in
  upd one_file;;
  '(fd, _) ← sys (MKSTEMP buf);
  p_when (0 <=? fd) (sys (UNLINK buf);; mret ());;
  mret fd.
Definition map_page (prot : list prot_flag) (flags : list map_flag) (fd : Z) : program Z :=
  '(page, _) ← sys (MMAP 0 PS prot flags fd); mret page.
Definition map_or_err (prot : list prot_flag) (flags : list map_flag) (fd : Z) : program Z :=
  page ← map_page prot flags fd; if page =? -1 then err else mret page.

(** The five cases of [main]. *)
Definition simple_cases : program unit :=
  set_sigbus SIG_HANDLER;;
  page ← map_page [PROT_READ; PROT_WRITE] [MAP_PRIVATE; MAP_ANONYMOUS; MAP_POPULATE] 0;
  testmem (lit "dirty") page true;;
  page ← map_page [PROT_READ; PROT_WRITE] [MAP_PRIVATE; MAP_ANONYMOUS; MAP_LOCKED] 0;
  testmem (lit "mlocked") page true;;
  '(fd, _) ← sys (OPEN (lit "./Makefile") [O_RDONLY]);
  p_when (fd <? 0) err;;
  page ← map_or_err [PROT_READ] [MAP_SHARED; MAP_POPULATE] fd;
  sys (CLOSE fd);;
  testmem (lit "clean file") page false;;
  fd ← tempfd;
  p_when (fd <? 0) err;;
  '(tmp, _) ← sys (MALLOC PS);
  p_when (tmp =? 0) err;;
  sys (WRITE fd (replicate (Z.to_nat PS) 255));;
  page ← map_or_err [PROT_READ; PROT_WRITE] [MAP_SHARED] fd;
  store page 1;;
  testmem (lit "file dirty") page false;;
  r ← sys (MSYNC page PS); expecterr (lit "msync expect error") r;;
  r ← sys (FSYNC fd); expecterr (lit "fsync expect error") r;;
  sys (CLOSE fd);;
  fd ← tempfd;
  p_when (fd <? 0) err;;
  sys (FTRUNCATE fd PS);;
  page ← map_or_err [PROT_READ; PROT_WRITE] [MAP_SHARED] fd;
  store page 1;;
  testmem (lit "hole file dirty") page false;;
  r ← sys (MSYNC page PS); expecterr (lit "hole msync expect error") r;;
  r ← sys (FSYNC fd); expecterr (lit "hole fsync expect error") r;;
  sys (CLOSE fd);; mret ().
Definition tsimpleinj_main : program Z :=
  simple_cases;;
  v ← get_vars;
  if 0 <? failure v then
    put (lit "FAILURE -- " ++ fmt_d (failure v) ++ lit " of " ++ fmt_d (total_cases v) ++ lit " cases broken!" ++ [NL]);; mret 1
  else put (lit "SUCCESS" ++ [NL]);; mret 0.
End Tsimpleinj.

(** *** What counts as a failure *)

Section Failures.
Context {OS : hwp_os} (Hmadvise : ∀ h a, fst (os_value h (MADVISE a os_pagesize MADV_POISON)) = 0).
Definition same_failure (v v' : simple) : Prop := failure v = failure v'.
#[export] Instance same_failure_preorder : PreOrder same_failure.
Proof. split; [done|]. intros u v w. unfold same_failure. congruence. Qed.
Notation keeps p := (behaves same_failure [1] p).
Lemma simple_upd f : (∀ v, failure (f v) = failure v) → keeps (upd f).
Proof. intros H. apply behaves_upd. intros v. unfold same_failure. by rewrite H. Qed.
Lemma simple_sighandler si : keeps (sighandler si).
Proof. unfold sighandler. repeat first [by apply simple_upd | behaves_step]. Qed.
Hint Resolve simple_sighandler : behaves.
Lemma simple_touch page write : keeps (touch page write).
Proof. unfold touch. behaves. Qed.
Hint Resolve simple_touch : behaves.
Lemma simple_testmem msg page write : keeps (testmem msg page write).
Proof.
  intros s. unfold testmem. hsteps. unfold mem. hsteps.
  destruct (os_signal (hist s) _) as [si|]; hsteps.
  - destruct (sigbus s); hsteps; [by left|].
    pose proof (simple_sighandler si (Proc (MADVISE page os_pagesize MADV_POISON :: hist s)
      (out s ++ msg ++ lit " page " ++ fmt_p page ++ [NL]) SIG_HANDLER (killed s) (one_case (vars s)))) as H.
    destruct (sighandler si _) as [[u|c| |] s1]; hsteps; done.
  - pose proof (Hmadvise (hist s) page) as Hv. destruct (os_value (hist s) _) as [v e]. cbn [fst] in Hv. subst v. change (nz 0) with false. hsteps.
    pose proof (simple_touch page write (Proc (MADVISE page os_pagesize MADV_POISON :: hist s)
      (out s ++ msg ++ lit " page " ++ fmt_p page ++ [NL]) (sigbus s) (killed s) (one_case (vars s)))) as H.
    destruct (touch page write _) as [[u|c| |] s1]; hsteps; done.
Qed.
Lemma simple_tempfd : keeps tempfd.
Proof. unfold tempfd. repeat first [by apply simple_upd | behaves_step]. Qed.
Lemma simple_expecterr msg r : keeps (expecterr msg r).
Proof. unfold expecterr. behaves. Qed.
Lemma simple_store a v : keeps (store a v).
Proof. unfold store. behaves. Qed.
Hint Resolve simple_testmem simple_tempfd simple_expecterr simple_store : behaves.

(** The program counts errors of [madvise] only: when there are none and it
    ends, it says SUCCESS, whether a page was hit or not. *)
Lemma simple_blind s s' rc : failure (vars s) = 0 → tsimpleinj_main s = (Ok rc, s') → rc = 0.
Proof.
  intros H0 E. unfold tsimpleinj_main in E. apply p_bind_inv in E as ([] & s1 & E1 & E).
  assert (keeps simple_cases) as Hk by (unfold simple_cases, map_or_err, map_page; behaves).
  specialize (Hk s). rewrite E1 in Hk. destruct Hk as [_ Hk]. unfold same_failure in Hk.
  revert E. hsteps. rewrite <- Hk, H0. change (0 <? 0) with false. hsteps. by intros [= <-].
Qed.
End Failures.
End Tsimpleinj.

(** ** tprctl: the policy of a process *)
Module Tprctl.
Definition PR_MCE_KILL_LATE : Z := 0.
Definition PR_MCE_KILL_EARLY : Z := 1.
Definition PR_MCE_KILL_DEFAULT : Z := 2.

Section Tprctl.
Context {OS : hwp_os}.
(** The variable is [seq]. *)
Notation program := (prog (proc Z)).

(** [err] and [fail] both exit with 1; [fail] prints on standard output. *)
Notation err := (p_exit 1).
Definition fail {A} (text : cstr) : program A := put (lit "FAILURE: " ++ text ++ [NL]);; p_exit 1.
(** Where the handler jumps to. *)
Definition recovered (early : bool) : program unit :=
  put (lit "recovered" ++ [NL]);;
  seq ← get_vars;
  if (seq =? 1) && early then fail (lit "early mode set, but no early kill")
  else if (seq =? 0) && negb early then fail (lit "late mode set, but early kill")
  else mret ().
Definition test (early : bool) : program unit :=
  let PS := os_pagesize in
  '(ptr, _) ← sys (MMAP 0 PS [PROT_READ; PROT_WRITE] [MAP_PRIVATE; MAP_ANONYMOUS; MAP_POPULATE] 0);
  if ptr =? -1 then err else
  set_sigbus SIG_HANDLER;;
  put (lit "ptr = " ++ fmt_p ptr ++ [NL]);;
  upd (λ _, 0);;
  put (lit "injection" ++ [NL]);;
  r ← mem (MADVISE ptr PS MADV_POISON);
  match r with
  | inl _ => recovered early
  | inr (v, _) =>
      if v <? 0 then err else
      upd (λ seq, seq + 1);;
      put (lit "faulting" ++ [NL]);;
      r ← mem (STORE ptr 1);
      match r with
      | inl _ => recovered early
      | inr _ => put (lit "finished" ++ [NL])
      end
  end.
Definition policy_is (policy : Z) (text : cstr) : program unit :=
  '(p, _) ← sys PRCTL_GET;
  if p <? 0 then err else if p =? policy then mret () else fail text.
Definition set_policy (policy : Z) : program unit :=
  '(r, _) ← sys (PRCTL policy); if r <? 0 then err else mret ().
Definition tprctl_main : program Z :=
  policy_is PR_MCE_KILL_DEFAULT (lit "starting policy not default");;
  set_policy PR_MCE_KILL_LATE;;
  test false;;
  set_policy PR_MCE_KILL_EARLY;;
  test true;;
  policy_is PR_MCE_KILL_EARLY (lit "get mode not early after setting");;
  '(r, _) ← sys PRCTL_CLEAR;
  p_when (r <? 0) err;;
  policy_is PR_MCE_KILL_DEFAULT (lit "ending policy not default");;
  mret 0.
End Tprctl.

(** *** What a test accepts *)

(** Where the kernel hits the process, if the mapping and the injection work. *)
Inductive hit := At_injection | At_access | Nowhere.
Definition hit_of `{OS : hwp_os} (h : list request) : option hit :=
  let m := MMAP 0 os_pagesize [PROT_READ; PROT_WRITE] [MAP_PRIVATE; MAP_ANONYMOUS; MAP_POPULATE] 0 in
  let ptr := fst (os_value h m) in
  let i := MADVISE ptr os_pagesize MADV_POISON in
  if ptr =? -1 then None else
  match os_signal (m :: h) i with
  | Some _ => Some At_injection
  | None =>
      if fst (os_value (m :: h) i) <? 0 then None else
      match os_signal (i :: m :: h) (STORE ptr 1) with Some _ => Some At_access | None => Some Nowhere end
  end.
Definition accepted (early : bool) (o : option hit) : bool :=
  match o with
  | Some At_injection => early
  | Some At_access => negb early
  | Some Nowhere => true
  | None => false
  end.

(** A test of tprctl returns exactly when the kernel hit the process where
    the policy says, at the injection under early kill and at the access
    otherwise, or did not hit it at all; in every other case the program exits
    with 1. *)
Theorem prctl_test_spec `{OS : hwp_os} early s :
  (test early s).1 = if accepted early (hit_of (hist s)) then Ok () else Exit 1.
Proof.
  unfold test, hit_of. hsteps. set (m := MMAP _ _ _ _ _).
  destruct (os_value (hist s) m) as [ptr e]. hsteps. destruct (ptr =? -1); [done|]. hsteps.
  unfold mem. hsteps. destruct (os_signal (m :: hist s) _) as [si|]; hsteps.
  { unfold recovered. hsteps. by destruct early. }
  destruct (os_value (m :: hist s) _) as [v e']. hsteps. destruct (v <? 0); [done|]. hsteps.
  match goal with |- context [os_signal ?h (STORE ptr 1)] => destruct (os_signal h (STORE ptr 1)) as [si|] end; hsteps.
  { unfold recovered. hsteps. by destruct early. }
  by destruct early.
Qed.
End Tprctl.

(** ** tsoft, thugetlb_overcommit, tkillpoison, busy *)
Module Single.
Section Single.
Context {OS : hwp_os}.
Notation program := (prog (proc unit)).

Definition tsoft_main : program Z :=
  let PS := os_pagesize in
  '(map, _) ← sys (MMAP 0 PS [PROT_READ; PROT_WRITE] [MAP_PRIVATE; MAP_ANONYMOUS] 0);
  if map =? -1 then p_exit 1 else
  store map 1;;
  mem (MADVISE map PS MADV_SOFT_OFFLINE);;
  store map 2;;
  mret 0.

(** The argument is [argv[1]], which may be missing. The memory is counted in
    huge pages of 2 MB, while [HPS] of hugepage.h, which [write_hugepage] uses,
    is a variable that nothing sets: 0. *)
Definition overcommit_main (arg : option cstr) : program Z :=
  match arg with
  | None => p_undef
  | Some s =>
      let nr_hugepages := i32 (fst (strtoll s 10)) in
      addr ← alloc_anonymous_hugepage (i32 (nr_hugepages * HPAGE_SIZE)) false;
      write_hugepage 0 addr nr_hugepages 0;;
      r ← mem (MADVISE addr os_pagesize MADV_SOFT_OFFLINE);
      match r with
      | inl _ => p_undef
      | inr (ret, _) => free_anonymous_hugepage addr (i32 (nr_hugepages * HPAGE_SIZE));; mret ret
      end
  end.

Definition tkillpoison_main : program Z :=
  let PS := os_pagesize in
  '(ptr, _) ← sys (MMAP 0 PS [PROT_READ; PROT_WRITE] [MAP_PRIVATE; MAP_ANONYMOUS; MAP_POPULATE] 0);
  put (lit "ptr = " ++ fmt_p ptr ++ [NL]);;
  mem (MADVISE ptr PS MADV_POISON);;
  put (lit "faulting" ++ [NL]);;
  store ptr 1;;
  put (lit "waiting" ++ [NL]);;
  mem (SLEEP 100);;
  mret 0.

(** The loop of pfa/busy.c does not end. *)
Fixpoint busy_main (fuel : nat) : program Z :=
  match fuel with
  | O => p_nofuel
  | S fuel => mem (SLEEP 0);; busy_main fuel
  end.
End Single.

(** thugetlb_overcommit writes no byte of its huge pages. *)
Lemma overcommit_writes_nothing `{OS : hwp_os} addr nr (s : proc unit) : write_hugepage 0 addr nr 0 s = (Ok (), s).
Proof.
  unfold write_hugepage. generalize (seqZ 0 nr) as l. induction l as [|i l IH]; [done|]. cbn [p_for].
  rewrite p_bind_run. unfold write_page, page_addr. rewrite Z.mul_0_r. change (INT_MAX <? 0) with false. hsteps.
  rewrite Z.add_0_r. destruct (Z.eqb_spec addr 0); exact IH.
Qed.
Lemma busy_never_returns `{OS : hwp_os} fuel s rc s' : busy_main fuel s ≠ (Ok rc, s').
Proof.
  revert s. induction fuel as [|f IH]; intros s; [done|]. cbn [busy_main]. rewrite p_bind_run.
  destruct (mem _ s) as [[a|c| |] s1]; [apply IH|done..].
Qed.
End Single.
