(* ===== verification/KTree.v ===== *)
(** * KTree: the k-trees of the metadata stress test

    cases/stress/hwpoison/tools/fs-metadata/k-tree-gen.c and k-tree-trav.c: a
    tree of directories with [node_nr] directories and [node_nr] files in each,
    [lvl] levels deep, is made and walked through.  The file system is a class:
    what each call does to the entries and to the current directory. *)
From Stdlib Require Import String.
From S2P Require Import Prelude CLib.

(** ** The file system *)

(** An entry: a file, or a directory that may be searched or not. *)
Inductive entry := File | Dir (searchable : bool).
Notation path := (list cstr).
(** The current directory, from the one in which the program starts, and the
    entries below that. *)
Record dirs := Dirs { cwd : path; tree : gmap path entry }.

(** The calls. What the calls on open files do to their contents is left out. *)
Inductive fcall :=
| OPEN_CREAT (name : cstr) | DUP (fd : Z) | CLOSE (fd : Z) | WRITE (fd : Z) (data : cstr) | LSEEK (fd off whence : Z) | READ (fd n : Z)
| MKDIR (name : cstr) | CHDIR (name : cstr) | CHDIR_ABS (dir : path)
| LINK (old new : cstr) | UNLINK (name : cstr) | RENAME (old new : cstr) | SYMLINK (target name : cstr)
| CHMOD_rw (name : cstr).          (* read and write only *)

Section Steps.
Context (root : bool).
Definition at_cwd (d : dirs) (name : cstr) : path := cwd d ++ [name].
Definition set_tree (t : gmap path entry) (d : dirs) : dirs := Dirs (cwd d) t.
Definition add_new (name : cstr) (e : entry) (d : dirs) : dirs :=
  match tree d !! at_cwd d name with None => set_tree (<[at_cwd d name := e]> (tree d)) d | Some _ => d end.
(** What a call does; one that fails does nothing. *)
Definition fs_step (c : fcall) (d : dirs) : dirs :=
  match c with
  | OPEN_CREAT n => add_new n File d
  | MKDIR n => add_new n (Dir true) d
  | SYMLINK _ n => add_new n File d
  | CHDIR n =>
      match tree d !! at_cwd d n with
      | Some (Dir x) => if root || x then Dirs (at_cwd d n) (tree d) else d
      | _ => d
      end
  | CHDIR_ABS p => Dirs p (tree d)
  | LINK old new => match tree d !! at_cwd d old with Some File => add_new new File d | _ => d end
  | UNLINK n => match tree d !! at_cwd d n with Some File => set_tree (delete (at_cwd d n) (tree d)) d | _ => d end
  | RENAME old new =>
      match tree d !! at_cwd d old, tree d !! at_cwd d new with
      | Some File, (None | Some File) => set_tree (<[at_cwd d new := File]> (delete (at_cwd d old) (tree d))) d
      | _, _ => d
      end
  | CHMOD_rw n =>
      match tree d !! at_cwd d n with
      | Some (Dir _) => set_tree (<[at_cwd d n := Dir false]> (tree d)) d
      | _ => d
      end
  | DUP _ | CLOSE _ | WRITE _ _ | LSEEK _ _ _ | READ _ _ => d
  end.
End Steps.

(** A file system: its state, the answers, and what the calls do. The process
    may have the rights of root. *)
Class file_system (F : Type) := {
  fs_root : bool;
  fs_view : F → dirs;
  fs_call : fcall → F → Z * F;
  fs_law c s : fs_view (fs_call c s).2 = fs_step fs_root c (fs_view s)
}.

Section Programs.
Context {F : Type} {FS : file_system F}.

Definition call (c : fcall) : prog F Z := λ s, let '(r, s') := fs_call c s in (Ok r, s').
Definition getcwd : prog F path := λ s, (Ok (cwd (fs_view s)), s).

Definition dir_name (cnt : Z) : cstr := fmt_d cnt ++ lit "-d".
Definition leaf_name (cnt : Z) : cstr := fmt_d cnt ++ lit "-f".
Definition link_name (cnt : Z) : cstr := fmt_d cnt ++ lit "-f-t".
Definition symlink_name (cnt : Z) : cstr := fmt_d cnt ++ lit "-l".

(** One turn of the loop of [k_tree_gen], around the call of itself. *)
Definition gen_node (below : prog F Z) (cnt : Z) : prog F unit :=
  let dir := dir_name cnt in
  let leaf := leaf_name cnt in
  fd ← call (OPEN_CREAT leaf);
  fd2 ← call (DUP fd);
  call (CLOSE fd);;
  call (WRITE fd2 (take 3 leaf));;
  call (LSEEK fd2 0 0);;
  call (READ fd2 3);;
  call (CLOSE fd2);;
  call (MKDIR dir);;
  here ← getcwd;
  call (CHDIR dir);;
  below;;
  call (CHDIR_ABS here);; mret ().
Fixpoint k_tree_gen (lvl : nat) (node_nr : Z) : prog F Z :=
  match lvl with
  | O => mret 0
  | S lvl => p_for (seqZ 0 node_nr) (gen_node (k_tree_gen lvl node_nr));; mret 1
  end.

(** The same of [k_tree_trav]. *)
Definition trav_node (below : prog F Z) (cnt : Z) : prog F unit :=
  let dir := dir_name cnt in
  let f1 := leaf_name cnt in
  let f2 := link_name cnt in
  let ln := symlink_name cnt in
  call (LINK f1 f2);;
  call (UNLINK f1);;
  call (RENAME f2 f1);;
  call (SYMLINK ln f1);;
  call (UNLINK ln);;
  here ← getcwd;
  call (CHMOD_rw dir);;
  call (CHDIR dir);;
  below;;
  call (CHDIR_ABS here);; mret ().
Fixpoint k_tree_trav (lvl : nat) (node_nr : Z) : prog F Z :=
  match lvl with
  | O => mret 0
  | S lvl => p_for (seqZ 0 node_nr) (trav_node (k_tree_trav lvl node_nr));; mret 1
  end.

(** [main] of both: with one argument the second is a null pointer, which
    [printf] and [atoi] are given. *)
Definition k_tree_main (f : nat → Z → prog F Z) (args : list cstr) : prog F Z :=
  match args with
  | [] => mret 1
  | [_] => p_undef
  | depth :: width :: _ => f (Z.to_nat (atoi depth)) (atoi width);; mret 0
  end.
Definition k_tree_gen_main : list cstr → prog F Z := k_tree_main k_tree_gen.
Definition k_tree_trav_main : list cstr → prog F Z := k_tree_main k_tree_trav.
End Programs.

(** ** The names *)

Lemma name_inj i j s t : 0 ≤ i < 2 ^ 31 → 0 ≤ j < 2 ^ 31 →
  fmt_d i ++ "-"%char :: s = fmt_d j ++ "-"%char :: t → i = j ∧ s = t.
Proof.
  intros Hi Hj E. assert (i = j) as ->.
  { rewrite <- (atoi_fmt_d i ("-"%char :: s)), <- (atoi_fmt_d j ("-"%char :: t)) by done. by rewrite E. }
  by apply (inj (app (fmt_d j))) in E as [= ->].
Qed.

(** The names with a number below [k]. *)
Definition among (name : Z → cstr) (k : Z) (x : cstr) : bool := existsb (λ i, bool_decide (x = name i)) (seqZ 0 k).
Lemma among_spec name k x : among name k x = true ↔ ∃ i, 0 ≤ i < k ∧ x = name i.
Proof.
  unfold among. rewrite existsb_exists. setoid_rewrite <- list_elem_of_In. setoid_rewrite elem_of_seqZ.
  setoid_rewrite bool_decide_eq_true. naive_solver lia.
Qed.
Lemma among_false name k x : (∀ i, 0 ≤ i < k → x ≠ name i) → among name k x = false.
Proof. intros H. apply not_true_is_false. rewrite among_spec. intros (i & Hi & ->). by apply (H i). Qed.
Lemma among_true name k i : 0 ≤ i < k → among name k (name i) = true.
Proof. intros Hi. apply among_spec. by exists i. Qed.

Lemma among_succ name k x : 0 ≤ k → among name (k + 1) x = among name k x || bool_decide (x = name k).
Proof.
  intros Hk. unfold among. rewrite seqZ_snoc, existsb_app by lia. simpl. by rewrite orb_false_r.
Qed.

(** ** The tree that should be there *)

(** The entry of a tree of [lvl] levels at a path from its top, when the first
    [k] of the [n] nodes at the top are there. *)
Fixpoint kentry (lvl : nat) (n k : Z) (r : path) : option entry :=
  match lvl, r with
  | O, _ | _, [] => None
  | S lvl, x :: r =>
      match r with
      | [] => if among dir_name k x then Some (Dir true) else if among leaf_name k x then Some File else None
      | _ => if among dir_name k x then kentry lvl n n r else None
      end
  end.
Definition ktree (lvl : nat) (n : Z) : path → option entry := kentry lvl n n.

(** [t'] is [t] with these entries below [c], and nothing else there. *)
Record grown (c : path) (t : gmap path entry) (e : path → option entry) (t' : gmap path entry) : Prop := {
  g_in x r : t' !! (c ++ x :: r) = e (x :: r);
  g_out q : (∀ x r, q ≠ c ++ x :: r) → t' !! q = t !! q
}.
Definition bare (c : path) (t : gmap path entry) : Prop := ∀ x r, t !! (c ++ x :: r) = None.

Lemma kentry_0 lvl n r : kentry lvl n 0 r = None.
Proof. destruct lvl as [|lvl]; [done|]. by destruct r as [|x [|y r]]. Qed.

Lemma bare_grown lvl n c t : bare c t → grown c t (kentry lvl n 0) t.
Proof. intros Hb. split; [|done]. intros x r. rewrite kentry_0. apply Hb. Qed.

(** How the entries change with one node more. *)
Lemma kentry_succ lvl n k x r : 0 ≤ k < 2 ^ 31 - 1 →
  kentry (S lvl) n (k + 1) (x :: r) =
    if bool_decide (x = dir_name k) then match r with [] => Some (Dir true) | _ => kentry lvl n n r end
    else if bool_decide (x = leaf_name k) && bool_decide (r = []) then Some File
    else kentry (S lvl) n k (x :: r).
Proof.
  intros Hk. cbn [kentry]. rewrite !among_succ by lia.
  assert (∀ i j, 0 ≤ i < 2 ^ 31 → 0 ≤ j < 2 ^ 31 → dir_name i ≠ leaf_name j) as Hdl.
  { intros i j Hi Hj E. by apply name_inj in E as [_ E]. }
  destruct (bool_decide_reflect (x = dir_name k)) as [->|Hd]; [by rewrite orb_true_r; destruct r|]. rewrite orb_false_r.
  destruct (bool_decide_reflect (x = leaf_name k)) as [->|Hl]; cbn [andb]; [|by rewrite orb_false_r].
  rewrite (among_false dir_name k (leaf_name k)).
  2:{ intros i Hi E. by apply (Hdl i k); [lia..|]. }
  destruct r; cbn [bool_decide]; [by rewrite orb_true_r|done].
Qed.

Lemma call_run `{FS : file_system F} c s : ∃ r s', call c s = (Ok r, s') ∧ fs_view s' = fs_step fs_root c (fs_view s).
Proof.
  unfold call. pose proof (fs_law c s) as H. destruct (fs_call c s) as [r s']. by exists r, s'.
Qed.
(** Run the call at the head of a program. *)
Ltac run_call s' Hv :=
  match goal with
  | |- context [(call ?c ≫= ?f) ?s] =>
      let r := fresh "ans" in let E := fresh "E" in
      destruct (call_run c s) as (r & s' & E & Hv); rewrite (p_bind_ok _ _ _ _ _ E); clear E
  end.

Section Generator.
Context {F : Type} {FS : file_system F}.
Notation view s := (fs_view s).

Lemma add_new_none n e d : tree d !! at_cwd d n = None → add_new n e d = Dirs (cwd d) (<[at_cwd d n := e]> (tree d)).
Proof. unfold add_new. by intros ->. Qed.

(** A node of the generator adds its file, its directory and what is below. *)
Lemma gen_node_run below lvl n c t0 k s :
  0 ≤ k < 2 ^ 31 - 1 → cwd (view s) = c → bare c t0 → grown c t0 (kentry (S lvl) n k) (tree (view s)) →
  (∀ s c t, view s = Dirs c t → bare c t → ∃ r s', below s = (Ok r, s') ∧ cwd (view s') = c ∧ grown c t (ktree lvl n) (tree (view s'))) →
  ∃ s', gen_node below k s = (Ok (), s') ∧ cwd (view s') = c ∧ grown c t0 (kentry (S lvl) n (k + 1)) (tree (view s')).
Proof.
  intros Hk Hc Hbare [Hin Hout] Hbelow.
  assert (∀ i j, 0 ≤ i < 2 ^ 31 → 0 ≤ j < 2 ^ 31 → dir_name i ≠ leaf_name j) as Hdl.
  { intros i j Hi Hj E. by apply name_inj in E as [_ E]. }
  assert (among dir_name k (leaf_name k) = false ∧ among leaf_name k (leaf_name k) = false ∧
          among dir_name k (dir_name k) = false) as (Hf1 & Hf2 & Hf3).
  { split_and!; apply among_false; intros i Hi E; [exact (Hdl i k ltac:(lia) ltac:(lia) (eq_sym E))|apply name_inj in E; lia|apply name_inj in E; lia]. }
  unfold gen_node. run_call s1 H1. cbn [fs_step] in H1.
  rewrite add_new_none in H1.
  2:{ unfold at_cwd. rewrite Hc, Hin. cbn [kentry]. by rewrite Hf1, Hf2. }
  unfold at_cwd in H1. rewrite Hc in H1.
  run_call s2 H2. run_call s3 H3. run_call s4 H4. run_call s5 H5. run_call s6 H6. run_call s7 H7.
  cbn [fs_step] in H2, H3, H4, H5, H6, H7. rewrite H6, H5, H4, H3, H2, H1 in H7. clear H1 H2 H3 H4 H5 H6.
  run_call s8 H8. cbn [fs_step] in H8. rewrite H7 in H8. cbn [fs_step] in H8.
  rewrite add_new_none in H8.
  2:{ unfold at_cwd. cbn [cwd tree]. rewrite lookup_insert_ne, Hin.
      - cbn [kentry]. rewrite Hf3. rewrite (among_false leaf_name k (dir_name k)); [done|].
        intros i Hi E. exact (Hdl k i ltac:(lia) ltac:(lia) E).
      - intros [= E]%(inj (app c)). exact (Hdl k k ltac:(lia) ltac:(lia) (eq_sym E)). }
  unfold at_cwd in H8. cbn [cwd tree] in H8. set (t1 := <[c ++ [dir_name k] := Dir true]> _) in H8.
  assert (getcwd s8 = (Ok c, s8)) as Hcwd by (unfold getcwd; by rewrite H8).
  rewrite (p_bind_ok _ _ _ _ _ Hcwd). run_call s9 H9. cbn [fs_step] in H9. rewrite H8 in H9.
  unfold at_cwd in H9. cbn [cwd tree] in H9. unfold t1 in H9. rewrite lookup_insert_eq, orb_true_r in H9. fold t1 in H9.
  assert (∀ x q, t1 !! (c ++ x :: q) =
    if bool_decide (x :: q = [dir_name k]) then Some (Dir true)
    else if bool_decide (x :: q = [leaf_name k]) then Some File else kentry (S lvl) n k (x :: q)) as Ht1.
  { intros x q. unfold t1.
    destruct (bool_decide_reflect (x :: q = [dir_name k])) as [->|Hd]; [by rewrite lookup_insert_eq|].
    rewrite lookup_insert_ne by (intros E%(inj (app c)); by rewrite E in Hd).
    destruct (bool_decide_reflect (x :: q = [leaf_name k])) as [->|Hl]; [by rewrite lookup_insert_eq|].
    rewrite lookup_insert_ne by (intros E%(inj (app c)); by rewrite E in Hl). apply Hin. }
  destruct (Hbelow s9 (c ++ [dir_name k]) t1 H9) as (rb & s10 & Eb & Hc10 & [Hin10 Hout10]).
  { intros x q. rewrite <- app_assoc. cbn [app]. rewrite Ht1. cbn [kentry]. rewrite Hf3.
    destruct (bool_decide_reflect (dir_name k :: x :: q = [dir_name k])); [done|].
    by destruct (bool_decide_reflect (dir_name k :: x :: q = [leaf_name k])). }
  rewrite (p_bind_ok _ _ _ _ _ Eb). run_call s11 H11. cbn [fs_step] in H11.
  exists s11. split; [done|]. rewrite H11. cbn [cwd tree]. split; [done|]. split.
  - intros x r'. rewrite kentry_succ by done.
    destruct (bool_decide_reflect (x = dir_name k)) as [->|Hd].
    + destruct r' as [|y r'].
      * rewrite Hout10 by (intros y r' E; rewrite <- app_assoc in E; by apply (inj (app c)) in E).
        rewrite Ht1. by rewrite bool_decide_true by done.
      * specialize (Hin10 y r'). rewrite <- app_assoc in Hin10. exact Hin10.
    + rewrite Hout10 by (intros y r2 E; rewrite <- app_assoc in E; by apply (inj (app c)) in E as [= ->]).
      rewrite Ht1. rewrite bool_decide_false by congruence.
      destruct (bool_decide_reflect (x = leaf_name k)) as [->|Hl], (bool_decide_reflect (r' = [])) as [->|Hr]; cbn [andb];
        [by rewrite bool_decide_true|rewrite bool_decide_false; congruence || done..].
  - intros q Hq. rewrite Hout10 by (intros x r' ->; apply (Hq (dir_name k) (x :: r')); by rewrite <- app_assoc).
    unfold t1. rewrite !lookup_insert_ne by (intros <-; by eapply Hq). by apply Hout.
Qed.

Lemma gen_run lvl n s c t : n < 2 ^ 31 → view s = Dirs c t → bare c t →
  ∃ r s', k_tree_gen lvl n s = (Ok r, s') ∧ cwd (view s') = c ∧ grown c t (ktree lvl n) (tree (view s')).
Proof.
  intros Hn. revert s c t. induction lvl as [|lvl IH]; intros s c t Hs Hbare.
  { exists 0, s. split; [done|]. rewrite Hs. split; [done|]. by apply (bare_grown 0 n c t). }
  assert (∀ k : nat, Z.of_nat k ≤ Z.max n 0 →
    ∃ s', p_for (seqZ 0 (Z.of_nat k)) (gen_node (k_tree_gen lvl n)) s = (Ok (), s') ∧
      cwd (view s') = c ∧ grown c t (kentry (S lvl) n (Z.of_nat k)) (tree (view s'))) as Hloop.
  { induction k as [|k IHk]; intros Hk.
    { exists s. split; [done|]. rewrite Hs. split; [done|]. by apply bare_grown. }
    destruct IHk as (s1 & E1 & Hc1 & Hg1); [lia|].
    rewrite Nat2Z.inj_succ in *. unfold Z.succ in *. rewrite seqZ_snoc by lia.
    destruct (gen_node_run (k_tree_gen lvl n) lvl n c t (Z.of_nat k) s1) as (s2 & E2 & Hc2 & Hg2); [lia|done..|].
    exists s2. split; [|done].
    rewrite (p_for_app (seqZ 0 (Z.of_nat k)) [Z.of_nat k] (gen_node (k_tree_gen lvl n)) s), (p_bind_ok _ _ _ _ _ E1).
    cbn [p_for]. by rewrite (p_bind_ok _ _ _ _ _ E2). }
  destruct (Hloop (Z.to_nat n)) as (s' & E & Hc & Hg); [lia|]. cbn [k_tree_gen].
  destruct (decide (0 ≤ n)) as [H0|H0].
  - rewrite Z2Nat.id in * by done. rewrite (p_bind_ok _ _ _ _ _ E). exists 1, s'. done.
  - replace (seqZ 0 n) with (seqZ 0 (Z.of_nat (Z.to_nat n))) by (rewrite Z2Nat.nonpos by lia; unfold seqZ; by rewrite (Z2Nat.nonpos n) by lia).
    rewrite (p_bind_ok _ _ _ _ _ E). exists 1, s'. split; [done|]. split; [done|].
    rewrite Z2Nat.nonpos in Hg by lia. destruct Hg as [Hin Hout]. split; [|done]. intros x r. rewrite Hin. change (Z.of_nat 0) with 0. rewrite kentry_0.
    unfold ktree. cbn [kentry]. assert (∀ nm y, among nm n y = false) as Ha.
    { intros nm y. apply among_false. intros i Hi. lia. }
    rewrite !Ha. by destruct r.
Qed.
End Generator.

(** ** The traversal *)

(** The kind of an entry: whether a directory may be searched is left out. *)
Definition shape (o : option entry) : option bool :=
  match o with None => None | Some File => Some false | Some (Dir _) => Some true end.
Definition same_shape (t t' : gmap path entry) : Prop := ∀ q, shape (t !! q) = shape (t' !! q).
#[export] Instance same_shape_equiv : Equivalence same_shape.
Proof.
  split; [done| |].
  - intros t1 t2 H q. by rewrite H.
  - intros t1 t2 t3 H1 H2 q. by rewrite H1.
Qed.

(** In the directories down to [lvl] levels the files are there, and the names
    of the links are free. *)
Definition ready (lvl : nat) (n : Z) (c : path) (t : gmap path entry) : Prop :=
  ∀ ds i, (length ds < lvl)%nat → Forall (λ x, among dir_name n x = true) ds → 0 ≤ i < n →
    t !! (c ++ ds ++ [leaf_name i]) = Some File ∧
    t !! (c ++ ds ++ [link_name i]) = None ∧ t !! (c ++ ds ++ [symlink_name i]) = None.

Lemma ready_shape lvl n c t t' : same_shape t t' → ready lvl n c t → ready lvl n c t'.
Proof.
  intros Hs Hr ds i Hlen Hds Hi. destruct (Hr ds i Hlen Hds Hi) as (H1 & H2 & H3).
  pose proof (Hs (c ++ ds ++ [leaf_name i])) as S1. pose proof (Hs (c ++ ds ++ [link_name i])) as S2.
  pose proof (Hs (c ++ ds ++ [symlink_name i])) as S3. rewrite H1 in S1. rewrite H2 in S2. rewrite H3 in S3.
  destruct (t' !! (c ++ ds ++ [leaf_name i])) as [[|]|], (t' !! (c ++ ds ++ [link_name i])) as [[|]|],
    (t' !! (c ++ ds ++ [symlink_name i])) as [[|]|]; done.
Qed.
Lemma ready_down lvl n c t i : ready (S lvl) n c t → 0 ≤ i < n → ready lvl n (c ++ [dir_name i]) t.
Proof.
  intros Hr Hi ds j Hlen Hds Hj. rewrite <- !app_assoc. cbn [app]. apply (Hr (dir_name i :: ds) j); [simpl; lia| |done].
  constructor; [by apply among_true|done].
Qed.
Lemma ready_less lvl n c t : ready (S lvl) n c t → ready lvl n c t.
Proof. intros Hr ds j Hlen. apply Hr. lia. Qed.

Section Traversal.
Context {F : Type} {FS : file_system F}.
Notation view s := (fs_view s).

(** A file linked, unlinked and renamed back is where it was. *)
Lemma file_cycle c t f1 f2 ln (d := Dirs c t) root : f1 ≠ f2 →
  t !! (c ++ [f1]) = Some File → t !! (c ++ [f2]) = None → t !! (c ++ [ln]) = None →
  fs_step root (UNLINK ln) (fs_step root (SYMLINK ln f1) (fs_step root (RENAME f2 f1) (fs_step root (UNLINK f1) (fs_step root (LINK f1 f2) d))))
  = d.
Proof.
  intros Hne H1 H2 H3. assert (c ++ [f1] ≠ c ++ [f2]) as Hne' by (intros E%(inj (app c)); congruence).
  unfold d. cbn [fs_step]. unfold add_new, at_cwd, set_tree. cbn [cwd tree]. rewrite H1, H2. cbn [cwd tree].
  rewrite lookup_insert_ne, H1 by done. cbn [cwd tree].
  rewrite lookup_delete_ne, lookup_insert_eq, lookup_delete_eq by done. cbn [cwd tree].
  assert (<[c ++ [f1]:=File]> (delete (c ++ [f2]) (delete (c ++ [f1]) (<[c ++ [f2]:=File]> t))) = t) as ->.
  { apply map_eq. intros q. destruct (decide (q = c ++ [f1])) as [->|Hq]; [by rewrite lookup_insert_eq|].
    rewrite lookup_insert_ne by done. destruct (decide (q = c ++ [f2])) as [->|Hq2]; [by rewrite lookup_delete_eq|].
    by rewrite !lookup_delete_ne, lookup_insert_ne by done. }
  rewrite H1. cbn [cwd tree]. by rewrite H3.
Qed.

Lemma trav_node_run below lvl n k s :
  0 ≤ k < n → n < 2 ^ 31 → ready (S lvl) n (cwd (view s)) (tree (view s)) →
  (∀ s, ready lvl n (cwd (view s)) (tree (view s)) →
    ∃ r s', below s = (Ok r, s') ∧ cwd (view s') = cwd (view s) ∧ same_shape (tree (view s)) (tree (view s'))) →
  ∃ s', trav_node below k s = (Ok (), s') ∧ cwd (view s') = cwd (view s) ∧ same_shape (tree (view s)) (tree (view s')).
Proof.
  intros Hk Hn Hr Hbelow. unfold trav_node.
  destruct (Hr [] k ltac:(simpl; lia) ltac:(constructor) Hk) as (H1 & H2 & H3).
  run_call s1 V1. run_call s2 V2. run_call s3 V3. run_call s4 V4. run_call s5 V5.
  destruct (view s) as [c t] eqn:Hv. cbn [cwd tree app] in *.
  rewrite V4, V3, V2, V1, file_cycle in V5; [|intros E; by apply name_inj in E as [_ E]; [|lia..]|done..].
  clear V1 V2 V3 V4. unfold getcwd. rewrite p_bind_run. rewrite V5. cbn [cwd].
  run_call s6 V6. rewrite V5 in V6.
  assert (∃ t6, view s6 = Dirs c t6 ∧ same_shape t t6) as (t6 & Hv6 & Hs6).
  { rewrite V6. cbn [fs_step]. unfold at_cwd, set_tree. cbn [cwd tree].
    destruct (t !! (c ++ [dir_name k])) as [[|x]|] eqn:Ed; [by exists t|..|by exists t].
    eexists. split; [done|]. intros q. destruct (decide (q = c ++ [dir_name k])) as [->|Hq].
    - by rewrite lookup_insert_eq, Ed.
    - by rewrite lookup_insert_ne. }
  run_call s7 V7. rewrite Hv6 in V7.
  assert (∃ c7, view s7 = Dirs c7 t6 ∧ (c7 = c ∨ c7 = c ++ [dir_name k])) as (c7 & Hv7 & Hc7).
  { rewrite V7. cbn [fs_step]. unfold at_cwd. cbn [cwd tree].
    destruct (t6 !! (c ++ [dir_name k])) as [[|x]|]; [by exists c; auto| |by exists c; auto].
    destruct (fs_root || x); eauto. }
  destruct (Hbelow s7) as (r & s8 & Eb & _ & Hs8).
  { rewrite Hv7. cbn [cwd tree]. apply (ready_shape _ _ _ t); [done|].
    destruct Hc7 as [->| ->]; [by apply ready_less|by apply ready_down]. }
  rewrite Hv7 in Hs8. cbn [tree] in Hs8. rewrite (p_bind_ok _ _ _ _ _ Eb). run_call s9 V9. cbn [fs_step] in V9.
  exists s9. split; [done|]. rewrite V9. cbn [cwd tree]. split; [done|]. by etrans.
Qed.

Lemma trav_run lvl n s : n < 2 ^ 31 → ready lvl n (cwd (view s)) (tree (view s)) →
  ∃ r s', k_tree_trav lvl n s = (Ok r, s') ∧ cwd (view s') = cwd (view s) ∧ same_shape (tree (view s)) (tree (view s')).
Proof.
  intros Hn. revert s. induction lvl as [|lvl IH]; intros s Hr; [by exists 0, s|]. cbn [k_tree_trav].
  destruct (p_for_invariant (λ s1, cwd (view s1) = cwd (view s) ∧ same_shape (tree (view s)) (tree (view s1)))
              (trav_node (k_tree_trav lvl n)) (seqZ 0 n) s) as (s' & E & Hc & Hs).
  - done.
  - intros k s1 Hk%elem_of_seqZ [Hc Hs]. destruct (trav_node_run (k_tree_trav lvl n) lvl n k s1) as (s2 & E & Hc2 & Hs2).
    + lia.
    + done.
    + rewrite Hc. by eapply ready_shape.
    + exact IH.
    + exists s2. split; [done|]. split; [congruence|]. by etrans.
  - rewrite (p_bind_ok _ _ _ _ _ E). by exists 1, s'.
Qed.

(** ** The tree and its traversal *)

Lemma among_dir_other n i s x : 0 ≤ i < n → n < 2 ^ 31 → x = fmt_d i ++ "-"%char :: s → s ≠ lit "d" → among dir_name n x = false.
Proof. intros Hi Hn -> Hs. apply among_false. intros j Hj E. apply name_inj in E as [_ E]; [done|lia..]. Qed.
Lemma among_leaf_other n i s x : 0 ≤ i < n → n < 2 ^ 31 → x = fmt_d i ++ "-"%char :: s → s ≠ lit "f" → among leaf_name n x = false.
Proof. intros Hi Hn -> Hs. apply among_false. intros j Hj E. apply name_inj in E as [_ E]; [done|lia..]. Qed.

Lemma ktree_below lvl n ds x : (length ds < lvl)%nat → Forall (λ y, among dir_name n y = true) ds →
  ktree lvl n (ds ++ [x]) = if among dir_name n x then Some (Dir true) else if among leaf_name n x then Some File else None.
Proof.
  unfold ktree. revert lvl. induction ds as [|d ds IH]; intros [|lvl] Hlen Hds; simpl in Hlen; try lia; [done|].
  apply Forall_cons in Hds as [Hd Hds]. cbn [app kentry]. rewrite Hd.
  assert (∃ y r, ds ++ [x] = y :: r) as (y & r & E) by (destruct ds; eauto). rewrite E.
  rewrite <- E. apply IH; [lia|done].
Qed.
Lemma grown_ready lvl n c t t' : n < 2 ^ 31 → grown c t (ktree lvl n) t' → ready lvl n c t'.
Proof.
  intros Hn [Hin _] ds i Hlen Hds Hi.
  assert (∀ x, t' !! (c ++ ds ++ [x]) = ktree lvl n (ds ++ [x])) as Hx.
  { intros x. assert (∃ y r, ds ++ [x] = y :: r) as (y & r & E) by (destruct ds; eauto). rewrite E. apply Hin. }
  rewrite !Hx, !ktree_below by done.
  rewrite (among_dir_other n i (lit "f") (leaf_name i)), (among_dir_other n i (lit "f-t") (link_name i)),
    (among_dir_other n i (lit "l") (symlink_name i)), (among_leaf_other n i (lit "f-t") (link_name i)),
    (among_leaf_other n i (lit "l") (symlink_name i)), among_true by done. done.
Qed.

(** C20: k-tree-gen makes the k-tree: in a directory with nothing below it, the
    entries are afterwards exactly those of a tree of [lvl] levels with [n]
    directories and [n] files in each directory; nothing else is touched, and
    the program ends where it started. *)
Theorem k_tree_gen_builds lvl n s c t : n < 2 ^ 31 → view s = Dirs c t → bare c t →
  ∃ r s', k_tree_gen lvl n s = (Ok r, s') ∧ cwd (view s') = c ∧ grown c t (ktree lvl n) (tree (view s')).
Proof. apply gen_run. Qed.

(** C37: k-tree-trav leaves a k-tree as it is: after generation and traversal, by
    root or by another user, the entries of the tree are the same files and
    directories, nothing outside it has changed its kind, and the current
    directory is the one of the start. *)
Theorem k_tree_trav_preserves lvl n s c t : n < 2 ^ 31 → view s = Dirs c t → bare c t →
  ∃ r s', (k_tree_gen lvl n;; k_tree_trav lvl n) s = (Ok r, s') ∧ cwd (view s') = c ∧
    (∀ x q, shape (tree (view s') !! (c ++ x :: q)) = shape (ktree lvl n (x :: q))) ∧
    (∀ q, (∀ x r, q ≠ c ++ x :: r) → shape (tree (view s') !! q) = shape (t !! q)).
Proof.
  intros Hn Hv Hb. destruct (gen_run lvl n s c t Hn Hv Hb) as (r & s1 & E1 & Hc1 & Hg).
  pose proof (grown_ready lvl n c t _ Hn Hg) as Hr. rewrite <- Hc1 in Hr at 1.
  destruct (trav_run lvl n s1 Hn Hr) as (r2 & s2 & E2 & Hc2 & Hs).
  exists r2, s2. rewrite (p_bind_ok _ _ _ _ _ E1). split; [done|]. split; [congruence|]. destruct Hg as [Hin Hout].
  split; [intros x q; by rewrite <- Hs, Hin | intros q Hq; by rewrite <- Hs, Hout].
Qed.

(** Without the rights of root the traversal cannot enter a directory whose
    permissions it has just changed. *)
Lemma chmod_locks_out n d x : tree d !! at_cwd d n = Some (Dir x) →
  fs_step false (CHDIR n) (fs_step false (CHMOD_rw n) d) = fs_step false (CHMOD_rw n) d.
Proof.
  intros H. cbn [fs_step]. rewrite H. unfold set_tree, at_cwd. cbn [cwd tree]. by rewrite lookup_insert_eq.
Qed.
End Traversal.

(** ** A file system: an instance *)

#[local] Instance plain_fs : file_system dirs.
Proof. refine {| fs_root := false; fs_view := id; fs_call c d := (0, fs_step false c d) |}. done. Defined.
Lemma k_tree_gen_builds_witness :
  ∃ r s', k_tree_gen 2 3 (Dirs [] ∅) = (Ok r, s') ∧ tree s' !! [lit "1-d"; lit "2-f"] = Some File.
Proof.
  assert (3 < 2 ^ 31) as Hn by lia. assert (bare [] ∅) as Hb by (intros x r; apply lookup_empty).
  destruct (k_tree_gen_builds (FS := plain_fs) 2 3 (Dirs [] ∅) [] ∅ Hn eq_refl Hb) as (r & s' & E & _ & [Hin _]).
  exists r, s'. split; [exact E|]. etransitivity; [apply (Hin (lit "1-d") [lit "2-f"])|]. vm_compute. reflexivity.
Defined.
Lemma k_tree_trav_preserves_witness :
  ∃ r s', (k_tree_gen 2 3;; k_tree_trav 2 3) (Dirs [] ∅) = (Ok r, s') ∧ shape (tree s' !! [lit "1-d"; lit "2-d"]) = Some true.
Proof.
  assert (3 < 2 ^ 31) as Hn by lia. assert (bare [] ∅) as Hb by (intros x r; apply lookup_empty).
  destruct (k_tree_trav_preserves (FS := plain_fs) 2 3 (Dirs [] ∅) [] ∅ Hn eq_refl Hb) as (r & s' & E & _ & Hin & _).
  exists r, s'. split; [exact E|]. etransitivity; [apply (Hin (lit "1-d") [lit "2-d"])|]. vm_compute. reflexivity.
Defined.
