(* ===== verification/Options.v ===== *)
(** * Options: the command lines of the programs

    The seven programs that call [getopt] or [getopt_long], with their tables
    and their usage messages: the options that the usage messages name are compared
    with those that the tables have. *)
From Stdlib Require Import String.
From S2P Require Import Prelude CLib Getopt PageFlags PageHash PageWalk PageList PageMain PanMain Cper Erst Victim Hwp Hugepage PagePoison Thp.

Inductive program := p_page_types | p_thugetlb | p_ttranshuge | p_page_poisoning | p_victim | p_erst_inject | p_ltp_pan.
Definition programs : list program :=
  [p_page_types; p_thugetlb; p_ttranshuge; p_page_poisoning; p_victim; p_erst_inject; p_ltp_pan].
Definition table_of (p : program) : opt_table :=
  match p with
  | p_page_types => page_table | p_thugetlb => thugetlb_table | p_ttranshuge => thp_table
  | p_page_poisoning => poison_table | p_victim => victim_table | p_erst_inject => erst_table | p_ltp_pan => pan_table
  end.
Definition usage_of (p : program) : cstr :=
  match p with
  | p_page_types => concat PageMain.usage_all | p_thugetlb => thugetlb_usage | p_ttranshuge => thp_usage (lit "ttranshuge")
  | p_page_poisoning => PagePoison.help | p_victim => Victim.usage | p_erst_inject => erst_usage | p_ltp_pan => PanMain.usage_text
  end.

(** ** The options a usage message names

    The words of letters, digits, dashes, underlines and equal signs that start
    with a dash. *)
Definition word_char (c : ascii) : bool :=
  let n := Z.of_nat (nat_of_ascii c) in
  ((97 <=? n) && (n <=? 122)) || ((65 <=? n) && (n <=? 90)) || ((48 <=? n) && (n <=? 57))
  || bool_decide (c = "-"%char ∨ c = "_"%char ∨ c = "="%char).
Fixpoint text_words (s cur : cstr) : list cstr :=
  match s with
  | [] => [cur]
  | c :: s' => if word_char c then text_words s' (cur ++ [c]) else cur :: text_words s' []
  end.
Definition named_options (usage : cstr) : list cstr :=
  filter (λ w, chr0 w = "-"%char) (text_words usage []).

(** Whether the calls for a word, with an argument behind it, all return
    options. *)
Definition understood (t : opt_table) (w : cstr) : bool :=
  let calls := calls (getopt t [w; lit "1"]) in
  negb (bool_decide (calls = [])) && forallb (λ r, match r with Got _ _ => true | _ => false end) calls.
(** The words a named one stands for: a long option without its value, or the
    options of a cluster. *)
Definition stands_for (t : opt_table) (w : cstr) : list cstr :=
  match w with
  | _ :: "-"%char :: _ => [fst (split_eq w)]
  | _ => omap (λ r, match r with Got c _ => Some (dash c) | _ => None end) (calls (getopt t [w; lit "1"]))
  end.
(** The options of a table as words. *)
Definition short_words (t : opt_table) : list cstr := dash <$> filter (λ c, c ≠ ":"%char) (shorts t).
Definition long_words (t : opt_table) : list cstr :=
  match longs t with Some (table, _) => dashes <$> filter (λ n, n ≠ []) (lo_name <$> table) | None => [] end.
(** The named options that are not understood, and the words for options that
    are not named. *)
Definition not_understood (p : program) : list cstr :=
  filter (λ w, understood (table_of p) w = false) (named_options (usage_of p)).
Definition not_named (p : program) : list cstr :=
  filter (λ w, w ∉ (named_options (usage_of p) ≫= stands_for (table_of p))) (short_words (table_of p) ++ long_words (table_of p)).

(** ** The comparison *)

(** No table has a dash for an option, and the long names differ: what a table
    says of an option holds in each of its spellings ([getopt_command]). *)
Lemma tables_ok p : table_ok (table_of p).
Proof. destruct p; apply (bool_decide_unpack _); by vm_compute. Qed.

(** The differences between the usage messages and the tables. *)
Lemma usage_differences :
  (λ p, (not_understood p, not_named p)) <$> programs =
  [([], []); ([lit "--early-kill"], [lit "--early_kill"]); ([], []);
   (lit <$> ["--child_num=NUM"; "--log=LOG"; "--result=RESULT"; "--shmsize=SIZE"; "--tmpdir=DIR"]%string,
    [lit "--help"; lit "--instance"]);
   ([], []); ([], []); ([], [lit "-r"])].
Proof. by vm_compute. Qed.
